(** * HTML text extraction (html_extract_text.cpp): a shallow embedding

    The development follows [src/import/html_extract_text.cpp]:
    wide characters are integers, a NUL-terminated buffer is a list of
    characters whose terminator is implicit, and a pointer into a buffer
    is the index of the character it designates. *)

From Stdlib Require Import Ascii String.
From Stdlib Require Import ZArith List Bool Lia.
Import ListNotations.
Open Scope Z_scope.

(** ** Characters, buffers and pointers *)

Definition wchar_t := Z.
Definition wstring := list wchar_t.

(** A wide string literal [L"..."]. *)
Definition wstr (s : string) : wstring :=
  map (fun a => Z.of_N (N_of_ascii a)) (list_ascii_of_string s).

Arguments wstr s%_string.

(** A wide character literal [L'c']. *)
Definition wc (s : string) : wchar_t :=
  match s with
  | String a _ => Z.of_N (N_of_ascii a)
  | EmptyString => 0
  end.

Arguments wc s%_string.

(** [text[p]]: reading at the end of the list yields the terminating NUL. *)
Definition char_at (buf : wstring) (p : Z) : wchar_t :=
  if p <? 0 then 0 else nth (Z.to_nat p) buf 0.

(** The characters from pointer [p] on. *)
Definition from (buf : wstring) (p : Z) : wstring := skipn (Z.to_nat p) buf.

(** [std::wstring(p, n)]: [n] characters starting at [p]. *)
Definition wsub (buf : wstring) (p n : Z) : wstring :=
  firstn (Z.to_nat (Z.min n (Z.of_nat (length buf)))) (from buf p).

Definition wlen (s : wstring) : Z := Z.of_nat (length s).

Definition is_either (c a b : wchar_t) : bool := (c =? a) || (c =? b).

Fixpoint list_eqb (a b : wstring) : bool :=
  match a, b with
  | [], [] => true
  | x :: a', y :: b' => (x =? y) && list_eqb a' b'
  | _, _ => false
  end.

(** ** Symbol font table ([symbol_font_table]) *)

Definition m_symbol_table : list (wchar_t * wchar_t) :=
  [
    (wc "A", 913);
    (wc "B", 914);
    (wc "G", 915);
    (wc "D", 916);
    (wc "E", 917);
    (wc "Z", 918);
    (wc "H", 919);
    (wc "Q", 920);
    (wc "I", 921);
    (wc "K", 922);
    (wc "L", 923);
    (wc "M", 924);
    (wc "N", 925);
    (wc "X", 926);
    (wc "O", 927);
    (wc "P", 928);
    (wc "R", 929);
    (wc "S", 931);
    (wc "T", 932);
    (wc "U", 933);
    (wc "F", 934);
    (wc "C", 935);
    (wc "Y", 936);
    (wc "W", 937);
    (wc "a", 945);
    (wc "b", 946);
    (wc "g", 947);
    (wc "d", 948);
    (wc "e", 949);
    (wc "z", 950);
    (wc "h", 951);
    (wc "q", 952);
    (wc "i", 953);
    (wc "k", 954);
    (wc "l", 955);
    (wc "m", 956);
    (wc "n", 957);
    (wc "x", 958);
    (wc "o", 959);
    (wc "p", 960);
    (wc "r", 961);
    (wc "V", 962);
    (wc "s", 963);
    (wc "t", 964);
    (wc "u", 965);
    (wc "f", 966);
    (wc "c", 967);
    (wc "y", 968);
    (wc "w", 969);
    (wc "J", 977);
    (161, 978);
    (wc "j", 981);
    (wc "v", 982);
    (171, 8596);
    (172, 8592);
    (173, 8593);
    (174, 8594);
    (175, 8595);
    (191, 8629);
    (219, 8660);
    (220, 8656);
    (221, 8657);
    (222, 8658);
    (223, 8659);
    (34, 8704);
    (36, 8707);
    (39, 8717);
    (42, 8727);
    (45, 8722);
    (64, 8773);
    (92, 8756);
    (94, 8869);
    (126, 8764);
    (163, 8804);
    (165, 8734);
    (179, 8805);
    (181, 8733);
    (182, 8706);
    (183, 8729);
    (185, 8800);
    (186, 8801);
    (187, 8776);
    (196, 8855);
    (197, 8853);
    (198, 8709);
    (199, 8745);
    (200, 8746);
    (201, 8835);
    (202, 8839);
    (203, 8836);
    (204, 8834);
    (205, 8838);
    (206, 8712);
    (207, 8713);
    (208, 8736);
    (209, 8711);
    (213, 8719);
    (214, 8730);
    (215, 8901);
    (217, 8743);
    (218, 8744);
    (229, 8721);
    (242, 8747);
    (224, 9674);
    (189, 9168);
    (190, 9135);
    (225, 9001);
    (230, 9115);
    (231, 9116);
    (232, 9117);
    (233, 9121);
    (234, 9122);
    (235, 9123);
    (236, 9127);
    (237, 9128);
    (238, 9129);
    (239, 9130);
    (241, 9002);
    (243, 8992);
    (244, 9134);
    (245, 8993);
    (246, 9118);
    (247, 9119);
    (248, 9120);
    (249, 9124);
    (250, 9125);
    (251, 9126);
    (252, 9131);
    (253, 9132);
    (254, 9133);
    (180, 215);
    (184, 247);
    (216, 172)
  ].

(** [std::map::find] on a table built from an initializer list: the first
    pair with the key is the one that was inserted. *)
Fixpoint map_find (tbl : list (wchar_t * wchar_t)) (k : wchar_t) : option wchar_t :=
  match tbl with
  | [] => None
  | (k', v) :: tbl' => if k' =? k then Some v else map_find tbl' k
  end.

Definition symbol_font_table_find (letter : wchar_t) : wchar_t :=
  match map_find m_symbol_table letter with
  | None => letter
  | Some v => v
  end.

(** [convert_symbol_font_section]: the [for] loop over the indices of the
    view, appending one looked-up character per round. *)
Fixpoint convert_symbol_font_loop (symbolFontText : wstring) (rounds : nat) (i : Z)
    (convertedText : wstring) : wstring :=
  match rounds with
  | O => convertedText
  | S rounds' =>
      convert_symbol_font_loop symbolFontText rounds' (i + 1)
        (convertedText ++ [symbol_font_table_find (char_at symbolFontText i)])
  end.

Definition convert_symbol_font_section (symbolFontText : wstring) : wstring :=
  convert_symbol_font_loop symbolFontText (length symbolFontText) 0 [].

(** ** HTML entity table ([html_entity_table]) *)

Definition m_table : list (wstring * wchar_t) :=
  [
    (wstr "apos", 39);
    (wstr "gt", wc ">");
    (wstr "lt", wc "<");
    (wstr "amp", wc "&");
    (wstr "quot", 34);
    (wstr "nbsp", wc " ");
    (wstr "iexcl", 161);
    (wstr "cent", 162);
    (wstr "pound", 163);
    (wstr "curren", 164);
    (wstr "yen", 165);
    (wstr "brvbar", 166);
    (wstr "sect", 167);
    (wstr "uml", 168);
    (wstr "copy", 169);
    (wstr "ordf", 170);
    (wstr "laquo", 171);
    (wstr "not", 172);
    (wstr "shy", 173);
    (wstr "reg", 174);
    (wstr "macr", 175);
    (wstr "deg", 176);
    (wstr "plusmn", 177);
    (wstr "sup2", 178);
    (wstr "sup3", 179);
    (wstr "acute", 180);
    (wstr "micro", 181);
    (wstr "para", 182);
    (wstr "middot", 183);
    (wstr "mcedilicro", 184);
    (wstr "sup1", 185);
    (wstr "ordm", 186);
    (wstr "raquo", 187);
    (wstr "frac14", 188);
    (wstr "texfrac12t", 189);
    (wstr "frac34", 190);
    (wstr "iquest", 191);
    (wstr "Agrave", 192);
    (wstr "Aacute", 193);
    (wstr "Acirc", 194);
    (wstr "Atilde", 195);
    (wstr "Auml", 196);
    (wstr "Aring", 197);
    (wstr "AElig", 198);
    (wstr "Ccedil", 199);
    (wstr "Egrave", 200);
    (wstr "Eacute", 201);
    (wstr "Ecirc", 202);
    (wstr "Euml", 203);
    (wstr "Igrave", 204);
    (wstr "Iacute", 205);
    (wstr "Icirc", 206);
    (wstr "Iuml", 207);
    (wstr "ETH", 208);
    (wstr "Ntilde", 209);
    (wstr "Ograve", 210);
    (wstr "Oacute", 211);
    (wstr "Ocirc", 212);
    (wstr "Otilde", 213);
    (wstr "Ouml", 214);
    (wstr "Oslash", 216);
    (wstr "times", 215);
    (wstr "Ugrave", 217);
    (wstr "Uacute", 218);
    (wstr "Ucirc", 219);
    (wstr "Uuml", 220);
    (wstr "Yacute", 221);
    (wstr "THORN", 222);
    (wstr "szlig", 223);
    (wstr "agrave", 224);
    (wstr "aacute", 225);
    (wstr "acirc", 226);
    (wstr "atilde", 227);
    (wstr "auml", 228);
    (wstr "aring", 229);
    (wstr "aelig", 230);
    (wstr "ccedil", 231);
    (wstr "egrave", 232);
    (wstr "eacute", 233);
    (wstr "ecirc", 234);
    (wstr "euml", 235);
    (wstr "igrave", 236);
    (wstr "iacute", 237);
    (wstr "icirc", 238);
    (wstr "iuml", 239);
    (wstr "eth", 240);
    (wstr "ntilde", 241);
    (wstr "ograve", 242);
    (wstr "oacute", 243);
    (wstr "ocirc", 244);
    (wstr "otilde", 245);
    (wstr "ouml", 246);
    (wstr "divide", 247);
    (wstr "oslash", 248);
    (wstr "ugrave", 249);
    (wstr "uacute", 250);
    (wstr "ucirc", 251);
    (wstr "uuml", 252);
    (wstr "yacute", 253);
    (wstr "thorn", 254);
    (wstr "yuml", 255);
    (wstr "fnof", 402);
    (wstr "Alpha", 913);
    (wstr "Beta", 914);
    (wstr "Gamma", 915);
    (wstr "Delta", 916);
    (wstr "Epsilon", 917);
    (wstr "Zeta", 918);
    (wstr "Eta", 919);
    (wstr "Theta", 920);
    (wstr "Iota", 921);
    (wstr "Kappa", 922);
    (wstr "Lambda", 923);
    (wstr "Mu", 924);
    (wstr "Nu", 925);
    (wstr "Xi", 926);
    (wstr "Omicron", 927);
    (wstr "Pi", 928);
    (wstr "Rho", 929);
    (wstr "Sigma", 931);
    (wstr "Tau", 932);
    (wstr "Upsilon", 933);
    (wstr "Phi", 934);
    (wstr "Chi", 935);
    (wstr "Psi", 936);
    (wstr "Omega", 937);
    (wstr "alpha", 945);
    (wstr "beta", 946);
    (wstr "gamma", 947);
    (wstr "delta", 948);
    (wstr "epsilon", 949);
    (wstr "zeta", 950);
    (wstr "eta", 951);
    (wstr "theta", 952);
    (wstr "iota", 953);
    (wstr "kappa", 954);
    (wstr "lambda", 955);
    (wstr "mu", 956);
    (wstr "nu", 957);
    (wstr "xi", 958);
    (wstr "omicron", 959);
    (wstr "pi", 960);
    (wstr "rho", 961);
    (wstr "sigmaf", 962);
    (wstr "sigma", 963);
    (wstr "tau", 964);
    (wstr "upsilon", 965);
    (wstr "phi", 966);
    (wstr "chi", 967);
    (wstr "psi", 968);
    (wstr "omega", 969);
    (wstr "thetasym", 977);
    (wstr "upsih", 978);
    (wstr "piv", 982);
    (wstr "bull", 8226);
    (wstr "hellip", 8230);
    (wstr "prime", 8242);
    (wstr "Prime", 8243);
    (wstr "oline", 8254);
    (wstr "frasl", 8260);
    (wstr "weierp", 8472);
    (wstr "image", 8465);
    (wstr "real", 8476);
    (wstr "trade", 8482);
    (wstr "alefsym", 8501);
    (wstr "larr", 8592);
    (wstr "uarr", 8593);
    (wstr "rarr", 8594);
    (wstr "darr", 8595);
    (wstr "harr", 8596);
    (wstr "crarr", 8629);
    (wstr "lArr", 8656);
    (wstr "uArr", 8657);
    (wstr "rArr", 8658);
    (wstr "dArr", 8659);
    (wstr "hArr", 8660);
    (wstr "forall", 8704);
    (wstr "part", 8706);
    (wstr "exist", 8707);
    (wstr "empty", 8709);
    (wstr "nabla", 8711);
    (wstr "isin", 8712);
    (wstr "notin", 8713);
    (wstr "ni", 8715);
    (wstr "prod", 8719);
    (wstr "sum", 8721);
    (wstr "minus", 8722);
    (wstr "lowast", 8727);
    (wstr "radic", 8730);
    (wstr "prop", 8733);
    (wstr "infin", 8734);
    (wstr "ang", 8736);
    (wstr "and", 8743);
    (wstr "or", 8744);
    (wstr "cap", 8745);
    (wstr "cup", 8746);
    (wstr "int", 8747);
    (wstr "there4", 8756);
    (wstr "sim", 8764);
    (wstr "cong", 8773);
    (wstr "asymp", 8776);
    (wstr "ne", 8800);
    (wstr "equiv", 8801);
    (wstr "le", 8804);
    (wstr "ge", 8805);
    (wstr "sub", 8834);
    (wstr "sup", 8835);
    (wstr "nsub", 8836);
    (wstr "sube", 8838);
    (wstr "supe", 8839);
    (wstr "oplus", 8853);
    (wstr "otimes", 8855);
    (wstr "perp", 8869);
    (wstr "sdot", 8901);
    (wstr "lceil", 8968);
    (wstr "rceil", 8969);
    (wstr "lfloor", 8970);
    (wstr "rfloor", 8971);
    (wstr "lang", 9001);
    (wstr "rang", 9002);
    (wstr "loz", 9674);
    (wstr "spades", 9824);
    (wstr "clubs", 9827);
    (wstr "hearts", 9829);
    (wstr "diams", 9830);
    (wstr "OElig", 338);
    (wstr "oelig", 339);
    (wstr "Scaron", 352);
    (wstr "scaron", 353);
    (wstr "Yuml", 376);
    (wstr "circ", 710);
    (wstr "tilde", 732);
    (wstr "ensp", 8194);
    (wstr "emsp", 8195);
    (wstr "thinsp", 8201);
    (wstr "zwnj", 8204);
    (wstr "zwj", 8205);
    (wstr "lrm", 8206);
    (wstr "rlm", 8207);
    (wstr "ndash", 8211);
    (wstr "mdash", 8212);
    (wstr "lsquo", 8216);
    (wstr "rsquo", 8217);
    (wstr "sbquo", 8218);
    (wstr "ldquo", 8220);
    (wstr "rdquo", 8221);
    (wstr "bdquo", 8222);
    (wstr "dagger", 8224);
    (wstr "Dagger", 8225);
    (wstr "permil", 8240);
    (wstr "lsaquo", 8249);
    (wstr "rsaquo", 8250);
    (wstr "euro", 8364)
  ].

(** ** Platform

    What the translation unit takes from its environment: the C library's
    wide-character classification and case mapping (locale dependent), the
    superscript and subscript maps of [string_util.h], and whether the
    allocation of an output buffer of a given size succeeds. *)

Class Platform := {
  iswspace : wchar_t -> bool;
  towlower : wchar_t -> wchar_t;
  to_superscript : wchar_t -> wchar_t;
  to_subscript : wchar_t -> wchar_t;
  allocate_succeeds : Z -> bool
}.

(** [size_t] has 64 bits; the difference of two pointers converted to
    [size_t] wraps when the first lies before the second. *)
Definition SIZE_MOD : Z := 2 ^ 64.
Definition size_t_of (z : Z) : Z := z mod SIZE_MOD.

(** A pointer advanced by a [size_t] wraps the same way. *)
Definition ptr_add (p n : Z) : Z :=
  if n <? 2 ^ 63 then p + n else p + n - SIZE_MOD.

Section Scanning.
Context {P : Platform}.

(** *** C library *)

Fixpoint wcschr_scan (l : wstring) (p : Z) (c : wchar_t) : option Z :=
  match l with
  | [] => None
  | x :: l' =>
      if x =? 0 then None
      else if x =? c then Some p
      else wcschr_scan l' (p + 1) c
  end.

(** [std::wcschr(p, c)] for a character [c] other than NUL. *)
Definition wcschr (buf : wstring) (p : Z) (c : wchar_t) : option Z :=
  wcschr_scan (from buf p) p c.

(** Does [needle] occur at the head of [l], before any NUL, the characters
    compared after the mapping [fold]? *)
Fixpoint starts_with (fold : wchar_t -> wchar_t) (needle l : wstring) : bool :=
  match needle with
  | [] => true
  | n :: needle' =>
      match l with
      | [] => false
      | x :: l' =>
          if x =? 0 then false
          else (fold x =? fold n) && starts_with fold needle' l'
      end
  end.

Fixpoint strstr_scan (fold : wchar_t -> wchar_t) (needle l : wstring) (p : Z) : option Z :=
  if starts_with fold needle l then Some p
  else match l with
       | [] => None
       | x :: l' => if x =? 0 then None else strstr_scan fold needle l' (p + 1)
       end.

(** [std::wcsstr(p, needle)]. *)
Definition wcsstr (buf : wstring) (p : Z) (needle : wstring) : option Z :=
  strstr_scan (fun c => c) needle (from buf p) p.

(** [std::wcsncmp(a, b, n) == 0]. *)
Fixpoint wcsncmp_eq (n : nat) (a b : wstring) : bool :=
  match n with
  | O => true
  | S n' =>
      let x := hd 0 a in
      let y := hd 0 b in
      if x =? y then (if x =? 0 then true else wcsncmp_eq n' (tl a) (tl b))
      else false
  end.

(** *** string_util.h *)

(** Modelled from the spec: [string_util::stristr] (string_util.h is not
    among the sources), the case-insensitive [wcsstr]. *)
Definition stristr (buf : wstring) (p : Z) (needle : wstring) : option Z :=
  strstr_scan towlower needle (from buf p) p.

(** Modelled from the spec: [string_util::strnicmp(a, b, n) == 0]
    (string_util.h is not among the sources): the first [n] characters
    agree after case folding, or both strings end before. *)
Fixpoint strnicmp_eq (n : nat) (a b : wstring) : bool :=
  match n with
  | O => true
  | S n' =>
      let x := hd 0 a in
      let y := hd 0 b in
      if towlower x =? towlower y
      then (if x =? 0 then true else strnicmp_eq n' (tl a) (tl b))
      else false
  end.

(** [strnicmp] returns a non-zero value when exactly one pointer is null. *)
Definition strnicmp_ptr_eq (buf : wstring) (p : option Z) (lit : wstring) : bool :=
  match p with
  | None => false
  | Some q => strnicmp_eq (length lit) (from buf q) lit
  end.

(** Modelled from the spec: [string_util::stricmp(a, b) == 0]
    (string_util.h is not among the sources). *)
Fixpoint stricmp_eq (a b : wstring) : bool :=
  let x := hd 0 a in
  let y := hd 0 b in
  match a with
  | [] => (towlower 0 =? towlower y)
  | _ :: a' =>
      if towlower x =? towlower y
      then (if x =? 0 then true else stricmp_eq a' (tl b))
      else false
  end.

(** Equality of a [case_insensitive_wstring] with a literal. *)
Fixpoint ci_eqb (a b : wstring) : bool :=
  match a, b with
  | [], [] => true
  | x :: a', y :: b' => (towlower x =? towlower y) && ci_eqb a' b'
  | _, _ => false
  end.

Definition in_set (c : wchar_t) (set : wstring) : bool :=
  existsb (fun x => x =? c) set.

Fixpoint strncspn_scan (l : wstring) (i n : Z) (reject : wstring) : Z :=
  if n <=? i then n
  else match l with
       | [] => n
       | x :: l' => if in_set x reject then i else strncspn_scan l' (i + 1) n reject
       end.

(** Modelled from the spec: [string_util::strncspn(s, n, reject, m)]
    (string_util.h is not among the sources): the index of the first of
    the [n] characters at [s] that belongs to [reject], or [n]. *)
Definition strncspn (buf : wstring) (s n : Z) (reject : wstring) : Z :=
  strncspn_scan (from buf s) 0 n reject.

Fixpoint strcspn_pointer_scan (l : wstring) (p : Z) (reject : wstring) : option Z :=
  match l with
  | [] => None
  | x :: l' =>
      if x =? 0 then None
      else if in_set x reject then Some p
      else strcspn_pointer_scan l' (p + 1) reject
  end.

(** Modelled from the spec: [string_util::strcspn_pointer(s, reject, m)]
    (string_util.h is not among the sources): a pointer to the first
    character of the NUL-terminated [s] that belongs to [reject], or null. *)
Definition strcspn_pointer (buf : wstring) (s : Z) (reject : wstring) : option Z :=
  strcspn_pointer_scan (from buf s) s reject.

Fixpoint strnchr_scan (l : wstring) (p : Z) (c : wchar_t) (n : Z) : option Z :=
  if n <=? 0 then None
  else match l with
       | [] => None
       | x :: l' =>
           if x =? 0 then None
           else if x =? c then Some p
           else strnchr_scan l' (p + 1) c (n - 1)
       end.

(** Modelled from the spec: [string_util::strnchr(s, c, n)] (string_util.h
    is not among the sources): the first [c] among the first [n]
    characters of [s], or null. *)
Definition strnchr (buf : wstring) (s : Z) (c : wchar_t) (n : Z) : option Z :=
  strnchr_scan (from buf s) s c n.

(** [needle] occurs at the head of [l] within [n] characters. *)
Definition starts_with_n (needle l : wstring) (n : Z) : bool :=
  (wlen needle <=? n) && starts_with towlower needle l.

Fixpoint strnistr_scan (needle l : wstring) (p n : Z) : option Z :=
  if n <=? 0 then None
  else match l with
       | [] => None
       | x :: l' =>
           if x =? 0 then None
           else if starts_with_n needle l n then Some p
           else strnistr_scan needle l' (p + 1) (n - 1)
       end.

(** Modelled from the spec: [string_util::strnistr(s, needle, n)]
    (string_util.h is not among the sources): the first case-insensitive
    occurrence of [needle] that lies within the first [n] characters of
    [s], or null. *)
Definition strnistr (buf : wstring) (s : Z) (needle : wstring) (n : Z) : option Z :=
  match needle with
  | [] => None
  | _ => strnistr_scan needle (from buf s) s n
  end.

(** *** Quote-aware primitives *)

(** The quote bookkeeping shared by the scanners: the two flags after
    the character [c] has been seen; [first] is the character the single
    quote test looks at. *)
Definition quote_step (c first : wchar_t) (q sq : bool) : bool * bool :=
  if c =? 34 then (negb q, false)
  else if (negb q || sq) && (first =? 39) then (negb q, true)
  else (q, sq).

Fixpoint strchr_not_quoted_scan (l : wstring) (p : Z) (ch : wchar_t) (q sq : bool) : option Z :=
  match l with
  | [] => None
  | c :: l' =>
      if c =? 0 then None
      else
        let '(q', sq') := quote_step c c q sq in
        if negb q' && (c =? ch) then Some p
        else strchr_not_quoted_scan l' (p + 1) ch q' sq'
  end.

Definition strchr_not_quoted (buf : wstring) (string : option Z) (ch : wchar_t) : option Z :=
  match string with
  | None => None
  | Some s => strchr_not_quoted_scan (from buf s) s ch false false
  end.

(** The outcome of the character-by-character comparison at one position
    of [stristr_not_quoted]. *)
Inductive compare_outcome :=
| HitNul
| Stopped (i : Z) (q sq : bool).

(** The inner [for] loop: [rounds] characters of the needle are left,
    [i] have matched. *)
Fixpoint stristr_compare (rounds : nat) (buf : wstring) (string : Z) (strSearch : wstring)
    (i : Z) (q sq : bool) : compare_outcome :=
  match rounds with
  | O => Stopped i q sq
  | S rounds' =>
      let c := char_at buf (string + i) in
      if c =? 0 then HitNul
      else
        (* the single quote test reads string[0], not string[i] *)
        let '(q', sq') := quote_step c (char_at buf string) q sq in
        if negb (towlower (char_at strSearch i) =? towlower c) then Stopped i q' sq'
        else stristr_compare rounds' buf string strSearch (i + 1) q' sq'
  end.

(** The outer [while] loop. *)
Fixpoint stristr_not_quoted_loop (fuel : nat) (buf : wstring) (string endSentinel : Z)
    (strSearch : wstring) (q sq : bool) : option Z :=
  match fuel with
  | O => None
  | S fuel' =>
      let strSearchSize := wlen strSearch in
      if string + strSearchSize <=? endSentinel then
        match stristr_compare (length strSearch) buf string strSearch 0 q sq with
        | HitNul => None
        | Stopped i q' sq' =>
            if i =? strSearchSize then
              if negb q' then Some string
              else stristr_not_quoted_loop fuel' buf (string + strSearchSize) endSentinel
                     strSearch q' sq'
            else stristr_not_quoted_loop fuel' buf (string + (i + 1)) endSentinel strSearch q' sq'
        end
      else None
  end.

(** Every round that does not return moves [string] forward and a NUL
    ends the scan, so [length buf + 1] rounds are never used up. *)
Definition stristr_not_quoted (buf : wstring) (string : option Z) (stringSize : Z)
    (strSearch : wstring) : option Z :=
  match string with
  | None => None
  | Some s =>
      if (stringSize =? 0) || (wlen strSearch =? 0) then None
      else stristr_not_quoted_loop (S (length buf)) buf s (ptr_add s stringSize)
             strSearch false false
  end.

(** *** Tag and element locator *)

Fixpoint find_close_tag_scan (l : wstring) (text : Z) (q sq : bool) (openTagCount : Z)
    : option Z :=
  match l with
  | [] => None
  | c :: l' =>
      if c =? 0 then None
      else if c =? 34 then find_close_tag_scan l' (text + 1) (negb q) false openTagCount
      else if (negb q || sq) && (c =? 39)
        then find_close_tag_scan l' (text + 1) (negb q) true openTagCount
      else if negb q && (c =? wc "<")
        then find_close_tag_scan l' (text + 1) q sq (openTagCount + 1)
      else if negb q && (c =? wc ">")
        then if openTagCount =? 0 then Some text
             else find_close_tag_scan l' (text + 1) q sq (openTagCount - 1)
      else find_close_tag_scan l' (text + 1) q sq openTagCount
  end.

Definition find_close_tag (buf : wstring) (text : Z) : option Z :=
  let text' := if char_at buf text =? wc "<" then text + 1 else text in
  find_close_tag_scan (from buf text') text' false false 0.

Fixpoint get_element_name_scan (l : wstring) (accept_self_terminating_elements : bool)
    : wstring :=
  match l with
  | [] => []
  | c :: l' =>
      if (c =? 0) || iswspace c || (c =? wc ">") then []
      else if accept_self_terminating_elements && (c =? wc "/") && (hd 0 l' =? wc ">")
        then []
      else c :: get_element_name_scan l' accept_self_terminating_elements
  end.

Definition get_element_name (buf : wstring) (text : Z)
    (accept_self_terminating_elements : bool) : wstring :=
  get_element_name_scan (from buf text) accept_self_terminating_elements.

(** The backwards [while] of [compare_element]: at most [closeTag - text]
    steps. *)
Fixpoint skip_spaces_back (n : nat) (buf : wstring) (text closeTag : Z) : Z :=
  match n with
  | O => closeTag
  | S n' =>
      if (text <? closeTag) && iswspace (char_at buf closeTag)
      then skip_spaces_back n' buf text (closeTag - 1)
      else closeTag
  end.

(** [element_size] is the length of [element] (asserted by the source). *)
Definition compare_element (buf : wstring) (text : Z) (element : wstring)
    (accept_self_terminating_elements : bool) : bool :=
  if wlen element =? 0 then false
  else if strnicmp_eq (length element) (from buf text) element then
    let text := text + wlen element in
    let c := char_at buf text in
    if c =? 0 then false
    else if c =? wc ">" then true
    else if accept_self_terminating_elements then (c =? wc "/") || iswspace c
    else if iswspace c then
      match find_close_tag buf text with
      | None => false
      | Some closeTag =>
          let closeTag := closeTag - 1 in
          let closeTag := skip_spaces_back (Z.to_nat (closeTag - text)) buf text closeTag in
          negb (char_at buf closeTag =? wc "/")
      end
    else false
  else false.

(** The stack loop of [find_closing_element]. *)
Fixpoint find_closing_element_loop (fuel : nat) (buf : wstring) (start : option Z)
    (sectionEnd : Z) (elementTag : wstring) (stackSize : Z) : option Z :=
  match fuel with
  | O => None
  | S fuel' =>
      match start with
      | None => None
      | Some s =>
          if s + wlen elementTag + 1 <? sectionEnd then
            let stackSize :=
              if (char_at buf (s + 1) =? wc "/") && compare_element buf (s + 2) elementTag true
              then stackSize - 1
              else if compare_element buf (s + 1) elementTag true
              then stackSize + 1
              else stackSize in
            if stackSize =? 0 then Some s
            else find_closing_element_loop fuel' buf (wcschr buf (s + 1) (wc "<"))
                   sectionEnd elementTag stackSize
          else None
      end
  end.

Definition find_closing_element (buf : wstring) (sectionStart sectionEnd : Z)
    (elementTag : wstring) : option Z :=
  if wlen elementTag =? 0 then None
  else
    match wcschr buf sectionStart (wc "<") with
    | None => None
    | Some start =>
        if sectionEnd <? start + wlen elementTag then None
        else
          let start := start + 1 in
          if compare_element buf start elementTag true then
            find_closing_element_loop (S (length buf)) buf
              (wcschr buf (start + wlen elementTag) (wc "<")) sectionEnd elementTag 1
          else if (char_at buf start =? wc "/") && compare_element buf (start + 1) elementTag true
          then Some (start - 1)
          else
            find_closing_element_loop (S (length buf)) buf
              (wcschr buf sectionStart (wc "<")) sectionEnd elementTag 1
    end.

(** The [while] loop of [find_tag]. *)
Fixpoint find_tag_loop (fuel : nat) (buf : wstring) (text foundTag elementEnd : Z)
    (tag : wstring) (allowQuotedTags : bool) : option Z :=
  match fuel with
  | O => None
  | S fuel' =>
      let found :=
        if allowQuotedTags
        then strnistr buf foundTag tag (size_t_of (elementEnd - foundTag))
        else stristr_not_quoted buf (Some foundTag) (size_t_of (elementEnd - foundTag)) tag in
      match found with
      | None => None
      | Some foundTag =>
          if elementEnd <? foundTag then None
          else if foundTag =? text then Some foundTag
          else if allowQuotedTags && is_either (char_at buf (foundTag - 1)) 39 34
          then Some foundTag
          else if iswspace (char_at buf (foundTag - 1)) || (char_at buf (foundTag - 1) =? wc ";")
          then Some foundTag
          else find_tag_loop fuel' buf text (foundTag + wlen tag) elementEnd tag allowQuotedTags
      end
  end.

Definition find_tag (buf : wstring) (text : Z) (tag : wstring) (allowQuotedTags : bool)
    : option Z :=
  if wlen tag =? 0 then None
  else
    match find_close_tag buf text with
    | None => None
    | Some elementEnd =>
        find_tag_loop (S (length buf)) buf text text elementEnd tag allowQuotedTags
    end.

(** [while (p < elementEnd && *p == ' ') ++p]. *)
Fixpoint skip_blanks (l : wstring) (p elementEnd : Z) : Z :=
  match l with
  | [] => p
  | c :: l' =>
      if (p <? elementEnd) && (c =? wc " ") then skip_blanks l' (p + 1) elementEnd else p
  end.

(** The backwards trimming loop of [read_attribute]. *)
Fixpoint trim_attribute_end (n : nat) (buf : wstring) (foundTag e : Z) : Z :=
  match n with
  | O => e
  | S n' =>
      if foundTag <? e - 1 then
        if is_either (char_at buf (e - 1)) (wc "/") (wc " ")
        then trim_attribute_end n' buf foundTag (e - 1)
        else e
      else e
  end.

(** The result is the pair (pointer, length); a null pointer is [None]. *)
Definition read_attribute (buf : wstring) (text : Z) (tag : wstring)
    (allowQuotedTags allowSpacesInValue : bool) : option (Z * Z) :=
  if wlen tag =? 0 then None
  else
    match find_tag buf text tag allowQuotedTags, find_close_tag buf text with
    | Some foundTag, Some elementEnd =>
        if foundTag <? elementEnd then
          let foundTag := foundTag + wlen tag in
          let foundTag := skip_blanks (from buf foundTag) foundTag elementEnd in
          let foundTag :=
            if (foundTag <? elementEnd) && is_either (char_at buf foundTag) (wc ":") (wc "=")
            then foundTag + 1 else foundTag in
          let foundTag := skip_blanks (from buf foundTag) foundTag elementEnd in
          let foundTag :=
            if (foundTag <? elementEnd) && is_either (char_at buf foundTag) 39 34
            then foundTag + 1 else foundTag in
          if elementEnd <=? foundTag then None
          else
            let e :=
              if allowQuotedTags && allowSpacesInValue
              then strcspn_pointer buf foundTag [34; 39; wc ">"; wc ";"]
              else if allowQuotedTags
              then strcspn_pointer buf foundTag [wc " "; 34; 39; wc ">"; wc ";"]
              else if allowSpacesInValue
              then strcspn_pointer buf foundTag [34; 39; wc ">"]
              else strcspn_pointer buf foundTag [wc " "; 34; 39; wc ">"] in
            match e with
            | Some e =>
                if e <=? elementEnd then
                  let e :=
                    if char_at buf e =? wc ">"
                    then trim_attribute_end (Z.to_nat (e - foundTag)) buf foundTag e
                    else e in
                  if e - foundTag =? 0 then None
                  else Some (foundTag, e - foundTag)
                else None
            | None => None
            end
        else None
    | _, _ => None
    end.

Definition read_attribute_as_string (buf : wstring) (text : Z) (attribute : wstring)
    (allowQuotedTags allowSpacesInValue : bool) : wstring :=
  if hd 0 attribute =? 0 then []
  else
    match read_attribute buf text attribute allowQuotedTags allowSpacesInValue with
    | None => []
    | Some (first, second) => wsub buf first second
    end.

End Scanning.

(** ** The extraction engine ([html_extract_text]) *)

(** What an observer sees of the engine after one of its mutations: the
    three stack counters and the filtered text. *)
Record snapshot := {
  snap_preformatted : Z;
  snap_superscript : Z;
  snap_subscript : Z;
  snap_text : wstring
}.

Record html_extract_text := {
  m_log : list wstring;
  m_is_in_preformatted_text_block_stack : Z;
  m_superscript_stack : Z;
  m_subscript_stack : Z;
  m_title : wstring;
  m_subject : wstring;
  m_description : wstring;
  m_author : wstring;
  m_keywords : wstring;
  (** the first [m_filtered_text_length] characters of the output buffer *)
  m_text_buffer : wstring;
  (** not a member of the class: the snapshots taken after every mutation
      of a counter or of the buffer since the current call began, the
      latest first *)
  m_trace : list snapshot
}.

(** A default-constructed engine. *)
Definition new_engine : html_extract_text :=
  {| m_log := []; m_is_in_preformatted_text_block_stack := 0;
     m_superscript_stack := 0; m_subscript_stack := 0;
     m_title := []; m_subject := []; m_description := []; m_author := [];
     m_keywords := []; m_text_buffer := []; m_trace := [] |}.

Definition snap (e : html_extract_text) : snapshot :=
  {| snap_preformatted := m_is_in_preformatted_text_block_stack e;
     snap_superscript := m_superscript_stack e;
     snap_subscript := m_subscript_stack e;
     snap_text := m_text_buffer e |}.

Definition set_trace (t : list snapshot) (e : html_extract_text) : html_extract_text :=
  {| m_log := m_log e;
     m_is_in_preformatted_text_block_stack := m_is_in_preformatted_text_block_stack e;
     m_superscript_stack := m_superscript_stack e;
     m_subscript_stack := m_subscript_stack e;
     m_title := m_title e; m_subject := m_subject e;
     m_description := m_description e; m_author := m_author e;
     m_keywords := m_keywords e; m_text_buffer := m_text_buffer e;
     m_trace := t |}.

(** Take a snapshot of the engine as it is now. *)
Definition observed (e : html_extract_text) : html_extract_text :=
  set_trace (snap e :: m_trace e) e.

Definition set_text_buffer (b : wstring) (e : html_extract_text) : html_extract_text :=
  observed
  {| m_log := m_log e;
     m_is_in_preformatted_text_block_stack := m_is_in_preformatted_text_block_stack e;
     m_superscript_stack := m_superscript_stack e;
     m_subscript_stack := m_subscript_stack e;
     m_title := m_title e; m_subject := m_subject e;
     m_description := m_description e; m_author := m_author e;
     m_keywords := m_keywords e; m_text_buffer := b;
     m_trace := m_trace e |}.

Definition set_stacks (pre sup sub : Z) (e : html_extract_text) : html_extract_text :=
  observed
  {| m_log := m_log e;
     m_is_in_preformatted_text_block_stack := pre;
     m_superscript_stack := sup;
     m_subscript_stack := sub;
     m_title := m_title e; m_subject := m_subject e;
     m_description := m_description e; m_author := m_author e;
     m_keywords := m_keywords e; m_text_buffer := m_text_buffer e;
     m_trace := m_trace e |}.

Definition set_log (l : list wstring) (e : html_extract_text) : html_extract_text :=
  {| m_log := l;
     m_is_in_preformatted_text_block_stack := m_is_in_preformatted_text_block_stack e;
     m_superscript_stack := m_superscript_stack e;
     m_subscript_stack := m_subscript_stack e;
     m_title := m_title e; m_subject := m_subject e;
     m_description := m_description e; m_author := m_author e;
     m_keywords := m_keywords e; m_text_buffer := m_text_buffer e;
     m_trace := m_trace e |}.

(** The five metadata members. *)
Inductive meta_field := Title | Subject | Description | Author | Keywords.

Definition get_meta (f : meta_field) (e : html_extract_text) : wstring :=
  match f with
  | Title => m_title e
  | Subject => m_subject e
  | Description => m_description e
  | Author => m_author e
  | Keywords => m_keywords e
  end.

Definition set_meta (f : meta_field) (v : wstring) (e : html_extract_text)
    : html_extract_text :=
  {| m_log := m_log e;
     m_is_in_preformatted_text_block_stack := m_is_in_preformatted_text_block_stack e;
     m_superscript_stack := m_superscript_stack e;
     m_subscript_stack := m_subscript_stack e;
     m_title := match f with Title => v | _ => m_title e end;
     m_subject := match f with Subject => v | _ => m_subject e end;
     m_description := match f with Description => v | _ => m_description e end;
     m_author := match f with Author => v | _ => m_author e end;
     m_keywords := match f with Keywords => v | _ => m_keywords e end;
     m_text_buffer := m_text_buffer e;
     m_trace := m_trace e |}.

(** Modelled from the spec: the members of the base class [extract_text]
    (extract_text.h is not among the sources). The output buffer is a
    growable sequence of characters; [add_character] and [add_characters]
    append to it, [set_filtered_text_length] sets its logical length,
    [allocate_text_buffer] resets it for a new call. *)
Definition add_character (c : wchar_t) (e : html_extract_text) : html_extract_text :=
  set_text_buffer (m_text_buffer e ++ [c]) e.

Definition add_characters (cs : wstring) (e : html_extract_text) : html_extract_text :=
  set_text_buffer (m_text_buffer e ++ cs) e.

Definition get_filtered_text (e : html_extract_text) : wstring := m_text_buffer e.

Definition get_filtered_text_length (e : html_extract_text) : Z := wlen (m_text_buffer e).

(** Only ever called with a length that is at most the current one. *)
Definition set_filtered_text_length (n : Z) (e : html_extract_text) : html_extract_text :=
  set_text_buffer (firstn (Z.to_nat n) (m_text_buffer e)) e.

Definition log_message (msg : wstring) (e : html_extract_text) : html_extract_text :=
  set_log (m_log e ++ [msg]) e.

Definition clear_log (e : html_extract_text) : html_extract_text := set_log [] e.

Definition reset_meta_data (e : html_extract_text) : html_extract_text :=
  set_meta Title [] (set_meta Subject [] (set_meta Description []
    (set_meta Author [] (set_meta Keywords [] e)))).

Section Decoder.
Context {P : Platform}.

(** Modelled from the spec: [allocate_text_buffer] (extract_text.h is not
    among the sources): on success the buffer is empty. *)
Definition allocate_text_buffer (text_length : Z) (e : html_extract_text)
    : bool * html_extract_text :=
  if allocate_succeeds text_length then (true, set_text_buffer [] e) else (false, e).

(** *** Entities *)

Fixpoint entity_lookup (tbl : list (wstring * wchar_t)) (key : wstring) : option wchar_t :=
  match tbl with
  | [] => None
  | (k, v) :: tbl' => if list_eqb k key then Some v else entity_lookup tbl' key
  end.

(** [html_entity_table::find]. *)
Definition html_entity_table_find (buf : wstring) (html_entity : Z) (length : Z) : wchar_t :=
  let cmpKey := wsub buf html_entity length in
  match entity_lookup m_table cmpKey with
  | Some v => v
  | None =>
      match entity_lookup m_table (map towlower cmpKey) with
      | Some v => v
      | None => wc "?"
      end
  end.

Definition is_digit (c : wchar_t) : bool := (48 <=? c) && (c <=? 57).

Definition hex_digit_value (c : wchar_t) : option Z :=
  if (48 <=? c) && (c <=? 57) then Some (c - 48)
  else if (65 <=? c) && (c <=? 70) then Some (c - 55)
  else if (97 <=? c) && (c <=? 102) then Some (c - 87)
  else None.

Fixpoint decimal_value (l : wstring) (acc : Z) : Z :=
  match l with
  | c :: l' => if is_digit c then decimal_value l' (acc * 10 + (c - 48)) else acc
  | [] => acc
  end.

Fixpoint skip_whitespace (l : wstring) : wstring :=
  match l with
  | c :: l' => if iswspace c then skip_whitespace l' else l
  | [] => []
  end.


Definition int_of (z : Z) : Z := (z + 2 ^ 31) mod 2 ^ 32 - 2 ^ 31.

(** Modelled from the spec: [string_util::atoi] (string_util.h is not
    among the sources): the value of the decimal digits at the head of
    the string, after optional white space and sign, as an [int]. *)
Definition atoi (buf : wstring) (p : Z) : Z :=
  int_of
    match skip_whitespace (from buf p) with
    | c :: l' =>
        if c =? wc "-" then - decimal_value l' 0
        else if c =? wc "+" then decimal_value l' 0
        else decimal_value (c :: l') 0
    | [] => 0
    end.

Fixpoint hex_value (l : wstring) (n : Z) (acc : Z) : Z :=
  if n <=? 0 then acc
  else match l with
       | c :: l' =>
           match hex_digit_value c with
           | Some d => hex_value l' (n - 1) (acc * 16 + d)
           | None => acc
           end
       | [] => acc
       end.

(** Modelled from the spec: [string_util::axtoi(s, n)] (string_util.h is
    not among the sources): the value of the hexadecimal digits at the
    head of the first [n] characters of [s], as an [int]. *)
Definition axtoi (buf : wstring) (p : Z) (n : Z) : Z := int_of (hex_value (from buf p) n 0).

(** [static_cast<wchar_t>] of an [int]: [wchar_t] is taken to have the 32
    bits of an [int], as it has with GCC and Clang on Linux and macOS, so
    that the cast keeps the value of an [int]. *)
Definition wchar_of_int (v : Z) : wchar_t := int_of v.

(** *** Raw text *)

(** The [for] loops that transliterate character by character. *)
Definition add_converted (f : wchar_t -> wchar_t) (cs : wstring) (e : html_extract_text)
    : html_extract_text :=
  fold_left (fun e c => add_character (f c) e) cs e.

(** The copy of literal text under the superscript and subscript stacks. *)
Definition add_literal (cs : wstring) (e : html_extract_text) : html_extract_text :=
  if 0 <? m_superscript_stack e then add_converted to_superscript cs e
  else if 0 <? m_subscript_stack e then add_converted to_subscript cs e
  else add_characters cs e.

(** [textSize -= n], or zero when [n] exceeds it. *)
Definition shrink (textSize n : Z) : Z := if textSize <? n then 0 else textSize - n.

Definition add_ligature (value : wchar_t) (e : html_extract_text) : html_extract_text :=
  if value =? 0xFB00 then add_characters (wstr "ff") e
  else if value =? 0xFB01 then add_characters (wstr "fi") e
  else if value =? 0xFB02 then add_characters (wstr "fl") e
  else if value =? 0xFB03 then add_characters (wstr "ffi") e
  else if value =? 0xFB04 then add_characters (wstr "ffl") e
  else if value =? 0xFB05 then add_characters (wstr "ft") e
  else if value =? 0xFB06 then add_characters (wstr "st") e
  else e.

(** The numeric branch of the entity decoder: [text[index+1] == '#']. *)
Definition decode_numeric (buf : wstring) (text textSize index semicolon : Z)
    (e : html_extract_text) : html_extract_text :=
  let hexLength := size_t_of (textSize - (index + 3)) in
  let value :=
    if is_either (char_at buf (text + index + 2)) (wc "x") (wc "X")
    then wchar_of_int (axtoi buf (text + index + 3) hexLength)
    else wchar_of_int (atoi buf (text + index + 2)) in
  if negb (value =? 173) then
    if (0xFB00 <=? value) && (value <=? 0xFB06) then add_ligature value e
    else if negb (value =? 0) then add_character value e
    else
      let e := log_message (wstr "Invalid numeric HTML entity: "
                 ++ wsub buf (text + index) ((semicolon + 1) - (text + index))) e in
      add_characters (wsub buf (text + index) ((semicolon + 1) - (text + index))) e
  else e.

(** [while (!iswspace( *p) && *p != ';' && p < text+textSize) ++p]. *)
Fixpoint next_terminator (n : nat) (buf : wstring) (p bound : Z) : Z :=
  match n with
  | O => p
  | S n' =>
      if negb (iswspace (char_at buf p)) && negb (char_at buf p =? wc ";") && (p <? bound)
      then next_terminator n' buf (p + 1) bound
      else p
  end.

(** The named branch of the entity decoder; the result carries the
    possibly moved [semicolon]. *)
Definition decode_named (buf : wstring) (text textSize index semicolon : Z)
    (e : html_extract_text) : html_extract_text * Z :=
  let value := html_entity_table_find buf (text + index + 1) (semicolon - (text + index + 1)) in
  if negb (value =? 173) then
    if (value =? wc "?") && negb (char_at buf semicolon =? wc ";") then
      let e := log_message (wstr "Unencoded ampersand or unknown HTML entity: "
                 ++ wsub buf (text + index) (semicolon - (text + index))) e in
      (add_characters (wsub buf (text + index) (semicolon - (text + index) + 1)) e, semicolon)
    else
      let fixed :=
        if (char_at buf semicolon =? wc ";") && (value =? wc "&") then
          let nextTerminator :=
            next_terminator (Z.to_nat (text + textSize - (semicolon + 1))) buf
              (semicolon + 1) (text + textSize) in
          if (nextTerminator <? text + textSize) && (char_at buf nextTerminator =? wc ";") then
            let badlyEncodedEntity :=
              html_entity_table_find buf (semicolon + 1) (nextTerminator - (semicolon + 1)) in
            if negb (badlyEncodedEntity =? wc "?") then
              let e := log_message (wstr "Ampersand incorrectly encoded in HTML entity: "
                         ++ wsub buf (text + index) ((nextTerminator - (text + index)) + 1)) e in
              Some (add_character badlyEncodedEntity e, nextTerminator)
            else None
          else None
        else None in
      match fixed with
      | Some r => r
      | None =>
          let e := add_character value e in
          let e :=
            if value =? wc "?"
            then log_message (wstr "Unknown HTML entity: "
                   ++ wsub buf (text + index) (semicolon - (text + index))) e
            else e in
          if negb (char_at buf semicolon =? wc ";") then
            let e := log_message (wstr "Missing semicolon on HTML entity: "
                       ++ wsub buf (text + index) (semicolon - (text + index))) e in
            (add_character (char_at buf semicolon) e, semicolon)
          else (e, semicolon)
      end
  else (e, semicolon).

(** What one round of the [while (textSize > 0)] loop does. *)
Inductive round_result :=
| Again (e : html_extract_text) (text textSize : Z)
| Leave (e : html_extract_text) (text textSize : Z).

Definition parse_raw_text_round (buf : wstring) (e : html_extract_text) (text textSize : Z)
    : round_result :=
  let index :=
    if 0 <? m_is_in_preformatted_text_block_stack e
    then strncspn buf text textSize (wstr "&$")
    else strncspn buf text textSize [13; 10; wc "&"; wc "$"] in
  if index <? textSize then
    if char_at buf (text + index) =? wc "&" then
      let orphan :=
        let e := if 0 <? index
                 then add_character (wc "&") (add_characters (wsub buf text index) e)
                 else e in
        Again e (text + (index + 1)) (shrink textSize (index + 1)) in
      match strcspn_pointer buf (text + index + 1) [wc ";"; wc "<"; wc " "; 9; 10; 13] with
      | None => orphan
      | Some semicolon =>
          if text + textSize <? semicolon then orphan
          else
            let e := if 0 <? index then add_characters (wsub buf text index) e else e in
            let '(e, semicolon) :=
              if iswspace (char_at buf (text + index + 1)) then
                (add_character (wc " ") (add_character (wc "&") e), semicolon)
              else if char_at buf (text + index + 1) =? wc "#" then
                (decode_numeric buf text textSize index semicolon e, semicolon)
              else decode_named buf text textSize index semicolon e in
            Again e (semicolon + 1) (shrink textSize ((semicolon + 1) - text))
      end
    else if char_at buf (text + index) =? wc "$" then
      let closingBrace :=
        if (index + 1 <? textSize) && (char_at buf (text + index + 1) =? wc "{")
        then strnchr buf (text + 1) (wc "}") textSize
        else None in
      let literal :=
        let e := if 0 <? index then add_characters (wsub buf text index) e else e in
        let e := add_character (wc "$") e in
        Again e (text + (index + 1)) (shrink textSize (index + 1)) in
      match closingBrace with
      | None => literal
      | Some closingBrace =>
          if text + textSize <? closingBrace then literal
          else
            let e := if 0 <? index then add_characters (wsub buf text index) e else e in
            Again e (closingBrace + 1) (shrink textSize ((closingBrace + 1) - text))
      end
    else
      let e := add_literal (wsub buf text index) e in
      let e := add_character (wc " ") e in
      Again e (text + (index + 1)) (shrink textSize (index + 1))
  else Leave e text textSize.

Fixpoint parse_raw_text_loop (fuel : nat) (buf : wstring) (e : html_extract_text)
    (text textSize : Z) : html_extract_text * Z * Z :=
  match fuel with
  | O => (e, text, textSize)
  | S fuel' =>
      if 0 <? textSize then
        match parse_raw_text_round buf e text textSize with
        | Again e text textSize => parse_raw_text_loop fuel' buf e text textSize
        | Leave e text textSize => (e, text, textSize)
        end
      else (e, text, textSize)
  end.

(** Every round that goes on consumes at least one character of the
    buffer, so [length buf + 1] rounds are never used up. *)
Definition parse_raw_text (buf : wstring) (text textSize : Z) (e : html_extract_text)
    : html_extract_text :=
  if 0 <? textSize then
    let '(e, text, textSize) := parse_raw_text_loop (S (length buf)) buf e text textSize in
    if 0 <? textSize then add_literal (wsub buf text textSize) e else e
  else e.

End Decoder.

Section Extraction.
Context {P : Platform}.

(** *** Helpers on [std::wstring] values *)

(** [s.assign(p)] from a pointer: the characters up to the first NUL. *)
Fixpoint c_str_of (l : wstring) : wstring :=
  match l with
  | [] => []
  | c :: l' => if c =? 0 then [] else c :: c_str_of l'
  end.

Fixpoint drop_leading_spaces (l : wstring) : wstring :=
  match l with
  | c :: l' => if iswspace c then drop_leading_spaces l' else l
  | [] => []
  end.

(** Modelled from the spec: [string_util::trim] (string_util.h is not
    among the sources): white space is removed at both ends. *)
Definition trim (s : wstring) : wstring :=
  rev (drop_leading_spaces (rev (drop_leading_spaces s))).

Fixpoint remove_extra_spaces_from (alreadyHasSpace : bool) (l : wstring) : wstring :=
  match l with
  | [] => []
  | c :: l' =>
      if iswspace c then
        if alreadyHasSpace then remove_extra_spaces_from true l'
        else c :: remove_extra_spaces_from true l'
      else c :: remove_extra_spaces_from false l'
  end.

(** Modelled from the spec: [string_util::remove_extra_spaces]
    (string_util.h is not among the sources): white space is collapsed,
    every run of it to its first character. *)
Definition remove_extra_spaces (s : wstring) : wstring := remove_extra_spaces_from true s.

Fixpoint is_prefix_of (needle l : wstring) : bool :=
  match needle, l with
  | [], _ => true
  | n :: needle', x :: l' => (x =? n) && is_prefix_of needle' l'
  | _, [] => false
  end.

(** [s.find(needle) != std::wstring::npos]. *)
Fixpoint wstring_contains (s needle : wstring) : bool :=
  is_prefix_of needle s ||
  match s with
  | [] => false
  | _ :: s' => wstring_contains s' needle
  end.

Definition newParagraphElements : list wstring :=
  [ wstr "button"; wstr "div"; wstr "dl"; wstr "dt"; wstr "h1"; wstr "h2"; wstr "h3";
    wstr "h4"; wstr "h5"; wstr "h6"; wstr "hr"; wstr "input"; wstr "ol"; wstr "option";
    wstr "p"; wstr "select"; wstr "table"; wstr "tr"; wstr "ul" ].

Definition is_new_paragraph_element (name : wstring) : bool :=
  existsb (ci_eqb name) newParagraphElements.

(** *** The main loop of [operator()] *)

(** The result of a call of [operator()]: the engine afterwards and the
    returned pointer, null ([None]) or the filtered text. *)
Definition call_result : Type := html_extract_text * option wstring.

(** A call of [operator()] on an engine; [None] when the model ran out
    of fuel. *)
Definition parser : Type :=
  html_extract_text -> wstring -> option Z -> Z -> bool -> bool -> option call_result.

(** How the body of the [while] loop is left. *)
Inductive body_result :=
| Break (e : html_extract_text) (endp : option Z)
| Continue (e : html_extract_text) (start : Z) (endp : option Z)
| OutOfFuel.

(** Where the [if]/[else if] chain on the current element leaves the
    round: it leaves the loop, restarts it, or falls through to the
    search for the next tag with [end] set. *)
Inductive dispatch_result :=
| Left (r : body_result)
| Through (e : html_extract_text) (endp : Z) (isSymbolFontSection : bool).

(** The elements whose body is skipped: [script], [noscript],
    [annotation], [annotation-xml] and [style]. *)
Definition skip_element (buf : wstring) (start : Z) (closing : wstring)
    (e : html_extract_text) : dispatch_result :=
  match stristr buf start closing with
  | None =>
      match find_close_tag buf start with
      | None => Left (Break e None)
      | Some closeTag =>
          match wcschr buf closeTag (wc "<") with
          | None => Left (Break e None)
          | Some endp => Through e endp false
          end
      end
  | Some endp => Through e (endp + wlen closing) false
  end.

(** A [meta] element whose [name] is one of the three fields. *)
Definition read_meta_content (rec : parser) (buf : wstring) (start : Z) (f : meta_field)
    (e : html_extract_text) : option html_extract_text :=
  let e := set_meta f (read_attribute_as_string buf start (wstr "content") false true) e in
  match rec new_engine (get_meta f e) (Some 0) (wlen (get_meta f e)) true false with
  | None => None
  | Some (_, None) => Some e
  | Some (_, Some value) => Some (set_meta f (remove_extra_spaces (trim (c_str_of value))) e)
  end.

(** The [title] and [subject] elements. *)
Definition read_titled (rec : parser) (buf : wstring) (start : Z) (closing : wstring)
    (f : meta_field) (e : html_extract_text) (endp : option Z) : dispatch_result :=
  match find_close_tag buf start with
  | None => Left (Break e endp)
  | Some titleStart =>
      let titleStart := titleStart + 1 in
      match stristr buf start closing with
      | None =>
          match wcschr buf titleStart (wc "<") with
          | None => Left (Break e None)
          | Some endp => Through e endp false
          end
      | Some endp =>
          match rec new_engine buf (Some titleStart) (size_t_of (endp - titleStart)) true false with
          | None => Left OutOfFuel
          | Some (_, None) => Through e (endp + wlen closing) false
          | Some (_, Some title) =>
              Through (set_meta f (remove_extra_spaces (trim (c_str_of title))) e)
                (endp + wlen closing) false
          end
      end
  end.

Definition is_symbol_font (buf : wstring) (start : Z) (currentElement : wstring) : bool :=
  if ci_eqb currentElement (wstr "font") then
    strnicmp_ptr_eq buf
      (option_map fst (read_attribute buf (start + 1) (wstr "face") false true))
      (wstr "Symbol")
    || strnicmp_ptr_eq buf
         (option_map fst (read_attribute buf (start + 1) (wstr "font-family") true true))
         (wstr "Symbol")
  else
    strnicmp_ptr_eq buf
      (option_map fst (read_attribute buf (start + 1) (wstr "font-family") true true))
      (wstr "Symbol").

Definition incr_preformatted (e : html_extract_text) : html_extract_text :=
  set_stacks (m_is_in_preformatted_text_block_stack e + 1) (m_superscript_stack e)
    (m_subscript_stack e) e.

Definition decr_preformatted (e : html_extract_text) : html_extract_text :=
  set_stacks (m_is_in_preformatted_text_block_stack e - 1) (m_superscript_stack e)
    (m_subscript_stack e) e.

Definition incr_superscript (e : html_extract_text) : html_extract_text :=
  set_stacks (m_is_in_preformatted_text_block_stack e) (m_superscript_stack e + 1)
    (m_subscript_stack e) e.

Definition decr_superscript (e : html_extract_text) : html_extract_text :=
  set_stacks (m_is_in_preformatted_text_block_stack e) (m_superscript_stack e - 1)
    (m_subscript_stack e) e.

Definition incr_subscript (e : html_extract_text) : html_extract_text :=
  set_stacks (m_is_in_preformatted_text_block_stack e) (m_superscript_stack e)
    (m_subscript_stack e + 1) e.

Definition decr_subscript (e : html_extract_text) : html_extract_text :=
  set_stacks (m_is_in_preformatted_text_block_stack e) (m_superscript_stack e)
    (m_subscript_stack e - 1) e.

Definition two_newlines (e : html_extract_text) : html_extract_text :=
  add_character 10 (add_character 10 e).

(** The text an opening or closing tag emits and the stack it pushes on;
    the second component is [start], which a hidden [span] moves. *)
Definition element_effects (buf : wstring) (start endSentinel : Z) (currentElement : wstring)
    (e : html_extract_text) : html_extract_text * Z :=
  let remainingTextLength := endSentinel - start in
  if ci_eqb currentElement (wstr "pre") then (incr_preformatted e, start)
  else if ci_eqb currentElement (wstr "sup") then (incr_superscript e, start)
  else if ci_eqb currentElement (wstr "sub") then (incr_subscript e, start)
  else if is_new_paragraph_element currentElement then
    let e := two_newlines e in
    let pageBreakValue :=
      read_attribute_as_string buf (start + 1) (wstr "page-break-before") true false in
    if negb (wlen pageBreakValue =? 0) &&
       (strnicmp_eq 6 pageBreakValue (wstr "always")
        || strnicmp_eq 4 pageBreakValue (wstr "auto")
        || strnicmp_eq 4 pageBreakValue (wstr "left")
        || strnicmp_eq 5 pageBreakValue (wstr "right"))
    then (add_character 12 e, start)
    else (e, start)
  else if ci_eqb currentElement (wstr "br") then (add_character 10 e, start)
  else if (3 <=? remainingTextLength) && (char_at buf start =? wc "<")
          && (char_at buf (start + 1) =? wc "/") then
    if is_new_paragraph_element (tl currentElement)
       && negb (ci_eqb currentElement (wstr "/tr"))
       && negb (ci_eqb currentElement (wstr "/dt"))
       && negb (ci_eqb currentElement (wstr "/option"))
    then (two_newlines e, start)
    else (e, start)
  else if ci_eqb currentElement (wstr "li") then (add_character 9 (add_character 10 e), start)
  else if ci_eqb currentElement (wstr "td") then (add_character 9 e, start)
  else if ci_eqb currentElement (wstr "dd") then
    (add_character 9 (add_character (wc ":") e), start)
  else if ci_eqb currentElement (wstr "a") then
    let href := read_attribute_as_string buf (start + 1) (wstr "href") false false in
    let e := if strnicmp_eq 7 href (wstr "mailto:") || strnicmp_eq 4 href (wstr "tel:")
             then add_character (wc " ") e else e in
    let class := read_attribute_as_string buf (start + 1) (wstr "class") false false in
    let e := if wstring_contains class (wstr "FooterLink") then two_newlines e else e in
    (e, start)
  else if ci_eqb currentElement (wstr "span") then
    let dataType := read_attribute_as_string buf (start + 1) (wstr "data-type") false false in
    let e := if list_eqb dataType (wstr "newline") then add_character 10 e
             else if list_eqb dataType (wstr "footnote-ref-content") then add_character 9 e
             else e in
    let class := read_attribute_as_string buf (start + 1) (wstr "class") false false in
    if negb (wlen class =? 0) then
      if wstring_contains class (wstr "BookBanner") || list_eqb class (wstr "os-caption")
      then (two_newlines e, start)
      else if list_eqb class (wstr "os-term-section") then (add_character 9 e, start)
      else if wstring_contains class (wstr "hidden") then
        match find_closing_element buf start endSentinel (wstr "span") with
        | Some spanEnd => (e, spanEnd)
        | None => (e, start)
        end
      else (e, start)
    else (e, start)
  else (e, start).

(** The last [else] of the chain: any element that is not skipped. *)
Definition plain_element (buf : wstring) (start endSentinel : Z) (currentElement : wstring)
    (e : html_extract_text) : dispatch_result :=
  let isSymbolFontSection := is_symbol_font buf start currentElement in
  let '(e, start) := element_effects buf start endSentinel currentElement e in
  let endp :=
    match find_close_tag buf (start + 1) with
    | Some endp => Some endp
    | None => wcschr buf (start + 1) (wc "<")
    end in
  match endp with
  | None => Left (Break e None)
  | Some endp =>
      if char_at buf endp =? wc "<" then
        Left (Continue (parse_raw_text buf start (endp - start) e) endp (Some endp))
      else Through e (endp + 1) isSymbolFontSection
  end.

Definition dispatch (rec : parser) (buf : wstring) (endSentinel : Z) (e : html_extract_text)
    (start : Z) (endp : option Z) : dispatch_result :=
  let remainingTextLength := endSentinel - start in
  let currentElement := get_element_name buf (start + 1) false in
  if (4 <=? remainingTextLength) && (char_at buf start =? wc "<")
     && (char_at buf (start + 1) =? wc "!") && (char_at buf (start + 2) =? wc "-")
     && (char_at buf (start + 3) =? wc "-") then
    match wcsstr buf start (wstr "-->") with
    | None => Left (Break e None)
    | Some endp => Through e (endp + 3) false
    end
  else if ci_eqb currentElement (wstr "script") then
    skip_element buf start (wstr "</script>") e
  else if ci_eqb currentElement (wstr "noscript") then
    skip_element buf start (wstr "</noscript>") e
  else if ci_eqb currentElement (wstr "annotation") then
    skip_element buf start (wstr "</annotation>") e
  else if ci_eqb currentElement (wstr "annotation-xml") then
    skip_element buf start (wstr "</annotation-xml>") e
  else if ci_eqb currentElement (wstr "style") then
    skip_element buf start (wstr "</style>") e
  else if ci_eqb currentElement (wstr "meta") then
    let metaName := read_attribute_as_string buf start (wstr "name") false false in
    match find_close_tag buf start with
    | None => Left (Break e endp)
    | Some closeTag =>
        let e' :=
          if stricmp_eq metaName (wstr "author") then read_meta_content rec buf start Author e
          else if stricmp_eq metaName (wstr "description")
          then read_meta_content rec buf start Description e
          else if stricmp_eq metaName (wstr "keywords")
          then read_meta_content rec buf start Keywords e
          else Some e in
        match e' with
        | None => Left OutOfFuel
        | Some e =>
            match wcschr buf closeTag (wc "<") with
            | None => Left (Break e None)
            | Some endp => Through e endp false
            end
        end
    end
  else if ci_eqb currentElement (wstr "title") then
    read_titled rec buf start (wstr "</title>") Title e endp
  else if ci_eqb currentElement (wstr "subject") then
    read_titled rec buf start (wstr "</subject>") Subject e endp
  else if ((2 <=? remainingTextLength) && (char_at buf start =? wc "<")
           && iswspace (char_at buf (start + 1)))
          || ((7 <=? remainingTextLength) && (char_at buf start =? wc "<")
              && (char_at buf (start + 1) =? wc "&")
              && is_either (char_at buf (start + 2)) (wc "n") (wc "N")
              && is_either (char_at buf (start + 3)) (wc "b") (wc "B")
              && is_either (char_at buf (start + 4)) (wc "s") (wc "S")
              && is_either (char_at buf (start + 5)) (wc "p") (wc "P")
              && (char_at buf (start + 6) =? wc ";")) then
    match wcschr buf (start + 1) (wc "<") with
    | None => Left (Break (parse_raw_text buf start (endSentinel - start) e) None)
    | Some endp => Left (Continue (parse_raw_text buf start (endp - start) e) endp (Some endp))
    end
  else if ci_eqb (firstn 8 currentElement) (wstr "![CDATA[") then
    let start := start + 9 in
    match wcsstr buf start (wstr "]]>") with
    | Some endp =>
        if endSentinel <? endp then
          let e := incr_preformatted e in
          let e := parse_raw_text buf start (size_t_of (endSentinel - start)) e in
          Left (Break (decr_preformatted e) (Some endp))
        else
          Left (Continue (add_characters (wsub buf start (endp - start)) e) endp
                  (Some (endp + 2)))
    | None =>
        let e := incr_preformatted e in
        let e := parse_raw_text buf start (size_t_of (endSentinel - start)) e in
        Left (Break (decr_preformatted e) None)
    end
  else plain_element buf start endSentinel currentElement e.

(** After the text between two tags has been copied: a closing [pre],
    [sup] or [sub] pops its stack unless the stack is empty. *)
Definition close_stacks (buf : wstring) (start : Z) (e : html_extract_text)
    : html_extract_text :=
  if strnicmp_eq 6 (from buf start) (wstr "</pre>") then
    if 0 <? m_is_in_preformatted_text_block_stack e then decr_preformatted e else e
  else if strnicmp_eq 6 (from buf start) (wstr "</sup>") then
    if 0 <? m_superscript_stack e then decr_superscript e else e
  else if strnicmp_eq 6 (from buf start) (wstr "</sub>") then
    if 0 <? m_subscript_stack e then decr_subscript e else e
  else e.

(** A symbol font section: the characters just copied are taken back and
    their conversions are put in their place. *)
Definition reemit_symbol_font (previousLength : Z) (e : html_extract_text)
    : html_extract_text :=
  let copiedOverText :=
    convert_symbol_font_section
      (skipn (Z.to_nat previousLength) (get_filtered_text e)) in
  let e := set_filtered_text_length previousLength e in
  let e := add_characters copiedOverText e in
  if negb (wlen copiedOverText =? 0)
  then log_message (wstr "Symbol font used for the following: " ++ [34]
                      ++ copiedOverText ++ [34]) e
  else e.

(** From "find the next starting tag" to the end of the round. *)
Definition next_tag (buf : wstring) (endSentinel : Z) (e : html_extract_text) (endp : Z)
    (isSymbolFontSection : bool) : body_result :=
  match wcschr buf endp (wc "<") with
  | None => Break e (Some endp)
  | Some start =>
      if endSentinel <=? start then Break e (Some endp)
      else
        let previousLength := get_filtered_text_length e in
        let e := parse_raw_text buf endp (start - endp) e in
        let e := if isSymbolFontSection then reemit_symbol_font previousLength e else e in
        Continue (close_stacks buf start e) start (Some endp)
  end.

Definition loop_body (rec : parser) (buf : wstring) (endSentinel : Z) (e : html_extract_text)
    (start : Z) (endp : option Z) : body_result :=
  match dispatch rec buf endSentinel e start endp with
  | Left r => r
  | Through e endp isSymbolFontSection => next_tag buf endSentinel e endp isSymbolFontSection
  end.

Fixpoint main_loop (fuel : nat) (rec : parser) (buf : wstring) (endSentinel : Z)
    (e : html_extract_text) (start : Z) (endp : option Z)
    : option (html_extract_text * option Z) :=
  match fuel with
  | O => None
  | S fuel' =>
      if start <? endSentinel then
        match loop_body rec buf endSentinel e start endp with
        | Break e endp => Some (e, endp)
        | Continue e start endp => main_loop fuel' rec buf endSentinel e start endp
        | OutOfFuel => None
        end
      else Some (e, endp)
  end.

(** The state reset at the head of [operator()]; the trace of the call
    begins here. *)
Definition reset_state (preserve_newlines : bool) (e : html_extract_text)
    : html_extract_text :=
  let e := clear_log e in
  let e :=
    {| m_log := m_log e;
       m_is_in_preformatted_text_block_stack := if preserve_newlines then 1 else 0;
       m_superscript_stack := 0;
       m_subscript_stack := 0;
       m_title := m_title e; m_subject := m_subject e;
       m_description := m_description e; m_author := m_author e;
       m_keywords := m_keywords e; m_text_buffer := m_text_buffer e;
       m_trace := [] |} in
  reset_meta_data e.

(** [html_extract_text::operator()], the calls it makes on the parsers
    of metadata values going to [rec]. *)
Definition operator_body (rec : parser) (fuel : nat) (e : html_extract_text) (buf : wstring)
    (html_text : option Z) (text_length : Z) (include_outer_text preserve_newlines : bool)
    : option call_result :=
  let e := reset_state preserve_newlines e in
  match html_text with
  | None => Some (set_filtered_text_length 0 e, None)
  | Some html_text =>
      if (char_at buf html_text =? 0) || (text_length =? 0)
      then Some (set_filtered_text_length 0 e, None)
      else
        match allocate_text_buffer text_length e with
        | (false, e) => Some (set_filtered_text_length 0 e, None)
        | (true, e) =>
            let start := wcschr buf html_text (wc "<") in
            let e :=
              match start with
              | None =>
                  if include_outer_text then parse_raw_text buf html_text text_length e else e
              | Some start =>
                  if (html_text <? start) && include_outer_text
                  then parse_raw_text buf html_text (Z.min (start - html_text) text_length) e
                  else e
              end in
            let endSentinel := ptr_add html_text text_length in
            let looped :=
              match start with
              | None => Some (e, None)
              | Some start => main_loop fuel rec buf endSentinel e start None
              end in
            match looped with
            | None => None
            | Some (e, endp) =>
                let e :=
                  match endp with
                  | Some endp =>
                      if (endp <? endSentinel) && include_outer_text
                      then parse_raw_text buf endp (endSentinel - endp) e
                      else e
                  | None => e
                  end in
                Some (e, Some (get_filtered_text e))
            end
        end
  end.

(** The recursion through the parsers of metadata values, [depth] calls
    deep. *)
Fixpoint extract (depth : nat) : parser :=
  fun e buf html_text text_length include_outer_text preserve_newlines =>
    match depth with
    | O => None
    | S depth' =>
        operator_body (extract depth') (S (length buf)) e buf html_text text_length
          include_outer_text preserve_newlines
    end.

(** A top-level call. Every round of the main loop moves [start]
    forward and every nested call works on a shorter text, so the fuel
    given here is never used up. *)
Definition operator_call (e : html_extract_text) (buf : wstring) (html_text : option Z)
    (text_length : Z) (include_outer_text preserve_newlines : bool) : option call_result :=
  extract (S (length buf)) e buf html_text text_length include_outer_text preserve_newlines.

End Extraction.

(** ** URL resolution ([html_url_format])

    Indices into a [std::wstring] are [size_t] values, integers modulo
    [SIZE_MOD]; [npos] is the largest of them. *)

Definition npos : Z := SIZE_MOD - 1.

Fixpoint rfind_scan (l : wstring) (i pos : Z) (ch : wchar_t) (best : Z) : Z :=
  match l with
  | [] => best
  | x :: l' =>
      if pos <? i then best
      else rfind_scan l' (i + 1) pos ch (if x =? ch then i else best)
  end.

(** [s.rfind(ch, pos)]: the last index at or before [pos] that holds [ch]. *)
Definition rfind (s : wstring) (ch : wchar_t) (pos : Z) : Z := rfind_scan s 0 pos ch npos.

Fixpoint find_scan (l : wstring) (i pos : Z) (ch : wchar_t) : Z :=
  match l with
  | [] => npos
  | x :: l' => if (pos <=? i) && (x =? ch) then i else find_scan l' (i + 1) pos ch
  end.

(** [s.find(ch, pos)]: the first index at or after [pos] that holds [ch]. *)
Definition find (s : wstring) (ch : wchar_t) (pos : Z) : Z := find_scan s 0 pos ch.

(** [s.substr(pos, n)], [pos] at most the length. *)
Definition substr (s : wstring) (pos n : Z) : wstring :=
  firstn (Z.to_nat (Z.min n (wlen s))) (skipn (Z.to_nat pos) s).


Record html_url_format := {
  m_root_url : wstring;
  m_current_url : wstring;
  m_root_full_domain : wstring;
  m_root_domain : wstring;
  m_root_subdomain : wstring;
  m_current_full_domain : wstring;
  m_current_domain : wstring;
  m_current_subdomain : wstring;
  m_image_name : wstring;
  m_last_slash : Z;
  m_query : Z
}.

Section Url.
Context {P : Platform}.

(** [html_url_format::is_absolute_url] is defined in the header, which
    is not among the sources. *)
Variable is_absolute_url : wstring -> bool.

(** The result is (the url, the last slash, the position of the query). *)
Definition find_last_directory (url : wstring) : wstring * Z * Z :=
  let query_postion := rfind url (wc "?") npos in
  let last_slash := rfind url (wc "/") npos in
  let last_slash :=
    if negb (query_postion =? npos) && negb (last_slash =? npos)
       && (0 <? query_postion) && (0 <? last_slash) && (query_postion <? last_slash)
    then rfind url (wc "/") (query_postion - 1)
    else last_slash in
  if (negb (last_slash =? npos) && (0 <? last_slash)
      && (char_at url (last_slash - 1) =? wc "/"))
     || (last_slash =? npos)
  then (url ++ [wc "/"], wlen (url ++ [wc "/"]) - 1, query_postion)
  else (url, last_slash, query_postion).

(** The result is (full_domain, domain, subdomain); [subdomain] is the
    value the reference parameter holds on entry. *)
Definition parse_domain (url subdomain : wstring) : wstring * wstring * wstring :=
  let startIndex :=
    if strnicmp_eq 7 url (wstr "http://") then 7
    else if strnicmp_eq 8 url (wstr "https://") then 8
    else if strnicmp_eq 6 url (wstr "ftp://") then 6
    else if strnicmp_eq 7 url (wstr "ftps://") then 7
    else 0 in
  let lastSlash := find url (wc "/") startIndex in
  let full_domain := if lastSlash =? npos then url else substr url 0 lastSlash in
  let dot := rfind full_domain (wc ".") lastSlash in
  if (dot =? npos) || (dot =? 0) then (full_domain, [], subdomain)
  else
    let dot := rfind full_domain (wc ".") (dot - 1) in
    let dot := if negb (dot =? npos) then dot + 1 else startIndex in
    let domain := substr full_domain dot (size_t_of (lastSlash - dot)) in
    let subdomain :=
      if negb (dot =? startIndex) && (2 <? dot) then
        let dot := rfind full_domain (wc ".") (dot - 2) in
        if negb (dot =? npos)
        then substr full_domain (dot + 1) (size_t_of (lastSlash - (dot + 1)))
        else domain
      else domain in
    (full_domain, domain, subdomain).

Definition parse_image_name_from_url (url : wstring) : wstring :=
  if hd 0 url =? 0 then []
  else
    match wcschr url 0 (wc "?") with
    | None => []
    | Some start =>
        match stristr url start (wstr "image=") with
        | None => []
        | Some start =>
            let start := start + 6 in
            match wcschr url start (wc "&") with
            | None => c_str_of (from url start)
            | Some e => wsub url start (e - start)
            end
        end
    end.

(** The constructor; [root_url] is never null here. *)
Definition url_construct (root_url : wstring) : html_url_format :=
  let root := c_str_of root_url in
  let '(m_root_url, m_last_slash, m_query) := find_last_directory root in
  let '(rfd, rd, rsd) := parse_domain m_root_url [] in
  let '(cfd, cd, csd) := parse_domain root [] in
  {| m_root_url := m_root_url; m_current_url := root;
     m_root_full_domain := rfd; m_root_domain := rd; m_root_subdomain := rsd;
     m_current_full_domain := cfd; m_current_domain := cd; m_current_subdomain := csd;
     m_image_name := if negb (m_query =? npos) then parse_image_name_from_url m_root_url
                     else [];
     m_last_slash := m_last_slash; m_query := m_query |}.






End Url.


(** ** A concrete platform

    The "C" locale for classification and case mapping, the Unicode
    superscript and subscript digits, and an allocator that serves any
    request below 2^40 characters. *)

Definition c_iswspace (c : wchar_t) : bool :=
  (c =? 32) || ((9 <=? c) && (c <=? 13)).

Definition c_towlower (c : wchar_t) : wchar_t :=
  if (65 <=? c) && (c <=? 90) then c + 32 else c.

Definition digit_to_superscript (c : wchar_t) : wchar_t :=
  if c =? 49 then 0xB9
  else if c =? 50 then 0xB2
  else if c =? 51 then 0xB3
  else if (48 <=? c) && (c <=? 57) then 0x2070 + (c - 48)
  else c.

Definition digit_to_subscript (c : wchar_t) : wchar_t :=
  if (48 <=? c) && (c <=? 57) then 0x2080 + (c - 48) else c.

Definition c_platform : Platform :=
  {| iswspace := c_iswspace;
     towlower := c_towlower;
     to_superscript := digit_to_superscript;
     to_subscript := digit_to_subscript;
     allocate_succeeds := fun n => n <? 2 ^ 40 |}.



(** ** Notions used to state the properties *)

Section Notions.
Context {P : Platform}.

(** The quote flags of [stristr_not_quoted] after the [n] characters
    [string[i]], [string[i+1]], ... have gone through its bookkeeping. *)
Fixpoint quotes_after (n : nat) (buf : wstring) (string i : Z) (q sq : bool) : bool * bool :=
  match n with
  | O => (q, sq)
  | S n' =>
      let '(q', sq') := quote_step (char_at buf (string + i)) (char_at buf string) q sq in
      quotes_after n' buf string (i + 1) q' sq'
  end.

End Notions.

Section StackBalance.
Context {P : Platform}.

Fixpoint angle_positions (l : wstring) (p : Z) : list Z :=
  match l with
  | [] => []
  | c :: l' =>
      if c =? 0 then []
      else if c =? wc "<" then p :: angle_positions l' (p + 1)
      else angle_positions l' (p + 1)
  end.

(** The positions of the [<] characters from [p] to the end of the
    string, in order. *)
Definition open_angles (buf : wstring) (p : Z) : list Z := angle_positions (from buf p) p.

(** The [<] at [s] begins a closing, respectively an opening, tag of the
    element [elementTag]. *)
Definition is_closing_tag (buf : wstring) (elementTag : wstring) (s : Z) : bool :=
  (char_at buf (s + 1) =? wc "/") && compare_element buf (s + 2) elementTag true.

Definition is_opening_tag (buf : wstring) (elementTag : wstring) (s : Z) : bool :=
  compare_element buf (s + 1) elementTag true.

(** What a tag adds to the depth. *)
Definition depth_change (buf : wstring) (elementTag : wstring) (s : Z) : Z :=
  if is_closing_tag buf elementTag s then -1
  else if is_opening_tag buf elementTag s then 1
  else 0.

(** The sum of the changes of a run of tags. *)
Definition balance (buf : wstring) (elementTag : wstring) (tags : list Z) : Z :=
  fold_right (fun s acc => depth_change buf elementTag s + acc) 0 tags.

(** The stack-balanced scan in the words of the specification: the tags
    are visited in order, the depth goes up on an opening tag of the
    element and down on a closing one, and the tag at which it reaches
    zero is the result; there is none when the tags run out or the
    section ends first. *)
Fixpoint balanced_scan (tags : list Z) (buf : wstring) (sectionEnd : Z) (elementTag : wstring)
    (depth : Z) : option Z :=
  match tags with
  | [] => None
  | s :: tags' =>
      if s + wlen elementTag + 1 <? sectionEnd then
        if depth + depth_change buf elementTag s =? 0 then Some s
        else balanced_scan tags' buf sectionEnd elementTag
               (depth + depth_change buf elementTag s)
      else None
  end.

End StackBalance.







Definition hex_digit (c : wchar_t) : Z :=
  match hex_digit_value c with
  | Some d => d
  | None => 0
  end.



(** The characters that end an entity. *)
Definition terminators : wstring := [wc ";"; wc "<"; wc " "; 9; 10; 13].

(** The characters the decoder copies as they are. *)
Definition plain (c : wchar_t) : Prop := in_set c [13; 10; wc "&"; wc "$"] = false.

(** The engine after the decoder has written the characters [cs]. *)
Definition wrote (e e' : html_extract_text) (cs : wstring) : Prop :=
  m_text_buffer e' = m_text_buffer e ++ cs /\
  m_is_in_preformatted_text_block_stack e' = m_is_in_preformatted_text_block_stack e /\
  m_superscript_stack e' = m_superscript_stack e /\
  m_subscript_stack e' = m_subscript_stack e.






(** [b] is [a] with characters appended. *)
Definition extends (b a : wstring) : Prop := exists c, b = a ++ c.

(** The three stack counters are not negative. *)
Definition stacks_ok (s : snapshot) : Prop :=
  0 <= snap_preformatted s /\ 0 <= snap_superscript s /\ 0 <= snap_subscript s.

(** The counters are not negative now and were not at any step of the
    call so far. *)
Definition engine_ok (e : html_extract_text) : Prop :=
  stacks_ok (snap e) /\ Forall stacks_ok (m_trace e).

Definition same_stacks (e : html_extract_text) (s : snapshot) : Prop :=
  snap_preformatted s = m_is_in_preformatted_text_block_stack e /\
  snap_superscript s = m_superscript_stack e /\
  snap_subscript s = m_subscript_stack e.

(** The text of the buffer after the mutations [steps], the latest
    first, of a buffer that held [a]. *)
Definition text_after (a : wstring) (steps : list snapshot) : wstring :=
  match steps with
  | [] => a
  | s :: _ => snap_text s
  end.

(** Every one of the mutations [steps], the latest first, of a buffer
    that held [a] appended to it: the text after the mutation is the text
    before it with characters put at its end (none, when the mutation is
    that of a counter). *)
Fixpoint appended (a : wstring) (steps : list snapshot) : Prop :=
  match steps with
  | [] => True
  | s :: earlier => appended a earlier /\ extends (snap_text s) (text_after a earlier)
  end.

(** Every one of the mutations [steps] appended, but for the two of a
    symbol font section, which come together: the first takes characters
    [added] off the end of the text and the second puts their conversions
    in their place. *)
Inductive stepwise (a : wstring) : list snapshot -> Prop :=
| stepwise_nil : stepwise a []
| stepwise_append (s : snapshot) (steps : list snapshot) :
    stepwise a steps ->
    extends (snap_text s) (text_after a steps) ->
    stepwise a (s :: steps)
| stepwise_symbol (put cut : snapshot) (steps : list snapshot) (before added : wstring) :
    stepwise a steps ->
    text_after a steps = before ++ added ->
    snap_text cut = before ->
    snap_text put = before ++ convert_symbol_font_section added ->
    stepwise a (put :: cut :: steps).

(** The five metadata members are the same in [e'] as in [e]. *)
Definition same_meta (e e' : html_extract_text) : Prop :=
  forall f, get_meta f e' = get_meta f e.

(** From [e] to [e'] the engine only appended text: the counters and the
    metadata are the same, at the end and at every step between, and
    every step appended to the buffer. *)
Definition writes (e e' : html_extract_text) : Prop :=
  extends (m_text_buffer e') (m_text_buffer e) /\
  same_stacks e (snap e') /\
  exists steps, m_trace e' = steps ++ m_trace e /\ Forall (same_stacks e) steps /\
    appended (m_text_buffer e) steps /\
    m_text_buffer e' = text_after (m_text_buffer e) steps /\
    same_meta e e'.


(** From [e] to [e'] the text grew, the counters stayed in range, and
    every mutation was recorded and appended to the buffer, but for the
    two of a symbol font section. *)
Definition evolves (e e' : html_extract_text) : Prop :=
  extends (m_text_buffer e') (m_text_buffer e) /\
  (exists steps, m_trace e' = steps ++ m_trace e /\
     stepwise (m_text_buffer e) steps /\
     m_text_buffer e' = text_after (m_text_buffer e) steps) /\
  (engine_ok e -> engine_ok e').

Definition body_evolves (e : html_extract_text) (r : body_result) : Prop :=
  match r with
  | Break e' _ => evolves e e'
  | Continue e' _ _ => evolves e e'
  | OutOfFuel => True
  end.

Definition dispatch_evolves (e : html_extract_text) (d : dispatch_result) : Prop :=
  match d with
  | Left r => body_evolves e r
  | Through e' _ _ => evolves e e'
  end.



(** The engine a round of the raw text loop ends with. *)
Definition round_engine (r : round_result) : html_extract_text :=
  match r with
  | Again e _ _ => e
  | Leave e _ _ => e
  end.


(** The parser [rec] returns on every text of fewer than [n] characters. *)
Definition rec_total (rec : parser) (n : nat) : Prop :=
  forall e b p len iot pn,
    0 <= p -> (length (from b p) < n)%nat -> rec e b (Some p) len iot pn <> None.

(** A round started at [start] that goes on does so further in the
    buffer, and no round runs out of fuel. *)
Definition body_advances (buf : wstring) (start : Z) (r : body_result) : Prop :=
  match r with
  | OutOfFuel => False
  | Continue _ start' _ => start < start' < wlen buf
  | Break _ _ => True
  end.

Definition dispatch_advances (buf : wstring) (start : Z) (d : dispatch_result) : Prop :=
  match d with
  | Left r => body_advances buf start r
  | Through _ endp _ => start < endp
  end.

(** Two documents with a repeated metadata element, and a symbol font
    section. *)
Definition two_titles : wstring := wstr "<title>A</title><title>B</title>".




(** A counter after a closing tag: as before, or one less when it was
    positive. *)
Definition popped_or_kept (before after : Z) : Prop :=
  after = before \/ (0 < before /\ after = before - 1).

(** ** The metadata a round of the main loop stores *)




Section MetadataNotions.
Context {P : Platform}.









End MetadataNotions.





(** ** Notions for the scanners *)

(** A character that the quote-aware scanners pass over without a change
    of state: not the terminator and not a quote. *)
Definition unquoted (c : wchar_t) : Prop := c <> 0 /\ c <> 34 /\ c <> 39.

(** A character that can stand inside a double-quoted section. *)
Definition in_double_quotes (c : wchar_t) : Prop := c <> 0 /\ c <> 34.

(** A character of the inside of a simple tag: it is neither a quote nor
    an angle bracket. *)
Definition tag_char (c : wchar_t) : Prop :=
  unquoted c /\ c <> wc "<" /\ c <> wc ">".

Section ScannerNotions.
Context {P : Platform}.

(** The characters of [needle] stand at [r] in the text, compared
    without regard to case, and none of them is the terminator. *)
Definition matches_at (buf : wstring) (r : Z) (needle : wstring) : Prop :=
  forall j, 0 <= j < wlen needle ->
    char_at buf (r + j) <> 0 /\
    towlower (char_at needle j) = towlower (char_at buf (r + j)).

(** A character that ends the name of an element. *)
Definition ends_name (c : wchar_t) : Prop := c = 0 \/ iswspace c = true \/ c = wc ">".

(** The name of an element ends at [p]: on a character that ends a
    name, or, when self-terminating elements are accepted, on the [/] of
    a [/>]. *)
Definition name_ends_at (buf : wstring) (p : Z) (accept_self_terminating_elements : bool)
    : Prop :=
  ends_name (char_at buf p) \/
  (accept_self_terminating_elements = true /\ char_at buf p = wc "/" /\
   char_at buf (p + 1) = wc ">").

End ScannerNotions.

(** ** More of the tag and element locator *)

Section Elements.
Context {P : Platform}.

(** The [while] loop of [find_element]. *)
Fixpoint find_element_loop (fuel : nat) (buf : wstring) (sectionStart sectionEnd : Z)
    (elementTag : wstring) (accept_self_terminating_elements : bool) : option Z :=
  match fuel with
  | O => None
  | S fuel' =>
      if sectionStart + wlen elementTag <? sectionEnd then
        match wcschr buf sectionStart (wc "<") with
        | None => None
        | Some s =>
            if sectionEnd <? s + wlen elementTag then None
            else if compare_element buf (s + 1) elementTag accept_self_terminating_elements
            then Some s
            else find_element_loop fuel' buf (s + 1) sectionEnd elementTag
                   accept_self_terminating_elements
        end
      else None
  end.

(** [find_element]; every round that goes on starts after the [<] it
    looked at, so [length buf + 1] rounds are never used up. *)
Definition find_element (buf : wstring) (sectionStart sectionEnd : Z) (elementTag : wstring)
    (accept_self_terminating_elements : bool) : option Z :=
  if wlen elementTag =? 0 then None
  else find_element_loop (S (length buf)) buf sectionStart sectionEnd elementTag
         accept_self_terminating_elements.

(** [compare_element_case_sensitive]: [compare_element] with [wcsncmp]
    in the place of [strnicmp]. *)
Definition compare_element_case_sensitive (buf : wstring) (text : Z) (element : wstring)
    (accept_self_terminating_elements : bool) : bool :=
  if wlen element =? 0 then false
  else if wcsncmp_eq (length element) (from buf text) element then
    let text := text + wlen element in
    let c := char_at buf text in
    if c =? 0 then false
    else if c =? wc ">" then true
    else if accept_self_terminating_elements then (c =? wc "/") || iswspace c
    else if iswspace c then
      match find_close_tag buf text with
      | None => false
      | Some closeTag =>
          let closeTag := closeTag - 1 in
          let closeTag := skip_spaces_back (Z.to_nat (closeTag - text)) buf text closeTag in
          negb (char_at buf closeTag =? wc "/")
      end
    else false
  else false.

(** [find_bookmark]: the recursion goes on after an anchor that has no
    name, one call per anchor. The result is the pair (pointer to the
    anchor, name of the bookmark). *)
Fixpoint find_bookmark_from (fuel : nat) (buf : wstring) (sectionStart sectionEnd : Z)
    : option Z * wstring :=
  match fuel with
  | O => (None, [])
  | S fuel' =>
      match find_element buf sectionStart sectionEnd (wstr "a") true with
      | Some nextAnchor =>
          match read_attribute buf nextAnchor (wstr "name") false false with
          | Some (bookMarkPtr, bookMarkSize) =>
              if char_at buf bookMarkPtr =? wc "#"
              then (Some nextAnchor, wsub buf (bookMarkPtr + 1) (bookMarkSize - 1))
              else (Some nextAnchor, wsub buf bookMarkPtr bookMarkSize)
          | None => find_bookmark_from fuel' buf (nextAnchor + 1) sectionEnd
          end
      | None => (None, [])
      end
  end.

Definition find_bookmark (buf : wstring) (sectionStart sectionEnd : Z) : option Z * wstring :=
  find_bookmark_from (S (length buf)) buf sectionStart sectionEnd.

End Elements.

(** ** Notions for the raw text decoder *)

Section DecoderNotions.
Context {P : Platform}.

(** A character of literal text as it is copied under the superscript
    and subscript stacks of [e]. *)
Definition literal_char (e : html_extract_text) (c : wchar_t) : wchar_t :=
  if 0 <? m_superscript_stack e then to_superscript c
  else if 0 <? m_subscript_stack e then to_subscript c
  else c.

Definition line_break (c : wchar_t) : bool := (c =? 13) || (c =? 10).

(** What the decoder writes for a character that begins neither an
    entity nor a placeholder: outside preformatted text a line break
    becomes a space. *)
Definition raw_char (e : html_extract_text) (c : wchar_t) : wchar_t :=
  if negb (0 <? m_is_in_preformatted_text_block_stack e) && line_break c then wc " "
  else literal_char e c.

(** A character that begins neither an entity nor a placeholder. *)
Definition text_char (c : wchar_t) : Prop := c <> 0 /\ c <> wc "&" /\ c <> wc "$".

(** The character the entity table gives for a name: the name as it is
    written first, then in lower case, and [?] when neither is listed. *)
Definition entity_value (key : wstring) : wchar_t :=
  match entity_lookup m_table key with
  | Some v => v
  | None =>
      match entity_lookup m_table (map towlower key) with
      | Some v => v
      | None => wc "?"
      end
  end.

End DecoderNotions.

(** ** Notions for whole documents *)

(** A character of text between tags as a call writes it when nothing
    is on the stacks: a line break becomes a space unless new lines are
    preserved. *)
Definition outer_char (preserve_newlines : bool) (c : wchar_t) : wchar_t :=
  if negb preserve_newlines && line_break c then wc " " else c.

(** A character of plain text: it begins no tag, no entity and no
    placeholder. *)
Definition plain_char (c : wchar_t) : Prop := text_char c /\ c <> wc "<".

(** ** The body and the style section of a document *)

Fixpoint find_str_scan (l needle : wstring) (i pos : Z) : Z :=
  if (pos <=? i) && is_prefix_of needle l then i
  else match l with
       | [] => npos
       | _ :: l' => find_str_scan l' needle (i + 1) pos
       end.

(** [s.find(needle, pos)] for a string [needle]: the first index at or
    after [pos] at which [needle] stands. *)
Definition find_str (s needle : wstring) (pos : Z) : Z := find_str_scan s needle 0 pos.

Definition get_body (text : wstring) : wstring :=
  let bodyStart := find_str text (wstr "<body") 0 in
  if negb (bodyStart =? npos) then
    let bodyStart := find text (wc ">") bodyStart in
    if bodyStart =? npos then text
    else
      let bodyStart := bodyStart + 1 in
      let bodyEnd := find_str text (wstr "</body>") bodyStart in
      if negb (bodyEnd =? npos) then substr text bodyStart (bodyEnd - bodyStart)
      else text
  else text.

Section StyleSection.
Context {P : Platform}.

(** The comment markers that old pages wrap a style sheet in. *)
Definition strip_comment_markers (styleSection : wstring) : wstring :=
  let styleSection :=
    if (4 <? wlen styleSection) && list_eqb (firstn 4 styleSection) (wstr "<!--")
    then skipn 4 styleSection else styleSection in
  if (3 <? wlen styleSection)
     && list_eqb (skipn (length styleSection - 3) styleSection) (wstr "-->")
  then firstn (length styleSection - 3) styleSection else styleSection.

Definition get_style_section (text : wstring) : wstring :=
  let styleStart := find_str text (wstr "<style") 0 in
  if negb (styleStart =? npos) then
    let styleStart := find text (wc ">") styleStart in
    if styleStart =? npos then []
    else
      let styleEnd := find_str text (wstr "</style>") styleStart in
      if negb (styleEnd =? npos) then
        let styleStart := styleStart + 1 in
        trim (strip_comment_markers (trim (substr text styleStart (styleEnd - styleStart))))
      else []
  else [].

End StyleSection.

(** ** Removing hyperlinks ([html_strip_hyperlinks])

    Modelled from the spec: the output buffer of the base class
    [extract_text] (extract_text.h is not among the sources), of which
    the loop only uses [add_characters]; the buffer is the text [out]. *)

Section StripHyperlinks.
Context {P : Platform}.

(** The [while] loop of [html_strip_hyperlinks::operator()]; [None] when
    the model runs out of fuel. *)
Fixpoint strip_loop (fuel : nat) (buf : wstring) (endSentinel currentPos lastEnd : Z)
    (out : wstring) : option wstring :=
  match fuel with
  | O => None
  | S fuel' =>
      if currentPos <? endSentinel then
        match find_element buf currentPos endSentinel (wstr "a") true with
        | None => Some (out ++ wsub buf lastEnd (size_t_of (endSentinel - lastEnd)))
        | Some currentPos =>
            if endSentinel <=? currentPos
            then Some (out ++ wsub buf lastEnd (size_t_of (endSentinel - lastEnd)))
            else
              match find_tag buf currentPos (wstr "name") false with
              | Some _ => strip_loop fuel' buf endSentinel (currentPos + 2) lastEnd out
              | None =>
                  let out := out ++ wsub buf lastEnd (size_t_of (currentPos - lastEnd)) in
                  match find_close_tag buf currentPos with
                  | None => Some out
                  | Some currentPos =>
                      if endSentinel <=? currentPos then Some out
                      else
                        let lastEnd := currentPos + 1 in
                        match find_closing_element buf currentPos endSentinel (wstr "a") with
                        | None => Some out
                        | Some currentPos =>
                            if endSentinel <=? currentPos then Some out
                            else
                              let out :=
                                out ++ wsub buf lastEnd (size_t_of (currentPos - lastEnd)) in
                              match find_close_tag buf currentPos with
                              | None => Some out
                              | Some currentPos =>
                                  if endSentinel <=? currentPos then Some out
                                  else strip_loop fuel' buf endSentinel currentPos
                                         (currentPos + 1) out
                              end
                        end
                  end
              end
        end
      else Some out
  end.

(** [html_strip_hyperlinks::operator()]: the result is the returned
    pointer, null ([None]) or the filtered text. Every round of the loop
    that goes on moves [currentPos] forward, so the fuel given here is
    never used up. *)
Definition strip_hyperlinks (buf : wstring) (html_text : option Z) (text_length : Z)
    : option (option wstring) :=
  match html_text with
  | None => Some None
  | Some html_text =>
      if (char_at buf html_text =? 0) || (text_length =? 0) then Some None
      else if negb (allocate_succeeds text_length) then Some None
      else
        option_map Some
          (strip_loop (S (length buf)) buf (ptr_add html_text text_length) html_text
             html_text [])
  end.

End StripHyperlinks.

(** ** Notions for the URL resolver *)

(** The number of dots of a string. *)
Definition dots (s : wstring) : nat := count_occ Z.eq_dec s (wc ".").

Section UrlNotions.
Context {P : Platform}.

(** The length of the protocol a url begins with, as [parse_domain]
    tells it: zero when it is none of the four. *)
Definition protocol_length (url : wstring) : Z :=
  if strnicmp_eq 7 url (wstr "http://") then 7
  else if strnicmp_eq 8 url (wstr "https://") then 8
  else if strnicmp_eq 6 url (wstr "ftp://") then 6
  else if strnicmp_eq 7 url (wstr "ftps://") then 7
  else 0.

End UrlNotions.

(** ** The image links and the names taken from a url *)

Section ImageLinks.
Context {P : Platform}.

(** The [while] loop of [html_image_parse::operator()]: the next [img]
    element ([find_element] with its default, self-terminating elements
    accepted), and its [src]; an element without [src] is stepped over by
    the length of its name and the [<]. The result is the triple
    (pointer returned, [m_html_text], [m_current_hyperlink_length]). *)
Fixpoint html_image_parse_loop (fuel : nat) (buf : wstring) (m_html_text m_html_text_end : Z)
    : option (option Z * option Z * Z) :=
  match fuel with
  | O => None
  | S fuel' =>
      match find_element buf m_html_text m_html_text_end (wstr "img") true with
      | Some m_html_text =>
          match read_attribute buf m_html_text (wstr "src") false true with
          | Some (imageSrc, imageLength) => Some (Some imageSrc, Some imageSrc, imageLength)
          | None =>
              html_image_parse_loop fuel' buf (m_html_text + (wlen (wstr "img") + 1))
                m_html_text_end
          end
      | None => Some (None, None, 0)
      end
  end.

(** [html_image_parse::operator()]; a round that goes on starts after
    the [<] of the element it looked at, so [length buf + 1] rounds are
    never used up. *)
Definition html_image_parse (buf : wstring) (m_html_text : option Z) (m_html_text_end : Z)
    : option (option Z * option Z * Z) :=
  match m_html_text with
  | None => Some (None, None, 0)
  | Some p =>
      if char_at buf p =? 0 then Some (None, Some p, 0)
      else html_image_parse_loop (S (length buf)) buf p m_html_text_end
  end.

(** [html_url_format::parse_top_level_domain_from_url], on a url that
    is not null. *)
Definition parse_top_level_domain_from_url (url : wstring) : wstring :=
  if hd 0 url =? 0 then []
  else
    let start :=
      match stristr url 0 (wstr "www.") with
      | Some start => start + wlen (wstr "www.")
      | None => 0
      end in
    match wcschr url start (wc ".") with
    | None => []
    | Some start =>
        if char_at url (start + 1) =? 0 then []
        else
          let start := start + 1 in
          match strcspn_pointer url start [wc "/"; wc "?"] with
          | None => c_str_of (from url start)
          | Some e => wsub url start (e - start)
          end
    end.

End ImageLinks.

(** * Properties *)

(** ** Pointers and buffers *)

Lemma char_at_of_nat (buf : wstring) (k : nat) : char_at buf (Z.of_nat k) = nth k buf 0.
Proof.
  unfold char_at. destruct (Z.ltb_spec (Z.of_nat k) 0); [lia|].
  now rewrite Nat2Z.id.
Qed.

Lemma char_at_nonneg (buf : wstring) (p : Z) :
  0 <= p -> char_at buf p = nth (Z.to_nat p) buf 0.
Proof.
  intro H. unfold char_at. destruct (Z.ltb_spec p 0); [lia|reflexivity].
Qed.

Lemma from_cons (buf : wstring) (p : Z) (c : wchar_t) (l : wstring) :
  0 <= p -> from buf p = c :: l -> char_at buf p = c /\ from buf (p + 1) = l.
Proof.
  intros Hp H. unfold from in *. split.
  - rewrite char_at_nonneg by assumption.
    rewrite <- (firstn_skipn (Z.to_nat p) buf) at 1.
    assert (Hl : (Z.to_nat p < length buf)%nat).
    { destruct (Nat.lt_ge_cases (Z.to_nat p) (length buf)) as [|Hge]; [assumption|].
      rewrite skipn_all2 in H by assumption. discriminate. }
    rewrite app_nth2 by (rewrite length_firstn; lia).
    rewrite length_firstn, H.
    replace (Z.to_nat p - Nat.min (Z.to_nat p) (length buf))%nat with 0%nat by lia.
    reflexivity.
  - replace (Z.to_nat (p + 1)) with (1 + Z.to_nat p)%nat by lia.
    rewrite <- skipn_skipn, H. reflexivity.
Qed.

Lemma from_nil (buf : wstring) (p : Z) :
  0 <= p -> from buf p = [] -> char_at buf p = 0.
Proof.
  intros Hp H. rewrite char_at_nonneg by assumption.
  apply nth_overflow. unfold from in H.
  destruct (Nat.lt_ge_cases (Z.to_nat p) (length buf)) as [Hlt|]; [|assumption].
  apply (f_equal (@length _)) in H. rewrite length_skipn in H. simpl in H. lia.
Qed.

Lemma from_length (buf : wstring) (p : Z) :
  0 <= p -> wlen (from buf p) = Z.max 0 (wlen buf - p).
Proof.
  intro Hp. unfold wlen, from. rewrite length_skipn. lia.
Qed.

Lemma char_at_in_from (buf : wstring) (p : Z) (l : wstring) (k : nat) :
  0 <= p -> from buf p = l -> char_at buf (p + Z.of_nat k) = nth k l 0.
Proof.
  intros Hp E. rewrite char_at_nonneg by lia. subst l. unfold from.
  rewrite nth_skipn. f_equal. lia.
Qed.

(** ** The symbol font conversion *)

Lemma convert_symbol_font_loop_spec (s : wstring) (rounds k : nat) (acc : wstring) :
  convert_symbol_font_loop s rounds (Z.of_nat k) acc
  = acc ++ map (fun j => symbol_font_table_find (nth j s 0)) (seq k rounds).
Proof.
  revert k acc. induction rounds as [|rounds IH]; intros k acc; simpl.
  - now rewrite app_nil_r.
  - replace (Z.of_nat k + 1) with (Z.of_nat (S k)) by lia.
    rewrite IH, char_at_of_nat, <- app_assoc. reflexivity.
Qed.

Lemma convert_symbol_font_section_map (s : wstring) :
  convert_symbol_font_section s = map symbol_font_table_find s.
Proof.
  unfold convert_symbol_font_section.
  change 0 with (Z.of_nat 0).
  rewrite (convert_symbol_font_loop_spec s (length s) 0 []). simpl.
  rewrite <- (map_map (fun j => nth j s 0) symbol_font_table_find).
  f_equal.
  assert (H : forall (l pre : wstring),
             map (fun j => nth j (pre ++ l) 0) (seq (length pre) (length l)) = l).
  { induction l as [|x l IH]; intro pre; simpl; [reflexivity|].
    rewrite app_nth2, Nat.sub_diag by lia. simpl. f_equal.
    specialize (IH (pre ++ [x])). rewrite <- app_assoc, length_app in IH. simpl in IH.
    rewrite Nat.add_1_r in IH. exact IH. }
  exact (H s []).
Qed.


(** C10: [convert_symbol_font_section] keeps the length of its input and
    works character by character: character [i] of the result is the
    symbol font table's image of character [i] of the input, and is that
    character itself when the table has no entry for it. *)
Theorem convert_symbol_font_section_pointwise (s : wstring) :
  length (convert_symbol_font_section s) = length s /\
  forall i : nat, (i < length s)%nat ->
    nth i (convert_symbol_font_section s) 0 = symbol_font_table_find (nth i s 0) /\
    (map_find m_symbol_table (nth i s 0) = None ->
     nth i (convert_symbol_font_section s) 0 = nth i s 0).
Proof.
  rewrite convert_symbol_font_section_map. split.
  - apply length_map.
  - intros i Hi.
    assert (E : nth i (map symbol_font_table_find s) 0 = symbol_font_table_find (nth i s 0)).
    { rewrite (nth_indep _ 0 (symbol_font_table_find 0)) by (rewrite length_map; exact Hi).
      apply map_nth. }
    split; [exact E|].
    intro Hnone. rewrite E. unfold symbol_font_table_find. now rewrite Hnone.
Qed.

Lemma convert_symbol_font_section_pointwise_witness :
  nth 1 (convert_symbol_font_section (wstr "a1")) 0 = 49 /\
  nth 0 (convert_symbol_font_section (wstr "a1")) 0 = 945.
Proof.
  destruct (convert_symbol_font_section_pointwise (wstr "a1")) as [_ H].
  split.
  - apply (H 1%nat); [simpl; lia | reflexivity].
  - destruct (H 0%nat) as [H0 _]; [simpl; lia | exact H0].
Defined.

(** ** The quote-aware substring search *)

Section QuoteAwareSearch.
Context {P : Platform}.

(** The comparison loop stops at the first character that differs from
    the needle. *)
Lemma stristr_compare_stops (rounds : nat) (buf : wstring) (string : Z) (strSearch : wstring)
    (i0 : Z) (q sq : bool) (k : nat) :
  (k <= rounds)%nat ->
  (forall j : nat, (j < k)%nat ->
     char_at buf (string + (i0 + Z.of_nat j)) <> 0 /\
     towlower (char_at strSearch (i0 + Z.of_nat j))
     = towlower (char_at buf (string + (i0 + Z.of_nat j)))) ->
  ((k < rounds)%nat ->
     char_at buf (string + (i0 + Z.of_nat k)) <> 0 /\
     towlower (char_at strSearch (i0 + Z.of_nat k))
     <> towlower (char_at buf (string + (i0 + Z.of_nat k)))) ->
  stristr_compare rounds buf string strSearch i0 q sq
  = let '(q', sq') :=
      quotes_after (if (k <? rounds)%nat then S k else k) buf string i0 q sq in
    Stopped (i0 + Z.of_nat k) q' sq'.
Proof.
  revert i0 q sq k. induction rounds as [|rounds IH]; intros i0 q sq k Hk Hmatch Hstop.
  - assert (k = 0%nat) by lia. subst k. simpl. now rewrite Z.add_0_r.
  - destruct k as [|k].
    + destruct (Hstop ltac:(lia)) as [Hnz Hne]. rewrite Z.add_0_r in Hnz, Hne.
      cbn [stristr_compare Nat.ltb Nat.leb quotes_after].
      apply Z.eqb_neq in Hnz. rewrite Hnz.
      destruct (quote_step (char_at buf (string + i0)) (char_at buf string) q sq) as [q' sq'].
      apply Z.eqb_neq in Hne. rewrite Hne. cbn. now rewrite Z.add_0_r.
    + destruct (Hmatch 0%nat ltac:(lia)) as [Hnz Heq]. rewrite Z.add_0_r in Hnz, Heq.
      cbn [stristr_compare].
      apply Z.eqb_neq in Hnz. rewrite Hnz.
      replace (if (S k <? S rounds)%nat then S (S k) else S k)
        with (S (if (k <? rounds)%nat then S k else k))
        by (destruct (Nat.ltb_spec k rounds), (Nat.ltb_spec (S k) (S rounds)); lia).
      cbn [quotes_after].
      destruct (quote_step (char_at buf (string + i0)) (char_at buf string) q sq) as [q' sq'].
      apply Z.eqb_eq in Heq. rewrite Heq. cbn [negb].
      rewrite (IH (i0 + 1) q' sq' k).
      * replace (i0 + 1 + Z.of_nat k) with (i0 + Z.of_nat (S k)) by lia. reflexivity.
      * lia.
      * intros j Hj. specialize (Hmatch (S j) ltac:(lia)).
        replace (i0 + 1 + Z.of_nat j) with (i0 + Z.of_nat (S j)) by lia. exact Hmatch.
      * intro Hlt. specialize (Hstop ltac:(lia)).
        replace (i0 + 1 + Z.of_nat k) with (i0 + Z.of_nat (S k)) by lia. exact Hstop.
Qed.

(** C7 (amended): when the first [i] characters at [string] match the
    needle and character [i] does not, the search goes on [i + 1]
    characters further, just past the character that differed; when the
    whole needle matches, the position is returned unless the scan is
    inside quotes, in which case the search goes on past the match. *)
Theorem stristr_not_quoted_resumes (fuel : nat) (buf : wstring) (string endSentinel : Z)
    (strSearch : wstring) (q sq : bool) (i : nat) :
  string + wlen strSearch <= endSentinel ->
  (i <= length strSearch)%nat ->
  (forall j : nat, (j < i)%nat ->
     char_at buf (string + Z.of_nat j) <> 0 /\
     towlower (char_at strSearch (Z.of_nat j)) = towlower (char_at buf (string + Z.of_nat j))) ->
  ((i < length strSearch)%nat ->
     char_at buf (string + Z.of_nat i) <> 0 /\
     towlower (char_at strSearch (Z.of_nat i))
     <> towlower (char_at buf (string + Z.of_nat i))) ->
  stristr_not_quoted_loop (S fuel) buf string endSentinel strSearch q sq
  = if (i <? length strSearch)%nat then
      let '(q', sq') := quotes_after (S i) buf string 0 q sq in
      stristr_not_quoted_loop fuel buf (string + (Z.of_nat i + 1)) endSentinel strSearch q' sq'
    else
      let '(q', sq') := quotes_after i buf string 0 q sq in
      if q'
      then stristr_not_quoted_loop fuel buf (string + wlen strSearch) endSentinel strSearch
             q' sq'
      else Some string.
Proof.
  intros Hend Hi Hmatch Hstop.
  cbn [stristr_not_quoted_loop].
  destruct (Z.leb_spec (string + wlen strSearch) endSentinel) as [_|]; [|lia].
  rewrite (stristr_compare_stops (length strSearch) buf string strSearch 0 q sq i Hi).
  - destruct (Nat.ltb_spec i (length strSearch)) as [Hlt|Hge].
    + destruct (quotes_after (S i) buf string 0 q sq) as [q' sq'].
      rewrite Z.add_0_l.
      destruct (Z.eqb_spec (Z.of_nat i) (wlen strSearch)) as [E|_]; [unfold wlen in E; lia|].
      reflexivity.
    + destruct (quotes_after i buf string 0 q sq) as [q' sq'].
      rewrite Z.add_0_l.
      destruct (Z.eqb_spec (Z.of_nat i) (wlen strSearch)) as [_|N]; [|unfold wlen in N; lia].
      destruct q'; reflexivity.
  - intros j Hj. rewrite Z.add_0_l. auto.
  - intros Hlt. rewrite Z.add_0_l. auto.
Qed.

End QuoteAwareSearch.

(** In [aaab] the attempt at the first character matches [aa] and fails
    on the third character; the search goes on at the fourth. *)
Lemma stristr_not_quoted_resumes_witness :
  @stristr_not_quoted_loop c_platform 5 (wstr "aaab") 0 4 (wstr "aab") false false
  = @stristr_not_quoted_loop c_platform 4 (wstr "aaab") 3 4 (wstr "aab") false false.
Proof.
  apply (@stristr_not_quoted_resumes c_platform 4 (wstr "aaab") 0 4 (wstr "aab")
           false false 2).
  - vm_compute. discriminate.
  - simpl. lia.
  - intros j Hj.
    destruct j as [|[|j]]; [vm_compute; split; [discriminate|reflexivity]..|lia].
  - intros _. vm_compute. split; discriminate.
Defined.

(** C7 as stated fails: [aab] occurs in [aaab] one character after the
    start, outside of any quotes, and is not found, because the failed
    attempt at the start moves the search three characters on. *)
Lemma stristr_not_quoted_skips_overlapping_match :
  @stristr_not_quoted c_platform (wstr "aaab") (Some 0) 4 (wstr "aab") = None /\
  starts_with c_towlower (wstr "aab") (from (wstr "aaab") 1) = true /\
  existsb (fun c => is_either c 34 39) (wstr "aaab") = false /\
  @stristr_not_quoted_loop c_platform 5 (wstr "aaab") 0 4 (wstr "aab") false false
  <> @stristr_not_quoted_loop c_platform 4 (wstr "aaab") 1 4 (wstr "aab") false false.
Proof.
  repeat split; try reflexivity. vm_compute. discriminate.
Qed.

(** ** The stack-balanced search for a closing element *)

Section ClosingElement.
Context {P : Platform}.

Lemma angle_positions_wcschr (l : wstring) (p : Z) :
  match wcschr_scan l p (wc "<") with
  | None => angle_positions l p = []
  | Some s =>
      p <= s /\ (Z.to_nat (s - p) < length l)%nat /\
      angle_positions l p = s :: angle_positions (skipn (Z.to_nat (s + 1 - p)) l) (s + 1)
  end.
Proof.
  revert p. induction l as [|x l IH]; intro p; cbn [wcschr_scan angle_positions];
    [reflexivity|].
  destruct (x =? 0); [reflexivity|].
  destruct (x =? wc "<").
  - split; [lia|]. split; [rewrite Z.sub_diag; cbn [Z.to_nat length]; lia|].
    replace (p + 1 - p) with 1 by lia. reflexivity.
  - specialize (IH (p + 1)).
    destruct (wcschr_scan l (p + 1) (wc "<")) as [s|]; [|exact IH].
    destruct IH as (Hle & Hlt & IH). split; [lia|]. split; [cbn [length]; lia|].
    rewrite IH.
    replace (Z.to_nat (s + 1 - p)) with (S (Z.to_nat (s + 1 - (p + 1)))) by lia.
    reflexivity.
Qed.

Lemma open_angles_wcschr (buf : wstring) (p : Z) :
  0 <= p ->
  match wcschr buf p (wc "<") with
  | None => open_angles buf p = []
  | Some s =>
      p <= s /\ (length (from buf (s + 1)) < length (from buf p))%nat /\
      open_angles buf p = s :: open_angles buf (s + 1)
  end.
Proof.
  intro Hp. unfold wcschr, open_angles.
  pose proof (angle_positions_wcschr (from buf p) p) as H.
  destruct (wcschr_scan (from buf p) p (wc "<")) as [s|]; [|exact H].
  destruct H as (Hle & Hlt & H). split; [exact Hle|].
  assert (E : from buf (s + 1) = skipn (Z.to_nat (s + 1 - p)) (from buf p)).
  { unfold from. rewrite skipn_skipn. f_equal. lia. }
  split.
  - rewrite E, length_skipn. lia.
  - rewrite H, E. reflexivity.
Qed.

Lemma wcschr_here (buf : wstring) (p : Z) (c : wchar_t) :
  0 <= p -> c <> 0 -> char_at buf p = c -> wcschr buf p c = Some p.
Proof.
  intros Hp Hc E. unfold wcschr.
  destruct (from buf p) as [|x l] eqn:F.
  - apply from_nil in F; [congruence|assumption].
  - apply from_cons in F; [|assumption]. destruct F as [F _].
    simpl. rewrite F in E. subst x.
    apply Z.eqb_neq in Hc. rewrite Hc, Z.eqb_refl. reflexivity.
Qed.

(** The loop over [wcschr] visits the tags one after the other. *)
Lemma find_closing_element_loop_scan (fuel : nat) (buf : wstring) (p sectionEnd : Z)
    (elementTag : wstring) (depth : Z) :
  0 <= p ->
  (length (from buf p) < fuel)%nat ->
  find_closing_element_loop fuel buf (wcschr buf p (wc "<")) sectionEnd elementTag depth
  = balanced_scan (open_angles buf p) buf sectionEnd elementTag depth.
Proof.
  revert p depth. induction fuel as [|fuel IH]; intros p depth Hp Hfuel; [lia|].
  pose proof (open_angles_wcschr buf p Hp) as H.
  cbn [find_closing_element_loop].
  destruct (wcschr buf p (wc "<")) as [s|].
  - destruct H as (Hle & Hlt & H). rewrite H. cbn [balanced_scan].
    destruct (s + wlen elementTag + 1 <? sectionEnd); [|reflexivity].
    unfold depth_change, is_closing_tag, is_opening_tag.
    destruct ((char_at buf (s + 1) =? wc "/") && compare_element buf (s + 2) elementTag true).
    + replace (depth + -1) with (depth - 1) by lia.
      destruct (depth - 1 =? 0); [reflexivity|]. apply IH; lia.
    + destruct (compare_element buf (s + 1) elementTag true).
      * destruct (depth + 1 =? 0); [reflexivity|]. apply IH; lia.
      * rewrite Z.add_0_r. destruct (depth =? 0); [reflexivity|]. apply IH; lia.
  - rewrite H. reflexivity.
Qed.

(** The tag the scan returns is the first at which the depth is zero. *)
Lemma balanced_scan_first_zero (tags : list Z) (buf : wstring) (sectionEnd : Z)
    (elementTag : wstring) (depth s : Z) :
  balanced_scan tags buf sectionEnd elementTag depth = Some s ->
  exists before after,
    tags = before ++ s :: after /\
    depth + balance buf elementTag (before ++ [s]) = 0 /\
    s + wlen elementTag + 1 < sectionEnd /\
    forall k : nat, (k <= length before)%nat ->
      depth + balance buf elementTag (firstn k before) <> 0 \/ k = 0%nat.
Proof.
  revert depth. induction tags as [|t tags IH]; intros depth H; simpl in H; [discriminate|].
  destruct (Z.ltb_spec (t + wlen elementTag + 1) sectionEnd) as [Hb|]; [|discriminate].
  destruct (Z.eqb_spec (depth + depth_change buf elementTag t) 0) as [E|N].
  - injection H as ->. exists [], tags. unfold balance. simpl. repeat split; try lia.
  - apply IH in H. destruct H as (before & after & -> & Hz & Hbound & Hfirst).
    exists (t :: before), after. simpl. repeat split; try lia.
    intros [|k] Hk; [right; reflexivity|left].
    simpl in Hk. simpl.
    destruct (Hfirst k ltac:(lia)) as [Hnz| ->].
    + unfold balance in *. lia.
    + simpl. lia.
Qed.

(** When the scan finds nothing, the depth is zero at no tag that it
    could reach before the end of the section. *)
Lemma balanced_scan_none (tags : list Z) (buf : wstring) (sectionEnd : Z)
    (elementTag : wstring) (depth : Z) :
  balanced_scan tags buf sectionEnd elementTag depth = None ->
  forall k : nat, (1 <= k <= length tags)%nat ->
    Forall (fun t => t + wlen elementTag + 1 < sectionEnd) (firstn k tags) ->
    depth + balance buf elementTag (firstn k tags) <> 0.
Proof.
  revert depth. induction tags as [|t tags IH]; intros depth H k Hk Hin;
    [cbn in Hk; lia|].
  destruct k as [|k]; [lia|]. cbn [firstn] in *. cbn [balanced_scan] in H.
  pose proof (Forall_inv Hin) as Ht. cbv beta in Ht.
  destruct (Z.ltb_spec (t + wlen elementTag + 1) sectionEnd) as [_|]; [|lia].
  destruct (Z.eqb_spec (depth + depth_change buf elementTag t) 0) as [|N]; [discriminate|].
  destruct k as [|k].
  - cbn. lia.
  - specialize (IH _ H (S k) ltac:(cbn [length] in Hk; lia) (Forall_inv_tail Hin)).
    cbn [balance fold_right] in *. unfold balance in IH. lia.
Qed.

(** The three ways into [find_closing_element], by the first tag at or
    after the start of the section. *)
Lemma find_closing_element_entry (buf : wstring) (sectionStart sectionEnd : Z)
    (elementTag : wstring) :
  0 <= sectionStart ->
  elementTag <> [] ->
  find_closing_element buf sectionStart sectionEnd elementTag
  = match open_angles buf sectionStart with
    | [] => None
    | first :: _ =>
        if sectionEnd <? first + wlen elementTag then None
        else if is_opening_tag buf elementTag first then
          balanced_scan (open_angles buf (first + 1 + wlen elementTag)) buf sectionEnd
            elementTag 1
        else if is_closing_tag buf elementTag first then Some first
        else balanced_scan (open_angles buf sectionStart) buf sectionEnd elementTag 1
    end.
Proof.
  intros Hp Hne. unfold find_closing_element.
  destruct (Z.eqb_spec (wlen elementTag) 0) as [E|_].
  { destruct elementTag; [contradiction|]. unfold wlen in E. cbn in E. lia. }
  pose proof (find_closing_element_loop_scan (S (length buf)) buf sectionStart sectionEnd
                elementTag 1 Hp) as Hloop.
  pose proof (open_angles_wcschr buf sectionStart Hp) as H.
  destruct (wcschr buf sectionStart (wc "<")) as [first|] eqn:Ew.
  - destruct H as (Hle & _ & H). rewrite H.
    destruct (sectionEnd <? first + wlen elementTag); [reflexivity|].
    cbv zeta. unfold is_opening_tag, is_closing_tag.
    destruct (compare_element buf (first + 1) elementTag true).
    + apply find_closing_element_loop_scan.
      * unfold wlen. lia.
      * unfold from. rewrite length_skipn. lia.
    + replace (first + 1 + 1) with (first + 2) by lia.
      destruct ((char_at buf (first + 1) =? wc "/")
                && compare_element buf (first + 2) elementTag true).
      * f_equal. lia.
      * rewrite <- H. apply Hloop. unfold from. rewrite length_skipn. lia.
  - rewrite H. reflexivity.
Qed.

End ClosingElement.

(** C5 (amended): [find_closing_element] looks at the first [<] at or
    after the start of the section. When it begins a closing tag of the
    element, it is the result. Otherwise the result is that of the
    stack-balanced scan begun at depth one: over the tags after the first
    one when that is an opening tag of the element, which is then taken
    for the element to close, and over all the tags from the start when
    it is not. The depth goes up on every opening tag of the same name
    and down on every closing one; the result is the first tag at which
    the depth is zero, and there is none when the buffer or the section
    ends first. On [<div><div>X</div></div>] a call on the outer [div]
    gives the second [</div>], and a call from inside it gives the
    first. *)
Theorem find_closing_element_stack_balanced :
  (forall (P : Platform) (buf : wstring) (sectionStart sectionEnd : Z) (elementTag : wstring),
     0 <= sectionStart ->
     elementTag <> [] ->
     find_closing_element buf sectionStart sectionEnd elementTag
     = match open_angles buf sectionStart with
       | [] => None
       | first :: _ =>
           if sectionEnd <? first + wlen elementTag then None
           else if is_opening_tag buf elementTag first then
             balanced_scan (open_angles buf (first + 1 + wlen elementTag)) buf sectionEnd
               elementTag 1
           else if is_closing_tag buf elementTag first then Some first
           else balanced_scan (open_angles buf sectionStart) buf sectionEnd elementTag 1
       end) /\
  (forall (P : Platform) (tags : list Z) (buf : wstring) (sectionEnd : Z)
          (elementTag : wstring),
     match balanced_scan tags buf sectionEnd elementTag 1 with
     | Some s =>
         exists before after,
           tags = before ++ s :: after /\
           1 + balance buf elementTag (before ++ [s]) = 0 /\
           s + wlen elementTag + 1 < sectionEnd /\
           forall k : nat, (k <= length before)%nat ->
             1 + balance buf elementTag (firstn k before) <> 0
     | None =>
         forall k : nat, (k <= length tags)%nat ->
           Forall (fun t => t + wlen elementTag + 1 < sectionEnd) (firstn k tags) ->
           1 + balance buf elementTag (firstn k tags) <> 0
     end) /\
  @open_angles (wstr "<div><div>X</div></div>") 0 = [0; 5; 11; 17] /\
  @find_closing_element c_platform (wstr "<div><div>X</div></div>") 0 23 (wstr "div")
  = Some 17 /\
  @find_closing_element c_platform (wstr "<div><div>X</div></div>") 4 23 (wstr "div")
  = Some 11.
Proof.
  split; [|split; [|repeat split; reflexivity]].
  - intros P buf sectionStart sectionEnd elementTag. apply find_closing_element_entry.
  - intros P tags buf sectionEnd elementTag.
    destruct (balanced_scan tags buf sectionEnd elementTag 1) as [s|] eqn:E.
    + apply balanced_scan_first_zero in E.
      destruct E as (before & after & Ht & Hz & Hb & Hfirst).
      exists before, after. repeat split; try assumption.
      intros k Hk. destruct (Hfirst k Hk) as [H| ->]; [exact H|]. simpl. lia.
    + intros k Hk Hin. destruct k as [|k]; [cbn; lia|].
      apply (balanced_scan_none _ _ _ _ _ E); [lia|exact Hin].
Qed.

Lemma find_closing_element_stack_balanced_witness :
  @find_closing_element c_platform (wstr "<p><p>a</p><p>b</p></p>") 0 23 (wstr "p")
  = @balanced_scan c_platform [3; 7; 11; 15; 19] (wstr "<p><p>a</p><p>b</p></p>") 23
      (wstr "p") 1.
Proof.
  destruct find_closing_element_stack_balanced as [H _].
  apply (H c_platform (wstr "<p><p>a</p><p>b</p></p>") 0 23 (wstr "p")); [lia|discriminate].
Defined.

(** C5, the claim as stated fails for a call from inside the element: on
    [<div><div>X</div></div>], started at the [>] of the outer opening
    tag, the inner [<div>] is taken for the element to close and the
    result is the first [</div>], which leaves the outer [div] open. *)
Lemma find_closing_element_from_inside :
  @find_closing_element c_platform (wstr "<div><div>X</div></div>") 4 23 (wstr "div")
  = Some 11 /\
  @find_closing_element c_platform (wstr "<div><div>X</div></div>") 0 23 (wstr "div")
  = Some 17 /\
  @balance c_platform (wstr "<div><div>X</div></div>") (wstr "div") [0; 5; 11] = 1.
Proof. repeat split; reflexivity. Qed.

(** ** URL resolution *)

Lemma rfind_scan_spec (ch : wchar_t) (l : wstring) :
  forall i pos best,
    let r := rfind_scan l i pos ch best in
    (r = best /\
     forall j : nat, (j < length l)%nat -> i + Z.of_nat j <= pos -> nth j l 0 <> ch)
    \/ (exists k : nat, r = i + Z.of_nat k /\ (k < length l)%nat /\ r <= pos /\
        nth k l 0 = ch /\
        forall j : nat, (k < j < length l)%nat -> i + Z.of_nat j <= pos -> nth j l 0 <> ch).
Proof.
  induction l as [|x l IH]; intros i pos best; cbn [rfind_scan].
  - left. split; [reflexivity|]. simpl. intros j Hj. lia.
  - destruct (Z.ltb_spec pos i) as [Hlt|Hge].
    + left. split; [reflexivity|]. intros j _ Hj. lia.
    + specialize (IH (i + 1) pos (if x =? ch then i else best)).
      cbv zeta in IH. destruct IH as [[E Hno]|(k & E & Hk & Hle & Hch & Hno)].
      * destruct (Z.eqb_spec x ch) as [Ex|Nx].
        -- right. exists 0%nat. rewrite E. simpl. repeat split; try lia; try assumption.
           intros [|j] Hj Hpos; [lia|]. apply Hno; lia.
        -- left. split; [exact E|]. intros [|j] Hj Hpos; [exact Nx|].
           simpl in Hj. apply Hno; lia.
      * right. exists (S k). rewrite E. simpl. repeat split; try lia; try assumption.
        intros [|j] Hj Hpos; [lia|]. apply Hno; lia.
Qed.





(** A root url seen through the positions of its slashes. *)
Section SlashPositions.
Context {P : Platform}.

Variable root : wstring.
(** The positions of the slashes of [root], in increasing order. *)
Variable slashes : list Z.

Let S (i : nat) : Z := nth i slashes 0.
Let N : nat := length slashes.

Hypothesis root_small : wlen root < SIZE_MOD.
Hypothesis slashes_increase : forall i j : nat, (i < j < N)%nat -> S i < S j.
Hypothesis slashes_in_root : forall i : nat, (i < N)%nat -> 0 < S i < wlen root.
Hypothesis slashes_complete :
  forall j, 0 <= j < wlen root ->
    (char_at root j = wc "/" <-> exists i : nat, (i < N)%nat /\ S i = j).




(** The shape [scheme://host/dir/.../dir/file]: the first two slashes are
    those of the protocol separator, the third ends a host that is not
    empty, and no directory name is empty. *)
Hypothesis separator : (3 <= N)%nat /\ S 1 = S 0 + 1 /\ S 1 + 2 <= S 2.
Hypothesis directories_named :
  forall i : nat, (2 <= i)%nat -> (i + 1 < N)%nat -> S i + 2 <= S (i + 1).





End SlashPositions.





Section Classification.
Context {P : Platform}.
Variable is_absolute_url : wstring -> bool.
Variable u : html_url_format.
Variable is_image : bool.




End Classification.


Section WalkBack.
Context {P : Platform}.
Variable is_absolute_url : wstring -> bool.



End WalkBack.




(** ** The raw text decoder *)

Section RawText.
Context {P : Platform}.

Lemma strncspn_scan_bounds (l : wstring) (i n : Z) (reject : wstring) :
  i <= n -> i <= strncspn_scan l i n reject <= n.
Proof.
  revert i. induction l as [|x l IH]; intros i Hi; cbn [strncspn_scan].
  - destruct (n <=? i); lia.
  - destruct (Z.leb_spec n i); [lia|].
    destruct (in_set x reject); [lia|].
    specialize (IH (i + 1)). lia.
Qed.

Lemma strncspn_bounds (buf : wstring) (s n : Z) (reject : wstring) :
  0 <= n -> 0 <= strncspn buf s n reject <= n.
Proof. intro Hn. unfold strncspn. apply strncspn_scan_bounds. exact Hn. Qed.

Lemma strncspn_nil (buf : wstring) (s n : Z) (reject : wstring) :
  from buf s = [] -> strncspn buf s n reject = n.
Proof.
  intro E. unfold strncspn. rewrite E. cbn. destruct (n <=? 0); reflexivity.
Qed.

Lemma strcspn_pointer_scan_ge (l : wstring) (p : Z) (reject : wstring) (r : Z) :
  strcspn_pointer_scan l p reject = Some r -> p <= r.
Proof.
  revert p. induction l as [|x l IH]; intros p H; cbn [strcspn_pointer_scan] in H;
    [discriminate|].
  destruct (x =? 0); [discriminate|].
  destruct (in_set x reject).
  - injection H as <-. lia.
  - apply IH in H. lia.
Qed.

Lemma strcspn_pointer_ge (buf : wstring) (s : Z) (reject : wstring) (r : Z) :
  strcspn_pointer buf s reject = Some r -> s <= r.
Proof. apply strcspn_pointer_scan_ge. Qed.

Lemma strnchr_scan_ge (l : wstring) (p : Z) (c : wchar_t) (n r : Z) :
  strnchr_scan l p c n = Some r -> p <= r.
Proof.
  revert p n. induction l as [|x l IH]; intros p n H; cbn [strnchr_scan] in H.
  - destruct (n <=? 0); discriminate.
  - destruct (n <=? 0); [discriminate|].
    destruct (x =? 0); [discriminate|].
    destruct (x =? c).
    + injection H as <-. lia.
    + apply IH in H. lia.
Qed.

Lemma strnchr_ge (buf : wstring) (s : Z) (c : wchar_t) (n r : Z) :
  strnchr buf s c n = Some r -> s <= r.
Proof. apply strnchr_scan_ge. Qed.

Lemma next_terminator_ge (n : nat) (buf : wstring) (p bound : Z) :
  p <= next_terminator n buf p bound.
Proof.
  revert p. induction n as [|n IH]; intro p; cbn [next_terminator]; [lia|].
  destruct (negb (iswspace (char_at buf p)) && negb (char_at buf p =? wc ";") && (p <? bound));
    [|lia].
  specialize (IH (p + 1)). lia.
Qed.

Lemma decode_named_semicolon_ge (buf : wstring) (text textSize index semicolon : Z)
    (e e' : html_extract_text) (semicolon' : Z) :
  decode_named buf text textSize index semicolon e = (e', semicolon') ->
  semicolon <= semicolon'.
Proof.
  unfold decode_named. intro H.
  repeat match type of H with
         | (if ?c then _ else _) = _ => destruct c
         | (match (if ?c then _ else _) with _ => _ end) = _ => destruct c
         | (let e := _ in _) = _ => cbv zeta in H
         end;
  injection H as _ <-; try lia.
  pose proof (next_terminator_ge (Z.to_nat (text + textSize - (semicolon + 1))) buf
                (semicolon + 1) (text + textSize)).
  lia.
Qed.

(** A round that goes on leaves [text] further in the buffer. *)
Lemma parse_raw_text_round_advances (buf : wstring) (e : html_extract_text)
    (text textSize : Z) (e' : html_extract_text) (text' textSize' : Z) :
  0 < textSize ->
  parse_raw_text_round buf e text textSize = Again e' text' textSize' ->
  text < text'.
Proof.
  intros Hsize H. unfold parse_raw_text_round in H.
  set (index := if 0 <? m_is_in_preformatted_text_block_stack e
                then strncspn buf text textSize (wstr "&$")
                else strncspn buf text textSize [13; 10; wc "&"; wc "$"]) in H.
  assert (Hindex : 0 <= index).
  { subst index. destruct (0 <? m_is_in_preformatted_text_block_stack e);
      apply strncspn_bounds; lia. }
  destruct (index <? textSize); [|discriminate].
  destruct (char_at buf (text + index) =? wc "&").
  - destruct (strcspn_pointer buf (text + index + 1) [wc ";"; wc "<"; wc " "; 9; 10; 13])
      as [semicolon|] eqn:Esc.
    + apply strcspn_pointer_ge in Esc.
      destruct (text + textSize <? semicolon).
      * injection H as _ <- _. lia.
      * destruct (iswspace (char_at buf (text + index + 1))).
        -- injection H as _ <- _. lia.
        -- destruct (char_at buf (text + index + 1) =? wc "#").
           ++ injection H as _ <- _. lia.
           ++ destruct (decode_named buf text textSize index semicolon
                          (if 0 <? index then add_characters (wsub buf text index) e else e))
                as [e1 sc1] eqn:Ed.
              apply decode_named_semicolon_ge in Ed.
              injection H as _ <- _. lia.
    + injection H as _ <- _. lia.
  - destruct (char_at buf (text + index) =? wc "$").
    + destruct ((index + 1 <? textSize) && (char_at buf (text + index + 1) =? wc "{")).
      * destruct (strnchr buf (text + 1) (wc "}") textSize) as [closingBrace|] eqn:Ec.
        -- apply strnchr_ge in Ec.
           destruct (text + textSize <? closingBrace); injection H as _ <- _; lia.
        -- injection H as _ <- _. lia.
      * injection H as _ <- _. lia.
    + injection H as _ <- _. lia.
Qed.

(** At the end of the buffer the loop is left. *)
Lemma parse_raw_text_round_at_end (buf : wstring) (e : html_extract_text)
    (text textSize : Z) :
  from buf text = [] ->
  parse_raw_text_round buf e text textSize = Leave e text textSize.
Proof.
  intro E. unfold parse_raw_text_round.
  rewrite !(strncspn_nil buf text textSize) by exact E.
  destruct (0 <? m_is_in_preformatted_text_block_stack e);
    rewrite Z.ltb_irrefl; reflexivity.
Qed.

(** The loop never runs out of fuel: more fuel than there are characters
    left in the buffer changes nothing. *)
Lemma parse_raw_text_loop_fuel (fuel : nat) (buf : wstring) (e : html_extract_text)
    (text textSize : Z) :
  0 <= text ->
  wlen buf - text < Z.of_nat fuel ->
  parse_raw_text_loop fuel buf e text textSize
  = parse_raw_text_loop (S fuel) buf e text textSize.
Proof.
  revert e text textSize. induction fuel as [|fuel IH]; intros e text textSize Htext Hfuel.
  - cbn [parse_raw_text_loop].
    destruct (Z.ltb_spec 0 textSize); [|reflexivity].
    rewrite parse_raw_text_round_at_end; [reflexivity|].
    unfold from. apply skipn_all2. unfold wlen in Hfuel. lia.
  - change (parse_raw_text_loop (S (S fuel)) buf e text textSize)
      with (if 0 <? textSize then
              match parse_raw_text_round buf e text textSize with
              | Again e text textSize => parse_raw_text_loop (S fuel) buf e text textSize
              | Leave e text textSize => (e, text, textSize)
              end
            else (e, text, textSize)).
    cbn [parse_raw_text_loop].
    destruct (Z.ltb_spec 0 textSize) as [Hsize|]; [|reflexivity].
    destruct (parse_raw_text_round buf e text textSize) as [e' text' textSize'|] eqn:E;
      [|reflexivity].
    apply parse_raw_text_round_advances in E; [|exact Hsize].
    apply IH; lia.
Qed.

Lemma parse_raw_text_loop_enough (fuel : nat) (buf : wstring) (e : html_extract_text)
    (text textSize : Z) :
  0 <= text ->
  wlen buf - text < Z.of_nat fuel ->
  parse_raw_text_loop fuel buf e text textSize
  = parse_raw_text_loop (S (length buf)) buf e text textSize.
Proof.
  intros Htext Hfuel.
  assert (H : forall d : nat,
             parse_raw_text_loop fuel buf e text textSize
             = parse_raw_text_loop (d + fuel) buf e text textSize).
  { induction d as [|d IH]; [reflexivity|].
    rewrite IH. cbn [Nat.add]. apply parse_raw_text_loop_fuel; lia. }
  assert (H' : forall d : nat,
             parse_raw_text_loop (S (length buf)) buf e text textSize
             = parse_raw_text_loop (d + S (length buf)) buf e text textSize).
  { induction d as [|d IH]; [reflexivity|].
    rewrite IH. cbn [Nat.add]. apply parse_raw_text_loop_fuel; unfold wlen; lia. }
  rewrite (H (S (length buf))), (H' fuel). f_equal. lia.
Qed.


(** *** Numeric character references *)

Lemma from_app (buf : wstring) (p : Z) (l1 l2 : wstring) :
  0 <= p -> from buf p = l1 ++ l2 -> from buf (p + wlen l1) = l2.
Proof.
  intros Hp E. unfold from, wlen in *.
  replace (Z.to_nat (p + Z.of_nat (length l1))) with (length l1 + Z.to_nat p)%nat by lia.
  rewrite <- skipn_skipn, E, skipn_app, skipn_all, Nat.sub_diag. reflexivity.
Qed.

Lemma char_at_hd (buf : wstring) (p : Z) :
  0 <= p -> char_at buf p = hd 0 (from buf p).
Proof.
  intro Hp. destruct (from buf p) as [|c l] eqn:E.
  - now apply from_nil.
  - apply from_cons in E; [|exact Hp]. simpl. tauto.
Qed.

Lemma wsub_from (buf : wstring) (p : Z) (l1 l2 : wstring) :
  from buf p = l1 ++ l2 -> wsub buf p (wlen l1) = l1.
Proof.
  intro E. unfold wsub. rewrite E.
  assert (Hlen : (length l1 <= length buf)%nat).
  { apply (f_equal (@length _)) in E. unfold from in E.
    rewrite length_skipn, length_app in E. lia. }
  unfold wlen. rewrite Z.min_l by lia. rewrite Nat2Z.id.
  rewrite firstn_app, Nat.sub_diag, firstn_all. simpl. apply app_nil_r.
Qed.

Lemma strncspn_scan_skip (skip rest : wstring) (c : wchar_t) (i n : Z) (reject : wstring) :
  Forall (fun x => in_set x reject = false) skip ->
  in_set c reject = true ->
  i + wlen skip < n ->
  strncspn_scan (skip ++ c :: rest) i n reject = i + wlen skip.
Proof.
  revert i. induction skip as [|x skip IH]; intros i Hskip Hc Hn; cbn [app strncspn_scan].
  - unfold wlen in *. simpl in *. destruct (Z.leb_spec n i); [lia|]. rewrite Hc. lia.
  - inversion Hskip as [|? ? Hx Hskip']; subst.
    unfold wlen in *. cbn [length] in *.
    destruct (Z.leb_spec n i); [lia|]. rewrite Hx.
    rewrite IH by (assumption || lia). lia.
Qed.

Lemma strcspn_pointer_scan_skip (skip rest : wstring) (c : wchar_t) (p : Z)
    (reject : wstring) :
  Forall (fun x => x <> 0 /\ in_set x reject = false) skip ->
  c <> 0 -> in_set c reject = true ->
  strcspn_pointer_scan (skip ++ c :: rest) p reject = Some (p + wlen skip).
Proof.
  revert p. induction skip as [|x skip IH]; intros p Hskip Hc0 Hc;
    cbn [app strcspn_pointer_scan].
  - apply Z.eqb_neq in Hc0. rewrite Hc0, Hc. unfold wlen. simpl. f_equal. lia.
  - inversion Hskip as [|? ? [Hx0 Hx] Hskip']; subst.
    apply Z.eqb_neq in Hx0. rewrite Hx0, Hx.
    rewrite IH by assumption. unfold wlen. cbn [length]. f_equal. lia.
Qed.





Lemma decimal_is_hexadecimal_digit (c : wchar_t) :
  is_digit c = true -> hex_digit c = c - 48.
Proof. unfold is_digit, hex_digit, hex_digit_value. intros ->. reflexivity. Qed.

Lemma wrote_nothing (e : html_extract_text) : wrote e e [].
Proof. unfold wrote. rewrite app_nil_r. auto. Qed.

Lemma wrote_add_characters (e : html_extract_text) (cs : wstring) :
  wrote e (add_characters cs e) cs.
Proof. unfold wrote. cbn. auto. Qed.

Lemma wrote_add_character (e : html_extract_text) (c : wchar_t) :
  wrote e (add_character c e) [c].
Proof. unfold wrote. cbn. auto. Qed.

Lemma wrote_log_message (e e' : html_extract_text) (cs msg : wstring) :
  wrote e e' cs -> wrote (log_message msg e) e' cs.
Proof. unfold wrote. cbn. auto. Qed.


Lemma wrote_trans (e1 e2 e3 : html_extract_text) (cs1 cs2 : wstring) :
  wrote e1 e2 cs1 -> wrote e2 e3 cs2 -> wrote e1 e3 (cs1 ++ cs2).
Proof.
  unfold wrote. intros (B1 & P1 & S1 & U1) (B2 & P2 & S2 & U2).
  rewrite B2, B1, app_assoc. repeat split; congruence.
Qed.

Lemma plain_preformatted (c : wchar_t) : plain c -> in_set c (wstr "&$") = false.
Proof.
  unfold plain, in_set. change (wstr "&$") with [wc "&"; wc "$"]. cbn [existsb].
  intro H. apply orb_false_iff in H. destruct H as [_ H].
  apply orb_false_iff in H. destruct H as [_ H]. exact H.
Qed.


Lemma parse_raw_text_loop_S (fuel : nat) (buf : wstring) (e : html_extract_text)
    (text textSize : Z) :
  parse_raw_text_loop (S fuel) buf e text textSize
  = if 0 <? textSize then
      match parse_raw_text_round buf e text textSize with
      | Again e text textSize => parse_raw_text_loop fuel buf e text textSize
      | Leave e text textSize => (e, text, textSize)
      end
    else (e, text, textSize).
Proof. reflexivity. Qed.

(** From the round to the whole of [parse_raw_text]. *)
Lemma parse_raw_text_after_round (buf : wstring) (e e' : html_extract_text)
    (text textSize k : Z) :
  0 <= text -> 0 < k <= textSize ->
  parse_raw_text_round buf e text textSize = Again e' (text + k) (textSize - k) ->
  parse_raw_text buf text textSize e = parse_raw_text buf (text + k) (textSize - k) e'.
Proof.
  intros Htext Hk Hround. unfold parse_raw_text.
  destruct (Z.ltb_spec 0 textSize) as [Hpos|]; [|lia].
  rewrite (parse_raw_text_loop_S (length buf) buf e text textSize).
  destruct (Z.ltb_spec 0 textSize); [|lia].
  rewrite Hround.
  destruct (Z.ltb_spec 0 (textSize - k)) as [Hmore|Hdone].
  - rewrite (parse_raw_text_loop_enough (length buf)) by (unfold wlen; lia).
    reflexivity.
  - assert (E : textSize - k = 0) by lia. rewrite E.
    destruct (length buf); reflexivity.
Qed.











Lemma wlen_app (a b : wstring) : wlen (a ++ b) = wlen a + wlen b.
Proof. unfold wlen. rewrite length_app. lia. Qed.


End RawText.




(** ** The engine: appended text and stack counters *)

Lemma extends_refl (a : wstring) : extends a a.
Proof. exists []. now rewrite app_nil_r. Qed.

Lemma extends_trans (c b a : wstring) : extends b a -> extends c b -> extends c a.
Proof. intros [x ->] [y ->]. exists (x ++ y). now rewrite app_assoc. Qed.

Lemma extends_app (a c : wstring) : extends (a ++ c) a.
Proof. now exists c. Qed.

Lemma text_after_app (a : wstring) (s1 s2 : list snapshot) :
  text_after a (s2 ++ s1) = text_after (text_after a s1) s2.
Proof. destruct s2; reflexivity. Qed.

Lemma appended_app (a : wstring) (s1 s2 : list snapshot) :
  appended a s1 -> appended (text_after a s1) s2 -> appended a (s2 ++ s1).
Proof.
  intro H1. induction s2 as [|s s2 IH]; intro H2; [exact H1|].
  cbn [app appended] in *. destruct H2 as [H2 Hs].
  split; [apply IH, H2|]. now rewrite text_after_app.
Qed.

Lemma stepwise_app (a : wstring) (s1 s2 : list snapshot) :
  stepwise a s1 -> stepwise (text_after a s1) s2 -> stepwise a (s2 ++ s1).
Proof.
  intros H1 H2. induction H2 as [|s steps H2 IH Hs|put cut steps before added H2 IH Hb Hc Hp];
    cbn [app].
  - exact H1.
  - apply stepwise_append; [exact IH|]. now rewrite text_after_app.
  - apply (stepwise_symbol a put cut (steps ++ s1) before added); try assumption.
    now rewrite text_after_app.
Qed.

Lemma appended_stepwise (a : wstring) (steps : list snapshot) :
  appended a steps -> stepwise a steps.
Proof.
  induction steps as [|s steps IH]; intro H; [constructor|].
  destruct H as [H Hs]. apply stepwise_append; [apply IH, H|exact Hs].
Qed.

Lemma same_meta_refl (e : html_extract_text) : same_meta e e.
Proof. intro f. reflexivity. Qed.

Lemma same_meta_trans (e1 e2 e3 : html_extract_text) :
  same_meta e1 e2 -> same_meta e2 e3 -> same_meta e1 e3.
Proof. intros H1 H2 f. now rewrite H2, H1. Qed.

Lemma writes_refl (e : html_extract_text) : writes e e.
Proof.
  split; [apply extends_refl|]. split; [repeat split|].
  exists []. split; [reflexivity|]. split; [constructor|].
  split; [exact I|]. split; [reflexivity|apply same_meta_refl].
Qed.

Lemma writes_trans (e1 e2 e3 : html_extract_text) :
  writes e1 e2 -> writes e2 e3 -> writes e1 e3.
Proof.
  intros (X1 & (P1 & S1 & U1) & t1 & T1 & F1 & A1 & B1 & M1)
         (X2 & (P2 & S2 & U2) & t2 & T2 & F2 & A2 & B2 & M2).
  cbn in P1, S1, U1, P2, S2, U2.
  split; [eapply extends_trans; eassumption|].
  split; [repeat split; cbn; congruence|].
  exists (t2 ++ t1). split; [rewrite T2, T1; apply app_assoc|].
  split; [|split; [|split]].
  - apply Forall_app. split; [|exact F1].
    eapply Forall_impl; [|exact F2].
    intros s (A & B & C). repeat split; congruence.
  - apply appended_app; [exact A1|]. now rewrite <- B1.
  - now rewrite text_after_app, <- B1.
  - eapply same_meta_trans; eassumption.
Qed.

Lemma writes_set_text_buffer (e : html_extract_text) (b : wstring) :
  extends b (m_text_buffer e) -> writes e (set_text_buffer b e).
Proof.
  intro H. split; [exact H|]. split; [repeat split|].
  eexists [_]. split; [reflexivity|]. split; [repeat constructor|].
  split; [split; [exact I|exact H]|]. split; [reflexivity|].
  intros []; reflexivity.
Qed.

Lemma writes_add_character (c : wchar_t) (e : html_extract_text) :
  writes e (add_character c e).
Proof. apply writes_set_text_buffer, extends_app. Qed.

Lemma writes_add_characters (cs : wstring) (e : html_extract_text) :
  writes e (add_characters cs e).
Proof. apply writes_set_text_buffer, extends_app. Qed.

Lemma writes_log_message (msg : wstring) (e : html_extract_text) :
  writes e (log_message msg e).
Proof.
  split; [apply extends_refl|]. split; [repeat split|].
  exists []. split; [reflexivity|]. split; [constructor|].
  split; [exact I|]. split; [reflexivity|intros []; reflexivity].
Qed.

Create HintDb writes.

#[local] Hint Resolve writes_refl writes_add_character writes_add_characters
  writes_log_message : writes.

Ltac writes_step :=
  first [ apply writes_refl
        | eapply writes_trans; [|first [apply writes_add_character
                                       |apply writes_add_characters
                                       |apply writes_log_message]] ].

Section EngineSteps.
Context {P : Platform}.

Lemma writes_add_converted (f : wchar_t -> wchar_t) (cs : wstring) (e : html_extract_text) :
  writes e (add_converted f cs e).
Proof.
  unfold add_converted. revert e. induction cs as [|c cs IH]; intro e; cbn [fold_left].
  - apply writes_refl.
  - eapply writes_trans; [apply writes_add_character|apply IH].
Qed.

Lemma writes_add_literal (cs : wstring) (e : html_extract_text) :
  writes e (add_literal cs e).
Proof.
  unfold add_literal.
  destruct (0 <? m_superscript_stack e); [apply writes_add_converted|].
  destruct (0 <? m_subscript_stack e); [apply writes_add_converted|].
  apply writes_add_characters.
Qed.

Lemma writes_add_ligature (value : wchar_t) (e : html_extract_text) :
  writes e (add_ligature value e).
Proof.
  unfold add_ligature.
  repeat match goal with |- context [if ?c then _ else _] => destruct c end;
    auto with writes.
Qed.

Lemma writes_decode_numeric (buf : wstring) (text textSize index semicolon : Z)
    (e : html_extract_text) :
  writes e (decode_numeric buf text textSize index semicolon e).
Proof.
  unfold decode_numeric. cbv zeta.
  repeat match goal with |- context [if ?c then _ else _] => destruct c end;
    try apply writes_add_ligature; auto with writes.
  eapply writes_trans; [apply writes_log_message|apply writes_add_characters].
Qed.

Lemma writes_decode_named (buf : wstring) (text textSize index semicolon : Z)
    (e : html_extract_text) :
  writes e (fst (decode_named buf text textSize index semicolon e)).
Proof.
  unfold decode_named. cbv zeta.
  repeat match goal with
         | |- context [if ?c then _ else _] => destruct c
         end; cbn [fst];
    repeat first [ apply writes_refl
                 | eapply writes_trans; [|first [apply writes_add_character
                                                |apply writes_add_characters
                                                |apply writes_log_message]] ].
Qed.

End EngineSteps.

(** Peels the writing primitives off the engine of the goal. *)
Ltac solve_writes :=
  repeat lazymatch goal with
    | |- writes ?e ?e => apply writes_refl
    | |- writes ?e (add_character _ ?x) =>
        apply (writes_trans e x); [|apply writes_add_character]
    | |- writes ?e (add_characters _ ?x) =>
        apply (writes_trans e x); [|apply writes_add_characters]
    | |- writes ?e (log_message _ ?x) =>
        apply (writes_trans e x); [|apply writes_log_message]
    | |- writes ?e (add_literal _ ?x) =>
        apply (writes_trans e x); [|apply writes_add_literal]
    | |- writes ?e (add_ligature _ ?x) =>
        apply (writes_trans e x); [|apply writes_add_ligature]
    | |- writes ?e (decode_numeric _ _ _ _ _ ?x) =>
        apply (writes_trans e x); [|apply writes_decode_numeric]
    | |- writes ?e (if ?c then _ else _) => destruct c
    end.

Section RawTextWrites.
Context {P : Platform}.

Lemma writes_parse_raw_text_round (buf : wstring) (e : html_extract_text)
    (text textSize : Z) :
  writes e (round_engine (parse_raw_text_round buf e text textSize)).
Proof.
  unfold parse_raw_text_round.
  match goal with |- context [?i <? textSize] => set (index := i) end.
  cbv zeta.
  destruct (index <? textSize); [|apply writes_refl].
  destruct (char_at buf (text + index) =? wc "&").
  - destruct (strcspn_pointer buf (text + index + 1) _) as [semicolon|];
      [destruct (text + textSize <? semicolon)|]; cbn [round_engine]; try solve_writes.
    destruct (iswspace (char_at buf (text + index + 1))); [cbn [round_engine]; solve_writes|].
    destruct (char_at buf (text + index + 1) =? wc "#"); [cbn [round_engine]; solve_writes|].
    match goal with
    | |- context [decode_named ?b ?t ?ts ?i ?s ?e0] =>
        pose proof (writes_decode_named b t ts i s e0) as Hd;
        destruct (decode_named b t ts i s e0) as [e1 sc1]
    end.
    cbn [round_engine fst] in *.
    eapply writes_trans; [|exact Hd]. solve_writes.
  - destruct (char_at buf (text + index) =? wc "$").
    + match goal with
      | |- context [match ?x with Some _ => _ | None => _ end] =>
          destruct x as [closingBrace|]
      end;
        [destruct (text + textSize <? closingBrace)|]; cbn [round_engine]; solve_writes.
    + cbn [round_engine]. solve_writes.
Qed.

Lemma writes_parse_raw_text_loop (fuel : nat) (buf : wstring) (e : html_extract_text)
    (text textSize : Z) :
  writes e (fst (fst (parse_raw_text_loop fuel buf e text textSize))).
Proof.
  revert e text textSize. induction fuel as [|fuel IH]; intros e text textSize;
    cbn [parse_raw_text_loop]; [apply writes_refl|].
  destruct (0 <? textSize); [|apply writes_refl].
  pose proof (writes_parse_raw_text_round buf e text textSize) as Hr.
  destruct (parse_raw_text_round buf e text textSize) as [e1 t1 s1|e1 t1 s1];
    cbn [round_engine] in Hr.
  - eapply writes_trans; [exact Hr|apply IH].
  - exact Hr.
Qed.

Lemma writes_parse_raw_text (buf : wstring) (text textSize : Z) (e : html_extract_text) :
  writes e (parse_raw_text buf text textSize e).
Proof.
  unfold parse_raw_text. destruct (0 <? textSize); [|apply writes_refl].
  pose proof (writes_parse_raw_text_loop (S (length buf)) buf e text textSize) as H.
  destruct (parse_raw_text_loop (S (length buf)) buf e text textSize) as [[e1 t1] s1].
  cbn [fst] in H.
  destruct (0 <? s1); [|exact H].
  eapply writes_trans; [exact H|apply writes_add_literal].
Qed.

End RawTextWrites.

Lemma writes_engine_ok (e e' : html_extract_text) : writes e e' -> engine_ok e -> engine_ok e'.
Proof.
  intros (_ & (Hp & Hs & Hu) & steps & Ht & Hsteps & _) ((Op & Os & Ou) & Otrace).
  cbn in *. split.
  - repeat split; cbn; lia.
  - rewrite Ht. apply Forall_app. split; [|exact Otrace].
    eapply Forall_impl; [|exact Hsteps].
    intros s (A & B & C). repeat split; lia.
Qed.

Lemma evolves_refl (e : html_extract_text) : evolves e e.
Proof.
  split; [apply extends_refl|]. split; [|auto].
  exists []. split; [reflexivity|]. split; [constructor|reflexivity].
Qed.

Lemma evolves_trans (e1 e2 e3 : html_extract_text) :
  evolves e1 e2 -> evolves e2 e3 -> evolves e1 e3.
Proof.
  intros (X1 & (t1 & T1 & A1 & B1) & O1) (X2 & (t2 & T2 & A2 & B2) & O2).
  split; [eapply extends_trans; eassumption|].
  split; [|auto]. exists (t2 ++ t1). split; [rewrite T2, T1; apply app_assoc|].
  split; [apply stepwise_app; [exact A1|now rewrite <- B1]|].
  now rewrite text_after_app, <- B1.
Qed.

Lemma writes_evolves (e e' : html_extract_text) : writes e e' -> evolves e e'.
Proof.
  intro H. split; [apply H|]. split; [|now apply writes_engine_ok].
  destruct H as (_ & _ & steps & Ht & _ & Ha & Hb & _). exists steps.
  split; [exact Ht|]. split; [now apply appended_stepwise|exact Hb].
Qed.

Lemma evolves_set_stacks (pre sup sub : Z) (e : html_extract_text) :
  (engine_ok e -> 0 <= pre /\ 0 <= sup /\ 0 <= sub) ->
  evolves e (set_stacks pre sup sub e).
Proof.
  intro H. split; [apply extends_refl|]. split.
  - eexists [_]. split; [reflexivity|]. split; [|reflexivity].
    apply stepwise_append; [constructor|apply extends_refl].
  - intro Hok. specialize (H Hok). destruct Hok as [_ Htrace].
    split; [exact H|]. cbn. constructor; [exact H|exact Htrace].
Qed.

Lemma evolves_incr_preformatted (e : html_extract_text) : evolves e (incr_preformatted e).
Proof. apply evolves_set_stacks. intros [(A & B & C) _]. cbn in *. lia. Qed.

Lemma evolves_incr_superscript (e : html_extract_text) : evolves e (incr_superscript e).
Proof. apply evolves_set_stacks. intros [(A & B & C) _]. cbn in *. lia. Qed.

Lemma evolves_incr_subscript (e : html_extract_text) : evolves e (incr_subscript e).
Proof. apply evolves_set_stacks. intros [(A & B & C) _]. cbn in *. lia. Qed.

Section EngineInvariant.
Context {P : Platform}.

(** A closing tag pops its stack only when the stack is not empty. *)
Lemma evolves_close_stacks (buf : wstring) (start : Z) (e : html_extract_text) :
  evolves e (close_stacks buf start e).
Proof.
  unfold close_stacks.
  repeat match goal with
         | |- context [if ?c then _ else _] => destruct c eqn:?
         end; try apply evolves_refl;
    apply evolves_set_stacks; intros [(A & B & C) _]; cbn in *;
    repeat match goal with H : (0 <? _) = true |- _ => apply Z.ltb_lt in H end; lia.
Qed.

(** The unterminated [CDATA] block: the push, the copy and the pop. *)
Lemma evolves_cdata_rest (buf : wstring) (start n : Z) (e : html_extract_text) :
  evolves e (decr_preformatted (parse_raw_text buf start n (incr_preformatted e))).
Proof.
  pose proof (writes_parse_raw_text buf start n (incr_preformatted e)) as Hw.
  assert (Hmid : evolves e (parse_raw_text buf start n (incr_preformatted e))).
  { eapply evolves_trans; [apply evolves_incr_preformatted|apply writes_evolves, Hw]. }
  split; [apply Hmid|]. split.
  - destruct Hmid as (_ & (steps & Ht & Hs & Hb) & _). eexists (_ :: steps).
    cbn. split; [now rewrite Ht|]. split; [|reflexivity].
    apply stepwise_append; [exact Hs|]. cbn. rewrite <- Hb. apply extends_refl.
  - intro Hok. destruct Hmid as (_ & _ & Hmid). specialize (Hmid Hok).
    destruct Hw as (_ & (Hp & Hs & Hu) & _). cbn in Hp, Hs, Hu.
    destruct Hok as [(A & B & C) _]. cbn in A, B, C.
    destruct Hmid as [_ Htrace].
    assert (Hnew : 0 <= m_is_in_preformatted_text_block_stack
                          (parse_raw_text buf start n (incr_preformatted e)) - 1 /\
                   0 <= m_superscript_stack
                          (parse_raw_text buf start n (incr_preformatted e)) /\
                   0 <= m_subscript_stack
                          (parse_raw_text buf start n (incr_preformatted e))) by lia.
    split; [exact Hnew|]. cbn. constructor; [exact Hnew|exact Htrace].
Qed.

(** The two steps of a symbol font section: the cut back to the text
    [e0] held and the conversions of the characters [added] since. *)
Lemma reemit_symbol_font_steps (e0 e1 : html_extract_text) (added : wstring) :
  m_text_buffer e1 = m_text_buffer e0 ++ added ->
  exists put cut,
    m_trace (reemit_symbol_font (get_filtered_text_length e0) e1) = put :: cut :: m_trace e1 /\
    snap_text cut = m_text_buffer e0 /\
    snap_text put = m_text_buffer e0 ++ convert_symbol_font_section added /\
    m_text_buffer (reemit_symbol_font (get_filtered_text_length e0) e1) = snap_text put /\
    same_stacks e1 cut /\ same_stacks e1 put /\
    same_stacks e1 (snap (reemit_symbol_font (get_filtered_text_length e0) e1)) /\
    same_meta e1 (reemit_symbol_font (get_filtered_text_length e0) e1).
Proof.
  intro Hb. unfold reemit_symbol_font. cbv zeta.
  match goal with
  | |- context [if ?c then log_message ?m ?x else ?y] =>
      assert (Et : m_trace (if c then log_message m x else y) = m_trace y)
        by (destruct c; reflexivity);
      assert (Eb : m_text_buffer (if c then log_message m x else y) = m_text_buffer y)
        by (destruct c; reflexivity);
      assert (Es : snap (if c then log_message m x else y) = snap y)
        by (destruct c; reflexivity);
      assert (Em : same_meta e1 (if c then log_message m x else y))
        by (destruct c; intros []; reflexivity);
      rewrite Et, Eb, Es
  end.
  clear Et Eb Es.
  assert (Hcut : firstn (Z.to_nat (get_filtered_text_length e0)) (m_text_buffer e1)
                 = m_text_buffer e0).
  { unfold get_filtered_text_length, wlen. rewrite Nat2Z.id, Hb.
    rewrite firstn_app, Nat.sub_diag, firstn_all. cbn. apply app_nil_r. }
  assert (Hskip : skipn (Z.to_nat (get_filtered_text_length e0)) (get_filtered_text e1)
                  = added).
  { unfold get_filtered_text, get_filtered_text_length, wlen. rewrite Nat2Z.id, Hb.
    rewrite skipn_app, skipn_all, Nat.sub_diag. reflexivity. }
  do 2 eexists. split; [reflexivity|].
  split; [cbn; exact Hcut|]. split; [cbn; rewrite Hcut, Hskip; reflexivity|].
  split; [reflexivity|]. split; [repeat split|]. split; [repeat split|].
  split; [repeat split|exact Em].
Qed.

(** A symbol font section: the text before the section stays and the
    converted characters take the place of the copied ones. *)
Lemma evolves_reemit_symbol_font (e0 e1 : html_extract_text) :
  writes e0 e1 ->
  evolves e0 (reemit_symbol_font (get_filtered_text_length e0) e1).
Proof.
  intros Hw. pose proof Hw as ([added Hb] & Hst & steps & Ht & _ & Ha & Hb' & _).
  destruct (reemit_symbol_font_steps e0 e1 added Hb)
    as (put & cut & Etrace & Ecut & Eput & Etext & Scut & Sput & Send & _).
  split; [|split].
  - rewrite Etext, Eput. apply extends_app.
  - exists (put :: cut :: steps). rewrite Etrace, Ht. split; [reflexivity|].
    split; [|exact Etext].
    apply (stepwise_symbol _ put cut steps (m_text_buffer e0) added); try assumption.
    + now apply appended_stepwise.
    + now rewrite <- Hb'.
  - intro Hok. pose proof (writes_engine_ok e0 e1 Hw Hok) as [Hs1 Ht1].
    assert (Hsame : forall s, same_stacks e1 s -> stacks_ok s).
    { intros s (A & B & C). destruct Hs1 as (A1 & B1 & C1). cbn in A1, B1, C1.
      repeat split; lia. }
    split; [apply Hsame, Send|]. rewrite Etrace.
    constructor; [apply Hsame, Sput|]. constructor; [apply Hsame, Scut|exact Ht1].
Qed.

Lemma two_newlines_writes (e : html_extract_text) : writes e (two_newlines e).
Proof. unfold two_newlines. solve_writes. Qed.

Lemma evolves_element_effects (buf : wstring) (start endSentinel : Z)
    (currentElement : wstring) (e : html_extract_text) :
  evolves e (fst (element_effects buf start endSentinel currentElement e)).
Proof.
  unfold element_effects. cbv zeta.
  repeat match goal with
         | |- context [if ?c then _ else _] => destruct c
         | |- context [match ?x with Some _ => _ | None => _ end] => destruct x
         end; cbn [fst];
    first [ apply evolves_incr_preformatted
          | apply evolves_incr_superscript
          | apply evolves_incr_subscript
          | apply writes_evolves; unfold two_newlines; solve_writes ].
Qed.

End EngineInvariant.

Section MainLoop.
Context {P : Platform}.

Lemma evolves_set_meta (f : meta_field) (v : wstring) (e : html_extract_text) :
  evolves e (set_meta f v e).
Proof.
  split; [apply extends_refl|]. split.
  - exists []. split; [reflexivity|]. split; [constructor|reflexivity].
  - intros [Hs Ht]. split; assumption.
Qed.

Lemma dispatch_evolves_skip_element (buf : wstring) (start : Z) (closing : wstring)
    (e : html_extract_text) :
  dispatch_evolves e (skip_element buf start closing e).
Proof.
  unfold skip_element.
  repeat match goal with
         | |- context [match ?x with Some _ => _ | None => _ end] => destruct x
         end; cbn; apply evolves_refl.
Qed.

Lemma evolves_read_meta_content (rec : parser) (buf : wstring) (start : Z) (f : meta_field)
    (e e' : html_extract_text) :
  read_meta_content rec buf start f e = Some e' -> evolves e e'.
Proof.
  unfold read_meta_content. cbv zeta.
  destruct (rec _ _ _ _ _ _) as [[r [value|]]|]; intro H; [| |discriminate];
    injection H as <-.
  - eapply evolves_trans; apply evolves_set_meta.
  - apply evolves_set_meta.
Qed.

Lemma dispatch_evolves_read_titled (rec : parser) (buf : wstring) (start : Z)
    (closing : wstring) (f : meta_field) (e : html_extract_text) (endp : option Z) :
  dispatch_evolves e (read_titled rec buf start closing f e endp).
Proof.
  unfold read_titled.
  destruct (find_close_tag buf start) as [titleStart|]; [|cbn; apply evolves_refl].
  cbv zeta.
  destruct (stristr buf start closing) as [endp'|].
  - destruct (rec _ _ _ _ _ _) as [[r [title|]]|]; cbn;
      [apply evolves_set_meta|apply evolves_refl|exact I].
  - destruct (wcschr buf (titleStart + 1) (wc "<")); cbn; apply evolves_refl.
Qed.

Lemma dispatch_evolves_plain_element (buf : wstring) (start endSentinel : Z)
    (currentElement : wstring) (e : html_extract_text) :
  dispatch_evolves e (plain_element buf start endSentinel currentElement e).
Proof.
  unfold plain_element. cbv zeta.
  pose proof (evolves_element_effects buf start endSentinel currentElement e) as He.
  destruct (element_effects buf start endSentinel currentElement e) as [e1 start1].
  cbn [fst] in He.
  destruct (match find_close_tag buf (start1 + 1) with
            | Some endp => Some endp
            | None => wcschr buf (start1 + 1) (wc "<")
            end) as [endp|]; [|cbn; exact He].
  destruct (char_at buf endp =? wc "<"); cbn; [|exact He].
  eapply evolves_trans; [exact He|apply writes_evolves, writes_parse_raw_text].
Qed.

Lemma dispatch_evolves_dispatch (rec : parser) (buf : wstring) (endSentinel : Z)
    (e : html_extract_text) (start : Z) (endp : option Z) :
  dispatch_evolves e (dispatch rec buf endSentinel e start endp).
Proof.
  unfold dispatch. cbv zeta.
  repeat lazymatch goal with
         | |- dispatch_evolves _ (skip_element _ _ _ _) => apply dispatch_evolves_skip_element
         | |- dispatch_evolves _ (read_titled _ _ _ _ _ _ _) =>
             apply dispatch_evolves_read_titled
         | |- dispatch_evolves _ (plain_element _ _ _ _ _) =>
             apply dispatch_evolves_plain_element
         | |- dispatch_evolves _ (if ?c then _ else _) => destruct c
         | |- dispatch_evolves _ (match wcsstr ?a ?b ?c with _ => _ end) =>
             destruct (wcsstr a b c)
         | |- dispatch_evolves _ (match wcschr ?a ?b ?c with _ => _ end) =>
             destruct (wcschr a b c)
         | |- dispatch_evolves _ (match find_close_tag ?a ?b with _ => _ end) =>
             destruct (find_close_tag a b)
         | |- dispatch_evolves _ (match (if ?c then _ else _) with _ => _ end) => destruct c
         | |- dispatch_evolves ?e0 (match ?x with Some _ => _ | None => _ end) =>
             let H := fresh "Hmeta" in
             destruct x eqn:H;
             [ first [ apply evolves_read_meta_content in H
                     | injection H as <- ] | ]
         end;
    cbn [dispatch_evolves body_evolves];
    try exact I; try apply evolves_refl; try assumption;
    try (apply writes_evolves, writes_parse_raw_text);
    try apply evolves_cdata_rest;
    try (apply writes_evolves, writes_add_characters).
Qed.

Lemma body_evolves_next_tag (buf : wstring) (endSentinel : Z) (e0 e : html_extract_text)
    (endp : Z) (isSymbolFontSection : bool) :
  evolves e0 e ->
  body_evolves e0 (next_tag buf endSentinel e endp isSymbolFontSection).
Proof.
  intro H0. unfold next_tag.
  destruct (wcschr buf endp (wc "<")) as [start|]; [|exact H0].
  destruct (endSentinel <=? start); [exact H0|].
  cbv zeta. cbn [body_evolves].
  eapply evolves_trans; [exact H0|].
  eapply evolves_trans; [|apply evolves_close_stacks].
  destruct isSymbolFontSection.
  - apply evolves_reemit_symbol_font, writes_parse_raw_text.
  - apply writes_evolves, writes_parse_raw_text.
Qed.

(** One round of the main loop appends text and keeps the counters in
    range, whatever the parsers of metadata values do. *)
Lemma body_evolves_loop_body (rec : parser) (buf : wstring) (endSentinel : Z)
    (e : html_extract_text) (start : Z) (endp : option Z) :
  body_evolves e (loop_body rec buf endSentinel e start endp).
Proof.
  unfold loop_body.
  pose proof (dispatch_evolves_dispatch rec buf endSentinel e start endp) as H.
  destruct (dispatch rec buf endSentinel e start endp) as [r|e1 endp1 symbol].
  - exact H.
  - apply body_evolves_next_tag. exact H.
Qed.

Lemma evolves_main_loop (fuel : nat) (rec : parser) (buf : wstring) (endSentinel : Z)
    (e : html_extract_text) (start : Z) (endp : option Z)
    (e' : html_extract_text) (endp' : option Z) :
  main_loop fuel rec buf endSentinel e start endp = Some (e', endp') ->
  evolves e e'.
Proof.
  revert e start endp. induction fuel as [|fuel IH]; intros e start endp H;
    cbn [main_loop] in H; [discriminate|].
  destruct (start <? endSentinel).
  - pose proof (body_evolves_loop_body rec buf endSentinel e start endp) as Hb.
    destruct (loop_body rec buf endSentinel e start endp) as [e1 p1|e1 s1 p1|];
      cbn [body_evolves] in Hb.
    + injection H as <- <-. exact Hb.
    + eapply evolves_trans; [exact Hb|]. eapply IH. exact H.
    + discriminate.
  - injection H as <- <-. apply evolves_refl.
Qed.

End MainLoop.

(** ** Step by step: the handlers of the main loop append *)






Section Handlers.
Context {P : Platform}.













End Handlers.

(** ** A call of [operator()] *)

Section Call.
Context {P : Platform}.

Lemma reset_state_ok (preserve_newlines : bool) (e : html_extract_text) :
  engine_ok (reset_state preserve_newlines e) /\
  m_trace (reset_state preserve_newlines e) = [].
Proof.
  split; [|reflexivity]. split; [|constructor].
  destruct preserve_newlines; repeat split; cbn; lia.
Qed.

(** The first mutation after the reset empties the buffer. *)
Lemma first_step_empties (b : wstring) (e : html_extract_text) :
  engine_ok e -> m_trace e = [] -> b = [] ->
  engine_ok (set_text_buffer b e) /\
  exists s0, m_trace (set_text_buffer b e) = [s0] /\ snap_text s0 = [] /\
    m_text_buffer (set_text_buffer b e) = [].
Proof.
  intros [Hs Ht] Htrace ->. split.
  - split; [exact Hs|]. cbn. rewrite Htrace. constructor; [exact Hs|constructor].
  - eexists. cbn. rewrite Htrace. repeat split; reflexivity.
Qed.

Lemma evolves_from_first_step (e1 e' : html_extract_text) :
  evolves e1 e' ->
  engine_ok e1 /\
  (exists s0, m_trace e1 = [s0] /\ snap_text s0 = [] /\ m_text_buffer e1 = []) ->
  engine_ok e' /\
  exists steps s0, m_trace e' = steps ++ [s0] /\ snap_text s0 = [] /\
    stepwise [] steps /\ m_text_buffer e' = text_after [] steps.
Proof.
  intros (_ & (steps & Ht & Hs & Hb) & Hok) [Hok1 (s0 & Hs0 & Hempty & Hbuf)].
  split; [auto|]. exists steps, s0. rewrite Ht, Hs0, Hb, Hbuf in *. auto.
Qed.

Lemma operator_body_result (rec : parser) (fuel : nat) (e : html_extract_text)
    (buf : wstring) (html_text : option Z) (text_length : Z)
    (include_outer_text preserve_newlines : bool) (e' : html_extract_text)
    (r : option wstring) :
  operator_body rec fuel e buf html_text text_length include_outer_text preserve_newlines
  = Some (e', r) ->
  engine_ok e' /\
  exists steps s0, m_trace e' = steps ++ [s0] /\ snap_text s0 = [] /\
    stepwise [] steps /\ m_text_buffer e' = text_after [] steps.
Proof.
  unfold operator_body. cbv zeta.
  destruct (reset_state_ok preserve_newlines e) as [Hok Htrace].
  set (e0 := reset_state preserve_newlines e) in *.
  assert (Hnull : forall (e' : html_extract_text) (r : option wstring),
             Some (set_filtered_text_length 0 e0, @None wstring) = Some (e', r) ->
             engine_ok e' /\
             exists steps s0, m_trace e' = steps ++ [s0] /\ snap_text s0 = [] /\
               stepwise [] steps /\ m_text_buffer e' = text_after [] steps).
  { intros e2 r2 H. injection H as <- <-.
    destruct (first_step_empties (firstn (Z.to_nat 0) (m_text_buffer e0)) e0 Hok Htrace
                eq_refl) as [A (s0 & B & C & D)].
    split; [exact A|]. exists [], s0. repeat split; try assumption. constructor. }
  destruct html_text as [html_text|]; [|apply Hnull].
  destruct ((char_at buf html_text =? 0) || (text_length =? 0)); [apply Hnull|].
  unfold allocate_text_buffer.
  destruct (allocate_succeeds text_length); [|apply Hnull].
  pose proof (first_step_empties [] e0 Hok Htrace eq_refl) as Hfirst.
  set (e1 := set_text_buffer [] e0) in *.
  match goal with
  | |- context [main_loop fuel rec buf ?es ?x _ None] => set (e2 := x); set (endS := es)
  end.
  assert (H12 : evolves e1 e2).
  { subst e2. destruct (wcschr buf html_text (wc "<")) as [start|].
    - destruct ((html_text <? start) && include_outer_text);
        [apply writes_evolves, writes_parse_raw_text|apply evolves_refl].
    - destruct include_outer_text;
        [apply writes_evolves, writes_parse_raw_text|apply evolves_refl]. }
  intro H.
  assert (Hloop : exists e3 endp,
             match wcschr buf html_text (wc "<") with
             | Some start => main_loop fuel rec buf endS e2 start None
             | None => Some (e2, None)
             end = Some (e3, endp) /\ evolves e2 e3 /\
             e' = match endp with
                  | Some endp =>
                      if (endp <? endS) && include_outer_text
                      then parse_raw_text buf endp (endS - endp) e3
                      else e3
                  | None => e3
                  end).
  { destruct (match wcschr buf html_text (wc "<") with
              | Some start => main_loop fuel rec buf endS e2 start None
              | None => Some (e2, None)
              end) as [[e3 endp]|] eqn:E; [|discriminate].
    exists e3, endp. split; [reflexivity|]. split.
    - destruct (wcschr buf html_text (wc "<")) as [start|].
      + eapply evolves_main_loop. exact E.
      + injection E as <- <-. apply evolves_refl.
    - now injection H as <- _. }
  destruct Hloop as (e3 & endp & _ & H23 & ->).
  apply (evolves_from_first_step e1); [|exact Hfirst].
  eapply evolves_trans; [exact H12|].
  eapply evolves_trans; [exact H23|].
  destruct endp as [endp|]; [|apply evolves_refl].
  destruct ((endp <? endS) && include_outer_text);
    [apply writes_evolves, writes_parse_raw_text|apply evolves_refl].
Qed.

Lemma operator_call_result (e : html_extract_text) (buf : wstring) (html_text : option Z)
    (text_length : Z) (include_outer_text preserve_newlines : bool)
    (e' : html_extract_text) (r : option wstring) :
  operator_call e buf html_text text_length include_outer_text preserve_newlines
  = Some (e', r) ->
  engine_ok e' /\
  exists steps s0, m_trace e' = steps ++ [s0] /\ snap_text s0 = [] /\
    stepwise [] steps /\ m_text_buffer e' = text_after [] steps.
Proof. unfold operator_call. cbn [extract]. apply operator_body_result. Qed.

(** The engine a call starts from does not matter. *)
Lemma operator_body_fresh (rec : parser) (fuel : nat) (e1 e2 : html_extract_text)
    (buf : wstring) (html_text : option Z) (text_length : Z)
    (include_outer_text preserve_newlines : bool) :
  operator_body rec fuel e1 buf html_text text_length include_outer_text preserve_newlines
  = operator_body rec fuel e2 buf html_text text_length include_outer_text preserve_newlines.
Proof.
  unfold operator_body. cbv zeta.
  destruct html_text as [html_text|]; [|reflexivity].
  destruct ((char_at buf html_text =? 0) || (text_length =? 0)); [reflexivity|].
  unfold allocate_text_buffer.
  destruct (allocate_succeeds text_length); reflexivity.
Qed.

Lemma close_stacks_ignored (buf : wstring) (start : Z) (e : html_extract_text) :
  m_is_in_preformatted_text_block_stack e = 0 ->
  m_superscript_stack e = 0 ->
  m_subscript_stack e = 0 ->
  close_stacks buf start e = e.
Proof.
  intros Hp Hs Hu. unfold close_stacks. rewrite Hp, Hs, Hu. cbn.
  repeat match goal with |- context [if ?c then _ else _] => destruct c end; reflexivity.
Qed.

End Call.

(** C2: a call with a null text pointer, with an empty text or with a
    zero length returns a null pointer, and the filtered text has length
    zero afterwards. *)
Theorem operator_call_invalid_input (P : Platform) (e : html_extract_text) (buf : wstring)
    (html_text : option Z) (text_length : Z) (include_outer_text preserve_newlines : bool) :
  html_text = None \/
  (exists p, html_text = Some p /\ char_at buf p = 0) \/
  text_length = 0 ->
  exists e',
    operator_call e buf html_text text_length include_outer_text preserve_newlines
    = Some (e', None) /\
    get_filtered_text_length e' = 0.
Proof.
  intros H. unfold operator_call. cbn [extract]. unfold operator_body. cbv zeta.
  destruct html_text as [p|].
  - assert (E : (char_at buf p =? 0) || (text_length =? 0) = true).
    { destruct H as [H|[(q & Hq & Hc)|H]]; [discriminate| |].
      - injection Hq as <-. rewrite Hc. reflexivity.
      - rewrite H. apply orb_true_r. }
    rewrite E. eexists. split; reflexivity.
  - eexists. split; reflexivity.
Qed.

Lemma operator_call_invalid_input_witness :
  exists e',
    @operator_call c_platform new_engine (wstr "<b>text</b>") (Some 0) 0 true false
    = Some (e', None) /\
    get_filtered_text_length e' = 0.
Proof.
  apply (operator_call_invalid_input c_platform new_engine (wstr "<b>text</b>") (Some 0) 0
           true false).
  right. right. reflexivity.
Defined.

(** The engine a call starts from does not matter. *)
Lemma operator_call_fresh (P : Platform) (e1 e2 : html_extract_text)
    (buf : wstring) (html_text : option Z) (text_length : Z)
    (include_outer_text preserve_newlines : bool) :
  operator_call e1 buf html_text text_length include_outer_text preserve_newlines
  = operator_call e2 buf html_text text_length include_outer_text preserve_newlines.
Proof. unfold operator_call. cbn [extract]. apply operator_body_fresh. Qed.

(** ** Termination: the fuel is never used up *)

Section Ranges.
Context {P : Platform}.

Lemma from_length_lt (buf : wstring) (p q : Z) :
  0 <= p -> p <= q -> (Z.to_nat (q - p) < length (from buf p))%nat -> q < wlen buf.
Proof.
  intros Hp Hq H. unfold from in H. rewrite length_skipn in H. unfold wlen. lia.
Qed.

Lemma from_shorter (buf : wstring) (p q : Z) :
  0 <= p -> p < q -> p < wlen buf -> (length (from buf q) < length (from buf p))%nat.
Proof.
  intros Hp Hq Hlen. unfold from, wlen in *. rewrite !length_skipn. lia.
Qed.

Lemma from_not_longer (buf : wstring) (p q : Z) :
  0 <= p -> p <= q -> (length (from buf q) <= length (from buf p))%nat.
Proof.
  intros Hp Hq. unfold from. rewrite !length_skipn. lia.
Qed.

Lemma wcschr_scan_range (l : wstring) (p : Z) (c : wchar_t) (q : Z) :
  wcschr_scan l p c = Some q -> p <= q /\ (Z.to_nat (q - p) < length l)%nat.
Proof.
  revert p. induction l as [|x l IH]; intros p H; cbn [wcschr_scan] in H; [discriminate|].
  destruct (x =? 0); [discriminate|].
  destruct (x =? c).
  - injection H as <-. rewrite Z.sub_diag. cbn. lia.
  - apply IH in H. cbn [length]. lia.
Qed.

Lemma wcschr_range (buf : wstring) (p : Z) (c : wchar_t) (q : Z) :
  0 <= p -> wcschr buf p c = Some q -> p <= q < wlen buf.
Proof.
  intros Hp H. apply wcschr_scan_range in H. destruct H as [H1 H2].
  split; [exact H1|]. eapply from_length_lt; eassumption.
Qed.

Lemma starts_with_nonempty (fold : wchar_t -> wchar_t) (needle l : wstring) :
  needle <> [] -> starts_with fold needle l = true -> l <> [].
Proof.
  intros Hn H. destruct needle; [contradiction|]. destruct l; [discriminate|discriminate].
Qed.

Lemma strstr_scan_range (fold : wchar_t -> wchar_t) (needle l : wstring) (p q : Z) :
  needle <> [] ->
  strstr_scan fold needle l p = Some q -> p <= q /\ (Z.to_nat (q - p) < length l)%nat.
Proof.
  intros Hn. revert p. induction l as [|x l IH]; intros p H; cbn [strstr_scan] in H.
  - destruct (starts_with fold needle []) eqn:E; [|discriminate].
    apply starts_with_nonempty in E; [contradiction|exact Hn].
  - destruct (starts_with fold needle (x :: l)).
    + injection H as <-. rewrite Z.sub_diag. cbn. lia.
    + destruct (x =? 0); [discriminate|]. apply IH in H. cbn [length]. lia.
Qed.

Lemma wcsstr_range (buf : wstring) (p : Z) (needle : wstring) (q : Z) :
  0 <= p -> needle <> [] -> wcsstr buf p needle = Some q -> p <= q < wlen buf.
Proof.
  intros Hp Hn H. apply strstr_scan_range in H; [|exact Hn]. destruct H as [H1 H2].
  split; [exact H1|]. eapply from_length_lt; eassumption.
Qed.

Lemma stristr_range (buf : wstring) (p : Z) (needle : wstring) (q : Z) :
  0 <= p -> needle <> [] -> stristr buf p needle = Some q -> p <= q < wlen buf.
Proof.
  intros Hp Hn H. apply strstr_scan_range in H; [|exact Hn]. destruct H as [H1 H2].
  split; [exact H1|]. eapply from_length_lt; eassumption.
Qed.

Lemma find_close_tag_scan_range (l : wstring) (text : Z) (q sq : bool) (count r : Z) :
  find_close_tag_scan l text q sq count = Some r ->
  text <= r /\ (Z.to_nat (r - text) < length l)%nat.
Proof.
  revert text q sq count. induction l as [|c l IH]; intros text q sq count H;
    cbn [find_close_tag_scan] in H; [discriminate|].
  repeat match type of H with
         | (if ?b then _ else _) = _ => destruct b
         end;
    try discriminate;
    try (injection H as <-; rewrite Z.sub_diag; cbn; lia);
    apply IH in H; cbn [length]; lia.
Qed.

(** The closing [>] of a tag lies in the buffer, after the [<] that opens
    the tag. *)
Lemma find_close_tag_range (buf : wstring) (text r : Z) :
  0 <= text ->
  find_close_tag buf text = Some r ->
  text <= r < wlen buf /\ (char_at buf text = wc "<" -> text < r).
Proof.
  intros Ht H. unfold find_close_tag in H. cbv zeta in H.
  destruct (Z.eqb_spec (char_at buf text) (wc "<")) as [E|N].
  - apply find_close_tag_scan_range in H. destruct H as [H1 H2].
    pose proof (from_length_lt buf (text + 1) r ltac:(lia) H1 H2). lia.
  - apply find_close_tag_scan_range in H. destruct H as [H1 H2].
    pose proof (from_length_lt buf text r Ht H1 H2). split; [lia|]. intro. contradiction.
Qed.

Lemma stristr_compare_index (rounds : nat) (buf : wstring) (string : Z) (strSearch : wstring)
    (i0 : Z) (q sq : bool) (i : Z) (q' sq' : bool) :
  stristr_compare rounds buf string strSearch i0 q sq = Stopped i q' sq' -> i0 <= i.
Proof.
  revert i0 q sq. induction rounds as [|rounds IH]; intros i0 q sq H;
    cbn [stristr_compare] in H.
  - injection H as <- _ _. lia.
  - destruct (char_at buf (string + i0) =? 0); [discriminate|].
    destruct (quote_step _ _ q sq) as [q1 sq1].
    destruct (negb _).
    + injection H as <- _ _. lia.
    + apply IH in H. lia.
Qed.

Lemma stristr_not_quoted_loop_ge (fuel : nat) (buf : wstring) (string endSentinel : Z)
    (strSearch : wstring) (q sq : bool) (r : Z) :
  stristr_not_quoted_loop fuel buf string endSentinel strSearch q sq = Some r ->
  string <= r.
Proof.
  revert string q sq. induction fuel as [|fuel IH]; intros string q sq H;
    cbn [stristr_not_quoted_loop] in H; [discriminate|].
  cbv zeta in H.
  destruct (string + wlen strSearch <=? endSentinel); [|discriminate].
  destruct (stristr_compare _ buf string strSearch 0 q sq) as [|i q' sq'] eqn:E;
    [discriminate|].
  apply stristr_compare_index in E.
  assert (0 <= wlen strSearch) by (unfold wlen; lia).
  destruct (i =? wlen strSearch).
  - destruct (negb q').
    + injection H as <-. lia.
    + apply IH in H. lia.
  - apply IH in H. lia.
Qed.

Lemma stristr_not_quoted_ge (buf : wstring) (string stringSize : Z) (strSearch : wstring)
    (r : Z) :
  stristr_not_quoted buf (Some string) stringSize strSearch = Some r -> string <= r.
Proof.
  unfold stristr_not_quoted.
  destruct ((stringSize =? 0) || (wlen strSearch =? 0)); [discriminate|].
  apply stristr_not_quoted_loop_ge.
Qed.

Lemma strnistr_scan_ge (needle l : wstring) (p n r : Z) :
  strnistr_scan needle l p n = Some r -> p <= r.
Proof.
  revert p n. induction l as [|x l IH]; intros p n H; cbn [strnistr_scan] in H.
  - destruct (n <=? 0); discriminate.
  - destruct (n <=? 0); [discriminate|].
    destruct (x =? 0); [discriminate|].
    destruct (starts_with_n needle (x :: l) n).
    + injection H as <-. lia.
    + apply IH in H. lia.
Qed.

Lemma strnistr_ge (buf : wstring) (s : Z) (needle : wstring) (n r : Z) :
  strnistr buf s needle n = Some r -> s <= r.
Proof.
  unfold strnistr. destruct needle; [discriminate|]. apply strnistr_scan_ge.
Qed.

Lemma find_tag_loop_ge (fuel : nat) (buf : wstring) (text foundTag elementEnd : Z)
    (tag : wstring) (allowQuotedTags : bool) (r : Z) :
  find_tag_loop fuel buf text foundTag elementEnd tag allowQuotedTags = Some r ->
  foundTag <= r.
Proof.
  revert foundTag. induction fuel as [|fuel IH]; intros foundTag H;
    cbn [find_tag_loop] in H; [discriminate|].
  cbv zeta in H.
  assert (0 <= wlen tag) by (unfold wlen; lia).
  destruct (if allowQuotedTags
            then strnistr buf foundTag tag (size_t_of (elementEnd - foundTag))
            else stristr_not_quoted buf (Some foundTag)
                   (size_t_of (elementEnd - foundTag)) tag) as [f|] eqn:E; [|discriminate].
  assert (Hf : foundTag <= f).
  { destruct allowQuotedTags; [eapply strnistr_ge|eapply stristr_not_quoted_ge]; exact E. }
  repeat match type of H with
         | (if ?b then _ else _) = _ => destruct b
         end; try discriminate; try (injection H as <-; lia).
  apply IH in H. lia.
Qed.

Lemma find_tag_ge (buf : wstring) (text : Z) (tag : wstring) (allowQuotedTags : bool)
    (r : Z) :
  find_tag buf text tag allowQuotedTags = Some r -> text <= r.
Proof.
  unfold find_tag. destruct (wlen tag =? 0); [discriminate|].
  destruct (find_close_tag buf text); [|discriminate].
  apply find_tag_loop_ge.
Qed.

Lemma skip_blanks_ge (l : wstring) (p elementEnd : Z) : p <= skip_blanks l p elementEnd.
Proof.
  revert p. induction l as [|c l IH]; intro p; cbn [skip_blanks]; [lia|].
  destruct ((p <? elementEnd) && (c =? wc " ")); [|lia].
  specialize (IH (p + 1)). lia.
Qed.

(** The value of an attribute lies after the name of the tag it is read
    from. *)
Lemma read_attribute_after (buf : wstring) (text : Z) (tag : wstring)
    (allowQuotedTags allowSpacesInValue : bool) (first second : Z) :
  0 <= text ->
  read_attribute buf text tag allowQuotedTags allowSpacesInValue = Some (first, second) ->
  text < first.
Proof.
  intros Ht H. unfold read_attribute in H.
  destruct (Z.eqb_spec (wlen tag) 0) as [|Hn]; [discriminate|].
  assert (0 < wlen tag) by (unfold wlen in *; lia).
  destruct (find_tag buf text tag allowQuotedTags) as [foundTag|] eqn:Ef; [|discriminate].
  apply find_tag_ge in Ef.
  destruct (find_close_tag buf text) as [elementEnd|]; [|discriminate].
  destruct (foundTag <? elementEnd); [|discriminate].
  cbv zeta in H.
  set (f1 := foundTag + wlen tag) in H.
  set (f2 := skip_blanks (from buf f1) f1 elementEnd) in H.
  set (f3 := if (f2 <? elementEnd) && is_either (char_at buf f2) (wc ":") (wc "=")
             then f2 + 1 else f2) in H.
  set (f4 := skip_blanks (from buf f3) f3 elementEnd) in H.
  set (f5 := if (f4 <? elementEnd) && is_either (char_at buf f4) 39 34
             then f4 + 1 else f4) in H.
  assert (H12 : f1 <= f2) by apply skip_blanks_ge.
  assert (H23 : f2 <= f3)
    by (subst f3; match goal with |- _ <= (if ?c then _ else _) => destruct c end; lia).
  assert (H34 : f3 <= f4) by apply skip_blanks_ge.
  assert (H45 : f4 <= f5)
    by (subst f5; match goal with |- _ <= (if ?c then _ else _) => destruct c end; lia).
  destruct (elementEnd <=? f5); [discriminate|].
  destruct (if allowQuotedTags && allowSpacesInValue
            then strcspn_pointer buf f5 [34; 39; wc ">"; wc ";"]
            else if allowQuotedTags
            then strcspn_pointer buf f5 [wc " "; 34; 39; wc ">"; wc ";"]
            else if allowSpacesInValue
            then strcspn_pointer buf f5 [34; 39; wc ">"]
            else strcspn_pointer buf f5 [wc " "; 34; 39; wc ">"]) as [e0|]; [|discriminate].
  destruct (e0 <=? elementEnd); [|discriminate].
  match type of H with
  | (if ?c then _ else _) = _ => destruct c; [discriminate|]
  end.
  injection H as <- _. subst f1. lia.
Qed.

Lemma read_attribute_as_string_shorter (buf : wstring) (text : Z) (attribute : wstring)
    (allowQuotedTags allowSpacesInValue : bool) :
  0 <= text -> text < wlen buf ->
  (length (read_attribute_as_string buf text attribute allowQuotedTags allowSpacesInValue)
   < length (from buf text))%nat.
Proof.
  intros Ht Hlen.
  assert (Hpos : (0 < length (from buf text))%nat).
  { unfold from, wlen in *. rewrite length_skipn. lia. }
  unfold read_attribute_as_string.
  destruct (hd 0 attribute =? 0); [exact Hpos|].
  destruct (read_attribute buf text attribute allowQuotedTags allowSpacesInValue)
    as [[first second]|] eqn:E; [|exact Hpos].
  apply read_attribute_after in E; [|exact Ht].
  unfold wsub. rewrite length_firstn.
  eapply Nat.le_lt_trans; [apply Nat.le_min_r|].
  apply from_shorter; lia.
Qed.

Lemma find_closing_element_loop_ge (fuel : nat) (buf : wstring) (start : option Z)
    (sectionEnd : Z) (elementTag : wstring) (stackSize lower r : Z) :
  0 <= lower ->
  (forall s, start = Some s -> lower <= s) ->
  find_closing_element_loop fuel buf start sectionEnd elementTag stackSize = Some r ->
  lower <= r.
Proof.
  intro Hl. revert start stackSize. induction fuel as [|fuel IH];
    intros start stackSize Hs H; cbn [find_closing_element_loop] in H; [discriminate|].
  destruct start as [s|]; [|discriminate].
  specialize (Hs s eq_refl).
  destruct (s + wlen elementTag + 1 <? sectionEnd); [|discriminate].
  cbv zeta in H.
  match type of H with
  | (if ?c then _ else _) = _ => destruct c; [injection H as <-; exact Hs|]
  end.
  eapply IH; [|exact H].
  intros s' Hs'. apply wcschr_range in Hs'; lia.
Qed.

Lemma find_closing_element_ge (buf : wstring) (sectionStart sectionEnd : Z)
    (elementTag : wstring) (r : Z) :
  0 <= sectionStart ->
  find_closing_element buf sectionStart sectionEnd elementTag = Some r ->
  sectionStart <= r.
Proof.
  intros Hs H. unfold find_closing_element in H.
  destruct (wlen elementTag =? 0); [discriminate|].
  destruct (wcschr buf sectionStart (wc "<")) as [start|] eqn:E; [|discriminate].
  pose proof (wcschr_range buf sectionStart (wc "<") start Hs E) as Hr.
  assert (0 <= wlen elementTag) by (unfold wlen; lia).
  destruct (sectionEnd <? start + wlen elementTag); [discriminate|].
  cbv zeta in H.
  destruct (compare_element buf (start + 1) elementTag true).
  - eapply find_closing_element_loop_ge; [exact Hs| |exact H].
    intros s Hs'. apply wcschr_range in Hs'; lia.
  - destruct ((char_at buf (start + 1) =? wc "/") && _).
    + injection H as <-. lia.
    + eapply find_closing_element_loop_ge; [exact Hs| |exact H].
      intros s Hs'. injection Hs' as <-. lia.
Qed.

End Ranges.

Section Progress.
Context {P : Platform}.

Lemma wcschr_scan_char (l : wstring) (p : Z) (c : wchar_t) (q : Z) :
  wcschr_scan l p c = Some q -> nth (Z.to_nat (q - p)) l 0 = c.
Proof.
  revert p. induction l as [|x l IH]; intros p H; cbn [wcschr_scan] in H; [discriminate|].
  destruct (x =? 0); [discriminate|].
  destruct (Z.eqb_spec x c) as [->|_].
  - injection H as <-. now rewrite Z.sub_diag.
  - pose proof (wcschr_scan_range l (p + 1) c q H) as [Hr _].
    apply IH in H.
    replace (Z.to_nat (q - p)) with (S (Z.to_nat (q - (p + 1)))) by lia. exact H.
Qed.

Lemma wcschr_char (buf : wstring) (p : Z) (c : wchar_t) (q : Z) :
  0 <= p -> wcschr buf p c = Some q -> char_at buf q = c.
Proof.
  intros Hp H. pose proof (wcschr_scan_range _ _ _ _ H) as [Hr _].
  apply wcschr_scan_char in H. unfold from in H. rewrite nth_skipn in H.
  rewrite char_at_nonneg by lia. rewrite <- H. f_equal. lia.
Qed.

(** The next [<] at or after the [>] that closes a tag lies after the
    start of the tag. *)
Lemma next_angle_after_close (buf : wstring) (start closeTag endp : Z) :
  0 <= start ->
  find_close_tag buf start = Some closeTag ->
  wcschr buf closeTag (wc "<") = Some endp ->
  start < endp.
Proof.
  intros Hs Hc He.
  destruct (find_close_tag_range buf start closeTag Hs Hc) as [Hr Hlt].
  pose proof (wcschr_range buf closeTag (wc "<") endp ltac:(lia) He) as Hr'.
  pose proof (wcschr_char buf closeTag (wc "<") endp ltac:(lia) He) as Hch.
  destruct (Z.eq_dec endp start) as [->|]; [|lia].
  specialize (Hlt Hch). lia.
Qed.

Lemma dispatch_advances_skip_element (buf : wstring) (start : Z) (closing : wstring)
    (e : html_extract_text) :
  0 <= start -> closing <> [] ->
  dispatch_advances buf start (skip_element buf start closing e).
Proof.
  intros Hs Hn. unfold skip_element.
  destruct (stristr buf start closing) as [endp|] eqn:E.
  - apply stristr_range in E; [|exact Hs|exact Hn]. cbn.
    assert (0 < wlen closing) by (destruct closing; [contradiction|unfold wlen; cbn; lia]).
    lia.
  - destruct (find_close_tag buf start) as [closeTag|] eqn:Ec; [|exact I].
    destruct (wcschr buf closeTag (wc "<")) as [endp|] eqn:Ee; [|exact I].
    cbn. eapply next_angle_after_close; eassumption.
Qed.

Lemma get_set_meta (f : meta_field) (v : wstring) (e : html_extract_text) :
  get_meta f (set_meta f v e) = v.
Proof. destruct f; reflexivity. Qed.

Lemma read_meta_content_returns (rec : parser) (buf : wstring) (start : Z) (f : meta_field)
    (e : html_extract_text) :
  0 <= start -> start < wlen buf ->
  rec_total rec (length (from buf start)) ->
  read_meta_content rec buf start f e <> None.
Proof.
  intros Hs Hlen Hrec. unfold read_meta_content. cbv zeta.
  rewrite get_set_meta.
  set (content := read_attribute_as_string buf start (wstr "content") false true).
  pose proof (Hrec new_engine content 0 (wlen content) true false ltac:(lia)) as H.
  destruct (rec new_engine content (Some 0) (wlen content) true false) as [[r [v|]]|];
    try discriminate.
  exfalso. apply H; [|reflexivity].
  change (from content 0) with content.
  apply read_attribute_as_string_shorter; assumption.
Qed.

Lemma dispatch_advances_read_titled (rec : parser) (buf : wstring) (start : Z)
    (closing : wstring) (f : meta_field) (e : html_extract_text) (endp : option Z) :
  0 <= start -> closing <> [] ->
  rec_total rec (length (from buf start)) ->
  dispatch_advances buf start (read_titled rec buf start closing f e endp).
Proof.
  intros Hs Hn Hrec. unfold read_titled.
  destruct (find_close_tag buf start) as [titleStart|] eqn:Ec; [|exact I].
  destruct (find_close_tag_range buf start titleStart Hs Ec) as [Hr _].
  cbv zeta.
  destruct (stristr buf start closing) as [endp'|] eqn:E.
  - apply stristr_range in E; [|exact Hs|exact Hn].
    assert (0 < wlen closing) by (destruct closing; [contradiction|unfold wlen; cbn; lia]).
    pose proof (Hrec new_engine buf (titleStart + 1)
                  (size_t_of (endp' - (titleStart + 1))) true false ltac:(lia)) as Hcall.
    destruct (rec new_engine buf (Some (titleStart + 1)) _ true false) as [[r [v|]]|];
      cbn; try lia.
    apply Hcall; [|reflexivity]. apply from_shorter; lia.
  - destruct (wcschr buf (titleStart + 1) (wc "<")) as [endp'|] eqn:Ee; [|exact I].
    apply wcschr_range in Ee; [|lia]. cbn. lia.
Qed.

Lemma element_effects_start (buf : wstring) (start endSentinel : Z) (currentElement : wstring)
    (e : html_extract_text) :
  0 <= start -> start <= snd (element_effects buf start endSentinel currentElement e).
Proof.
  intro Hs. unfold element_effects. cbv zeta.
  repeat match goal with
         | |- context [find_closing_element ?b ?s ?e ?t] =>
             let E := fresh "E" in
             destruct (find_closing_element b s e t) eqn:E;
             [apply find_closing_element_ge in E; [|exact Hs]|]
         | |- context [if ?c then _ else _] => destruct c
         end; cbn [snd]; lia.
Qed.

Lemma dispatch_advances_plain_element (buf : wstring) (start endSentinel : Z)
    (currentElement : wstring) (e : html_extract_text) :
  0 <= start ->
  dispatch_advances buf start (plain_element buf start endSentinel currentElement e).
Proof.
  intro Hs. unfold plain_element. cbv zeta.
  pose proof (element_effects_start buf start endSentinel currentElement e Hs) as Hge.
  destruct (element_effects buf start endSentinel currentElement e) as [e1 start1].
  cbn [snd] in Hge.
  assert (Hendp : forall endp,
             match find_close_tag buf (start1 + 1) with
             | Some endp => Some endp
             | None => wcschr buf (start1 + 1) (wc "<")
             end = Some endp -> start < endp < wlen buf).
  { intros endp H. destruct (find_close_tag buf (start1 + 1)) as [c|] eqn:Ec.
    - injection H as <-. apply find_close_tag_range in Ec; lia.
    - apply wcschr_range in H; lia. }
  destruct (match find_close_tag buf (start1 + 1) with
            | Some endp => Some endp
            | None => wcschr buf (start1 + 1) (wc "<")
            end) as [endp|]; [|exact I].
  specialize (Hendp endp eq_refl).
  destruct (char_at buf endp =? wc "<"); cbn; lia.
Qed.

Lemma dispatch_advances_dispatch (rec : parser) (buf : wstring) (endSentinel : Z)
    (e : html_extract_text) (start : Z) (endp : option Z) :
  0 <= start ->
  rec_total rec (length (from buf start)) ->
  dispatch_advances buf start (dispatch rec buf endSentinel e start endp).
Proof.
  intros Hs Hrec. unfold dispatch. cbv zeta.
  repeat lazymatch goal with
         | |- dispatch_advances _ _ (skip_element _ _ _ _) =>
             apply dispatch_advances_skip_element; [exact Hs|discriminate]
         | |- dispatch_advances _ _ (read_titled _ _ _ _ _ _ _) =>
             apply dispatch_advances_read_titled; [exact Hs|discriminate|exact Hrec]
         | |- dispatch_advances _ _ (plain_element _ _ _ _ _) =>
             apply dispatch_advances_plain_element; exact Hs
         | |- dispatch_advances _ _ (if ?c then _ else _) => destruct c
         end.
  - (* a comment *)
    destruct (wcsstr buf start (wstr "-->")) as [p|] eqn:E; [|exact I].
    apply wcsstr_range in E; [|exact Hs|discriminate]. cbn. lia.
  - (* meta *)
    destruct (find_close_tag buf start) as [closeTag|] eqn:Ec; [|exact I].
    destruct (find_close_tag_range buf start closeTag Hs Ec) as [Hr _].
    assert (Hmeta : forall f, read_meta_content rec buf start f e <> None)
      by (intro f; apply read_meta_content_returns; [exact Hs|lia|exact Hrec]).
    match goal with
    | |- dispatch_advances _ _ (match ?x with _ => _ end) =>
        assert (Hx : x <> None)
          by (repeat match goal with
                     | |- (if ?c then _ else _) <> None => destruct c
                     end; first [apply Hmeta|discriminate]);
        destruct x as [e1|]; [|contradiction]
    end.
    destruct (wcschr buf closeTag (wc "<")) as [p|] eqn:Ee; [|exact I].
    cbn. eapply next_angle_after_close; eassumption.
  - (* a stray angle *)
    destruct (wcschr buf (start + 1) (wc "<")) as [p|] eqn:E; [|exact I].
    apply wcschr_range in E; [|lia]. cbn. lia.
  - (* CDATA *)
    destruct (wcsstr buf (start + 9) (wstr "]]>")) as [p|] eqn:E; [|exact I].
    apply wcsstr_range in E; [|lia|discriminate].
    destruct (endSentinel <? p); cbn; [exact I|lia].
Qed.

Lemma body_advances_next_tag (buf : wstring) (endSentinel start : Z) (e : html_extract_text)
    (endp : Z) (isSymbolFontSection : bool) :
  0 <= start -> start < endp ->
  body_advances buf start (next_tag buf endSentinel e endp isSymbolFontSection).
Proof.
  intros Hs He. unfold next_tag.
  destruct (wcschr buf endp (wc "<")) as [start'|] eqn:E; [|exact I].
  apply wcschr_range in E; [|lia].
  destruct (endSentinel <=? start'); [exact I|]. cbn. lia.
Qed.

Lemma body_advances_loop_body (rec : parser) (buf : wstring) (endSentinel : Z)
    (e : html_extract_text) (start : Z) (endp : option Z) :
  0 <= start ->
  rec_total rec (length (from buf start)) ->
  body_advances buf start (loop_body rec buf endSentinel e start endp).
Proof.
  intros Hs Hrec. unfold loop_body.
  pose proof (dispatch_advances_dispatch rec buf endSentinel e start endp Hs Hrec) as H.
  destruct (dispatch rec buf endSentinel e start endp) as [r|e1 endp1 symbol].
  - exact H.
  - apply body_advances_next_tag; assumption.
Qed.

Lemma rec_total_le (rec : parser) (m n : nat) :
  (m <= n)%nat -> rec_total rec n -> rec_total rec m.
Proof. intros Hle H e b p len iot pn Hp Hlt. apply H; [exact Hp|lia]. Qed.

(** The main loop returns when its fuel exceeds the number of characters
    between [start] and the end of the buffer. *)
Lemma main_loop_returns (fuel : nat) (rec : parser) (buf : wstring) (endSentinel : Z)
    (e : html_extract_text) (start : Z) (endp : option Z) :
  0 <= start <= wlen buf ->
  wlen buf - start < Z.of_nat fuel ->
  rec_total rec (length (from buf start)) ->
  main_loop fuel rec buf endSentinel e start endp <> None.
Proof.
  revert e start endp. induction fuel as [|fuel IH]; intros e start endp Hs Hfuel Hrec;
    cbn [main_loop]; [lia|].
  destruct (start <? endSentinel); [|discriminate].
  pose proof (body_advances_loop_body rec buf endSentinel e start endp ltac:(lia) Hrec)
    as Hb.
  destruct (loop_body rec buf endSentinel e start endp) as [e1 p1|e1 s1 p1|];
    cbn [body_advances] in Hb; [discriminate| |contradiction].
  apply IH; [lia|lia|].
  eapply rec_total_le; [|exact Hrec]. apply from_not_longer; lia.
Qed.

End Progress.

Section Returns.
Context {P : Platform}.

Lemma operator_body_returns (rec : parser) (fuel : nat) (e : html_extract_text)
    (buf : wstring) (html_text : option Z) (text_length : Z)
    (include_outer_text preserve_newlines : bool) :
  (forall p, html_text = Some p -> 0 <= p /\ rec_total rec (length (from buf p))) ->
  (length buf < fuel)%nat ->
  operator_body rec fuel e buf html_text text_length include_outer_text preserve_newlines
  <> None.
Proof.
  intros Hp Hfuel. unfold operator_body. cbv zeta.
  destruct html_text as [html_text|]; [|discriminate].
  destruct (Hp html_text eq_refl) as [Hpos Hrec].
  destruct ((char_at buf html_text =? 0) || (text_length =? 0)); [discriminate|].
  unfold allocate_text_buffer.
  destruct (allocate_succeeds text_length); [|discriminate].
  destruct (wcschr buf html_text (wc "<")) as [start|] eqn:E.
  - apply wcschr_range in E; [|exact Hpos].
    match goal with
    | |- context [main_loop fuel rec buf ?es ?x start None] =>
        pose proof (main_loop_returns fuel rec buf es x start None) as Hloop;
        destruct (main_loop fuel rec buf es x start None) as [[e3 endp]|]
    end; [discriminate|].
    exfalso. apply Hloop; [lia|unfold wlen; lia| |reflexivity].
    eapply rec_total_le; [|exact Hrec]. apply from_not_longer; lia.
  - discriminate.
Qed.

(** A parser of depth [depth] returns on every text of fewer than [depth]
    characters. *)
Lemma extract_total (depth : nat) : rec_total (extract depth) depth.
Proof.
  induction depth as [|depth IH]; intros e b p len iot pn Hp Hlen; [lia|].
  cbn [extract]. apply operator_body_returns; [|lia].
  intros q Hq. injection Hq as <-. split; [exact Hp|].
  eapply rec_total_le; [|exact IH]. lia.
Qed.

(** A top-level call always returns. *)
Lemma operator_call_returns (e : html_extract_text) (buf : wstring) (html_text : option Z)
    (text_length : Z) (include_outer_text preserve_newlines : bool) :
  (forall p, html_text = Some p -> 0 <= p) ->
  exists e' r,
    operator_call e buf html_text text_length include_outer_text preserve_newlines
    = Some (e', r).
Proof.
  intro Hp.
  destruct (operator_call e buf html_text text_length include_outer_text preserve_newlines)
    as [[e' r]|] eqn:E; [now exists e', r|].
  exfalso. revert E. unfold operator_call.
  destruct html_text as [p|].
  - apply extract_total; [apply Hp; reflexivity|].
    unfold from. rewrite length_skipn. lia.
  - discriminate.
Qed.

End Returns.

Section ScannerFuel.
Context {P : Platform}.

Lemma char_at_beyond (buf : wstring) (p : Z) : wlen buf <= p -> char_at buf p = 0.
Proof.
  intro H. unfold wlen in H. rewrite char_at_nonneg by lia.
  apply nth_overflow. lia.
Qed.

Lemma stristr_compare_at_end (buf : wstring) (string : Z) (strSearch : wstring)
    (q sq : bool) :
  strSearch <> [] -> wlen buf <= string ->
  stristr_compare (length strSearch) buf string strSearch 0 q sq = HitNul.
Proof.
  intros Hn Hend. destruct strSearch as [|c s]; [contradiction|].
  cbn [length stristr_compare]. rewrite Z.add_0_r, char_at_beyond by exact Hend.
  reflexivity.
Qed.

(** The search loop never runs out of fuel. *)
Lemma stristr_not_quoted_loop_fuel (fuel : nat) (buf : wstring) (string endSentinel : Z)
    (strSearch : wstring) (q sq : bool) :
  0 <= string -> strSearch <> [] ->
  wlen buf - string < Z.of_nat fuel ->
  stristr_not_quoted_loop fuel buf string endSentinel strSearch q sq
  = stristr_not_quoted_loop (S fuel) buf string endSentinel strSearch q sq.
Proof.
  intros Hs Hn. revert string q sq Hs.
  induction fuel as [|fuel IH]; intros string q sq Hs Hfuel.
  - cbn [stristr_not_quoted_loop]. cbv zeta.
    destruct (string + wlen strSearch <=? endSentinel); [|reflexivity].
    rewrite stristr_compare_at_end by (assumption || lia). reflexivity.
  - change (stristr_not_quoted_loop (S (S fuel)) buf string endSentinel strSearch q sq)
      with (if string + wlen strSearch <=? endSentinel then
              match stristr_compare (length strSearch) buf string strSearch 0 q sq with
              | HitNul => None
              | Stopped i q' sq' =>
                  if i =? wlen strSearch then
                    if negb q' then Some string
                    else stristr_not_quoted_loop (S fuel) buf (string + wlen strSearch)
                           endSentinel strSearch q' sq'
                  else stristr_not_quoted_loop (S fuel) buf (string + (i + 1)) endSentinel
                         strSearch q' sq'
              end
            else None).
    cbn [stristr_not_quoted_loop]. cbv zeta.
    destruct (string + wlen strSearch <=? endSentinel); [|reflexivity].
    destruct (stristr_compare (length strSearch) buf string strSearch 0 q sq)
      as [|i q' sq'] eqn:E; [reflexivity|].
    apply stristr_compare_index in E.
    assert (0 < wlen strSearch)
      by (destruct strSearch; [contradiction|unfold wlen; cbn [length]; lia]).
    destruct (i =? wlen strSearch).
    + destruct (negb q'); [reflexivity|]. apply IH; lia.
    + apply IH; lia.
Qed.

Lemma stristr_not_quoted_at_end (buf : wstring) (string n : Z) (strSearch : wstring) :
  wlen buf <= string -> stristr_not_quoted buf (Some string) n strSearch = None.
Proof.
  intro Hend. unfold stristr_not_quoted.
  destruct (n =? 0); [reflexivity|].
  destruct (Z.eqb_spec (wlen strSearch) 0); [reflexivity|].
  cbn [orb stristr_not_quoted_loop]. cbv zeta.
  destruct (string + wlen strSearch <=? ptr_add string n); [|reflexivity].
  rewrite stristr_compare_at_end; [reflexivity| |exact Hend].
  intros ->. contradiction.
Qed.

Lemma strnistr_at_end (buf : wstring) (s : Z) (needle : wstring) (n : Z) :
  0 <= s -> wlen buf <= s -> strnistr buf s needle n = None.
Proof.
  intros Hs Hend. unfold strnistr. destruct needle; [reflexivity|].
  unfold from. rewrite skipn_all2 by (unfold wlen in Hend; lia).
  cbn. destruct (n <=? 0); reflexivity.
Qed.

(** Nor does the loop of [find_tag]. *)
Lemma find_tag_loop_fuel (fuel : nat) (buf : wstring) (text foundTag elementEnd : Z)
    (tag : wstring) (allowQuotedTags : bool) :
  0 <= foundTag -> tag <> [] ->
  wlen buf - foundTag < Z.of_nat fuel ->
  find_tag_loop fuel buf text foundTag elementEnd tag allowQuotedTags
  = find_tag_loop (S fuel) buf text foundTag elementEnd tag allowQuotedTags.
Proof.
  intros Hs Hn. revert foundTag Hs.
  assert (Hlen : 0 < wlen tag)
    by (destruct tag; [contradiction|unfold wlen; cbn [length]; lia]).
  induction fuel as [|fuel IH]; intros foundTag Hs Hfuel.
  - cbn [find_tag_loop]. cbv zeta.
    destruct allowQuotedTags.
    + rewrite strnistr_at_end by lia. reflexivity.
    + rewrite stristr_not_quoted_at_end by lia. reflexivity.
  - change (find_tag_loop (S (S fuel)) buf text foundTag elementEnd tag allowQuotedTags)
      with (match
               (if allowQuotedTags
                then strnistr buf foundTag tag (size_t_of (elementEnd - foundTag))
                else stristr_not_quoted buf (Some foundTag)
                       (size_t_of (elementEnd - foundTag)) tag)
             with
             | None => None
             | Some foundTag =>
                 if elementEnd <? foundTag then None
                 else if foundTag =? text then Some foundTag
                 else if allowQuotedTags && is_either (char_at buf (foundTag - 1)) 39 34
                 then Some foundTag
                 else if iswspace (char_at buf (foundTag - 1))
                         || (char_at buf (foundTag - 1) =? wc ";")
                 then Some foundTag
                 else find_tag_loop (S fuel) buf text (foundTag + wlen tag) elementEnd tag
                        allowQuotedTags
             end).
    cbn [find_tag_loop]. cbv zeta.
    destruct (if allowQuotedTags
              then strnistr buf foundTag tag (size_t_of (elementEnd - foundTag))
              else stristr_not_quoted buf (Some foundTag)
                     (size_t_of (elementEnd - foundTag)) tag) as [f|] eqn:E;
      [|reflexivity].
    assert (Hf : foundTag <= f).
    { destruct allowQuotedTags; [eapply strnistr_ge|eapply stristr_not_quoted_ge]; exact E. }
    repeat match goal with
           | |- (if ?c then _ else _) = _ => destruct c; [reflexivity|]
           end.
    apply IH; lia.
Qed.

End ScannerFuel.

(** ** The claims about a call *)

(** C9: two calls on the same input with the same flags return, and
    return the same result: the same text, metadata, log and counters,
    whatever state the two engines were in before. *)
Theorem operator_call_deterministic (P : Platform) (e1 e2 : html_extract_text)
    (buf : wstring) (html_text : option Z) (text_length : Z)
    (include_outer_text preserve_newlines : bool) :
  (forall p, html_text = Some p -> 0 <= p) ->
  exists e' r,
    operator_call e1 buf html_text text_length include_outer_text preserve_newlines
    = Some (e', r) /\
    operator_call e2 buf html_text text_length include_outer_text preserve_newlines
    = Some (e', r).
Proof.
  intro Hp.
  destruct (operator_call_returns e1 buf html_text text_length include_outer_text
              preserve_newlines Hp) as (e' & r & H).
  exists e', r. split; [exact H|].
  rewrite (operator_call_fresh P e2 e1). exact H.
Qed.

Lemma operator_call_deterministic_witness :
  exists e' r,
    @operator_call c_platform new_engine two_titles (Some 0) 32 true false = Some (e', r) /\
    @operator_call c_platform (add_characters (wstr "old") (set_meta Title (wstr "T") new_engine))
      two_titles (Some 0) 32 true false = Some (e', r).
Proof.
  apply (operator_call_deterministic c_platform new_engine
           (add_characters (wstr "old") (set_meta Title (wstr "T") new_engine))
           two_titles (Some 0) 32 true false).
  intros p Hp. injection Hp as <-. lia.
Defined.

Section Counters.
Context {P : Platform}.

Lemma close_stacks_guarded (buf : wstring) (start : Z) (e : html_extract_text) :
  popped_or_kept (m_is_in_preformatted_text_block_stack e)
    (m_is_in_preformatted_text_block_stack (close_stacks buf start e)) /\
  popped_or_kept (m_superscript_stack e) (m_superscript_stack (close_stacks buf start e)) /\
  popped_or_kept (m_subscript_stack e) (m_subscript_stack (close_stacks buf start e)).
Proof.
  unfold close_stacks, popped_or_kept.
  repeat match goal with
         | |- context [if ?c then _ else _] => destruct c eqn:?
         end; cbn;
    repeat match goal with H : (0 <? _) = true |- _ => apply Z.ltb_lt in H end;
    repeat split; auto.
Qed.

End Counters.

(** C4: a call returns, and at every step of it, in every snapshot of
    its trace and at its end, the three stack counters are not negative;
    a closing tag leaves its counter as it is when the counter is zero
    and takes one off otherwise. *)
Theorem stack_counters_never_negative :
  (forall (P : Platform) (e : html_extract_text) (buf : wstring) (html_text : option Z)
          (text_length : Z) (include_outer_text preserve_newlines : bool),
     (forall p, html_text = Some p -> 0 <= p) ->
     exists e' r,
       operator_call e buf html_text text_length include_outer_text preserve_newlines
       = Some (e', r) /\
       stacks_ok (snap e') /\ Forall stacks_ok (m_trace e')) /\
  (forall (P : Platform) (buf : wstring) (start : Z) (e : html_extract_text),
     popped_or_kept (m_is_in_preformatted_text_block_stack e)
       (m_is_in_preformatted_text_block_stack (close_stacks buf start e)) /\
     popped_or_kept (m_superscript_stack e)
       (m_superscript_stack (close_stacks buf start e)) /\
     popped_or_kept (m_subscript_stack e)
       (m_subscript_stack (close_stacks buf start e))).
Proof.
  split.
  - intros P e buf html_text text_length include_outer_text preserve_newlines Hp.
    destruct (operator_call_returns e buf html_text text_length include_outer_text
                preserve_newlines Hp) as (e' & r & H).
    exists e', r. split; [exact H|].
    apply operator_call_result in H. destruct H as [[Hs Ht] _]. split; assumption.
  - intros P buf start e. apply close_stacks_guarded.
Qed.

Lemma stack_counters_never_negative_witness :
  exists e' r,
    @operator_call c_platform new_engine (wstr "</sup>x</pre><pre>y</pre></pre></sub>z")
      (Some 0) 38 true false = Some (e', r) /\
    stacks_ok (snap e') /\ Forall stacks_ok (m_trace e').
Proof.
  destruct stack_counters_never_negative as [H _].
  apply (H c_platform new_engine (wstr "</sup>x</pre><pre>y</pre></pre></sub>z") (Some 0) 38
           true false).
  intros p Hp. injection Hp as <-. lia.
Defined.

Section Buffer.
Context {P : Platform}.


End Buffer.




(** ** The metadata fields, round by round *)






Section MetadataRounds.
Context {P : Platform}.














End MetadataRounds.

Section MetadataCall.
Context {P : Platform}.




End MetadataCall.




(** * Further properties of the scanners *)

Section QuoteAwareScanners.
Context {P : Platform}.

(** ** [strchr_not_quoted] *)

Lemma strchr_not_quoted_scan_found (l : wstring) (p : Z) (ch : wchar_t) (q sq : bool) (r : Z) :
  strchr_not_quoted_scan l p ch q sq = Some r ->
  p <= r /\ (Z.to_nat (r - p) < length l)%nat /\ nth (Z.to_nat (r - p)) l 0 = ch /\ ch <> 0.
Proof.
  revert p q sq. induction l as [|c l IH]; intros p q sq H;
    cbn [strchr_not_quoted_scan] in H; [discriminate|].
  destruct (Z.eqb_spec c 0) as [|Hc]; [discriminate|].
  destruct (quote_step c c q sq) as [q' sq'].
  destruct (negb q' && (c =? ch)) eqn:E.
  - injection H as <-. apply andb_prop in E. destruct E as [_ E].
    apply Z.eqb_eq in E. subst ch. rewrite Z.sub_diag. cbn. repeat split; try lia.
  - apply IH in H. destruct H as (H1 & H2 & H3 & H4).
    cbn [length]. repeat split; try lia; try assumption.
    replace (Z.to_nat (r - p)) with (S (Z.to_nat (r - (p + 1)))) by lia. exact H3.
Qed.

(** What [strchr_not_quoted] returns points into the text, at or after
    the start, at a character equal to the one searched; the terminator
    is never found. *)
Theorem strchr_not_quoted_found (buf : wstring) (s : Z) (ch : wchar_t) (r : Z) :
  0 <= s ->
  strchr_not_quoted buf (Some s) ch = Some r ->
  s <= r < wlen buf /\ char_at buf r = ch /\ ch <> 0.
Proof.
  intros Hs H. cbn [strchr_not_quoted] in H.
  apply strchr_not_quoted_scan_found in H. destruct H as (H1 & H2 & H3 & H4).
  split; [split; [exact H1|eapply from_length_lt; eassumption]|].
  split; [|exact H4].
  rewrite char_at_nonneg by lia. unfold from in H3. rewrite nth_skipn in H3.
  rewrite <- H3. f_equal. lia.
Qed.

Lemma strchr_not_quoted_scan_plain (l : wstring) (p : Z) (ch : wchar_t) :
  ch <> 0 ->
  Forall (fun c => c <> 34 /\ c <> 39) l ->
  strchr_not_quoted_scan l p ch false false = wcschr_scan l p ch.
Proof.
  intros Hch. revert p. induction l as [|c l IH]; intros p Hl; [reflexivity|].
  inversion Hl as [|? ? [H34 H39] Hl']; subst.
  cbn [strchr_not_quoted_scan wcschr_scan].
  destruct (Z.eqb_spec c 0); [reflexivity|].
  unfold quote_step.
  destruct (Z.eqb_spec c 34); [contradiction|].
  destruct (Z.eqb_spec c 39); [contradiction|].
  cbn [negb orb andb].
  destruct (c =? ch); [reflexivity|]. apply IH. exact Hl'.
Qed.

(** On a text without quotes [strchr_not_quoted] is [wcschr]. *)
Theorem strchr_not_quoted_without_quotes (buf : wstring) (s : Z) (ch : wchar_t) :
  ch <> 0 ->
  Forall (fun c => c <> 34 /\ c <> 39) (from buf s) ->
  strchr_not_quoted buf (Some s) ch = wcschr buf s ch.
Proof. intros Hch Hl. apply strchr_not_quoted_scan_plain; assumption. Qed.

Lemma strchr_not_quoted_scan_inside (mid post : wstring) (p : Z) (ch : wchar_t) :
  ch <> 34 ->
  Forall in_double_quotes mid ->
  strchr_not_quoted_scan (mid ++ 34 :: post) p ch true false
  = strchr_not_quoted_scan post (p + wlen mid + 1) ch false false.
Proof.
  intros Hch. revert p. induction mid as [|c mid IH]; intros p Hmid; cbn [app].
  - cbn [strchr_not_quoted_scan]. change (34 =? 0) with false. cbn [quote_step].
    unfold quote_step. change (34 =? 34) with true. cbn [negb andb].
    destruct (Z.eqb_spec 34 ch) as [E|_]; [symmetry in E; contradiction|].
    unfold wlen. cbn [length]. f_equal. lia.
  - inversion Hmid as [|? ? [H0 H34] Hmid']; subst.
    cbn [strchr_not_quoted_scan].
    destruct (Z.eqb_spec c 0); [contradiction|].
    unfold quote_step. destruct (Z.eqb_spec c 34); [contradiction|].
    cbn [negb orb andb]. rewrite IH by assumption.
    unfold wlen. cbn [length]. f_equal. lia.
Qed.

Lemma strchr_not_quoted_scan_before (pre l : wstring) (p : Z) (ch : wchar_t) :
  Forall (fun c => unquoted c /\ c <> ch) pre ->
  strchr_not_quoted_scan (pre ++ l) p ch false false
  = strchr_not_quoted_scan l (p + wlen pre) ch false false.
Proof.
  revert p. induction pre as [|c pre IH]; intros p Hpre; cbn [app].
  - unfold wlen. cbn [length]. f_equal. lia.
  - inversion Hpre as [|? ? [[H0 [H34 H39]] Hc] Hpre']; subst.
    cbn [strchr_not_quoted_scan].
    destruct (Z.eqb_spec c 0); [contradiction|].
    unfold quote_step. destruct (Z.eqb_spec c 34); [contradiction|].
    destruct (Z.eqb_spec c 39); [contradiction|].
    cbn [negb orb andb]. destruct (Z.eqb_spec c ch); [contradiction|].
    rewrite IH by assumption. unfold wlen. cbn [length]. f_equal. lia.
Qed.

(** A section in double quotes is passed over: whatever it holds, single
    quotes and the character searched included, the search goes on after
    the closing quote, outside quotes again. *)
Theorem strchr_not_quoted_skips_quoted (buf : wstring) (s : Z) (ch : wchar_t)
    (pre mid post : wstring) :
  0 <= s ->
  ch <> 34 ->
  from buf s = pre ++ 34 :: mid ++ 34 :: post ->
  Forall (fun c => unquoted c /\ c <> ch) pre ->
  Forall in_double_quotes mid ->
  strchr_not_quoted buf (Some s) ch
  = strchr_not_quoted buf (Some (s + wlen pre + wlen mid + 2)) ch.
Proof.
  intros Hs Hch E Hpre Hmid. cbn [strchr_not_quoted].
  assert (E' : from buf (s + wlen pre + wlen mid + 2) = post).
  { replace (s + wlen pre + wlen mid + 2) with (s + wlen (pre ++ 34 :: mid ++ [34]))
      by (rewrite wlen_app; unfold wlen at 2; cbn [length]; rewrite length_app;
          cbn [length]; unfold wlen; lia).
    apply from_app; [exact Hs|]. rewrite E, <- !app_assoc. cbn [app].
    rewrite <- app_assoc. reflexivity. }
  rewrite E', E, strchr_not_quoted_scan_before by assumption.
  cbn [strchr_not_quoted_scan]. change (34 =? 0) with false.
  unfold quote_step at 1. change (34 =? 34) with true. cbn [negb andb].
  rewrite strchr_not_quoted_scan_inside by assumption.
  f_equal. lia.
Qed.

End QuoteAwareScanners.

Lemma strchr_not_quoted_found_witness :
  0 <= 5 < wlen (wstr "a'>'b>") /\ char_at (wstr "a'>'b>") 5 = wc ">" /\ wc ">" <> 0.
Proof.
  apply (strchr_not_quoted_found (wstr "a'>'b>") 0 (wc ">") 5); [lia|reflexivity].
Defined.

Ltac chars_ok :=
  vm_compute;
  repeat first [apply Forall_nil | apply Forall_cons];
  repeat split; first [discriminate | reflexivity].

Lemma strchr_not_quoted_without_quotes_witness :
  strchr_not_quoted (wstr "a=b>c") (Some 0) (wc ">") = wcschr (wstr "a=b>c") 0 (wc ">").
Proof.
  apply (strchr_not_quoted_without_quotes (wstr "a=b>c") 0 (wc ">")); [discriminate|chars_ok].
Defined.

Lemma strchr_not_quoted_skips_quoted_witness :
  strchr_not_quoted (wstr "a=" ++ 34 :: wstr "x>'y" ++ 34 :: wstr " b>") (Some 0) (wc ">")
  = strchr_not_quoted (wstr "a=" ++ 34 :: wstr "x>'y" ++ 34 :: wstr " b>")
      (Some (0 + wlen (wstr "a=") + wlen (wstr "x>'y") + 2)) (wc ">").
Proof.
  apply (strchr_not_quoted_skips_quoted _ 0 (wc ">") (wstr "a=") (wstr "x>'y") (wstr " b>"));
    [lia|discriminate|reflexivity|chars_ok|chars_ok].
Defined.

Section CloseTag.
Context {P : Platform}.

(** ** [find_close_tag] *)

Lemma find_close_tag_scan_found (l : wstring) (text : Z) (q sq : bool) (count r : Z) :
  find_close_tag_scan l text q sq count = Some r ->
  nth (Z.to_nat (r - text)) l 0 = wc ">".
Proof.
  revert text q sq count. induction l as [|c l IH]; intros text q sq count H;
    [discriminate|].
  pose proof (find_close_tag_scan_range _ _ _ _ _ _ H) as [Hr _].
  cbn [find_close_tag_scan] in H.
  destruct (c =? 0); [discriminate|].
  assert (Hrec : forall q' sq' count',
             find_close_tag_scan l (text + 1) q' sq' count' = Some r ->
             nth (Z.to_nat (r - text)) (c :: l) 0 = wc ">").
  { intros q' sq' count' H'.
    pose proof (find_close_tag_scan_range _ _ _ _ _ _ H') as [Hr' _].
    apply IH in H'.
    replace (Z.to_nat (r - text)) with (S (Z.to_nat (r - (text + 1)))) by lia. exact H'. }
  destruct (c =? 34); [eauto|].
  destruct ((negb q || sq) && (c =? 39)); [eauto|].
  destruct (negb q && (c =? wc "<")); [eauto|].
  destruct (negb q && (c =? wc ">")) eqn:E; [|eauto].
  destruct (count =? 0); [|eauto].
  injection H as <-. rewrite Z.sub_diag. cbn.
  apply andb_prop in E. destruct E as [_ E]. now apply Z.eqb_eq in E.
Qed.

Lemma find_close_tag_char (buf : wstring) (text r : Z) :
  0 <= text ->
  find_close_tag buf text = Some r ->
  text <= r < wlen buf /\ char_at buf r = wc ">" /\ (char_at buf text = wc "<" -> text < r).
Proof.
  intros Ht H.
  destruct (find_close_tag_range buf text r Ht H) as [Hr Hlt].
  split; [exact Hr|]. split; [|exact Hlt].
  unfold find_close_tag in H. cbv zeta in H.
  set (text' := if char_at buf text =? wc "<" then text + 1 else text) in H.
  assert (Ht' : text <= text') by (subst text'; destruct (_ =? _); lia).
  pose proof (find_close_tag_scan_range _ _ _ _ _ _ H) as [Hr' _].
  apply find_close_tag_scan_found in H.
  unfold from in H. rewrite nth_skipn in H.
  rewrite char_at_nonneg by lia. rewrite <- H. f_equal. lia.
Qed.

(** What [find_close_tag] returns is a [>] of the text, at or after the
    start, and after it when the start is the [<] of the tag. *)
Theorem find_close_tag_found (buf : wstring) (text r : Z) :
  0 <= text ->
  find_close_tag buf text = Some r ->
  text <= r < wlen buf /\ char_at buf r = wc ">" /\ (char_at buf text = wc "<" -> text < r).
Proof. apply find_close_tag_char. Qed.

Lemma find_close_tag_scan_simple (pre l : wstring) (p count : Z) :
  Forall tag_char pre ->
  find_close_tag_scan (pre ++ l) p false false count
  = find_close_tag_scan l (p + wlen pre) false false count.
Proof.
  revert p. induction pre as [|c pre IH]; intros p Hpre; cbn [app].
  - unfold wlen. cbn [length]. f_equal. lia.
  - inversion Hpre as [|? ? [[H0 [H34 H39]] [Hlt Hgt]] Hpre']; subst.
    cbn [find_close_tag_scan].
    destruct (Z.eqb_spec c 0); [contradiction|].
    destruct (Z.eqb_spec c 34); [contradiction|].
    destruct (Z.eqb_spec c 39); [contradiction|].
    destruct (Z.eqb_spec c (wc "<")); [contradiction|].
    destruct (Z.eqb_spec c (wc ">")); [contradiction|].
    cbn [negb orb andb]. rewrite IH by assumption.
    unfold wlen. cbn [length]. f_equal. lia.
Qed.

Lemma find_close_tag_scan_inside (mid l : wstring) (p count : Z) :
  Forall in_double_quotes mid ->
  find_close_tag_scan (mid ++ 34 :: l) p true false count
  = find_close_tag_scan l (p + wlen mid + 1) false false count.
Proof.
  revert p. induction mid as [|c mid IH]; intros p Hmid; cbn [app].
  - cbn [find_close_tag_scan]. change (34 =? 0) with false. change (34 =? 34) with true.
    cbn [negb]. unfold wlen. cbn [length]. f_equal. lia.
  - inversion Hmid as [|? ? [H0 H34] Hmid']; subst.
    cbn [find_close_tag_scan].
    destruct (Z.eqb_spec c 0); [contradiction|].
    destruct (Z.eqb_spec c 34); [contradiction|].
    cbn [negb orb andb]. rewrite IH by assumption.
    unfold wlen. cbn [length]. f_equal. lia.
Qed.

(** A [>] inside a double-quoted attribute value does not close the
    tag: the tag ends at the first [>] after the value, whatever the
    value holds. *)
Theorem find_close_tag_after_quoted_value (buf : wstring) (text : Z)
    (pre mid post rest : wstring) :
  0 <= text ->
  from buf text = wc "<" :: pre ++ 34 :: mid ++ 34 :: post ++ wc ">" :: rest ->
  Forall tag_char pre ->
  Forall in_double_quotes mid ->
  Forall tag_char post ->
  find_close_tag buf text = Some (text + wlen pre + wlen mid + wlen post + 3).
Proof.
  intros Ht E Hpre Hmid Hpost.
  destruct (from_cons buf text _ _ Ht E) as [Hc E'].
  unfold find_close_tag. cbv zeta. rewrite Hc, Z.eqb_refl, E'.
  rewrite find_close_tag_scan_simple by assumption.
  cbn [find_close_tag_scan]. change (34 =? 0) with false. change (34 =? 34) with true.
  cbn [negb].
  rewrite find_close_tag_scan_inside by assumption.
  rewrite find_close_tag_scan_simple by assumption.
  cbn [find_close_tag_scan]. change (wc ">" =? 0) with false.
  change (wc ">" =? 34) with false. change (wc ">" =? 39) with false.
  change (wc ">" =? wc "<") with false. change (wc ">" =? wc ">") with true.
  cbn [negb orb andb]. change (0 =? 0) with true. cbv iota. f_equal. lia.
Qed.

(** Angle brackets nest: an inner [<] ... [>] pair is passed over and the
    tag ends at the [>] that matches its own [<]. *)
Theorem find_close_tag_nested (buf : wstring) (text : Z) (pre inner post rest : wstring) :
  0 <= text ->
  from buf text
  = wc "<" :: pre ++ wc "<" :: inner ++ wc ">" :: post ++ wc ">" :: rest ->
  Forall tag_char pre ->
  Forall tag_char inner ->
  Forall tag_char post ->
  find_close_tag buf text = Some (text + wlen pre + wlen inner + wlen post + 3).
Proof.
  intros Ht E Hpre Hinner Hpost.
  destruct (from_cons buf text _ _ Ht E) as [Hc E'].
  unfold find_close_tag. cbv zeta. rewrite Hc, Z.eqb_refl, E'.
  rewrite find_close_tag_scan_simple by assumption.
  cbn [find_close_tag_scan]. change (wc "<" =? 0) with false.
  change (wc "<" =? 34) with false. change (wc "<" =? 39) with false.
  change (wc "<" =? wc "<") with true. cbn [negb orb andb].
  rewrite find_close_tag_scan_simple by assumption.
  cbn [find_close_tag_scan]. change (wc ">" =? 0) with false.
  change (wc ">" =? 34) with false. change (wc ">" =? 39) with false.
  change (wc ">" =? wc "<") with false. change (wc ">" =? wc ">") with true.
  cbn [negb orb andb]. change (0 + 1 =? 0) with false. cbv iota.
  change (0 + 1 - 1) with 0.
  rewrite find_close_tag_scan_simple by assumption.
  cbn [find_close_tag_scan]. change (wc ">" =? 0) with false.
  change (wc ">" =? 34) with false. change (wc ">" =? 39) with false.
  change (wc ">" =? wc "<") with false. change (wc ">" =? wc ">") with true.
  cbn [negb orb andb]. change (0 =? 0) with true. cbv iota. f_equal. lia.
Qed.

End CloseTag.

Lemma find_close_tag_found_witness :
  0 <= 8 < wlen (wstr "<a b='>'>x") /\ char_at (wstr "<a b='>'>x") 8 = wc ">" /\
  (char_at (wstr "<a b='>'>x") 0 = wc "<" -> 0 < 8).
Proof.
  apply (find_close_tag_found (wstr "<a b='>'>x") 0 8); [lia|reflexivity].
Defined.

Lemma find_close_tag_after_quoted_value_witness :
  find_close_tag (wc "<" :: wstr "a href=" ++ 34 :: wstr "x>y" ++ 34 :: wstr " id=z"
                    ++ wc ">" :: wstr "text") 0
  = Some (0 + wlen (wstr "a href=") + wlen (wstr "x>y") + wlen (wstr " id=z") + 3).
Proof.
  apply (find_close_tag_after_quoted_value _ 0 (wstr "a href=") (wstr "x>y") (wstr " id=z")
           (wstr "text")); [lia|reflexivity|chars_ok|chars_ok|chars_ok].
Defined.

Lemma find_close_tag_nested_witness :
  find_close_tag (wc "<" :: wstr "!-- " ++ wc "<" :: wstr "b" ++ wc ">" :: wstr " --"
                    ++ wc ">" :: wstr "text") 0
  = Some (0 + wlen (wstr "!-- ") + wlen (wstr "b") + wlen (wstr " --") + 3).
Proof.
  apply (find_close_tag_nested _ 0 (wstr "!-- ") (wstr "b") (wstr " --") (wstr "text"));
    [lia|reflexivity|chars_ok|chars_ok|chars_ok].
Defined.

Section ElementName.
Context {P : Platform}.

(** ** [get_element_name] *)

Lemma get_element_name_scan_spec (l : wstring) (accept : bool) :
  exists rest,
    l = get_element_name_scan l accept ++ rest /\
    (forall j : nat, (j < length (get_element_name_scan l accept))%nat ->
       ~ (ends_name (nth j l 0) \/
          (accept = true /\ nth j l 0 = wc "/" /\ nth (S j) l 0 = wc ">"))) /\
    (ends_name (hd 0 rest) \/
     (accept = true /\ hd 0 rest = wc "/" /\ hd 0 (tl rest) = wc ">")).
Proof.
  induction l as [|c l IH]; cbn [get_element_name_scan].
  - exists []. split; [reflexivity|]. split; [cbn; intros j Hj; lia|].
    left. left. reflexivity.
  - destruct ((c =? 0) || iswspace c || (c =? wc ">")) eqn:E.
    + exists (c :: l). split; [reflexivity|]. split; [cbn; intros j Hj; lia|]. left.
      cbn [hd]. unfold ends_name.
      apply orb_prop in E. destruct E as [E|E].
      * apply orb_prop in E. destruct E as [E|E]; [left; now apply Z.eqb_eq|right; left; exact E].
      * right. right. now apply Z.eqb_eq.
    + destruct (accept && (c =? wc "/") && (hd 0 l =? wc ">")) eqn:E'.
      * exists (c :: l). split; [reflexivity|]. split; [cbn; intros j Hj; lia|]. right.
        apply andb_prop in E'. destruct E' as [E' E3]. apply andb_prop in E'.
        destruct E' as [E1 E2]. cbn [hd tl]. repeat split;
          [exact E1|now apply Z.eqb_eq|now apply Z.eqb_eq].
      * destruct IH as (rest & Hl & Hall & Hend).
        exists rest. split; [cbn [app]; now rewrite <- Hl|]. split; [|exact Hend].
        intros [|j] Hj.
        -- cbn [nth]. unfold ends_name.
           apply orb_false_elim in E. destruct E as [E E3].
           apply orb_false_elim in E. destruct E as [E1 E2].
           intros [[H|[H|H]]|(Ha & H1 & H2)].
           ++ apply Z.eqb_neq in E1. contradiction.
           ++ rewrite H in E2. discriminate.
           ++ apply Z.eqb_neq in E3. contradiction.
           ++ rewrite Ha, H1, Z.eqb_refl in E'. cbn [andb] in E'.
              replace (hd 0 l) with (nth 0 l 0) in E' by (destruct l; reflexivity).
              rewrite H2, Z.eqb_refl in E'. discriminate.
        -- cbn [nth]. apply Hall. cbn [length] in Hj. lia.
Qed.

(** The name [get_element_name] returns is the text from the start up
    to, and without, the first place where a name ends: the first
    terminator, white space or [>], or, when self-terminating elements
    are accepted, the first [/] that a [>] follows. *)
Theorem get_element_name_spec (buf : wstring) (text : Z) (accept : bool) :
  0 <= text ->
  let name := get_element_name buf text accept in
  wsub buf text (wlen name) = name /\
  (forall j, 0 <= j < wlen name -> ~ name_ends_at buf (text + j) accept) /\
  name_ends_at buf (text + wlen name) accept.
Proof.
  intros Ht name. subst name. unfold get_element_name, name_ends_at.
  destruct (get_element_name_scan_spec (from buf text) accept) as (rest & Hl & Hall & Hend).
  set (name := get_element_name_scan (from buf text) accept) in *.
  assert (Hrest : from buf (text + wlen name) = rest) by (apply from_app; assumption).
  split; [eapply wsub_from; exact Hl|]. split.
  - intros j Hj. unfold wlen in Hj.
    specialize (Hall (Z.to_nat j) ltac:(lia)).
    replace (text + j) with (text + Z.of_nat (Z.to_nat j)) by lia.
    replace (text + Z.of_nat (Z.to_nat j) + 1) with (text + Z.of_nat (S (Z.to_nat j))) by lia.
    rewrite !(char_at_in_from buf text (from buf text)) by (reflexivity || lia).
    exact Hall.
  - rewrite (char_at_hd buf (text + wlen name)) by (unfold wlen; lia).
    rewrite Hrest.
    destruct Hend as [Hend|(Ha & H1 & H2)]; [left; exact Hend|right].
    split; [exact Ha|]. split; [exact H1|].
    rewrite (char_at_hd buf (text + wlen name + 1)) by (unfold wlen; lia).
    destruct rest as [|c rest']; [discriminate H1|].
    replace (text + wlen name + 1) with (text + wlen name + wlen [c])
      by (unfold wlen; cbn [length]; lia).
    rewrite (from_app buf (text + wlen name) [c] rest'); [exact H2| |exact Hrest].
    unfold wlen. lia.
Qed.

End ElementName.

Lemma get_element_name_spec_witness :
  let name := @get_element_name c_platform (wstr "<br/>x") 1 true in
  wsub (wstr "<br/>x") 1 (wlen name) = name /\
  (forall j, 0 <= j < wlen name -> ~ @name_ends_at c_platform (wstr "<br/>x") (1 + j) true) /\
  @name_ends_at c_platform (wstr "<br/>x") (1 + wlen name) true.
Proof.
  apply (@get_element_name_spec c_platform (wstr "<br/>x") 1 true). lia.
Defined.

Section QuoteAwareSearchFound.
Context {P : Platform}.

(** ** [stristr_not_quoted] *)

Lemma stristr_compare_matched (rounds : nat) (buf : wstring) (string : Z) (strSearch : wstring)
    (i0 : Z) (q sq : bool) (i : Z) (q' sq' : bool) :
  stristr_compare rounds buf string strSearch i0 q sq = Stopped i q' sq' ->
  forall j, i0 <= j < i ->
    char_at buf (string + j) <> 0 /\
    towlower (char_at strSearch j) = towlower (char_at buf (string + j)).
Proof.
  revert i0 q sq. induction rounds as [|rounds IH]; intros i0 q sq H j Hj;
    cbn [stristr_compare] in H.
  - injection H as <- _ _. lia.
  - destruct (Z.eqb_spec (char_at buf (string + i0)) 0) as [|Hnz]; [discriminate|].
    destruct (quote_step _ _ q sq) as [q1 sq1].
    destruct (Z.eqb_spec (towlower (char_at strSearch i0))
                (towlower (char_at buf (string + i0)))) as [Heq|Hne]; cbn [negb] in H.
    + destruct (Z.eq_dec j i0) as [->|Hji]; [split; assumption|].
      eapply IH; [exact H|lia].
    + injection H as <- _ _. lia.
Qed.

Lemma stristr_not_quoted_loop_found (fuel : nat) (buf : wstring) (string endSentinel : Z)
    (strSearch : wstring) (q sq : bool) (r : Z) :
  stristr_not_quoted_loop fuel buf string endSentinel strSearch q sq = Some r ->
  string <= r /\ r + wlen strSearch <= endSentinel /\ matches_at buf r strSearch.
Proof.
  revert string q sq. induction fuel as [|fuel IH]; intros string q sq H;
    cbn [stristr_not_quoted_loop] in H; [discriminate|].
  cbv zeta in H.
  destruct (Z.leb_spec (string + wlen strSearch) endSentinel) as [Hle|]; [|discriminate].
  destruct (stristr_compare (length strSearch) buf string strSearch 0 q sq)
    as [|i q' sq'] eqn:Ec; [discriminate|].
  pose proof (stristr_compare_index _ _ _ _ _ _ _ _ _ _ Ec) as Hi.
  assert (Hw : 0 <= wlen strSearch) by (unfold wlen; lia).
  destruct (Z.eqb_spec i (wlen strSearch)) as [->|Hne].
  - destruct (negb q').
    + injection H as <-. split; [lia|]. split; [exact Hle|].
      intros j Hj. eapply stristr_compare_matched; [exact Ec|exact Hj].
    + apply IH in H. destruct H as (H1 & H2 & H3). split; [lia|]. split; assumption.
  - apply IH in H. destruct H as (H1 & H2 & H3). split; [lia|]. split; assumption.
Qed.

Lemma stristr_not_quoted_match (buf : wstring) (s stringSize : Z) (strSearch : wstring)
    (r : Z) :
  stristr_not_quoted buf (Some s) stringSize strSearch = Some r ->
  s <= r /\ r + wlen strSearch <= ptr_add s stringSize /\ 0 < wlen strSearch /\
  matches_at buf r strSearch.
Proof.
  intro H. cbn [stristr_not_quoted] in H.
  destruct (Z.eqb_spec stringSize 0); [discriminate|].
  destruct (Z.eqb_spec (wlen strSearch) 0) as [|Hn]; [discriminate|]. cbn [orb] in H.
  apply stristr_not_quoted_loop_found in H. destruct H as (H1 & H2 & H3).
  split; [exact H1|]. split; [exact H2|]. split; [unfold wlen in *; lia|exact H3].
Qed.

(** What [stristr_not_quoted] returns is an occurrence of the string
    searched, without regard to case, that lies wholly in the range
    searched. *)
Theorem stristr_not_quoted_found (buf : wstring) (s stringSize : Z) (strSearch : wstring)
    (r : Z) :
  stristr_not_quoted buf (Some s) stringSize strSearch = Some r ->
  s <= r /\ r + wlen strSearch <= ptr_add s stringSize /\ 0 < wlen strSearch /\
  matches_at buf r strSearch.
Proof. apply stristr_not_quoted_match. Qed.

End QuoteAwareSearchFound.

Lemma stristr_not_quoted_found_witness :
  0 <= 12 /\ 12 + wlen (wstr "HREF") <= ptr_add 0 16 /\ 0 < wlen (wstr "HREF") /\
  @matches_at c_platform (wstr "<a t='href' href=x>") 12 (wstr "HREF").
Proof.
  apply (@stristr_not_quoted_found c_platform (wstr "<a t='href' href=x>") 0 16 (wstr "HREF") 12).
  reflexivity.
Defined.

Section FindTag.
Context {P : Platform}.

(** ** [find_tag] *)

Lemma starts_with_chars (fold : wchar_t -> wchar_t) (needle l : wstring) :
  starts_with fold needle l = true ->
  forall j : nat, (j < length needle)%nat ->
    nth j l 0 <> 0 /\ fold (nth j needle 0) = fold (nth j l 0).
Proof.
  revert l. induction needle as [|n needle IH]; intros l H j Hj; [cbn in Hj; lia|].
  cbn [starts_with] in H. destruct l as [|x l]; [discriminate|].
  destruct (Z.eqb_spec x 0) as [|Hx]; [discriminate|].
  apply andb_prop in H. destruct H as [H1 H2]. apply Z.eqb_eq in H1.
  destruct j as [|j]; cbn [nth].
  - split; [exact Hx|now symmetry].
  - apply IH; [exact H2|cbn [length] in Hj; lia].
Qed.

Lemma strnistr_scan_found (needle l : wstring) (p n r : Z) :
  strnistr_scan needle l p n = Some r ->
  p <= r /\ starts_with towlower needle (skipn (Z.to_nat (r - p)) l) = true.
Proof.
  revert p n. induction l as [|x l IH]; intros p n H; cbn [strnistr_scan] in H.
  - destruct (n <=? 0); discriminate.
  - destruct (n <=? 0); [discriminate|].
    destruct (x =? 0); [discriminate|].
    destruct (starts_with_n needle (x :: l) n) eqn:E.
    + injection H as <-. rewrite Z.sub_diag. split; [lia|].
      unfold starts_with_n in E. apply andb_prop in E. apply E.
    + apply IH in H. destruct H as [H1 H2]. split; [lia|].
      replace (Z.to_nat (r - p)) with (S (Z.to_nat (r - (p + 1)))) by lia. exact H2.
Qed.

Lemma strnistr_found (buf : wstring) (s : Z) (needle : wstring) (n r : Z) :
  0 <= s ->
  strnistr buf s needle n = Some r ->
  s <= r /\ matches_at buf r needle.
Proof.
  intros Hs H. unfold strnistr in H. destruct needle as [|c needle]; [discriminate|].
  apply strnistr_scan_found in H. destruct H as [H1 H2]. split; [exact H1|].
  intros j Hj. unfold wlen in Hj.
  pose proof (starts_with_chars _ _ _ H2 (Z.to_nat j) ltac:(lia)) as [Ha Hb].
  unfold from in Ha, Hb. rewrite skipn_skipn, nth_skipn in Ha, Hb.
  replace (Z.to_nat (r - s) + Z.to_nat s + Z.to_nat j)%nat with (Z.to_nat (r + j)) in Ha, Hb
    by lia.
  rewrite (char_at_nonneg buf (r + j)) by lia.
  rewrite (char_at_nonneg (c :: needle) j) by lia.
  split; assumption.
Qed.

Lemma find_tag_loop_found (fuel : nat) (buf : wstring) (text foundTag elementEnd : Z)
    (tag : wstring) (allowQuotedTags : bool) (r : Z) :
  0 <= foundTag ->
  find_tag_loop fuel buf text foundTag elementEnd tag allowQuotedTags = Some r ->
  foundTag <= r <= elementEnd /\ matches_at buf r tag /\
  (r = text \/ iswspace (char_at buf (r - 1)) = true \/ char_at buf (r - 1) = wc ";" \/
   (allowQuotedTags = true /\ (char_at buf (r - 1) = 39 \/ char_at buf (r - 1) = 34))).
Proof.
  revert foundTag. induction fuel as [|fuel IH]; intros foundTag Hf H;
    cbn [find_tag_loop] in H; [discriminate|].
  cbv zeta in H.
  assert (Hw : 0 <= wlen tag) by (unfold wlen; lia).
  destruct (if allowQuotedTags
            then strnistr buf foundTag tag (size_t_of (elementEnd - foundTag))
            else stristr_not_quoted buf (Some foundTag)
                   (size_t_of (elementEnd - foundTag)) tag) as [f|] eqn:E; [|discriminate].
  assert (Hfound : foundTag <= f /\ matches_at buf f tag).
  { destruct allowQuotedTags.
    - eapply strnistr_found; eassumption.
    - apply stristr_not_quoted_match in E. split; apply E. }
  destruct Hfound as [Hge Hm].
  destruct (Z.ltb_spec elementEnd f) as [|Hle]; [discriminate|].
  destruct (Z.eqb_spec f text) as [Heq|Hne].
  { injection H as <-. split; [lia|]. split; [exact Hm|]. left. exact Heq. }
  destruct (allowQuotedTags && is_either (char_at buf (f - 1)) 39 34) eqn:Eq.
  { injection H as <-. apply andb_prop in Eq. destruct Eq as [Ea Eb].
    unfold is_either in Eb. apply orb_prop in Eb.
    split; [lia|]. split; [exact Hm|]. right. right. right.
    split; [exact Ea|]. destruct Eb as [Eb|Eb]; apply Z.eqb_eq in Eb; auto. }
  destruct (iswspace (char_at buf (f - 1)) || (char_at buf (f - 1) =? wc ";")) eqn:Es.
  { injection H as <-. apply orb_prop in Es.
    split; [lia|]. split; [exact Hm|]. right.
    destruct Es as [Es|Es]; [left; exact Es|right; left; now apply Z.eqb_eq]. }
  apply IH in H; [|lia]. destruct H as (H1 & H2 & H3).
  split; [lia|]. split; assumption.
Qed.

(** What [find_tag] returns is an occurrence of the attribute name,
    without regard to case, that begins inside the tag (at or before
    its closing [>]) and does not continue a longer name: it stands at
    the very start, or after white space or a semicolon, or, when quoted
    tags are allowed, after a quote. *)
Theorem find_tag_found (buf : wstring) (text : Z) (tag : wstring) (allowQuotedTags : bool)
    (r : Z) :
  0 <= text ->
  find_tag buf text tag allowQuotedTags = Some r ->
  exists elementEnd,
    find_close_tag buf text = Some elementEnd /\
    text <= r <= elementEnd /\ matches_at buf r tag /\
    (r = text \/ iswspace (char_at buf (r - 1)) = true \/ char_at buf (r - 1) = wc ";" \/
     (allowQuotedTags = true /\ (char_at buf (r - 1) = 39 \/ char_at buf (r - 1) = 34))).
Proof.
  intros Ht H. unfold find_tag in H. destruct (wlen tag =? 0); [discriminate|].
  destruct (find_close_tag buf text) as [elementEnd|]; [|discriminate].
  exists elementEnd. split; [reflexivity|].
  eapply find_tag_loop_found; eassumption.
Qed.

End FindTag.

Lemma find_tag_found_witness :
  exists elementEnd,
    find_close_tag (wstr "<td bgcolor=red color=blue>") 0 = Some elementEnd /\
    0 <= 16 <= elementEnd /\ @matches_at c_platform (wstr "<td bgcolor=red color=blue>") 16 (wstr "color") /\
    (16 = 0 \/ @iswspace c_platform (char_at (wstr "<td bgcolor=red color=blue>") (16 - 1)) = true \/
     char_at (wstr "<td bgcolor=red color=blue>") (16 - 1) = wc ";" \/
     (false = true /\ (char_at (wstr "<td bgcolor=red color=blue>") (16 - 1) = 39 \/
                       char_at (wstr "<td bgcolor=red color=blue>") (16 - 1) = 34))).
Proof.
  apply (@find_tag_found c_platform (wstr "<td bgcolor=red color=blue>") 0 (wstr "color") false 16);
    [lia|reflexivity].
Defined.

Section ReadAttribute.
Context {P : Platform}.

(** ** [read_attribute] *)

Lemma in_set_false (c : wchar_t) (set : wstring) :
  in_set c set = false -> forall x, In x set -> c <> x.
Proof.
  unfold in_set. intros H x Hx Hc. subst x.
  assert (E : existsb (fun x => x =? c) set = true).
  { apply existsb_exists. exists c. split; [exact Hx|apply Z.eqb_refl]. }
  rewrite E in H. discriminate.
Qed.

Lemma strcspn_pointer_scan_before (l : wstring) (p : Z) (reject : wstring) (e : Z) :
  strcspn_pointer_scan l p reject = Some e ->
  Forall (fun c => c <> 0 /\ in_set c reject = false) (firstn (Z.to_nat (e - p)) l).
Proof.
  revert p. induction l as [|x l IH]; intros p H; cbn [strcspn_pointer_scan] in H;
    [discriminate|].
  destruct (Z.eqb_spec x 0) as [|Hx]; [discriminate|].
  destruct (in_set x reject) eqn:Ex.
  - injection H as <-. rewrite Z.sub_diag. constructor.
  - pose proof (strcspn_pointer_scan_ge _ _ _ _ H) as Hge.
    apply IH in H.
    replace (Z.to_nat (e - p)) with (S (Z.to_nat (e - (p + 1)))) by lia.
    cbn [firstn]. constructor; [split; assumption|exact H].
Qed.

Lemma Forall_firstn_le (A : Type) (Q : A -> Prop) (l : list A) (k' k : nat) :
  (k' <= k)%nat -> Forall Q (firstn k l) -> Forall Q (firstn k' l).
Proof.
  revert k' k. induction l as [|x l IH]; intros k' k Hk H.
  - rewrite firstn_nil. constructor.
  - destruct k' as [|k']; [constructor|].
    destruct k as [|k]; [lia|].
    cbn [firstn] in *. inversion H; subst. constructor; [assumption|].
    eapply IH; [|eassumption]. lia.
Qed.

Lemma trim_attribute_end_bounds (n : nat) (buf : wstring) (foundTag e : Z) :
  foundTag <= e -> foundTag <= trim_attribute_end n buf foundTag e <= e.
Proof.
  revert e. induction n as [|n IH]; intros e He; cbn [trim_attribute_end]; [lia|].
  destruct (Z.ltb_spec foundTag (e - 1)); [|lia].
  destruct (is_either _ _ _); [|lia].
  specialize (IH (e - 1) ltac:(lia)). lia.
Qed.

(** The value [read_attribute] returns is not empty, lies inside the
    tag, after the attribute name and before the closing [>], and holds
    no quote, no [>] and no terminator; it holds no space unless spaces
    are allowed, and no semicolon when quoted tags are allowed. *)
Theorem read_attribute_value (buf : wstring) (text : Z) (tag : wstring)
    (allowQuotedTags allowSpacesInValue : bool) (first second : Z) :
  0 <= text ->
  read_attribute buf text tag allowQuotedTags allowSpacesInValue = Some (first, second) ->
  exists elementEnd,
    find_close_tag buf text = Some elementEnd /\
    text < first /\ 0 < second /\ first + second <= elementEnd /\
    Forall (fun c => c <> 0 /\ c <> 34 /\ c <> 39 /\ c <> wc ">" /\
                     (allowSpacesInValue = false -> c <> wc " ") /\
                     (allowQuotedTags = true -> c <> wc ";"))
      (wsub buf first second).
Proof.
  intros Ht H.
  pose proof (read_attribute_after _ _ _ _ _ _ _ Ht H) as Hafter.
  unfold read_attribute in H.
  destruct (Z.eqb_spec (wlen tag) 0) as [|Hn]; [discriminate|].
  destruct (find_tag buf text tag allowQuotedTags) as [foundTag|] eqn:Ef; [|discriminate].
  destruct (find_close_tag buf text) as [elementEnd|]; [|discriminate].
  exists elementEnd. split; [reflexivity|]. split; [exact Hafter|].
  destruct (foundTag <? elementEnd); [|discriminate].
  cbv zeta in H.
  set (f1 := foundTag + wlen tag) in H.
  set (f2 := skip_blanks (from buf f1) f1 elementEnd) in H.
  set (f3 := if (f2 <? elementEnd) && is_either (char_at buf f2) (wc ":") (wc "=")
             then f2 + 1 else f2) in H.
  set (f4 := skip_blanks (from buf f3) f3 elementEnd) in H.
  set (f5 := if (f4 <? elementEnd) && is_either (char_at buf f4) 39 34
             then f4 + 1 else f4) in H.
  destruct (elementEnd <=? f5); [discriminate|].
  set (reject := if allowQuotedTags && allowSpacesInValue then [34; 39; wc ">"; wc ";"]
                 else if allowQuotedTags then [wc " "; 34; 39; wc ">"; wc ";"]
                 else if allowSpacesInValue then [34; 39; wc ">"]
                 else [wc " "; 34; 39; wc ">"]).
  assert (Hrej : (if allowQuotedTags && allowSpacesInValue
                  then strcspn_pointer buf f5 [34; 39; wc ">"; wc ";"]
                  else if allowQuotedTags
                  then strcspn_pointer buf f5 [wc " "; 34; 39; wc ">"; wc ";"]
                  else if allowSpacesInValue
                  then strcspn_pointer buf f5 [34; 39; wc ">"]
                  else strcspn_pointer buf f5 [wc " "; 34; 39; wc ">"])
                 = strcspn_pointer buf f5 reject).
  { subst reject. destruct allowQuotedTags, allowSpacesInValue; reflexivity. }
  rewrite Hrej in H. clear Hrej.
  destruct (strcspn_pointer buf f5 reject) as [e0|] eqn:Ee; [|discriminate].
  destruct (Z.leb_spec e0 elementEnd) as [Hle|]; [|discriminate].
  pose proof (strcspn_pointer_ge _ _ _ _ Ee) as Hge.
  set (e1 := if char_at buf e0 =? wc ">"
             then trim_attribute_end (Z.to_nat (e0 - f5)) buf f5 e0 else e0) in H.
  assert (He1 : f5 <= e1 <= e0).
  { subst e1. destruct (char_at buf e0 =? wc ">"); [|lia].
    apply trim_attribute_end_bounds. exact Hge. }
  destruct (Z.eqb_spec (e1 - f5) 0) as [|Hne]; [discriminate|].
  injection H as <- <-.
  split; [lia|]. split; [lia|].
  unfold strcspn_pointer in Ee. apply strcspn_pointer_scan_before in Ee.
  unfold wsub.
  apply (Forall_firstn_le _ _ _ _ (Z.to_nat (e0 - f5))); [lia|].
  eapply Forall_impl; [|exact Ee].
  intros c [Hc0 Hin]. pose proof (in_set_false _ _ Hin) as Hnot.
  assert (H34 : In 34 reject)
    by (subst reject; destruct allowQuotedTags, allowSpacesInValue; cbn; tauto).
  assert (H39 : In 39 reject)
    by (subst reject; destruct allowQuotedTags, allowSpacesInValue; cbn; tauto).
  assert (Hgt : In (wc ">") reject)
    by (subst reject; destruct allowQuotedTags, allowSpacesInValue; cbn; tauto).
  repeat split; auto.
  - intros ->. apply Hnot. subst reject. destruct allowQuotedTags; cbn; tauto.
  - intros ->. apply Hnot. subst reject. destruct allowSpacesInValue; cbn; tauto.
Qed.

End ReadAttribute.

Lemma read_attribute_value_witness :
  exists elementEnd,
    find_close_tag (wstr "<img src='my pic.png' />") 0 = Some elementEnd /\
    0 < 10 /\ 0 < 10 /\ 10 + 10 <= elementEnd /\
    Forall (fun c => c <> 0 /\ c <> 34 /\ c <> 39 /\ c <> wc ">" /\
                     (true = false -> c <> wc " ") /\ (false = true -> c <> wc ";"))
      (wsub (wstr "<img src='my pic.png' />") 10 10).
Proof.
  apply (@read_attribute_value c_platform (wstr "<img src='my pic.png' />") 0 (wstr "src")
           false true 10 10); [lia|reflexivity].
Defined.

(** * The element locator *)

Section ElementLocator.
Context {P : Platform}.

Lemma wcschr_scan_first (l : wstring) (p : Z) (c : wchar_t) (q : Z) :
  wcschr_scan l p c = Some q ->
  forall j : nat, (j < Z.to_nat (q - p))%nat -> nth j l 0 <> c /\ nth j l 0 <> 0.
Proof.
  revert p. induction l as [|x l IH]; intros p H j Hj; cbn [wcschr_scan] in H;
    [discriminate|].
  destruct (Z.eqb_spec x 0) as [|Hx]; [discriminate|].
  destruct (Z.eqb_spec x c) as [|Hc].
  - injection H as <-. rewrite Z.sub_diag in Hj. cbn in Hj. lia.
  - pose proof (wcschr_scan_range _ _ _ _ H) as [Hr _].
    destruct j as [|j]; cbn [nth]; [split; assumption|].
    eapply IH; [exact H|lia].
Qed.

Lemma wcschr_first (buf : wstring) (p : Z) (c : wchar_t) (q : Z) :
  0 <= p ->
  wcschr buf p c = Some q ->
  forall k, p <= k < q -> char_at buf k <> c /\ char_at buf k <> 0.
Proof.
  intros Hp H k Hk. unfold wcschr in H.
  pose proof (wcschr_scan_first _ _ _ _ H (Z.to_nat (k - p)) ltac:(lia)) as Hn.
  unfold from in Hn. rewrite nth_skipn in Hn.
  replace (Z.to_nat p + Z.to_nat (k - p))%nat with (Z.to_nat k) in Hn by lia.
  rewrite char_at_nonneg by lia. exact Hn.
Qed.

Lemma wcschr_scan_none (l : wstring) (p : Z) (c : wchar_t) :
  wcschr_scan l p c = None ->
  forall j : nat, (forall i : nat, (i <= j)%nat -> nth i l 0 <> 0) -> nth j l 0 <> c.
Proof.
  revert p. induction l as [|x l IH]; intros p H j Hj.
  - specialize (Hj j (Nat.le_refl j)). destruct j; cbn in Hj; contradiction.
  - cbn [wcschr_scan] in H.
    destruct (Z.eqb_spec x 0) as [Hx|Hx].
    { specialize (Hj 0%nat (Nat.le_0_l j)). cbn in Hj. contradiction. }
    destruct (Z.eqb_spec x c) as [|Hc]; [discriminate|].
    destruct j as [|j]; cbn [nth]; [exact Hc|].
    eapply IH; [exact H|]. intros i Hi. apply (Hj (S i)). lia.
Qed.

Lemma wcschr_none (buf : wstring) (p : Z) (c : wchar_t) :
  0 <= p ->
  wcschr buf p c = None ->
  forall q, p <= q -> (forall k, p <= k <= q -> char_at buf k <> 0) -> char_at buf q <> c.
Proof.
  intros Hp H q Hq Hnz. unfold wcschr in H.
  pose proof (wcschr_scan_none _ _ _ H (Z.to_nat (q - p))) as Hn.
  unfold from in Hn. rewrite nth_skipn in Hn.
  replace (Z.to_nat p + Z.to_nat (q - p))%nat with (Z.to_nat q) in Hn by lia.
  rewrite char_at_nonneg by lia. apply Hn.
  intros i Hi. rewrite nth_skipn.
  specialize (Hnz (p + Z.of_nat i) ltac:(lia)).
  rewrite char_at_nonneg in Hnz by lia.
  replace (Z.to_nat (p + Z.of_nat i)) with (Z.to_nat p + i)%nat in Hnz by lia. exact Hnz.
Qed.

(** ** [find_element] *)

Lemma find_element_loop_first (fuel : nat) (buf : wstring) (sectionStart sectionEnd : Z)
    (elementTag : wstring) (accept : bool) (r : Z) :
  0 <= sectionStart ->
  find_element_loop fuel buf sectionStart sectionEnd elementTag accept = Some r ->
  sectionStart <= r < wlen buf /\ r + wlen elementTag <= sectionEnd /\
  char_at buf r = wc "<" /\ compare_element buf (r + 1) elementTag accept = true /\
  forall q, sectionStart <= q < r -> char_at buf q = wc "<" ->
    compare_element buf (q + 1) elementTag accept = false.
Proof.
  revert sectionStart. induction fuel as [|fuel IH]; intros sectionStart Hs H;
    cbn [find_element_loop] in H; [discriminate|].
  destruct (sectionStart + wlen elementTag <? sectionEnd); [|discriminate].
  destruct (wcschr buf sectionStart (wc "<")) as [s|] eqn:Ew; [|discriminate].
  pose proof (wcschr_range _ _ _ _ Hs Ew) as Hr.
  pose proof (wcschr_char _ _ _ _ Hs Ew) as Hc.
  pose proof (wcschr_first _ _ _ _ Hs Ew) as Hfirst.
  destruct (Z.ltb_spec sectionEnd (s + wlen elementTag)) as [|Hle]; [discriminate|].
  destruct (compare_element buf (s + 1) elementTag accept) eqn:Ec.
  - injection H as <-. repeat split; try lia; try assumption.
    intros q Hq Hlt. exfalso. destruct (Hfirst q Hq) as [Hne _]. contradiction.
  - apply IH in H; [|lia]. destruct H as (H1 & H2 & H3 & H4 & H5).
    repeat split; try lia; try assumption.
    intros q Hq Hlt. destruct (Z.lt_trichotomy q s) as [Hqs|[->|Hqs]].
    + exfalso. destruct (Hfirst q ltac:(lia)) as [Hne _]. contradiction.
    + exact Ec.
    + apply H5; [lia|exact Hlt].
Qed.

Lemma find_element_sound (buf : wstring) (sectionStart sectionEnd : Z)
    (elementTag : wstring) (accept : bool) (r : Z) :
  0 <= sectionStart ->
  find_element buf sectionStart sectionEnd elementTag accept = Some r ->
  sectionStart <= r < wlen buf /\ r + wlen elementTag <= sectionEnd /\
  char_at buf r = wc "<" /\ compare_element buf (r + 1) elementTag accept = true /\
  forall q, sectionStart <= q < r -> char_at buf q = wc "<" ->
    compare_element buf (q + 1) elementTag accept = false.
Proof.
  intros Hs H. unfold find_element in H. destruct (wlen elementTag =? 0); [discriminate|].
  eapply find_element_loop_first; eassumption.
Qed.

(** What [find_element] returns is the first [<] from the start of the
    section at which [compare_element] accepts the element; the name
    after it lies inside the section. *)
Theorem find_element_first (buf : wstring) (sectionStart sectionEnd : Z)
    (elementTag : wstring) (accept : bool) (r : Z) :
  0 <= sectionStart ->
  find_element buf sectionStart sectionEnd elementTag accept = Some r ->
  sectionStart <= r < wlen buf /\ r + wlen elementTag <= sectionEnd /\
  char_at buf r = wc "<" /\ compare_element buf (r + 1) elementTag accept = true /\
  forall q, sectionStart <= q < r -> char_at buf q = wc "<" ->
    compare_element buf (q + 1) elementTag accept = false.
Proof. apply find_element_sound. Qed.

Lemma find_element_loop_none (fuel : nat) (buf : wstring) (sectionStart sectionEnd : Z)
    (elementTag : wstring) (accept : bool) :
  0 <= sectionStart ->
  wlen buf - sectionStart < Z.of_nat fuel ->
  find_element_loop fuel buf sectionStart sectionEnd elementTag accept = None ->
  forall q, sectionStart <= q -> q + wlen elementTag < sectionEnd ->
    (forall k, sectionStart <= k <= q -> char_at buf k <> 0) ->
    char_at buf q = wc "<" ->
    compare_element buf (q + 1) elementTag accept = false.
Proof.
  revert sectionStart. induction fuel as [|fuel IH];
    intros sectionStart Hs Hfuel H q Hq Hend Hnz Hlt.
  - exfalso. apply (Hnz q ltac:(lia)). apply char_at_beyond. lia.
  - cbn [find_element_loop] in H.
    destruct (Z.ltb_spec (sectionStart + wlen elementTag) sectionEnd); [|lia].
    destruct (wcschr buf sectionStart (wc "<")) as [s|] eqn:Ew.
    + pose proof (wcschr_range _ _ _ _ Hs Ew) as Hr.
      pose proof (wcschr_first _ _ _ _ Hs Ew) as Hfirst.
      assert (Hsq : s <= q).
      { destruct (Z.le_gt_cases s q); [assumption|].
        destruct (Hfirst q ltac:(lia)) as [Hne _]. contradiction. }
      destruct (Z.ltb_spec sectionEnd (s + wlen elementTag)); [lia|].
      destruct (compare_element buf (s + 1) elementTag accept) eqn:Ec; [discriminate|].
      destruct (Z.eq_dec q s) as [->|Hne]; [exact Ec|].
      apply (IH (s + 1)); try lia; try assumption.
      intros k Hk. apply Hnz. lia.
    + exfalso. exact (wcschr_none _ _ _ Hs Ew q Hq Hnz Hlt).
Qed.

Lemma find_element_complete (buf : wstring) (sectionStart sectionEnd : Z)
    (elementTag : wstring) (accept : bool) :
  0 <= sectionStart ->
  find_element buf sectionStart sectionEnd elementTag accept = None ->
  forall q, sectionStart <= q -> q + wlen elementTag < sectionEnd ->
    (forall k, sectionStart <= k <= q -> char_at buf k <> 0) ->
    char_at buf q = wc "<" ->
    compare_element buf (q + 1) elementTag accept = false.
Proof.
  intros Hs H q Hq Hend Hnz Hlt. unfold find_element in H.
  destruct (Z.eqb_spec (wlen elementTag) 0) as [E|_].
  - unfold compare_element. rewrite E. reflexivity.
  - eapply find_element_loop_none; try eassumption. unfold wlen. lia.
Qed.

(** When [find_element] returns null, [compare_element] accepts the
    element at no [<] that lies in the text, far enough from the end of
    the section for the loop to reach it. *)
Theorem find_element_none (buf : wstring) (sectionStart sectionEnd : Z)
    (elementTag : wstring) (accept : bool) :
  0 <= sectionStart ->
  find_element buf sectionStart sectionEnd elementTag accept = None ->
  forall q, sectionStart <= q -> q + wlen elementTag < sectionEnd ->
    (forall k, sectionStart <= k <= q -> char_at buf k <> 0) ->
    char_at buf q = wc "<" ->
    compare_element buf (q + 1) elementTag accept = false.
Proof. apply find_element_complete. Qed.

End ElementLocator.

Lemma find_element_first_witness :
  0 <= 7 < wlen (wstr "<table><a href=x>") /\ 7 + wlen (wstr "A") <= 17 /\
  char_at (wstr "<table><a href=x>") 7 = wc "<" /\
  @compare_element c_platform (wstr "<table><a href=x>") (7 + 1) (wstr "A") true = true /\
  forall q, 0 <= q < 7 -> char_at (wstr "<table><a href=x>") q = wc "<" ->
    @compare_element c_platform (wstr "<table><a href=x>") (q + 1) (wstr "A") true = false.
Proof.
  apply (@find_element_first c_platform (wstr "<table><a href=x>") 0 17 (wstr "A") true 7);
    [lia|reflexivity].
Defined.

Lemma find_element_none_witness :
  @compare_element c_platform (wstr "<b>x<i>y") (4 + 1) (wstr "a") true = false.
Proof.
  refine (@find_element_none c_platform (wstr "<b>x<i>y") 0 8 (wstr "a") true _ _ 4 _ _ _ _).
  - lia.
  - reflexivity.
  - lia.
  - reflexivity.
  - intros k Hk.
    assert (Hcases : k = 0 \/ k = 1 \/ k = 2 \/ k = 3 \/ k = 4) by lia.
    destruct Hcases as [->|[->|[->|[->| ->]]]]; discriminate.
  - reflexivity.
Defined.

Section ElementComparison.
Context {P : Platform}.

(** ** [compare_element_case_sensitive] *)

Lemma wcsncmp_strnicmp (n : nat) (a b : wstring) :
  wcsncmp_eq n a b = true -> strnicmp_eq n a b = true.
Proof.
  revert a b. induction n as [|n IH]; intros a b H; [reflexivity|].
  cbn [wcsncmp_eq strnicmp_eq] in *. cbv zeta in *.
  destruct (Z.eqb_spec (hd 0 a) (hd 0 b)) as [E|]; [|discriminate].
  rewrite E, Z.eqb_refl. rewrite E in H.
  destruct (hd 0 b =? 0); [reflexivity|]. apply IH. exact H.
Qed.

(** An element that [compare_element_case_sensitive] accepts is accepted
    by [compare_element] as well. *)
Theorem compare_element_case_sensitive_implies (buf : wstring) (text : Z)
    (element : wstring) (accept : bool) :
  compare_element_case_sensitive buf text element accept = true ->
  compare_element buf text element accept = true.
Proof.
  unfold compare_element_case_sensitive, compare_element.
  destruct (wlen element =? 0); [discriminate|].
  destruct (wcsncmp_eq (length element) (from buf text) element) eqn:E; [|discriminate].
  rewrite (wcsncmp_strnicmp _ _ _ E). trivial.
Qed.

(** An element that [compare_element] accepts is followed by [>], or by
    white space, or, when self-terminating elements are accepted, by
    [/]: a longer name is never taken for the element. *)
Theorem compare_element_delimited (buf : wstring) (text : Z) (element : wstring)
    (accept : bool) :
  compare_element buf text element accept = true ->
  let c := char_at buf (text + wlen element) in
  0 < wlen element /\ c <> 0 /\
  (c = wc ">" \/ iswspace c = true \/ (accept = true /\ c = wc "/")).
Proof.
  unfold compare_element. cbv zeta.
  destruct (Z.eqb_spec (wlen element) 0) as [|Hn]; [discriminate|].
  destruct (strnicmp_eq (length element) (from buf text) element); [|discriminate].
  destruct (Z.eqb_spec (char_at buf (text + wlen element)) 0) as [|H0]; [discriminate|].
  intro H. split; [unfold wlen in *; lia|]. split; [exact H0|].
  destruct (Z.eqb_spec (char_at buf (text + wlen element)) (wc ">")) as [E|_];
    [left; exact E|].
  destruct accept.
  - apply orb_prop in H. destruct H as [H|H].
    + right. right. split; [reflexivity|now apply Z.eqb_eq].
    + right. left. exact H.
  - destruct (iswspace (char_at buf (text + wlen element))) eqn:Ew; [|discriminate].
    right. left. reflexivity.
Qed.

(** ** [find_closing_element] *)

Lemma find_closing_element_loop_closing (fuel : nat) (buf : wstring) (start : option Z)
    (sectionEnd : Z) (elementTag : wstring) (stackSize r : Z) :
  1 <= stackSize ->
  find_closing_element_loop fuel buf start sectionEnd elementTag stackSize = Some r ->
  is_closing_tag buf elementTag r = true /\ r + wlen elementTag + 1 < sectionEnd.
Proof.
  revert start stackSize. induction fuel as [|fuel IH]; intros start stackSize Hst H;
    cbn [find_closing_element_loop] in H; [discriminate|].
  destruct start as [s|]; [|discriminate].
  destruct (Z.ltb_spec (s + wlen elementTag + 1) sectionEnd) as [Hlt|]; [|discriminate].
  cbv zeta in H. fold (is_closing_tag buf elementTag s) in H.
  destruct (is_closing_tag buf elementTag s) eqn:Ec.
  - destruct (Z.eqb_spec (stackSize - 1) 0).
    + injection H as <-. split; assumption.
    + eapply IH; [|exact H]. lia.
  - destruct (compare_element buf (s + 1) elementTag true).
    + destruct (Z.eqb_spec (stackSize + 1) 0); [lia|]. eapply IH; [|exact H]. lia.
    + destruct (Z.eqb_spec stackSize 0); [lia|]. eapply IH; [|exact H]. lia.
Qed.

Lemma find_closing_element_is_closing (buf : wstring) (sectionStart sectionEnd : Z)
    (elementTag : wstring) (r : Z) :
  0 <= sectionStart ->
  find_closing_element buf sectionStart sectionEnd elementTag = Some r ->
  sectionStart <= r /\ r + wlen elementTag <= sectionEnd /\
  char_at buf r = wc "<" /\ char_at buf (r + 1) = wc "/" /\
  compare_element buf (r + 2) elementTag true = true.
Proof.
  intros Hs H.
  pose proof (find_closing_element_ge _ _ _ _ _ Hs H) as Hge.
  assert (Hangle : char_at buf r = wc "<").
  { pose proof H as H'. unfold find_closing_element in H'.
    destruct (wlen elementTag =? 0); [discriminate|].
    destruct (wcschr buf sectionStart (wc "<")) as [s0|] eqn:Ew; [|discriminate].
    destruct (sectionEnd <? s0 + wlen elementTag); [discriminate|].
    cbv zeta in H'.
    assert (Hloop : forall fuel start stackSize,
               (forall s, start = Some s -> 0 <= s /\ char_at buf s = wc "<") ->
               find_closing_element_loop fuel buf start sectionEnd elementTag stackSize
               = Some r -> char_at buf r = wc "<").
    { induction fuel as [|fuel IH]; intros start stackSize Hst Hl;
        cbn [find_closing_element_loop] in Hl; [discriminate|].
      destruct start as [s|]; [|discriminate].
      destruct (Hst s eq_refl) as [Hs0 Hsc].
      destruct (s + wlen elementTag + 1 <? sectionEnd); [|discriminate].
      cbv zeta in Hl.
      match type of Hl with
      | (if ?c then _ else _) = _ => destruct c
      end.
      - injection Hl as <-. exact Hsc.
      - eapply IH; [|exact Hl]. intros s' Hs'.
        pose proof (wcschr_range buf (s + 1) (wc "<") s' ltac:(lia) Hs') as Hr'.
        split; [lia|]. eapply wcschr_char; [|exact Hs']. lia. }
    pose proof (wcschr_char _ _ _ _ Hs Ew) as Hc0.
    pose proof (wcschr_range _ _ _ _ Hs Ew) as Hr0.
    assert (Hw : 0 <= wlen elementTag) by (unfold wlen; lia).
    destruct (compare_element buf (s0 + 1) elementTag true).
    - eapply Hloop; [|exact H']. intros s Hs'.
      pose proof (wcschr_range buf (s0 + 1 + wlen elementTag) (wc "<") s ltac:(lia) Hs')
        as Hr'.
      split; [lia|]. eapply wcschr_char; [|exact Hs']. lia.
    - destruct ((char_at buf (s0 + 1) =? wc "/") && _).
      + injection H' as <-. replace (s0 + 1 - 1) with s0 by lia. exact Hc0.
      + eapply Hloop; [|exact H']. intros s Hs'. injection Hs' as <-.
        split; [lia|exact Hc0]. }
  split; [exact Hge|].
  unfold find_closing_element in H.
  destruct (wlen elementTag =? 0); [discriminate|].
  destruct (wcschr buf sectionStart (wc "<")) as [s0|] eqn:Ew; [|discriminate].
  destruct (Z.ltb_spec sectionEnd (s0 + wlen elementTag)) as [|Hle]; [discriminate|].
  cbv zeta in H.
  destruct (compare_element buf (s0 + 1) elementTag true).
  - apply find_closing_element_loop_closing in H; [|lia]. destruct H as [Hc Hend].
    unfold is_closing_tag in Hc. apply andb_prop in Hc. destruct Hc as [H1 H2].
    apply Z.eqb_eq in H1. repeat split; try assumption. lia.
  - destruct ((char_at buf (s0 + 1) =? wc "/") && compare_element buf (s0 + 1 + 1) elementTag true)
      eqn:Ec.
    + injection H as <-. apply andb_prop in Ec. destruct Ec as [H1 H2].
      apply Z.eqb_eq in H1.
      replace (s0 + 1 - 1 + 1) with (s0 + 1) by lia.
      replace (s0 + 1 - 1 + 2) with (s0 + 1 + 1) by lia.
      repeat split; try assumption. lia.
    + apply find_closing_element_loop_closing in H; [|lia]. destruct H as [Hc Hend].
      unfold is_closing_tag in Hc. apply andb_prop in Hc. destruct Hc as [H1 H2].
      apply Z.eqb_eq in H1. repeat split; try assumption. lia.
Qed.

(** What [find_closing_element] returns is a closing tag of the element:
    a [<], then [/], then the name of the element as [compare_element]
    accepts it; the name begins inside the section. *)
Theorem find_closing_element_closing (buf : wstring) (sectionStart sectionEnd : Z)
    (elementTag : wstring) (r : Z) :
  0 <= sectionStart ->
  find_closing_element buf sectionStart sectionEnd elementTag = Some r ->
  sectionStart <= r /\ r + wlen elementTag <= sectionEnd /\
  char_at buf r = wc "<" /\ char_at buf (r + 1) = wc "/" /\
  compare_element buf (r + 2) elementTag true = true.
Proof. apply find_closing_element_is_closing. Qed.

End ElementComparison.

Lemma compare_element_case_sensitive_implies_witness :
  @compare_element c_platform (wstr "<br />") 1 (wstr "br") true = true.
Proof.
  apply (@compare_element_case_sensitive_implies c_platform (wstr "<br />") 1 (wstr "br") true).
  reflexivity.
Defined.

Lemma compare_element_delimited_witness :
  let c := char_at (wstr "<P class=x>") (1 + wlen (wstr "p")) in
  0 < wlen (wstr "p") /\ c <> 0 /\
  (c = wc ">" \/ @iswspace c_platform c = true \/ (false = true /\ c = wc "/")).
Proof.
  apply (@compare_element_delimited c_platform (wstr "<P class=x>") 1 (wstr "p") false).
  reflexivity.
Defined.

Lemma find_closing_element_closing_witness :
  0 <= 12 /\ 12 + wlen (wstr "b") <= 20 /\
  char_at (wstr "<b>x<b>y</b></b>zzzz") 12 = wc "<" /\
  char_at (wstr "<b>x<b>y</b></b>zzzz") (12 + 1) = wc "/" /\
  @compare_element c_platform (wstr "<b>x<b>y</b></b>zzzz") (12 + 2) (wstr "b") true = true.
Proof.
  apply (@find_closing_element_closing c_platform (wstr "<b>x<b>y</b></b>zzzz") 0 20
           (wstr "b") 12); [lia|reflexivity].
Defined.

Section Bookmarks.
Context {P : Platform}.

(** ** [find_bookmark] *)

Lemma find_bookmark_from_found (fuel : nat) (buf : wstring) (sectionStart sectionEnd : Z)
    (p : Z) (name : wstring) :
  0 <= sectionStart ->
  find_bookmark_from fuel buf sectionStart sectionEnd = (Some p, name) ->
  sectionStart <= p /\ char_at buf p = wc "<" /\
  compare_element buf (p + 1) (wstr "a") true = true /\
  (exists bookMarkPtr bookMarkSize,
     read_attribute buf p (wstr "name") false false = Some (bookMarkPtr, bookMarkSize) /\
     name = if char_at buf bookMarkPtr =? wc "#"
            then wsub buf (bookMarkPtr + 1) (bookMarkSize - 1)
            else wsub buf bookMarkPtr bookMarkSize) /\
  forall q, sectionStart <= q < p -> char_at buf q = wc "<" ->
    compare_element buf (q + 1) (wstr "a") true = true ->
    read_attribute buf q (wstr "name") false false = None.
Proof.
  revert sectionStart. induction fuel as [|fuel IH]; intros sectionStart Hs H;
    cbn [find_bookmark_from] in H; [discriminate|].
  destruct (find_element buf sectionStart sectionEnd (wstr "a") true) as [a|] eqn:Ea;
    [|discriminate].
  destruct (find_element_sound _ _ _ _ _ _ Hs Ea) as (Hr & _ & Hc & Hcmp & Hmin).
  destruct (read_attribute buf a (wstr "name") false false) as [[ptr size]|] eqn:Er.
  - assert (Hp : p = a) by (destruct (char_at buf ptr =? wc "#"); congruence).
    subst p. split; [lia|]. split; [exact Hc|]. split; [exact Hcmp|]. split.
    + exists ptr, size. split; [exact Er|].
      destruct (char_at buf ptr =? wc "#"); congruence.
    + intros q Hq Hlt Hq'. rewrite (Hmin q Hq Hlt) in Hq'. discriminate.
  - apply IH in H; [|lia]. destruct H as (H1 & H2 & H3 & H4 & H5).
    split; [lia|]. split; [exact H2|]. split; [exact H3|]. split; [exact H4|].
    intros q Hq Hlt Hq'. destruct (Z.lt_trichotomy q a) as [Hqa|[->|Hqa]].
    + rewrite (Hmin q ltac:(lia) Hlt) in Hq'. discriminate.
    + exact Er.
    + apply H5; [lia|assumption|assumption].
Qed.

(** The anchor [find_bookmark] returns is the first anchor of the
    section that has a [name], and the bookmark is that name without a
    leading [#]. *)
Theorem find_bookmark_found (buf : wstring) (sectionStart sectionEnd : Z) (p : Z)
    (name : wstring) :
  0 <= sectionStart ->
  find_bookmark buf sectionStart sectionEnd = (Some p, name) ->
  sectionStart <= p /\ char_at buf p = wc "<" /\
  compare_element buf (p + 1) (wstr "a") true = true /\
  (exists bookMarkPtr bookMarkSize,
     read_attribute buf p (wstr "name") false false = Some (bookMarkPtr, bookMarkSize) /\
     name = if char_at buf bookMarkPtr =? wc "#"
            then wsub buf (bookMarkPtr + 1) (bookMarkSize - 1)
            else wsub buf bookMarkPtr bookMarkSize) /\
  forall q, sectionStart <= q < p -> char_at buf q = wc "<" ->
    compare_element buf (q + 1) (wstr "a") true = true ->
    read_attribute buf q (wstr "name") false false = None.
Proof. apply find_bookmark_from_found. Qed.

Lemma find_bookmark_from_none (fuel : nat) (buf : wstring) (sectionStart sectionEnd : Z) :
  0 <= sectionStart ->
  wlen buf - sectionStart < Z.of_nat fuel ->
  fst (find_bookmark_from fuel buf sectionStart sectionEnd) = None ->
  forall q, sectionStart <= q -> q + 1 < sectionEnd ->
    (forall k, sectionStart <= k <= q -> char_at buf k <> 0) ->
    char_at buf q = wc "<" ->
    compare_element buf (q + 1) (wstr "a") true = true ->
    read_attribute buf q (wstr "name") false false = None.
Proof.
  revert sectionStart. induction fuel as [|fuel IH];
    intros sectionStart Hs Hfuel H q Hq Hend Hnz Hlt Hcmp.
  - exfalso. apply (Hnz q ltac:(lia)). apply char_at_beyond. lia.
  - cbn [find_bookmark_from] in H.
    destruct (find_element buf sectionStart sectionEnd (wstr "a") true) as [a|] eqn:Ea.
    + destruct (find_element_sound _ _ _ _ _ _ Hs Ea) as (Hr & _ & Hc & Hcmpa & Hmin).
      destruct (read_attribute buf a (wstr "name") false false) as [[ptr size]|] eqn:Er.
      { destruct (char_at buf ptr =? wc "#"); discriminate. }
      destruct (Z.lt_trichotomy q a) as [Hqa|[->|Hqa]].
      * rewrite (Hmin q ltac:(lia) Hlt) in Hcmp. discriminate.
      * exact Er.
      * apply (IH (a + 1)); try lia; try assumption.
        intros k Hk. apply Hnz. lia.
    + pose proof (find_element_complete _ _ _ _ _ Hs Ea q Hq) as Hn.
      change (wlen (wstr "a")) with 1 in Hn.
      rewrite (Hn Hend Hnz Hlt) in Hcmp. discriminate.
Qed.

(** When [find_bookmark] returns no anchor, no anchor of the section has
    a [name]. *)
Theorem find_bookmark_none (buf : wstring) (sectionStart sectionEnd : Z) :
  0 <= sectionStart ->
  fst (find_bookmark buf sectionStart sectionEnd) = None ->
  forall q, sectionStart <= q -> q + 1 < sectionEnd ->
    (forall k, sectionStart <= k <= q -> char_at buf k <> 0) ->
    char_at buf q = wc "<" ->
    compare_element buf (q + 1) (wstr "a") true = true ->
    read_attribute buf q (wstr "name") false false = None.
Proof.
  intros Hs. apply find_bookmark_from_none; [exact Hs|]. unfold wlen. lia.
Qed.

End Bookmarks.

Lemma find_bookmark_found_witness :
  0 <= 15 /\ char_at (wstr "<a href=x>t</a><a name=#top>") 15 = wc "<" /\
  @compare_element c_platform (wstr "<a href=x>t</a><a name=#top>") (15 + 1) (wstr "a") true
  = true /\
  (exists bookMarkPtr bookMarkSize,
     @read_attribute c_platform (wstr "<a href=x>t</a><a name=#top>") 15 (wstr "name")
       false false = Some (bookMarkPtr, bookMarkSize) /\
     wstr "top" = if char_at (wstr "<a href=x>t</a><a name=#top>") bookMarkPtr =? wc "#"
                  then wsub (wstr "<a href=x>t</a><a name=#top>") (bookMarkPtr + 1)
                         (bookMarkSize - 1)
                  else wsub (wstr "<a href=x>t</a><a name=#top>") bookMarkPtr bookMarkSize) /\
  forall q, 0 <= q < 15 -> char_at (wstr "<a href=x>t</a><a name=#top>") q = wc "<" ->
    @compare_element c_platform (wstr "<a href=x>t</a><a name=#top>") (q + 1) (wstr "a") true
    = true ->
    @read_attribute c_platform (wstr "<a href=x>t</a><a name=#top>") q (wstr "name")
      false false = None.
Proof.
  apply (@find_bookmark_found c_platform (wstr "<a href=x>t</a><a name=#top>") 0 28 15
           (wstr "top")); [lia|reflexivity].
Defined.

Lemma find_bookmark_none_witness :
  @read_attribute c_platform (wstr "<p><a href=x>t</a>") 3 (wstr "name") false false = None.
Proof.
  refine (@find_bookmark_none c_platform (wstr "<p><a href=x>t</a>") 0 18 _ _ 3 _ _ _ _ _).
  - lia.
  - reflexivity.
  - lia.
  - lia.
  - intros k Hk.
    assert (Hcases : k = 0 \/ k = 1 \/ k = 2 \/ k = 3) by lia.
    destruct Hcases as [->|[->|[->| ->]]]; discriminate.
  - reflexivity.
  - reflexivity.
Defined.

(** * Further properties of the raw text decoder *)

Section LiteralText.
Context {P : Platform}.

Lemma wrote_add_converted (f : wchar_t -> wchar_t) (cs : wstring) (e : html_extract_text) :
  wrote e (add_converted f cs e) (map f cs).
Proof.
  revert e. induction cs as [|c cs IH]; intro e; [apply wrote_nothing|].
  change (add_converted f (c :: cs) e) with (add_converted f cs (add_character (f c) e)).
  change (map f (c :: cs)) with ([f c] ++ map f cs).
  eapply wrote_trans; [apply wrote_add_character|apply IH].
Qed.

Lemma wrote_add_literal (cs : wstring) (e : html_extract_text) :
  wrote e (add_literal cs e) (map (literal_char e) cs).
Proof.
  unfold add_literal. rewrite (map_ext (literal_char e)
    (if 0 <? m_superscript_stack e then to_superscript
     else if 0 <? m_subscript_stack e then to_subscript else fun c => c)).
  - destruct (0 <? m_superscript_stack e); [apply wrote_add_converted|].
    destruct (0 <? m_subscript_stack e); [apply wrote_add_converted|].
    rewrite map_id. apply wrote_add_characters.
  - intro c. unfold literal_char.
    destruct (0 <? m_superscript_stack e); [reflexivity|].
    destruct (0 <? m_subscript_stack e); reflexivity.
Qed.

Lemma raw_char_same (e e' : html_extract_text) (cs : wstring) (c : wchar_t) :
  wrote e e' cs -> raw_char e' c = raw_char e c.
Proof.
  intros (_ & Hp & Hs & Hu). unfold raw_char, literal_char. now rewrite Hp, Hs, Hu.
Qed.

Lemma strncspn_scan_all (t rest : wstring) (i n : Z) (reject : wstring) :
  Forall (fun x => in_set x reject = false) t ->
  i + wlen t = n ->
  strncspn_scan (t ++ rest) i n reject = n.
Proof.
  revert i. induction t as [|x t IH]; intros i Ht Hn; cbn [app].
  - unfold wlen in Hn. cbn [length] in Hn.
    destruct rest; cbn [strncspn_scan]; destruct (Z.leb_spec n i); lia.
  - pose proof (Forall_inv Ht) as Hx. pose proof (Forall_inv_tail Ht) as Ht'.
    unfold wlen in Hn. cbn [length] in Hn. cbn [strncspn_scan].
    destruct (Z.leb_spec n i); [lia|]. cbv beta in Hx. rewrite Hx.
    apply IH; [exact Ht'|unfold wlen; lia].
Qed.

Lemma split_at_line_break (t : wstring) :
  Forall (fun c => line_break c = false) t \/
  exists a c t', t = a ++ c :: t' /\ Forall (fun c => line_break c = false) a /\
                 line_break c = true.
Proof.
  induction t as [|x t IH]; [left; constructor|].
  destruct (line_break x) eqn:Ex.
  - right. exists [], x, t. repeat split; [constructor|exact Ex].
  - destruct IH as [IH|(a & c & t' & -> & Ha & Hc)].
    + left. constructor; assumption.
    + right. exists (x :: a), c, t'. repeat split; [constructor; assumption|exact Hc].
Qed.

Lemma text_char_reject (c : wchar_t) :
  text_char c -> line_break c = false -> in_set c [13; 10; wc "&"; wc "$"] = false.
Proof.
  intros (_ & Ha & Hd) Hl. unfold in_set. cbn [existsb].
  unfold line_break in Hl. apply orb_false_elim in Hl. destruct Hl as [H13 H10].
  rewrite (Z.eqb_sym 13), H13, (Z.eqb_sym 10), H10.
  apply Z.eqb_neq in Ha. apply Z.eqb_neq in Hd.
  rewrite (Z.eqb_sym (wc "&")), Ha, (Z.eqb_sym (wc "$")), Hd. reflexivity.
Qed.

Lemma text_char_reject_preformatted (c : wchar_t) :
  text_char c -> in_set c (wstr "&$") = false.
Proof.
  intros (_ & Ha & Hd). unfold in_set. change (wstr "&$") with [wc "&"; wc "$"].
  cbn [existsb]. apply Z.eqb_neq in Ha. apply Z.eqb_neq in Hd.
  rewrite (Z.eqb_sym (wc "&")), Ha, (Z.eqb_sym (wc "$")), Hd. reflexivity.
Qed.

(** Text in which nothing stops the scan is copied in one piece. *)
Lemma parse_raw_text_in_one_piece (buf : wstring) (e : html_extract_text) (text : Z)
    (t rest : wstring) :
  0 <= text ->
  from buf text = t ++ rest ->
  Forall text_char t ->
  (0 < m_is_in_preformatted_text_block_stack e \/
   Forall (fun c => line_break c = false) t) ->
  wrote e (parse_raw_text buf text (wlen t) e) (map (literal_char e) t).
Proof.
  intros Htext Hfrom Ht Hmode. unfold parse_raw_text.
  destruct (Z.ltb_spec 0 (wlen t)) as [Hpos|Hzero].
  - rewrite parse_raw_text_loop_S.
    destruct (Z.ltb_spec 0 (wlen t)); [|lia].
    assert (Hround : parse_raw_text_round buf e text (wlen t) = Leave e text (wlen t)).
    { unfold parse_raw_text_round.
      assert (Hindex : (if 0 <? m_is_in_preformatted_text_block_stack e
                        then strncspn buf text (wlen t) (wstr "&$")
                        else strncspn buf text (wlen t) [13; 10; wc "&"; wc "$"]) = wlen t).
      { unfold strncspn. rewrite Hfrom.
        destruct (Z.ltb_spec 0 (m_is_in_preformatted_text_block_stack e)) as [Hp|Hp].
        - apply strncspn_scan_all; [|lia].
          eapply Forall_impl; [|exact Ht]. apply text_char_reject_preformatted.
        - destruct Hmode as [Hm|Hm]; [lia|].
          apply strncspn_scan_all; [|lia].
          rewrite Forall_forall in *. intros c Hc.
          apply text_char_reject; [apply Ht|apply Hm]; exact Hc. }
      rewrite Hindex, Z.ltb_irrefl. reflexivity. }
    rewrite Hround. destruct (Z.ltb_spec 0 (wlen t)); [|lia].
    rewrite (wsub_from buf text t rest Hfrom). apply wrote_add_literal.
  - assert (t = []) by (destruct t; [reflexivity|unfold wlen in Hzero; cbn in Hzero; lia]).
    subst t. apply wrote_nothing.
Qed.

(** The round that stops at a line break. *)
Lemma line_break_round (buf : wstring) (e : html_extract_text) (text textSize : Z)
    (a more : wstring) (c : wchar_t) :
  0 <= text ->
  from buf text = a ++ c :: more ->
  m_is_in_preformatted_text_block_stack e <= 0 ->
  Forall text_char a -> Forall (fun c => line_break c = false) a ->
  text_char c -> line_break c = true ->
  wlen a + 1 <= textSize ->
  parse_raw_text_round buf e text textSize
  = Again (add_character (wc " ") (add_literal a e)) (text + (wlen a + 1))
      (textSize - (wlen a + 1)).
Proof.
  intros Htext Hfrom Hpre Ha Hal Hc Hcl Hsize.
  assert (Hlen : 0 <= wlen a) by (unfold wlen; lia).
  assert (Fc : from buf (text + wlen a) = c :: more)
    by (apply (from_app buf text a); assumption).
  destruct (from_cons buf (text + wlen a) _ _ ltac:(lia) Fc) as [Cc _].
  unfold parse_raw_text_round.
  destruct (Z.ltb_spec 0 (m_is_in_preformatted_text_block_stack e)); [lia|].
  assert (Hindex : strncspn buf text textSize [13; 10; wc "&"; wc "$"] = wlen a).
  { unfold strncspn. rewrite Hfrom. rewrite strncspn_scan_skip; [lia| | |lia].
    - rewrite Forall_forall in *. intros x Hx. apply text_char_reject; auto.
    - unfold line_break in Hcl. unfold in_set. cbn [existsb].
      rewrite (Z.eqb_sym 13), (Z.eqb_sym 10).
      apply orb_prop in Hcl. destruct Hcl as [-> | ->]; [reflexivity|apply orb_true_r]. }
  rewrite Hindex. destruct (Z.ltb_spec (wlen a) textSize); [|lia].
  rewrite Cc. destruct Hc as (_ & Hamp & Hdol).
  destruct (Z.eqb_spec c (wc "&")); [contradiction|].
  destruct (Z.eqb_spec c (wc "$")); [contradiction|].
  rewrite (wsub_from buf text a _ Hfrom). unfold shrink.
  destruct (Z.ltb_spec textSize (wlen a + 1)); [lia|]. reflexivity.
Qed.

Lemma parse_raw_text_literal (n : nat) (buf : wstring) (e : html_extract_text) (text : Z)
    (t rest : wstring) :
  (length t <= n)%nat ->
  0 <= text ->
  from buf text = t ++ rest ->
  Forall text_char t ->
  wrote e (parse_raw_text buf text (wlen t) e) (map (raw_char e) t).
Proof.
  revert e text t rest. induction n as [|n IH]; intros e text t rest Hn Htext Hfrom Ht.
  - destruct t; [|cbn in Hn; lia]. unfold parse_raw_text. cbn. apply wrote_nothing.
  - destruct (Z.ltb_spec 0 (m_is_in_preformatted_text_block_stack e)) as [Hp|Hp].
    { rewrite (map_ext (raw_char e) (literal_char e)).
      - eapply parse_raw_text_in_one_piece; eauto.
      - intro c. unfold raw_char.
        destruct (Z.ltb_spec 0 (m_is_in_preformatted_text_block_stack e)); [|lia].
        reflexivity. }
    destruct (split_at_line_break t) as [Hnone|(a & c & t' & -> & Ha & Hc)].
    { rewrite (map_ext_in (raw_char e) (literal_char e)).
      - eapply parse_raw_text_in_one_piece; eauto.
      - intros c Hc. unfold raw_char. rewrite Forall_forall in Hnone.
        rewrite (Hnone c Hc). now rewrite andb_false_r. }
    apply Forall_app in Ht. destruct Ht as [Hta Htc].
    inversion Htc as [|? ? Hct Htt']; subst.
    assert (Hlen : wlen (a ++ c :: t') = wlen a + 1 + wlen t')
      by (rewrite wlen_app; unfold wlen; cbn [length]; lia).
    assert (Hla : 0 <= wlen a) by (unfold wlen; lia).
    assert (Hlt : 0 <= wlen t') by (unfold wlen; lia).
    rewrite <- app_assoc in Hfrom. cbn [app] in Hfrom.
    rewrite (parse_raw_text_after_round buf e
               (add_character (wc " ") (add_literal a e)) text (wlen (a ++ c :: t'))
               (wlen a + 1)); [|exact Htext|lia|].
    2:{ apply (line_break_round buf e text _ a (t' ++ rest) c); auto; lia. }
    replace (wlen (a ++ c :: t') - (wlen a + 1)) with (wlen t') by lia.
    assert (Hw1 : wrote e (add_character (wc " ") (add_literal a e))
                    (map (literal_char e) a ++ [wc " "])).
    { eapply wrote_trans; [apply wrote_add_literal|apply wrote_add_character]. }
    assert (Hw2 := IH (add_character (wc " ") (add_literal a e)) (text + (wlen a + 1)) t'
                     rest).
    rewrite map_app. cbn [map].
    replace (map (raw_char e) a ++ raw_char e c :: map (raw_char e) t')
      with ((map (literal_char e) a ++ [wc " "])
            ++ map (raw_char (add_character (wc " ") (add_literal a e))) t').
    + eapply wrote_trans; [exact Hw1|]. apply Hw2; [|lia| |exact Htt'].
      * rewrite length_app in Hn. cbn [length] in Hn. lia.
      * replace (text + (wlen a + 1)) with (text + wlen (a ++ [c]))
          by (rewrite wlen_app; unfold wlen; cbn [length]; lia).
        apply from_app; [exact Htext|]. rewrite <- app_assoc. exact Hfrom.
    + rewrite <- app_assoc. cbn [app]. f_equal.
      * apply map_ext_in. intros x Hx. unfold raw_char. rewrite Forall_forall in Ha.
        rewrite (Ha x Hx). now rewrite andb_false_r.
      * f_equal.
        -- unfold raw_char. rewrite Hc.
           destruct (Z.ltb_spec 0 (m_is_in_preformatted_text_block_stack e)); [lia|].
           reflexivity.
        -- apply map_ext. intro x. eapply raw_char_same. exact Hw1.
Qed.

Lemma literal_text_written (buf : wstring) (e : html_extract_text)
    (text : Z) (t rest : wstring) :
  0 <= text ->
  from buf text = t ++ rest ->
  Forall text_char t ->
  wrote e (parse_raw_text buf text (wlen t) e) (map (raw_char e) t).
Proof. intros. eapply parse_raw_text_literal; eauto. Qed.

End LiteralText.

(** Text without [&] and [$] is written character by character: outside
    preformatted text every carriage return and line feed becomes a
    space, and under the superscript or subscript stack every other
    character is transliterated; nothing is dropped or added, and the
    counters stay as they are. *)
Theorem parse_raw_text_without_entities (P : Platform) (buf : wstring)
    (e : html_extract_text) (text : Z) (t rest : wstring) :
  0 <= text ->
  from buf text = t ++ rest ->
  Forall text_char t ->
  wrote e (parse_raw_text buf text (wlen t) e) (map (raw_char e) t).
Proof. apply literal_text_written. Qed.

Lemma parse_raw_text_without_entities_witness :
  @wrote new_engine
    (@parse_raw_text c_platform (wstr "one" ++ [13; 10] ++ wstr "two<p>") 0
       (wlen (wstr "one" ++ [13; 10] ++ wstr "two")) new_engine)
    (map (@raw_char c_platform new_engine) (wstr "one" ++ [13; 10] ++ wstr "two")).
Proof.
  apply (parse_raw_text_without_entities c_platform
           (wstr "one" ++ [13; 10] ++ wstr "two<p>") new_engine 0
           (wstr "one" ++ [13; 10] ++ wstr "two") (wstr "<p>")); [lia|reflexivity|chars_ok].
Defined.

Section NamedEntities.
Context {P : Platform}.

(** ** Named entities *)

Lemma wrote_then_log (e e' : html_extract_text) (cs msg : wstring) :
  wrote e e' cs -> wrote e (log_message msg e') cs.
Proof. unfold wrote. cbn. auto. Qed.

Lemma html_entity_table_find_key (buf : wstring) (p : Z) (key rest : wstring) :
  from buf p = key ++ rest ->
  html_entity_table_find buf p (wlen key) = entity_value key.
Proof.
  intro E. unfold html_entity_table_find, entity_value.
  now rewrite (wsub_from buf p key rest E).
Qed.

(** The round of the loop that meets a named entity. *)
Lemma named_entity_round (buf : wstring) (e : html_extract_text) (text textSize : Z)
    (pre key rest : wstring) :
  0 <= text ->
  from buf text = pre ++ wc "&" :: key ++ wc ";" :: rest ->
  Forall plain pre ->
  Forall (fun x => x <> 0 /\ in_set x terminators = false) key ->
  iswspace (hd 0 key) = false -> hd 0 key <> wc "#" -> key <> [] ->
  entity_value key <> wc "&" ->
  wlen pre + 1 + wlen key + 1 <= textSize ->
  parse_raw_text_round buf e text textSize
  = Again
      (let e := if 0 <? wlen pre then add_characters pre e else e in
       if entity_value key =? 173 then e
       else
         let e' := add_character (entity_value key) e in
         if entity_value key =? wc "?"
         then log_message (wstr "Unknown HTML entity: " ++ wc "&" :: key) e'
         else e')
      (text + (wlen pre + 1 + wlen key + 1))
      (textSize - (wlen pre + 1 + wlen key + 1)).
Proof.
  intros Htext Hfrom Hpre Hkey Hspace Hhash Hne Hamp Hsize.
  assert (Hlen : forall l : wstring, 0 <= wlen l) by (intro; unfold wlen; lia).
  pose proof (Hlen pre) as Hpre0. pose proof (Hlen key) as Hkey0.
  assert (Famp : from buf (text + wlen pre) = wc "&" :: key ++ wc ";" :: rest)
    by (apply (from_app buf text pre); assumption).
  destruct (from_cons buf (text + wlen pre) _ _ ltac:(lia) Famp) as [Camp Fkey].
  assert (Ckey : char_at buf (text + wlen pre + 1) = hd 0 key).
  { rewrite char_at_hd by lia. rewrite Fkey. destruct key; [contradiction|reflexivity]. }
  assert (Fsemi : from buf (text + wlen pre + 1 + wlen key) = wc ";" :: rest)
    by (apply (from_app buf (text + wlen pre + 1) key); [lia|assumption]).
  destruct (from_cons buf (text + wlen pre + 1 + wlen key) _ _ ltac:(lia) Fsemi)
    as [Csemi _].
  unfold parse_raw_text_round.
  assert (Hindex : forall reject,
             Forall (fun x => in_set x reject = false) pre ->
             in_set (wc "&") reject = true ->
             strncspn buf text textSize reject = wlen pre).
  { intros reject H1 H2. unfold strncspn. rewrite Hfrom.
    rewrite strncspn_scan_skip by (assumption || lia). lia. }
  rewrite (Hindex (wstr "&$")).
  2:{ eapply Forall_impl; [|exact Hpre]. apply plain_preformatted. }
  2:{ reflexivity. }
  rewrite (Hindex [13; 10; wc "&"; wc "$"]) by (assumption || reflexivity).
  replace (if 0 <? m_is_in_preformatted_text_block_stack e then wlen pre else wlen pre)
    with (wlen pre) by (destruct (0 <? m_is_in_preformatted_text_block_stack e); reflexivity).
  destruct (Z.ltb_spec (wlen pre) textSize); [|lia].
  rewrite Camp, Z.eqb_refl.
  unfold strcspn_pointer. rewrite Fkey.
  rewrite strcspn_pointer_scan_skip; [|exact Hkey|discriminate|reflexivity].
  destruct (Z.ltb_spec (text + textSize) (text + wlen pre + 1 + wlen key)); [lia|].
  rewrite Ckey, Hspace.
  destruct (Z.eqb_spec (hd 0 key) (wc "#")); [contradiction|].
  rewrite (wsub_from buf text pre _ Hfrom).
  unfold decode_named.
  replace (text + wlen pre + 1 + wlen key - (text + wlen pre + 1)) with (wlen key) by lia.
  rewrite (html_entity_table_find_key buf (text + wlen pre + 1) key _ Fkey).
  rewrite Csemi, Z.eqb_refl. cbn [negb andb].
  destruct (Z.eqb_spec (entity_value key) 173) as [E173|N173]; cbn [negb].
  - cbv zeta. unfold shrink.
    destruct (Z.ltb_spec textSize (text + wlen pre + 1 + wlen key + 1 - text)); [lia|].
    f_equal; lia.
  - rewrite andb_false_r.
    destruct (Z.eqb_spec (entity_value key) (wc "&")); [contradiction|]. cbv zeta.
    replace (text + wlen pre + 1 + wlen key - (text + wlen pre)) with (wlen (wc "&" :: key))
      by (unfold wlen; cbn [length]; lia).
    rewrite (wsub_from buf (text + wlen pre) (wc "&" :: key) (wc ";" :: rest))
      by (rewrite Famp; reflexivity).
    unfold shrink.
    destruct (Z.ltb_spec textSize (text + wlen pre + 1 + wlen key + 1 - text)); [lia|].
    destruct (entity_value key =? wc "?"); f_equal; lia.
Qed.

End NamedEntities.

(** A named entity [&name;] in raw text, after the plain text before it
    has been copied, is replaced by the character the entity table gives
    for the name (as written, or else in lower case; [?] for a name that
    is not listed), the soft hyphen is dropped, and decoding goes on
    after the semicolon. The entities that denote [&] itself are set
    aside: for them the decoder looks further ahead. *)
Theorem named_entity_decoded (P : Platform) (buf : wstring) (e : html_extract_text)
    (text textSize : Z) (pre key rest : wstring) :
  0 <= text ->
  from buf text = pre ++ (wc "&" :: key ++ [wc ";"]) ++ rest ->
  wlen (pre ++ wc "&" :: key ++ [wc ";"]) <= textSize ->
  Forall plain pre ->
  key <> [] ->
  Forall (fun x => x <> 0 /\ in_set x terminators = false) key ->
  iswspace (hd 0 key) = false -> hd 0 key <> wc "#" ->
  entity_value key <> wc "&" ->
  exists e',
    parse_raw_text buf text textSize e
    = parse_raw_text buf (text + wlen (pre ++ wc "&" :: key ++ [wc ";"]))
        (textSize - wlen (pre ++ wc "&" :: key ++ [wc ";"])) e' /\
    wrote e e' (pre ++ (if entity_value key =? 173 then [] else [entity_value key])).
Proof.
  intros Htext Hfrom Hsize Hpre Hne Hkey Hspace Hhash Hamp.
  assert (Hlen : forall l : wstring, 0 <= wlen l) by (intro; unfold wlen; lia).
  assert (Hk : wlen (pre ++ wc "&" :: key ++ [wc ";"]) = wlen pre + 1 + wlen key + 1).
  { rewrite wlen_app. unfold wlen. cbn [length]. rewrite length_app. cbn [length]. lia. }
  assert (Hfrom' : from buf text = pre ++ wc "&" :: key ++ wc ";" :: rest).
  { rewrite Hfrom. cbn [app]. now rewrite <- !app_assoc. }
  pose proof (named_entity_round buf e text textSize pre key rest Htext Hfrom' Hpre Hkey
                Hspace Hhash Hne Hamp ltac:(lia)) as Hround.
  rewrite Hk. eexists. split.
  - apply parse_raw_text_after_round; [exact Htext| |exact Hround].
    pose proof (Hlen pre). pose proof (Hlen key). lia.
  - cbv zeta.
    apply (wrote_trans e (if 0 <? wlen pre then add_characters pre e else e)).
    + destruct pre as [|c pre]; [apply wrote_nothing|apply wrote_add_characters].
    + destruct (entity_value key =? 173); [apply wrote_nothing|].
      destruct (entity_value key =? wc "?").
      * apply wrote_then_log. apply wrote_add_character.
      * apply wrote_add_character.
Qed.

Lemma named_entity_decoded_witness :
  exists e',
    @parse_raw_text c_platform (wstr "a&COPY;b") 0 8 new_engine
    = @parse_raw_text c_platform (wstr "a&COPY;b")
        (0 + wlen (wstr "a" ++ wc "&" :: wstr "COPY" ++ [wc ";"]))
        (8 - wlen (wstr "a" ++ wc "&" :: wstr "COPY" ++ [wc ";"])) e' /\
    wrote new_engine e'
      (wstr "a" ++ (if @entity_value c_platform (wstr "COPY") =? 173 then []
                    else [@entity_value c_platform (wstr "COPY")])).
Proof.
  apply (named_entity_decoded c_platform (wstr "a&COPY;b") new_engine 0 8 (wstr "a")
           (wstr "COPY") (wstr "b"));
    [lia|reflexivity|vm_compute; discriminate|chars_ok|discriminate|chars_ok|reflexivity
    |discriminate|vm_compute; discriminate].
Defined.

Section Tables.
Context {P : Platform}.

(** ** The two tables *)

Lemma entity_lookup_in (tbl : list (wstring * wchar_t)) (key : wstring) (v : wchar_t) :
  entity_lookup tbl key = Some v -> exists k, In (k, v) tbl.
Proof.
  induction tbl as [|[k w] tbl IH]; cbn [entity_lookup]; [discriminate|].
  destruct (list_eqb k key).
  - intro H. injection H as <-. exists k. left. reflexivity.
  - intro H. destruct (IH H) as [k' Hk']. exists k'. right. exact Hk'.
Qed.

Lemma entity_values_not_nul (k : wstring) (v : wchar_t) : In (k, v) m_table -> v <> 0.
Proof.
  intro H.
  assert (E : forallb (fun kv : wstring * wchar_t => negb (snd kv =? 0)) m_table = true)
    by (vm_compute; reflexivity).
  rewrite forallb_forall in E. specialize (E _ H). cbn [snd] in E.
  apply negb_true_iff in E. now apply Z.eqb_neq.
Qed.

Lemma entity_table_entries :
  (forall k v, In (k, v) m_table -> entity_value k = v) /\
  (forall key, entity_value key <> 0).
Proof.
  split.
  - intros k v H.
    assert (E : forallb (fun kv : wstring * wchar_t =>
                           match entity_lookup m_table (fst kv) with
                           | Some w => w =? snd kv
                           | None => false
                           end) m_table = true)
      by (vm_compute; reflexivity).
    rewrite forallb_forall in E. specialize (E _ H). cbn [fst snd] in E.
    unfold entity_value.
    destruct (entity_lookup m_table k) as [w|]; [|discriminate]. now apply Z.eqb_eq.
  - intro key. unfold entity_value.
    destruct (entity_lookup m_table key) as [v|] eqn:E1.
    + destruct (entity_lookup_in _ _ _ E1) as [k Hk]. eapply entity_values_not_nul; eauto.
    + destruct (entity_lookup m_table (map towlower key)) as [v|] eqn:E2; [|discriminate].
      destruct (entity_lookup_in _ _ _ E2) as [k Hk]. eapply entity_values_not_nul; eauto.
Qed.

Lemma map_find_in (tbl : list (wchar_t * wchar_t)) (k v : wchar_t) :
  map_find tbl k = Some v -> In (k, v) tbl.
Proof.
  induction tbl as [|[k' w] tbl IH]; cbn [map_find]; [discriminate|].
  destruct (Z.eqb_spec k' k) as [->|].
  - intro H. injection H as <-. left. reflexivity.
  - intro H. right. apply IH. exact H.
Qed.

End Tables.

Lemma symbol_font_table_bounds (letter : wchar_t) :
  (letter < 34 \/ 254 < letter -> symbol_font_table_find letter = letter) /\
  (letter <> 0 -> symbol_font_table_find letter <> 0).
Proof.
  assert (E : forallb (fun kv : wchar_t * wchar_t =>
                         (34 <=? fst kv) && (fst kv <=? 254) && negb (snd kv =? 0))
                m_symbol_table = true)
    by (vm_compute; reflexivity).
  rewrite forallb_forall in E.
  unfold symbol_font_table_find.
  destruct (map_find m_symbol_table letter) as [v|] eqn:Ef; [|tauto].
  apply map_find_in in Ef. specialize (E _ Ef). cbn [fst snd] in E.
  apply andb_prop in E. destruct E as [E E3]. apply andb_prop in E. destruct E as [E1 E2].
  apply Z.leb_le in E1, E2. apply negb_true_iff in E3. apply Z.eqb_neq in E3.
  split; [lia|auto].
Qed.

(** The two tables. Every entity of the entity table is found under its
    name with the character listed for it (no entry hides another), and
    whatever is looked up, the character found is never the terminator.
    The symbol font table changes only characters from 34 to 254, and it
    never turns a character into the terminator: a converted section is
    as long, as a C string, as the section it came from. *)
Theorem lookup_tables_sound (P : Platform) :
  (forall k v buf p rest,
     In (k, v) m_table -> from buf p = k ++ rest ->
     html_entity_table_find buf p (wlen k) = v) /\
  (forall buf p n, html_entity_table_find buf p n <> 0) /\
  (forall letter,
     (letter < 34 \/ 254 < letter -> symbol_font_table_find letter = letter) /\
     (letter <> 0 -> symbol_font_table_find letter <> 0)).
Proof.
  destruct (@entity_table_entries P) as [H1 H2].
  split; [|split].
  - intros k v buf p rest Hin E.
    rewrite (html_entity_table_find_key buf p k rest E). apply H1. exact Hin.
  - intros buf p n. apply (H2 (wsub buf p n)).
  - apply symbol_font_table_bounds.
Qed.

Lemma lookup_tables_sound_witness :
  @html_entity_table_find c_platform (wstr "a&lt;b") 2 (wlen (wstr "lt")) = wc "<" /\
  symbol_font_table_find 9 = 9 /\ symbol_font_table_find (wc "a") <> 0.
Proof.
  destruct (lookup_tables_sound c_platform) as (H1 & _ & H3).
  split.
  - apply (H1 (wstr "lt") (wc "<") (wstr "a&lt;b") 2 (wstr ";b")); [|reflexivity].
    repeat first [left; reflexivity | right].
  - destruct (H3 9) as [Ha _]. destruct (H3 (wc "a")) as [_ Hb].
    split; [apply Ha; lia|apply Hb; discriminate].
Defined.

(** * Further properties of a call *)

Section WholeCall.
Context {P : Platform}.

Lemma operator_body_text (rec : parser) (fuel : nat) (e : html_extract_text)
    (buf : wstring) (p text_length : Z) (include_outer_text preserve_newlines : bool)
    (e' : html_extract_text) (r : option wstring) :
  char_at buf p <> 0 -> text_length <> 0 ->
  operator_body rec fuel e buf (Some p) text_length include_outer_text preserve_newlines
  = Some (e', r) ->
  r = (if allocate_succeeds text_length then Some (get_filtered_text e') else None) /\
  (allocate_succeeds text_length = false -> get_filtered_text e' = []).
Proof.
  intros Hc Hl. unfold operator_body. cbv zeta.
  apply Z.eqb_neq in Hc, Hl. rewrite Hc, Hl. cbn [orb].
  unfold allocate_text_buffer.
  destruct (allocate_succeeds text_length).
  - destruct (match wcschr buf p (wc "<") with
              | Some start => main_loop fuel rec buf _ _ start None
              | None => Some _
              end) as [[e3 endp]|]; [|discriminate].
    intro H. injection H as <- <-. split; [reflexivity|discriminate].
  - intro H. injection H as <- <-. split; [reflexivity|]. intros _. reflexivity.
Qed.

End WholeCall.

(** A call on a text that is not empty always returns: the filtered
    text of the engine when the output buffer could be allocated, and
    null, with the filtered text empty, when it could not. *)
Theorem operator_call_returns_filtered_text (P : Platform) (e : html_extract_text)
    (buf : wstring) (p text_length : Z) (include_outer_text preserve_newlines : bool) :
  0 <= p -> char_at buf p <> 0 -> text_length <> 0 ->
  exists e',
    operator_call e buf (Some p) text_length include_outer_text preserve_newlines
    = Some (e', if allocate_succeeds text_length then Some (get_filtered_text e') else None)
    /\ (allocate_succeeds text_length = false -> get_filtered_text e' = []).
Proof.
  intros Hp Hc Hl.
  destruct (operator_call_returns e buf (Some p) text_length include_outer_text
              preserve_newlines) as (e' & r & H).
  { intros q Hq. injection Hq as <-. exact Hp. }
  exists e'. pose proof H as H'. unfold operator_call in H'. cbn [extract] in H'.
  apply operator_body_text in H'; [|assumption|assumption].
  destruct H' as [-> Hempty]. split; [exact H|exact Hempty].
Qed.

Lemma operator_call_returns_filtered_text_witness :
  exists e',
    @operator_call c_platform new_engine (wstr "<p>a &amp; b</p>") (Some 0) 16 true false
    = Some (e', if @allocate_succeeds c_platform 16 then Some (get_filtered_text e') else None)
    /\ (@allocate_succeeds c_platform 16 = false -> get_filtered_text e' = []).
Proof.
  apply (operator_call_returns_filtered_text c_platform new_engine (wstr "<p>a &amp; b</p>")
           0 16 true false); [lia|discriminate|discriminate].
Defined.

Section Documents.
Context {P : Platform}.

Lemma wcschr_scan_absent (l : wstring) (p : Z) (ch : wchar_t) :
  Forall (fun c => c <> ch) l -> wcschr_scan l p ch = None.
Proof.
  revert p. induction l as [|x l IH]; intros p H; [reflexivity|].
  cbn [wcschr_scan]. destruct (x =? 0); [reflexivity|].
  destruct (Z.eqb_spec x ch) as [E|_]; [exfalso; exact (Forall_inv H E)|].
  apply IH. exact (Forall_inv_tail H).
Qed.

Lemma reset_state_counters (preserve_newlines : bool) (e : html_extract_text) (c : wchar_t) :
  raw_char (set_text_buffer [] (reset_state preserve_newlines e)) c
  = outer_char preserve_newlines c.
Proof. unfold raw_char, outer_char, literal_char. destruct preserve_newlines; reflexivity. Qed.

(** The text that follows the last tag, or a text without tags. *)
Lemma plain_text_written (buf : wstring) (e0 : html_extract_text) (preserve_newlines : bool)
    (p : Z) (t : wstring) :
  0 <= p -> from buf p = t -> Forall plain_char t ->
  get_filtered_text
    (parse_raw_text buf p (wlen t) (set_text_buffer [] (reset_state preserve_newlines e0)))
  = map (outer_char preserve_newlines) t.
Proof.
  intros Hp E Ht.
  pose proof (literal_text_written buf
                (set_text_buffer [] (reset_state preserve_newlines e0)) p t []) as H.
  destruct H as [H _]; [exact Hp|now rewrite app_nil_r| |].
  - eapply Forall_impl; [|exact Ht]. intros c [Hc _]. exact Hc.
  - unfold get_filtered_text. rewrite H. cbn [m_text_buffer set_text_buffer observed set_trace app].
    apply map_ext. apply reset_state_counters.
Qed.

End Documents.


(** A text without tags, entities and placeholders comes out of a call
    as it went in, except that every carriage return and line feed has
    become a space when new lines are not preserved. *)
Theorem plain_text_extracted (P : Platform) (e : html_extract_text) (buf : wstring) (p : Z)
    (t : wstring) (preserve_newlines : bool) :
  0 <= p -> from buf p = t -> t <> [] -> Forall plain_char t ->
  allocate_succeeds (wlen t) = true ->
  exists e',
    operator_call e buf (Some p) (wlen t) true preserve_newlines
    = Some (e', Some (map (outer_char preserve_newlines) t)).
Proof.
  intros Hp E Hne Ht Halloc.
  unfold operator_call. cbn [extract]. unfold operator_body. cbv zeta.
  assert (Hc : char_at buf p <> 0).
  { rewrite char_at_hd by exact Hp. rewrite E. destruct t as [|c t]; [contradiction|].
    cbn [hd]. apply (Forall_inv Ht). }
  assert (Hl : wlen t <> 0) by (destruct t; [contradiction|unfold wlen; cbn [length]; lia]).
  apply Z.eqb_neq in Hc, Hl. rewrite Hc, Hl. cbn [orb].
  unfold allocate_text_buffer. rewrite Halloc.
  assert (Hw : wcschr buf p (wc "<") = None).
  { unfold wcschr. rewrite E. apply wcschr_scan_absent.
    eapply Forall_impl; [|exact Ht]. intros c [_ Hc']. exact Hc'. }
  rewrite Hw. eexists. f_equal. f_equal. f_equal.
  apply plain_text_written; assumption.
Qed.

Lemma plain_text_extracted_witness :
  exists e',
    @operator_call c_platform new_engine (wstr "two" ++ [10] ++ wstr "lines") (Some 0)
      (wlen (wstr "two" ++ [10] ++ wstr "lines")) true false
    = Some (e', Some (map (outer_char false) (wstr "two" ++ [10] ++ wstr "lines"))).
Proof.
  apply (plain_text_extracted c_platform new_engine (wstr "two" ++ [10] ++ wstr "lines") 0
           (wstr "two" ++ [10] ++ wstr "lines") false);
    [lia|reflexivity|discriminate|unfold plain_char, text_char; chars_ok|reflexivity].
Defined.

Section Comments.
Context {P : Platform}.

Lemma starts_with_app (fold : wchar_t -> wchar_t) (needle l rest : wstring) :
  starts_with fold needle l = true -> starts_with fold needle (l ++ rest) = true.
Proof.
  revert l. induction needle as [|n needle IH]; intros l H; [reflexivity|].
  destruct l as [|x l]; [discriminate|]. cbn [starts_with app] in *.
  destruct (x =? 0); [discriminate|].
  apply andb_prop in H. destruct H as [H1 H2]. rewrite H1. cbn [andb]. now apply IH.
Qed.

Lemma starts_with_shorten (fold : wchar_t -> wchar_t) (needle l rest : wstring) :
  (length needle <= length l)%nat ->
  starts_with fold needle (l ++ rest) = true -> starts_with fold needle l = true.
Proof.
  revert l. induction needle as [|n needle IH]; intros l Hlen H; [reflexivity|].
  destruct l as [|x l]; [cbn in Hlen; lia|]. cbn [starts_with app] in *.
  destruct (x =? 0); [discriminate|].
  apply andb_prop in H. destruct H as [H1 H2]. rewrite H1. cbn [andb].
  apply IH; [cbn [length] in Hlen; lia|exact H2].
Qed.

Lemma starts_with_length (fold : wchar_t -> wchar_t) (needle l : wstring) :
  starts_with fold needle l = true -> (length needle <= length l)%nat.
Proof.
  revert l. induction needle as [|n needle IH]; intros l H; [cbn; lia|].
  destruct l as [|x l]; [discriminate|]. cbn [starts_with] in H.
  destruct (x =? 0); [discriminate|].
  apply andb_prop in H. destruct H as [_ H]. apply IH in H. cbn [length]. lia.
Qed.

Lemma strstr_scan_length (fold : wchar_t -> wchar_t) (needle l : wstring) (p r : Z) :
  strstr_scan fold needle l p = Some r -> (length needle <= length l)%nat.
Proof.
  revert p. induction l as [|x l IH]; intros p H; cbn [strstr_scan] in H.
  - destruct (starts_with fold needle []) eqn:E; [|discriminate].
    now apply starts_with_length in E.
  - destruct (starts_with fold needle (x :: l)) eqn:E.
    + now apply starts_with_length in E.
    + destruct (x =? 0); [discriminate|]. apply IH in H. cbn [length]. lia.
Qed.

Lemma strstr_scan_app (fold : wchar_t -> wchar_t) (needle l rest : wstring) (p r : Z) :
  strstr_scan fold needle l p = Some r ->
  strstr_scan fold needle (l ++ rest) p = Some r.
Proof.
  revert p. induction l as [|x l IH]; intros p H.
  - cbn [strstr_scan] in H. destruct (starts_with fold needle []) eqn:E; [|discriminate].
    destruct needle; [|discriminate]. destruct rest; exact H.
  - cbn [strstr_scan app] in *.
    destruct (starts_with fold needle (x :: l)) eqn:E.
    + change (x :: l ++ rest) with ((x :: l) ++ rest).
      now rewrite (starts_with_app _ _ _ rest E).
    + destruct (x =? 0) eqn:Ex; [discriminate|].
      pose proof (strstr_scan_length _ _ _ _ _ H) as Hlen.
      destruct (starts_with fold needle (x :: l ++ rest)) eqn:E'.
      * change (x :: l ++ rest) with ((x :: l) ++ rest) in E'.
        apply starts_with_shorten in E'; [congruence|cbn [length]; lia].
      * apply IH. exact H.
Qed.

Lemma strstr_scan_shift (fold : wchar_t -> wchar_t) (needle l : wstring) (p k r : Z) :
  strstr_scan fold needle l p = Some r ->
  strstr_scan fold needle l (p + k) = Some (r + k).
Proof.
  revert p. induction l as [|x l IH]; intros p H; cbn [strstr_scan] in *.
  - destruct (starts_with fold needle []); [|discriminate]. injection H as <-. reflexivity.
  - destruct (starts_with fold needle (x :: l)).
    + injection H as <-. reflexivity.
    + destruct (x =? 0); [discriminate|].
      replace (p + k + 1) with (p + 1 + k) by lia. apply IH. exact H.
Qed.

End Comments.

(** A comment is dropped: of a text made of a comment (which ends at its
    first [-->]) and plain text after it, a call returns the plain text
    alone, and nothing when the outer text is not asked for. *)
Theorem comment_dropped (P : Platform) (e : html_extract_text) (buf : wstring) (p : Z)
    (c t : wstring) (include_outer_text preserve_newlines : bool) :
  0 <= p ->
  from buf p = wstr "<!--" ++ c ++ wstr "-->" ++ t ->
  wcsstr (wstr "<!--" ++ c ++ wstr "-->") 0 (wstr "-->") = Some (4 + wlen c) ->
  Forall plain_char t ->
  wlen (wstr "<!--" ++ c ++ wstr "-->" ++ t) < 2 ^ 63 ->
  allocate_succeeds (wlen (wstr "<!--" ++ c ++ wstr "-->" ++ t)) = true ->
  exists e',
    operator_call e buf (Some p) (wlen (wstr "<!--" ++ c ++ wstr "-->" ++ t))
      include_outer_text preserve_newlines
    = Some (e', Some (if include_outer_text then map (outer_char preserve_newlines) t
                      else [])).
Proof.
  intros Hp E Hfirst Ht Hsmall Halloc.
  set (len := wlen (wstr "<!--" ++ c ++ wstr "-->" ++ t)) in *.
  assert (Hlen : len = 4 + wlen c + 3 + wlen t).
  { subst len. rewrite !wlen_app. change (wlen (wstr "<!--")) with 4.
    change (wlen (wstr "-->")) with 3. lia. }
  assert (Hc0 : 0 <= wlen c) by (unfold wlen; lia).
  assert (Ht0 : 0 <= wlen t) by (unfold wlen; lia).
  assert (Hchar : forall k : nat, (k < 4)%nat ->
             char_at buf (p + Z.of_nat k) = nth k (wstr "<!--") 0).
  { intros k Hk. rewrite (char_at_in_from buf p _ k Hp E).
    change (wstr "<!--" ++ c ++ wstr "-->" ++ t)
      with (wc "<" :: wc "!" :: wc "-" :: wc "-" :: c ++ wstr "-->" ++ t).
    do 4 (destruct k as [|k]; [reflexivity|]). lia. }
  pose proof (Hchar 0%nat ltac:(lia)) as C0. pose proof (Hchar 1%nat ltac:(lia)) as C1.
  pose proof (Hchar 2%nat ltac:(lia)) as C2. pose proof (Hchar 3%nat ltac:(lia)) as C3.
  rewrite Z.add_0_r in C0. cbn [Z.of_nat Pos.of_succ_nat Pos.succ nth] in C0, C1, C2, C3.
  change (nth 0 (wstr "<!--") 0) with (wc "<") in C0.
  assert (Hend : from buf (p + (4 + wlen c + 3)) = t).
  { replace (p + (4 + wlen c + 3)) with (p + wlen (wstr "<!--" ++ c ++ wstr "-->"))
      by (rewrite !wlen_app; change (wlen (wstr "<!--")) with 4;
          change (wlen (wstr "-->")) with 3; lia).
    apply from_app; [exact Hp|]. rewrite E, <- !app_assoc. reflexivity. }
  assert (Hstr : wcsstr buf p (wstr "-->") = Some (p + (4 + wlen c))).
  { unfold wcsstr in *. rewrite E.
    replace (wstr "<!--" ++ c ++ wstr "-->" ++ t)
      with ((wstr "<!--" ++ c ++ wstr "-->") ++ t) by (now rewrite <- !app_assoc).
    apply strstr_scan_app.
    change (from (wstr "<!--" ++ c ++ wstr "-->") 0) with (wstr "<!--" ++ c ++ wstr "-->")
      in Hfirst.
    apply (strstr_scan_shift _ _ _ 0 p) in Hfirst. rewrite Z.add_0_l in Hfirst.
    rewrite Hfirst. f_equal. lia. }
  assert (Hnone : wcschr buf (p + (4 + wlen c) + 3) (wc "<") = None).
  { unfold wcschr. replace (p + (4 + wlen c) + 3) with (p + (4 + wlen c + 3)) by lia.
    rewrite Hend. apply wcschr_scan_absent.
    eapply Forall_impl; [|exact Ht]. intros x [_ Hx]. exact Hx. }
  unfold operator_call. cbn [extract]. unfold operator_body. cbv zeta.
  rewrite C0. change (wc "<" =? 0) with false.
  destruct (Z.eqb_spec len 0); [lia|]. cbn [orb].
  unfold allocate_text_buffer. rewrite Halloc.
  rewrite (wcschr_here buf p (wc "<") Hp ltac:(discriminate) C0).
  rewrite Z.ltb_irrefl. cbn [andb].
  assert (Hsent : ptr_add p len = p + len).
  { unfold ptr_add. destruct (Z.ltb_spec len (2 ^ 63)); [reflexivity|lia]. }
  rewrite Hsent.
  cbn [main_loop]. destruct (Z.ltb_spec p (p + len)); [|lia].
  unfold loop_body, dispatch. cbv zeta.
  replace (p + len - p) with len by lia.
  destruct (Z.leb_spec 4 len); [|lia].
  rewrite C0, C1, C2, C3. cbn [Z.eqb Pos.eqb andb].
  change (wc "<" =? wc "<") with true. change (nth 1 (wstr "<!--") 0 =? wc "!") with true.
  change (nth 2 (wstr "<!--") 0 =? wc "-") with true.
  change (nth 3 (wstr "<!--") 0 =? wc "-") with true. cbn [andb].
  rewrite Hstr. unfold next_tag. rewrite Hnone.
  replace (p + (4 + wlen c) + 3) with (p + (4 + wlen c + 3)) by lia.
  destruct include_outer_text.
  - destruct t as [|x t'].
    + replace (p + (4 + wlen c + 3) <? p + len) with false
        by (symmetry; apply Z.ltb_ge; unfold wlen in *; cbn [length] in *; lia).
      cbn [andb]. eexists. reflexivity.
    + replace (p + (4 + wlen c + 3) <? p + len) with true
        by (symmetry; apply Z.ltb_lt; unfold wlen in *; cbn [length] in *; lia).
      cbn [andb]. eexists. f_equal. f_equal. f_equal.
      replace (p + len - (p + (4 + wlen c + 3))) with (wlen (x :: t')) by lia.
      apply plain_text_written; [lia|exact Hend|exact Ht].
  - rewrite andb_false_r. eexists. reflexivity.
Qed.

Lemma comment_dropped_witness :
  exists e',
    @operator_call c_platform new_engine
      (wstr "<!--" ++ wstr " <b>not shown</b> -- " ++ wstr "-->" ++ wstr "shown") (Some 0)
      (wlen (wstr "<!--" ++ wstr " <b>not shown</b> -- " ++ wstr "-->" ++ wstr "shown"))
      true false
    = Some (e', Some (if true then map (outer_char false) (wstr "shown") else [])).
Proof.
  apply (comment_dropped c_platform new_engine
           (wstr "<!--" ++ wstr " <b>not shown</b> -- " ++ wstr "-->" ++ wstr "shown") 0
           (wstr " <b>not shown</b> -- ") (wstr "shown") true false);
    [lia|reflexivity|reflexivity|unfold plain_char, text_char; chars_ok|reflexivity
    |reflexivity].
Defined.

(** * The body and the style section *)

Section SubstringSearch.

Lemma is_prefix_of_app_same (needle rest : wstring) : is_prefix_of needle (needle ++ rest) = true.
Proof.
  induction needle as [|n needle IH]; [reflexivity|].
  cbn [is_prefix_of app]. now rewrite Z.eqb_refl, IH.
Qed.

Lemma is_prefix_of_app_short (needle l r : wstring) :
  (length needle <= length l)%nat -> is_prefix_of needle (l ++ r) = is_prefix_of needle l.
Proof.
  revert l. induction needle as [|n needle IH]; intros l Hlen; [reflexivity|].
  destruct l as [|x l]; [cbn in Hlen; lia|].
  cbn [is_prefix_of app]. rewrite IH; [reflexivity|cbn [length] in Hlen; lia].
Qed.

Lemma find_str_scan_skip (a l needle : wstring) (i pos : Z) :
  i + wlen a <= pos ->
  find_str_scan (a ++ l) needle i pos = find_str_scan l needle (i + wlen a) pos.
Proof.
  revert i. induction a as [|x a IH]; intros i Hpos; cbn [app].
  - unfold wlen. cbn [length]. f_equal. lia.
  - unfold wlen in Hpos. cbn [length] in Hpos. cbn [find_str_scan].
    destruct (Z.leb_spec pos i); [lia|]. cbn [andb].
    rewrite IH by (unfold wlen; lia). unfold wlen. cbn [length]. f_equal. lia.
Qed.

Lemma find_str_scan_first (a needle rest : wstring) (i pos : Z) :
  pos <= i -> needle <> [] ->
  wstring_contains (a ++ removelast needle) needle = false ->
  find_str_scan (a ++ needle ++ rest) needle i pos = i + wlen a.
Proof.
  intros Hpos Hne. revert i Hpos. induction a as [|x a IH]; intros i Hpos Hno; cbn [app].
  - pose proof (is_prefix_of_app_same needle rest) as Hp.
    destruct (needle ++ rest); cbn [find_str_scan]; rewrite Hp;
      (destruct (Z.leb_spec pos i); [|lia]); cbn [andb]; unfold wlen; cbn [length]; lia.
  - cbn [app wstring_contains] in Hno. apply orb_false_elim in Hno.
    destruct Hno as [Hhere Hlater].
    cbn [find_str_scan].
    assert (Hpre : is_prefix_of needle (x :: a ++ needle ++ rest) = false).
    { rewrite (app_removelast_last 0 Hne) at 2.
      rewrite <- app_assoc, app_assoc.
      change (x :: (a ++ removelast needle) ++ [last needle 0] ++ rest)
        with ((x :: a ++ removelast needle) ++ [last needle 0] ++ rest).
      rewrite is_prefix_of_app_short; [exact Hhere|].
      cbn [length]. rewrite length_app.
      assert (Hl : length needle = S (length (removelast needle))).
      { rewrite (app_removelast_last 0 Hne) at 1. rewrite length_app. cbn [length].
        apply Nat.add_1_r. }
      lia. }
    rewrite Hpre, andb_false_r.
    rewrite IH; [|lia|exact Hlater]. unfold wlen. cbn [length]. lia.
Qed.

Lemma find_str_scan_none (l needle : wstring) (i pos : Z) :
  wstring_contains l needle = false -> find_str_scan l needle i pos = npos.
Proof.
  revert i. induction l as [|x l IH]; intros i H; cbn [find_str_scan wstring_contains] in *.
  - rewrite orb_false_r in H. rewrite H, andb_false_r. reflexivity.
  - apply orb_false_elim in H. destruct H as [H1 H2]. rewrite H1, andb_false_r.
    apply IH. exact H2.
Qed.

Lemma find_scan_skip (a l : wstring) (i pos : Z) (ch : wchar_t) :
  i + wlen a <= pos ->
  find_scan (a ++ l) i pos ch = find_scan l (i + wlen a) pos ch.
Proof.
  revert i. induction a as [|x a IH]; intros i Hpos; cbn [app].
  - unfold wlen. cbn [length]. f_equal. lia.
  - unfold wlen in Hpos. cbn [length] in Hpos. cbn [find_scan].
    destruct (Z.leb_spec pos i); [lia|]. cbn [andb].
    rewrite IH by (unfold wlen; lia). unfold wlen. cbn [length]. f_equal. lia.
Qed.

Lemma find_scan_first (m tl : wstring) (i pos : Z) (ch : wchar_t) :
  pos <= i -> Forall (fun c => c <> ch) m ->
  find_scan (m ++ ch :: tl) i pos ch = i + wlen m.
Proof.
  revert i. induction m as [|x m IH]; intros i Hpos Hm; cbn [app find_scan].
  - destruct (Z.leb_spec pos i); [|lia]. rewrite Z.eqb_refl. unfold wlen. cbn. lia.
  - destruct (Z.eqb_spec x ch) as [E|_]; [exfalso; exact (Forall_inv Hm E)|].
    rewrite andb_false_r. rewrite IH; [|lia|exact (Forall_inv_tail Hm)].
    unfold wlen. cbn [length]. lia.
Qed.

End SubstringSearch.

(** A text in which [<body] does not occur is its own body. *)
Theorem get_body_without_body (text : wstring) :
  wstring_contains text (wstr "<body") = false -> get_body text = text.
Proof.
  intro H. unfold get_body, find_str. cbv zeta.
  rewrite (find_str_scan_none _ _ 0 0 H). rewrite Z.eqb_refl. reflexivity.
Qed.

(** The body of a document is what stands between the [>] of its first
    [<body] tag and the first [</body>] after it. *)
Theorem get_body_between_tags (pre attrs content post : wstring) :
  let text := pre ++ wstr "<body" ++ attrs ++ wc ">" :: content ++ wstr "</body>" ++ post in
  wstring_contains (pre ++ wstr "<bod") (wstr "<body") = false ->
  Forall (fun c => c <> wc ">") attrs ->
  wstring_contains (content ++ wstr "</body") (wstr "</body>") = false ->
  wlen text < npos ->
  get_body text = content.
Proof.
  intros text Hpre Hattrs Hcontent Hsmall. subst text.
  assert (Hlen : forall l : wstring, 0 <= wlen l) by (intro; unfold wlen; lia).
  assert (Htext : wlen (pre ++ wstr "<body" ++ attrs ++ wc ">" :: content
                          ++ wstr "</body>" ++ post)
                  = wlen pre + 5 + wlen attrs + 1 + wlen content + 7 + wlen post).
  { rewrite !wlen_app.
    change (wc ">" :: content ++ wstr "</body>" ++ post)
      with ([wc ">"] ++ content ++ wstr "</body>" ++ post).
    rewrite !wlen_app. change (wlen (wstr "<body")) with 5.
    change (wlen (wstr "</body>")) with 7. change (wlen [wc ">"]) with 1. lia. }
  pose proof (Hlen pre). pose proof (Hlen attrs). pose proof (Hlen content).
  pose proof (Hlen post).
  unfold get_body. cbv zeta.
  assert (Hb1 : find_str (pre ++ wstr "<body" ++ attrs ++ wc ">" :: content
                            ++ wstr "</body>" ++ post) (wstr "<body") 0 = wlen pre).
  { unfold find_str.
    rewrite (find_str_scan_first pre (wstr "<body") _ 0 0); [lia|lia|discriminate|exact Hpre]. }
  rewrite Hb1. destruct (Z.eqb_spec (wlen pre) npos); [lia|]. cbn [negb].
  assert (Hb2 : find (pre ++ wstr "<body" ++ attrs ++ wc ">" :: content
                        ++ wstr "</body>" ++ post) (wc ">") (wlen pre)
                = wlen pre + 5 + wlen attrs).
  { unfold find. rewrite find_scan_skip by lia.
    rewrite app_assoc. rewrite find_scan_first;
      [rewrite wlen_app; change (wlen (wstr "<body")) with 5; lia|lia|].
    apply Forall_app. split; [|exact Hattrs].
    repeat constructor; discriminate. }
  rewrite Hb2. destruct (Z.eqb_spec (wlen pre + 5 + wlen attrs) npos); [lia|].
  set (before := pre ++ wstr "<body" ++ attrs ++ [wc ">"]).
  assert (Hsplit : pre ++ wstr "<body" ++ attrs ++ wc ">" :: content ++ wstr "</body>" ++ post
                   = before ++ content ++ wstr "</body>" ++ post).
  { subst before. rewrite <- !app_assoc. reflexivity. }
  assert (Hbefore : wlen before = wlen pre + 5 + wlen attrs + 1).
  { subst before. rewrite !wlen_app. change (wlen (wstr "<body")) with 5.
    change (wlen [wc ">"]) with 1. lia. }
  assert (Hb3 : find_str (pre ++ wstr "<body" ++ attrs ++ wc ">" :: content
                            ++ wstr "</body>" ++ post)
                  (wstr "</body>") (wlen pre + 5 + wlen attrs + 1)
                = wlen before + wlen content).
  { unfold find_str. rewrite Hsplit. rewrite find_str_scan_skip by lia.
    rewrite find_str_scan_first; [lia|lia|discriminate|exact Hcontent]. }
  rewrite Hb3. destruct (Z.eqb_spec (wlen before + wlen content) npos); [lia|].
  cbn [negb]. unfold substr.
  replace (wlen before + wlen content - (wlen pre + 5 + wlen attrs + 1)) with (wlen content)
    by lia.
  rewrite Z.min_l by lia.
  replace (Z.to_nat (wlen pre + 5 + wlen attrs + 1)) with (length before)
    by (unfold wlen in *; lia).
  rewrite Hsplit, skipn_app, skipn_all, Nat.sub_diag. cbn [skipn app].
  unfold wlen. rewrite Nat2Z.id, firstn_app, firstn_all, Nat.sub_diag. cbn [firstn].
  apply app_nil_r.
Qed.

Lemma get_body_without_body_witness :
  get_body (wstr "<p>only a paragraph</p>") = wstr "<p>only a paragraph</p>".
Proof. apply get_body_without_body. reflexivity. Defined.

Lemma get_body_between_tags_witness :
  get_body (wstr "<html>" ++ wstr "<body" ++ wstr " class=x" ++ wc ">" :: wstr "Hello <b>w</b>"
              ++ wstr "</body>" ++ wstr "</html>")
  = wstr "Hello <b>w</b>".
Proof.
  apply (get_body_between_tags (wstr "<html>") (wstr " class=x") (wstr "Hello <b>w</b>")
           (wstr "</html>")); [reflexivity|chars_ok|reflexivity|reflexivity].
Defined.

Section Style.
Context {P : Platform}.

Lemma strip_comment_markers_wrapped (b : wstring) :
  strip_comment_markers (wstr "<!--" ++ b ++ wstr "-->")
  = match b with [] => wstr "-->" | _ => b end.
Proof.
  unfold strip_comment_markers. cbv zeta.
  assert (Hlen : wlen (wstr "<!--" ++ b ++ wstr "-->") = 4 + wlen b + 3).
  { rewrite !wlen_app. change (wlen (wstr "<!--")) with 4.
    change (wlen (wstr "-->")) with 3. lia. }
  assert (Hb : 0 <= wlen b) by (unfold wlen; lia).
  rewrite Hlen. destruct (Z.ltb_spec 4 (4 + wlen b + 3)); [|lia].
  change (firstn 4 (wstr "<!--" ++ b ++ wstr "-->")) with (wstr "<!--").
  change (list_eqb (wstr "<!--") (wstr "<!--")) with true. cbn [andb].
  change (skipn 4 (wstr "<!--" ++ b ++ wstr "-->")) with (b ++ wstr "-->").
  rewrite wlen_app. change (wlen (wstr "-->")) with 3.
  destruct b as [|x b]; [reflexivity|].
  destruct (Z.ltb_spec 3 (wlen (x :: b) + 3)); [|unfold wlen in *; cbn [length] in *; lia].
  rewrite length_app. change (length (wstr "-->")) with 3%nat.
  rewrite Nat.add_sub, skipn_app, skipn_all, Nat.sub_diag. cbn [skipn app].
  change (list_eqb (wstr "-->") (wstr "-->")) with true. cbn [andb].
  change (x :: b ++ wstr "-->") with ((x :: b) ++ wstr "-->").
  rewrite firstn_app, firstn_all, Nat.sub_diag. cbn [firstn]. apply app_nil_r.
Qed.

End Style.

(** The style section of a document is what stands between the [>] of
    its first [<style] tag and the first [</style>] after it, trimmed,
    without the comment markers that may wrap it, and trimmed again. The
    markers come off a wrapped sheet that is not empty; of an empty one
    the closing marker is left. *)
Theorem get_style_section_between_tags (P : Platform) (pre attrs css post : wstring) :
  let text := pre ++ wstr "<style" ++ attrs ++ wc ">" :: css ++ wstr "</style>" ++ post in
  wstring_contains (pre ++ wstr "<styl") (wstr "<style") = false ->
  Forall (fun c => c <> wc ">") attrs ->
  wstring_contains (css ++ wstr "</style") (wstr "</style>") = false ->
  wlen text < npos ->
  get_style_section text = trim (strip_comment_markers (trim css)) /\
  forall b, strip_comment_markers (wstr "<!--" ++ b ++ wstr "-->")
            = match b with [] => wstr "-->" | _ => b end.
Proof.
  intros text Hpre Hattrs Hcss Hsmall. subst text.
  split; [|apply strip_comment_markers_wrapped].
  assert (Hlen : forall l : wstring, 0 <= wlen l) by (intro; unfold wlen; lia).
  assert (Htext : wlen (pre ++ wstr "<style" ++ attrs ++ wc ">" :: css
                          ++ wstr "</style>" ++ post)
                  = wlen pre + 6 + wlen attrs + 1 + wlen css + 8 + wlen post).
  { rewrite !wlen_app.
    change (wc ">" :: css ++ wstr "</style>" ++ post)
      with ([wc ">"] ++ css ++ wstr "</style>" ++ post).
    rewrite !wlen_app. change (wlen (wstr "<style")) with 6.
    change (wlen (wstr "</style>")) with 8. change (wlen [wc ">"]) with 1. lia. }
  pose proof (Hlen pre). pose proof (Hlen attrs). pose proof (Hlen css).
  pose proof (Hlen post).
  unfold get_style_section. cbv zeta.
  assert (Hs1 : find_str (pre ++ wstr "<style" ++ attrs ++ wc ">" :: css
                            ++ wstr "</style>" ++ post) (wstr "<style") 0 = wlen pre).
  { unfold find_str.
    rewrite (find_str_scan_first pre (wstr "<style") _ 0 0); [lia|lia|discriminate|exact Hpre]. }
  rewrite Hs1. destruct (Z.eqb_spec (wlen pre) npos); [lia|]. cbn [negb].
  assert (Hs2 : find (pre ++ wstr "<style" ++ attrs ++ wc ">" :: css
                        ++ wstr "</style>" ++ post) (wc ">") (wlen pre)
                = wlen pre + 6 + wlen attrs).
  { unfold find. rewrite find_scan_skip by lia.
    rewrite app_assoc. rewrite find_scan_first;
      [rewrite wlen_app; change (wlen (wstr "<style")) with 6; lia|lia|].
    apply Forall_app. split; [|exact Hattrs].
    repeat constructor; discriminate. }
  rewrite Hs2. destruct (Z.eqb_spec (wlen pre + 6 + wlen attrs) npos); [lia|].
  set (before := pre ++ wstr "<style" ++ attrs).
  assert (Hsplit : pre ++ wstr "<style" ++ attrs ++ wc ">" :: css ++ wstr "</style>" ++ post
                   = before ++ (wc ">" :: css) ++ wstr "</style>" ++ post).
  { subst before. rewrite <- !app_assoc. reflexivity. }
  assert (Hbefore : wlen before = wlen pre + 6 + wlen attrs).
  { subst before. rewrite !wlen_app. change (wlen (wstr "<style")) with 6. lia. }
  assert (Hs3 : find_str (pre ++ wstr "<style" ++ attrs ++ wc ">" :: css
                            ++ wstr "</style>" ++ post)
                  (wstr "</style>") (wlen pre + 6 + wlen attrs)
                = wlen before + 1 + wlen css).
  { unfold find_str. rewrite Hsplit. rewrite find_str_scan_skip by lia.
    rewrite find_str_scan_first; [unfold wlen; cbn [length]; lia|lia|discriminate|].
    cbn [app wstring_contains].
    change (removelast (wstr "</style>")) with (wstr "</style"). rewrite Hcss.
    change (wstr "</style>") with (wc "<" :: wstr "/style>").
    cbn [is_prefix_of]. change (wc ">" =? wc "<") with false. reflexivity. }
  rewrite Hs3. destruct (Z.eqb_spec (wlen before + 1 + wlen css) npos); [lia|].
  cbn [negb]. f_equal. f_equal. f_equal. unfold substr.
  replace (wlen before + 1 + wlen css - (wlen pre + 6 + wlen attrs + 1)) with (wlen css)
    by lia.
  rewrite Z.min_l by lia.
  replace (Z.to_nat (wlen pre + 6 + wlen attrs + 1)) with (length (before ++ [wc ">"]))
    by (rewrite length_app; cbn [length]; unfold wlen in *; lia).
  replace (pre ++ wstr "<style" ++ attrs ++ wc ">" :: css ++ wstr "</style>" ++ post)
    with ((before ++ [wc ">"]) ++ css ++ wstr "</style>" ++ post)
    by (rewrite Hsplit, <- !app_assoc; reflexivity).
  rewrite skipn_app, skipn_all, Nat.sub_diag. cbn [skipn app].
  unfold wlen. rewrite Nat2Z.id, firstn_app, firstn_all, Nat.sub_diag. cbn [firstn].
  apply app_nil_r.
Qed.

Lemma get_style_section_between_tags_witness :
  @get_style_section c_platform
    (wstr "<head>" ++ wstr "<style" ++ wstr " media=all" ++ wc ">" :: wstr " <!-- p {} --> "
       ++ wstr "</style>" ++ wstr "</head>")
  = @trim c_platform (@strip_comment_markers (@trim c_platform (wstr " <!-- p {} --> "))) /\
  forall b, strip_comment_markers (wstr "<!--" ++ b ++ wstr "-->")
            = match b with [] => wstr "-->" | _ => b end.
Proof.
  apply (get_style_section_between_tags c_platform (wstr "<head>") (wstr " media=all")
           (wstr " <!-- p {} --> ") (wstr "</head>"));
    [reflexivity|chars_ok|reflexivity|reflexivity].
Defined.

(** * Removing hyperlinks *)

Section StripLoop.
Context {P : Platform}.

Lemma wsub_length (buf : wstring) (p n : Z) : 0 <= n -> wlen (wsub buf p (size_t_of n)) <= n.
Proof.
  intro Hn. unfold wsub, wlen. rewrite length_firstn.
  assert (Hmod : 0 <= size_t_of n <= n).
  { unfold size_t_of. split; [apply Z.mod_pos_bound; reflexivity|].
    apply Z.mod_le; [exact Hn|reflexivity]. }
  lia.
Qed.

(** The loop returns, and what it adds to the output is no longer than
    the text from [lastEnd] to the end. *)
Lemma strip_loop_bound (fuel : nat) (buf : wstring) (endSentinel currentPos lastEnd : Z)
    (out : wstring) :
  0 <= currentPos ->
  Z.max 0 (wlen buf - currentPos) < Z.of_nat fuel ->
  lastEnd <= endSentinel ->
  lastEnd <= currentPos \/ (lastEnd = currentPos + 1 /\ char_at buf currentPos = wc ">") ->
  exists more,
    strip_loop fuel buf endSentinel currentPos lastEnd out = Some (out ++ more) /\
    wlen more <= endSentinel - lastEnd.
Proof.
  revert currentPos lastEnd out.
  induction fuel as [|fuel IH]; intros currentPos lastEnd out Hpos Hfuel Hend Hinv.
  { exfalso. cbn in Hfuel. lia. }
  assert (Hdone : forall out : wstring,
             exists more, Some out = Some (out ++ more) /\ wlen more <= endSentinel - lastEnd).
  { intro o. exists []. rewrite app_nil_r. split; [reflexivity|unfold wlen; cbn; lia]. }
  cbn [strip_loop].
  destruct (Z.ltb_spec currentPos endSentinel) as [Hlt|]; [|apply Hdone].
  assert (Hrest : exists more,
             Some (out ++ wsub buf lastEnd (size_t_of (endSentinel - lastEnd)))
             = Some (out ++ more) /\ wlen more <= endSentinel - lastEnd).
  { eexists. split; [reflexivity|]. apply wsub_length. lia. }
  destruct (find_element buf currentPos endSentinel (wstr "a") true) as [cp|] eqn:Ea;
    [|exact Hrest].
  destruct (find_element_sound _ _ _ _ _ _ Hpos Ea) as (Hr & _ & Hc & _ & _).
  destruct (Z.leb_spec endSentinel cp) as [|Hcp]; [exact Hrest|].
  assert (Hle : lastEnd <= cp).
  { destruct Hinv as [Hinv|[Hinv Hgt]]; [lia|].
    destruct (Z.eq_dec cp currentPos) as [->|]; [|lia].
    rewrite Hc in Hgt. discriminate. }
  destruct (find_tag buf cp (wstr "name") false).
  { apply IH; [lia|lia|exact Hend|left; lia]. }
  cbv zeta.
  set (out1 := out ++ wsub buf lastEnd (size_t_of (cp - lastEnd))).
  assert (H1 : wlen (wsub buf lastEnd (size_t_of (cp - lastEnd))) <= cp - lastEnd)
    by (apply wsub_length; lia).
  assert (Hout1 : exists more, Some out1 = Some (out ++ more) /\
                               wlen more <= endSentinel - lastEnd).
  { eexists. split; [reflexivity|]. lia. }
  destruct (find_close_tag buf cp) as [ct|] eqn:Ect; [|exact Hout1].
  destruct (find_close_tag_char buf cp ct ltac:(lia) Ect) as (Hctr & Hctc & Hctlt).
  specialize (Hctlt Hc).
  destruct (Z.leb_spec endSentinel ct) as [|Hct]; [exact Hout1|].
  destruct (find_closing_element buf ct endSentinel (wstr "a")) as [ce|] eqn:Ece;
    [|exact Hout1].
  destruct (find_closing_element_is_closing buf ct endSentinel (wstr "a") ce ltac:(lia) Ece)
    as (Hce & _ & Hcec & _).
  destruct (Z.leb_spec endSentinel ce) as [|Hce']; [exact Hout1|].
  assert (Hce1 : ct + 1 <= ce).
  { destruct (Z.eq_dec ce ct) as [->|]; [|lia]. rewrite Hctc in Hcec. discriminate. }
  set (out2 := out1 ++ wsub buf (ct + 1) (size_t_of (ce - (ct + 1)))).
  assert (H2 : wlen (wsub buf (ct + 1) (size_t_of (ce - (ct + 1)))) <= ce - (ct + 1))
    by (apply wsub_length; lia).
  assert (Hout2 : exists more, Some out2 = Some (out ++ more) /\
                               wlen more <= endSentinel - lastEnd).
  { subst out2 out1. rewrite <- app_assoc. eexists. split; [reflexivity|].
    rewrite wlen_app. lia. }
  destruct (find_close_tag buf ce) as [ct2|] eqn:Ect2; [|exact Hout2].
  destruct (find_close_tag_char buf ce ct2 ltac:(lia) Ect2) as (Hct2r & Hct2c & Hct2lt).
  specialize (Hct2lt Hcec).
  destruct (Z.leb_spec endSentinel ct2) as [|Hct2]; [exact Hout2|].
  destruct (IH ct2 (ct2 + 1) out2) as (more & Hmore & Hlen); [lia|lia|lia|right; auto|].
  subst out2 out1. rewrite Hmore, <- !app_assoc. eexists. split; [reflexivity|].
  rewrite !wlen_app. lia.
Qed.

End StripLoop.

(** Removing the hyperlinks of a text always returns, and the text
    returned is never longer than the text given. *)
Theorem strip_hyperlinks_no_longer (P : Platform) (buf : wstring) (p text_length : Z) :
  0 <= p -> 0 <= text_length < 2 ^ 63 ->
  exists r,
    strip_hyperlinks buf (Some p) text_length = Some r /\
    forall out, r = Some out -> wlen out <= text_length.
Proof.
  intros Hp Hlen. unfold strip_hyperlinks.
  destruct ((char_at buf p =? 0) || (text_length =? 0));
    [exists None; split; [reflexivity|discriminate]|].
  destruct (negb (allocate_succeeds text_length));
    [exists None; split; [reflexivity|discriminate]|].
  assert (Hsent : ptr_add p text_length = p + text_length).
  { unfold ptr_add. destruct (Z.ltb_spec text_length (2 ^ 63)); [reflexivity|lia]. }
  rewrite Hsent.
  destruct (strip_loop_bound (S (length buf)) buf (p + text_length) p p [])
    as (more & Hmore & Hbound); [exact Hp|unfold wlen; lia|lia|left; lia|].
  rewrite Hmore. cbn [option_map app]. exists (Some more). split; [reflexivity|].
  intros out Hout. injection Hout as <-. lia.
Qed.

Lemma strip_hyperlinks_no_longer_witness :
  exists r,
    @strip_hyperlinks c_platform (wstr "see <a href=x>this</a> page") (Some 0) 28 = Some r /\
    forall out, r = Some out -> wlen out <= 28.
Proof.
  apply (strip_hyperlinks_no_longer c_platform (wstr "see <a href=x>this</a> page") 0 28);
    [lia|lia].
Defined.

(** A text in which no anchor opens is returned as it is. *)
Theorem strip_hyperlinks_without_anchors (P : Platform) (buf : wstring) (p text_length : Z) :
  0 <= p -> 0 < text_length < 2 ^ 63 ->
  char_at buf p <> 0 ->
  allocate_succeeds text_length = true ->
  (forall q, p <= q -> compare_element buf (q + 1) (wstr "a") true = false) ->
  strip_hyperlinks buf (Some p) text_length = Some (Some (wsub buf p text_length)).
Proof.
  intros Hp Hlen Hc Halloc Hnone. unfold strip_hyperlinks.
  apply Z.eqb_neq in Hc. rewrite Hc.
  destruct (Z.eqb_spec text_length 0); [lia|]. cbn [orb]. rewrite Halloc. cbn [negb].
  assert (Hsent : ptr_add p text_length = p + text_length).
  { unfold ptr_add. destruct (Z.ltb_spec text_length (2 ^ 63)); [reflexivity|lia]. }
  rewrite Hsent. cbn [strip_loop].
  destruct (Z.ltb_spec p (p + text_length)); [|lia].
  destruct (find_element buf p (p + text_length) (wstr "a") true) as [cp|] eqn:Ea.
  - destruct (find_element_sound _ _ _ _ _ _ Hp Ea) as (Hr & _ & _ & Hcmp & _).
    rewrite Hnone in Hcmp by lia. discriminate.
  - cbn [option_map app]. do 2 f_equal.
    replace (p + text_length - p) with text_length by lia.
    unfold size_t_of. rewrite Z.mod_small; [reflexivity|].
    unfold SIZE_MOD. split; [lia|].
    apply Z.lt_trans with (2 ^ 63); [lia|reflexivity].
Qed.

Lemma strip_hyperlinks_without_anchors_witness :
  @strip_hyperlinks c_platform (wstr "<b>x</b>") (Some 0) 8
  = Some (Some (wsub (wstr "<b>x</b>") 0 8)).
Proof.
  apply (strip_hyperlinks_without_anchors c_platform (wstr "<b>x</b>") 0 8);
    [lia|lia|discriminate|reflexivity|].
  intros q Hq. destruct (Z.le_gt_cases 8 q) as [Hbig|Hsmall].
  - unfold compare_element.
    replace (from (wstr "<b>x</b>") (q + 1)) with (@nil wchar_t); [reflexivity|].
    symmetry. unfold from. apply skipn_all2. cbn. lia.
  - assert (Hcases : q = 0 \/ q = 1 \/ q = 2 \/ q = 3 \/ q = 4 \/ q = 5 \/ q = 6 \/ q = 7)
      by lia.
    destruct Hcases as [->|[->|[->|[->|[->|[->|[->| ->]]]]]]]; reflexivity.
Defined.

(** * Further properties of the URL resolver *)

Section LastDirectory.

Lemma rfind_cases (s : wstring) (ch : wchar_t) (pos : Z) :
  (rfind s ch pos = npos /\
   forall j, 0 <= j < wlen s -> j <= pos -> char_at s j <> ch) \/
  (0 <= rfind s ch pos < wlen s /\ rfind s ch pos <= pos /\
   char_at s (rfind s ch pos) = ch /\
   forall j, rfind s ch pos < j < wlen s -> j <= pos -> char_at s j <> ch).
Proof.
  unfold rfind.
  destruct (rfind_scan_spec ch s 0 pos npos) as [[E Hno]|(k & E & Hk & Hle & Hch & Hno)].
  - left. split; [exact E|]. intros j Hj Hpos.
    rewrite char_at_nonneg by lia. apply Hno; unfold wlen in Hj; lia.
  - right. rewrite E in *. rewrite Z.add_0_l in *. unfold wlen.
    split; [lia|]. split; [exact Hle|]. split; [now rewrite char_at_of_nat|].
    intros j Hj Hpos. rewrite char_at_nonneg by lia. apply Hno; lia.
Qed.

Lemma char_at_app_l (a b : wstring) (j : Z) :
  0 <= j < wlen a -> char_at (a ++ b) j = char_at a j.
Proof.
  intro Hj. rewrite !char_at_nonneg by lia. apply app_nth1. unfold wlen in Hj. lia.
Qed.

Lemma char_at_app_last (a : wstring) (c : wchar_t) : char_at (a ++ [c]) (wlen a) = c.
Proof.
  unfold wlen. rewrite char_at_of_nat, app_nth2, Nat.sub_diag by lia. reflexivity.
Qed.

(** The last directory of a url: the slash [find_last_directory] returns
    is a slash of the url it returns, which is the url given or that url
    with a slash added at its end; the query position is that of a [?];
    and when no slash was added, every slash after the one returned
    lies after the query. *)
Lemma find_last_directory_indexes (url : wstring) :
  wlen url < npos - 1 ->
  let '(url', last_slash, query_postion) := find_last_directory url in
  (url' = url \/ url' = url ++ [wc "/"]) /\
  0 <= last_slash < wlen url' /\ char_at url' last_slash = wc "/" /\
  (query_postion = npos \/
   (0 <= query_postion < wlen url /\ char_at url query_postion = wc "?")) /\
  (url' = url ->
   forall j, last_slash < j < wlen url -> char_at url j = wc "/" ->
     query_postion <> npos /\ query_postion < j).
Proof.
  intro Hsmall. unfold find_last_directory. cbv zeta.
  assert (Hw : 0 <= wlen url) by (unfold wlen; lia).
  set (q := rfind url (wc "?") npos).
  set (ls0 := rfind url (wc "/") npos).
  assert (Hq : q = npos \/ (0 <= q < wlen url /\ char_at url q = wc "?")).
  { subst q. destruct (rfind_cases url (wc "?") npos) as [[E _]|(H1 & _ & H2 & _)];
      [left; exact E|right; split; assumption]. }
  set (ls := if negb (q =? npos) && negb (ls0 =? npos) && (0 <? q) && (0 <? ls0) && (q <? ls0)
             then rfind url (wc "/") (q - 1) else ls0).
  assert (Hls : (ls = npos /\ True) \/
                (0 <= ls < wlen url /\ char_at url ls = wc "/" /\
                 forall j, ls < j < wlen url -> char_at url j = wc "/" ->
                   q <> npos /\ q < j)).
  { subst ls.
    destruct (negb (q =? npos) && negb (ls0 =? npos) && (0 <? q) && (0 <? ls0) && (q <? ls0))
      eqn:Ec.
    - repeat (apply andb_prop in Ec; destruct Ec as [Ec ?]).
      assert (Hqn : q <> npos) by (apply negb_true_iff in Ec; now apply Z.eqb_neq).
      destruct Hq as [Hq|[Hq Hqc]]; [contradiction|].
      destruct (rfind_cases url (wc "/") (q - 1)) as [[E _]|(R1 & R2 & R3 & R4)].
      + left. split; [exact E|exact I].
      + right. split; [exact R1|]. split; [exact R3|].
        intros j Hj Hc. split; [exact Hqn|].
        destruct (Z.le_gt_cases j (q - 1)) as [Hle|Hgt].
        * exfalso. exact (R4 j Hj Hle Hc).
        * destruct (Z.eq_dec j q) as [->|]; [|lia].
          rewrite Hqc in Hc. discriminate.
    - subst ls0.
      destruct (rfind_cases url (wc "/") npos) as [[E _]|(R1 & R2 & R3 & R4)].
      + left. split; [exact E|exact I].
      + right. split; [exact R1|]. split; [exact R3|].
        intros j Hj Hc. exfalso. apply (R4 j Hj); [unfold npos, SIZE_MOD in *; lia|exact Hc]. }
  assert (Happend : (url ++ [wc "/"] = url \/ url ++ [wc "/"] = url ++ [wc "/"]) /\
                    0 <= wlen (url ++ [wc "/"]) - 1 < wlen (url ++ [wc "/"]) /\
                    char_at (url ++ [wc "/"]) (wlen (url ++ [wc "/"]) - 1) = wc "/" /\
                    (q = npos \/ (0 <= q < wlen url /\ char_at url q = wc "?")) /\
                    (url ++ [wc "/"] = url ->
                     forall j, wlen (url ++ [wc "/"]) - 1 < j < wlen url ->
                       char_at url j = wc "/" -> q <> npos /\ q < j)).
  { rewrite wlen_app. change (wlen [wc "/"]) with 1.
    replace (wlen url + 1 - 1) with (wlen url) by lia.
    split; [right; reflexivity|]. split; [lia|]. split; [apply char_at_app_last|].
    split; [exact Hq|]. intros _ j Hj. lia. }
  destruct Hls as [[Hn _]|(Hr & Hc & Hlater)].
  - rewrite Hn. rewrite Z.eqb_refl. cbn [negb andb orb]. exact Happend.
  - destruct (Z.eqb_spec ls npos) as [E|_]; [lia|]. cbn [negb andb orb].
    rewrite orb_false_r.
    destruct ((0 <? ls) && (char_at url (ls - 1) =? wc "/")); [exact Happend|].
    split; [left; reflexivity|]. split; [exact Hr|]. split; [exact Hc|].
    split; [exact Hq|]. intros _. exact Hlater.
Qed.

End LastDirectory.

(** The root url of a resolver: the constructor leaves [m_last_slash] on
    a slash of [m_root_url], which is the url given or that url with a
    slash added at its end, and [m_query] on a [?] of it or at [npos];
    when no slash was added, every slash after [m_last_slash] lies after
    the query. *)
Theorem url_construct_last_slash (P : Platform) (root : wstring) :
  wlen (c_str_of root) < npos - 1 ->
  let u := url_construct root in
  (m_root_url u = c_str_of root \/ m_root_url u = c_str_of root ++ [wc "/"]) /\
  0 <= m_last_slash u < wlen (m_root_url u) /\
  char_at (m_root_url u) (m_last_slash u) = wc "/" /\
  (m_query u = npos \/
   (0 <= m_query u < wlen (c_str_of root) /\ char_at (c_str_of root) (m_query u) = wc "?")) /\
  (m_root_url u = c_str_of root ->
   forall j, m_last_slash u < j < wlen (c_str_of root) ->
     char_at (c_str_of root) j = wc "/" -> m_query u <> npos /\ m_query u < j).
Proof.
  intros Hsmall u. subst u. unfold url_construct.
  pose proof (find_last_directory_indexes (c_str_of root) Hsmall) as H.
  destruct (find_last_directory (c_str_of root)) as [[url' ls] q].
  destruct (parse_domain url' []) as [[rfd rd] rsd].
  destruct (parse_domain (c_str_of root) []) as [[cfd cd] csd].
  cbn [m_root_url m_last_slash m_query]. exact H.
Qed.

Lemma url_construct_last_slash_witness :
  let u := @url_construct c_platform (wstr "http://a.com/x/y.php?p=/q") in
  (m_root_url u = c_str_of (wstr "http://a.com/x/y.php?p=/q") \/
   m_root_url u = c_str_of (wstr "http://a.com/x/y.php?p=/q") ++ [wc "/"]) /\
  0 <= m_last_slash u < wlen (m_root_url u) /\
  char_at (m_root_url u) (m_last_slash u) = wc "/" /\
  (m_query u = npos \/
   (0 <= m_query u < wlen (c_str_of (wstr "http://a.com/x/y.php?p=/q")) /\
    char_at (c_str_of (wstr "http://a.com/x/y.php?p=/q")) (m_query u) = wc "?")) /\
  (m_root_url u = c_str_of (wstr "http://a.com/x/y.php?p=/q") ->
   forall j, m_last_slash u < j < wlen (c_str_of (wstr "http://a.com/x/y.php?p=/q")) ->
     char_at (c_str_of (wstr "http://a.com/x/y.php?p=/q")) j = wc "/" ->
     m_query u <> npos /\ m_query u < j).
Proof.
  apply (url_construct_last_slash c_platform (wstr "http://a.com/x/y.php?p=/q")).
  reflexivity.
Defined.

Section Domains.
Context {P : Platform}.

Lemma skipn_split (s : wstring) (a k : nat) :
  (a <= k < length s)%nat ->
  skipn a s = firstn (k - a) (skipn a s) ++ nth k s 0 :: skipn (S k) s.
Proof.
  intro H. rewrite <- (firstn_skipn (k - a) (skipn a s)) at 1. f_equal.
  rewrite skipn_skipn. replace (k - a + a)%nat with k by lia.
  rewrite <- (firstn_skipn 1 (skipn k s)) at 1.
  rewrite skipn_skipn. change (1 + k)%nat with (S k). f_equal.
  destruct (skipn k s) as [|x l] eqn:E.
  - apply (f_equal (@length _)) in E. rewrite length_skipn in E. cbn in E. lia.
  - cbn [firstn app]. f_equal.
    pose proof (nth_skipn k s 0 0) as Hn. rewrite E, Nat.add_0_r in Hn. exact Hn.
Qed.

Lemma dots_none (s : wstring) (a n : nat) :
  (forall j : nat, (a <= j < a + n)%nat -> (j < length s)%nat -> nth j s 0 <> wc ".") ->
  dots (firstn n (skipn a s)) = 0%nat.
Proof.
  intro H. unfold dots. apply count_occ_not_In. intro Hin.
  apply (In_nth _ _ 0) in Hin. destruct Hin as (i & Hi & Hnth).
  rewrite length_firstn, length_skipn in Hi.
  rewrite nth_firstn in Hnth. destruct (Nat.ltb_spec i n); [|lia].
  rewrite nth_skipn in Hnth. apply (H (a + i)%nat); [lia|lia|exact Hnth].
Qed.

Lemma dots_app (a b : wstring) : dots (a ++ b) = (dots a + dots b)%nat.
Proof. apply count_occ_app. Qed.

Lemma dots_cons_dot (l : wstring) : dots (wc "." :: l) = S (dots l).
Proof. unfold dots. now rewrite count_occ_cons_eq. Qed.

Lemma substr_to_end (s : wstring) (pos n : Z) :
  0 <= pos -> wlen s - pos <= n -> substr s pos n = skipn (Z.to_nat pos) s.
Proof.
  intros Hpos Hn. unfold substr. apply firstn_all2. rewrite length_skipn.
  unfold wlen in *. lia.
Qed.

Lemma substr_beyond (s : wstring) (pos n : Z) :
  wlen s <= pos -> substr s pos n = skipn (Z.to_nat pos) s.
Proof.
  intro Hpos. unfold substr. rewrite skipn_all2 by (unfold wlen in Hpos; lia).
  apply firstn_nil.
Qed.

(** The text from [a] on, with the dots it holds after [a]. *)
Lemma skipn_one_dot (s : wstring) (a k : Z) :
  0 <= a <= k -> k < wlen s -> char_at s k = wc "." ->
  (forall j, a <= j < k -> char_at s j <> wc ".") ->
  (forall j, k < j < wlen s -> char_at s j <> wc ".") ->
  dots (skipn (Z.to_nat a) s) = 1%nat.
Proof.
  intros Ha Hk Hc Hbefore Hafter. unfold wlen in Hk.
  rewrite (skipn_split s (Z.to_nat a) (Z.to_nat k)) by lia.
  rewrite <- char_at_nonneg, Hc by lia.
  rewrite dots_app, dots_cons_dot.
  rewrite dots_none.
  - replace (skipn (S (Z.to_nat k)) s)
      with (firstn (length s) (skipn (S (Z.to_nat k)) s))
      by (apply firstn_all2; rewrite length_skipn; lia).
    rewrite dots_none; [reflexivity|].
    intros j Hj Hlen. rewrite <- (Nat2Z.id j), <- char_at_nonneg by lia.
    apply Hafter. unfold wlen. lia.
  - intros j Hj Hlen. rewrite <- (Nat2Z.id j), <- char_at_nonneg by lia.
    apply Hbefore. lia.
Qed.

End Domains.

Section DomainLabels.
Context {P : Platform}.

Lemma find_scan_cases (l : wstring) (i pos : Z) (ch : wchar_t) :
  find_scan l i pos ch = npos \/ i <= find_scan l i pos ch < i + wlen l.
Proof.
  revert i. induction l as [|x l IH]; intro i; cbn [find_scan]; [left; reflexivity|].
  unfold wlen. cbn [length].
  destruct ((pos <=? i) && (x =? ch)); [right; lia|].
  destruct (IH (i + 1)) as [E|H]; [left; exact E|right; unfold wlen in H; lia].
Qed.

Lemma firstn_prefix (s : wstring) (n : nat) : exists rest, s = firstn n s ++ rest.
Proof. exists (skipn n s). symmetry. apply firstn_skipn. Qed.

Lemma skipn_suffix (s : wstring) (n : nat) : exists a, s = a ++ skipn n s.
Proof. exists (firstn n s). symmetry. apply firstn_skipn. Qed.

Lemma skipn_after_dot (s : wstring) (k : Z) :
  0 <= k < wlen s -> char_at s k = wc "." ->
  s = firstn (Z.to_nat k) s ++ wc "." :: skipn (Z.to_nat (k + 1)) s.
Proof.
  intros Hk Hc. unfold wlen in Hk.
  pose proof (skipn_split s 0 (Z.to_nat k) ltac:(lia)) as H.
  cbn [skipn] in H. rewrite Nat.sub_0_r in H.
  rewrite <- char_at_nonneg, Hc in H by lia.
  replace (Z.to_nat (k + 1)) with (S (Z.to_nat k)) by lia. exact H.
Qed.

Lemma skipn_skipn_dot (s : wstring) (a k : Z) :
  0 <= a <= k -> k < wlen s -> char_at s k = wc "." ->
  skipn (Z.to_nat a) s
  = firstn (Z.to_nat (k - a)) (skipn (Z.to_nat a) s)
    ++ wc "." :: skipn (Z.to_nat (k + 1)) s.
Proof.
  intros Ha Hk Hc. unfold wlen in Hk.
  pose proof (skipn_split s (Z.to_nat a) (Z.to_nat k) ltac:(lia)) as H.
  rewrite <- char_at_nonneg, Hc in H by lia.
  replace (Z.to_nat (k + 1)) with (S (Z.to_nat k)) by lia.
  replace (Z.to_nat (k - a)) with (Z.to_nat k - Z.to_nat a)%nat by lia. exact H.
Qed.

Lemma find_scan_spec (ch : wchar_t) (l : wstring) (i pos : Z) :
  (find_scan l i pos ch = npos /\
   forall k : nat, (k < length l)%nat -> pos <= i + Z.of_nat k -> nth k l 0 <> ch) \/
  (exists k : nat, (k < length l)%nat /\ find_scan l i pos ch = i + Z.of_nat k /\
     pos <= i + Z.of_nat k /\ nth k l 0 = ch /\
     forall j : nat, (j < k)%nat -> pos <= i + Z.of_nat j -> nth j l 0 <> ch).
Proof.
  revert i. induction l as [|x l IH]; intro i; cbn [find_scan].
  - left. split; [reflexivity|]. cbn. intros k Hk. lia.
  - destruct ((pos <=? i) && (x =? ch)) eqn:E.
    + right. exists 0%nat. apply andb_prop in E. destruct E as [E1 E2].
      apply Z.leb_le in E1. apply Z.eqb_eq in E2. cbn [length nth].
      repeat split; try lia; try assumption.
    + assert (Hx : pos <= i -> x <> ch).
      { intros Hi Hc. destruct (Z.leb_spec pos i); [|lia]. cbn [andb] in E.
        apply Z.eqb_neq in E. contradiction. }
      destruct (IH (i + 1)) as [[En Hn]|(k & Hk & Ek & Hp & Hc & Hf)].
      * left. split; [exact En|]. intros [|k] Hk Hp; cbn [nth].
        -- apply Hx. lia.
        -- apply Hn; cbn [length] in Hk; lia.
      * right. exists (S k). cbn [length nth]. repeat split; try lia; try assumption.
        intros [|j] Hj Hpj; cbn [nth]; [apply Hx; lia|apply Hf; lia].
Qed.

Lemma find_cases (s : wstring) (ch : wchar_t) (pos : Z) :
  (find s ch pos = npos /\
   forall j, 0 <= j < wlen s -> pos <= j -> char_at s j <> ch) \/
  (0 <= find s ch pos < wlen s /\ pos <= find s ch pos /\
   char_at s (find s ch pos) = ch /\
   forall j, 0 <= j < find s ch pos -> pos <= j -> char_at s j <> ch).
Proof.
  unfold find.
  destruct (find_scan_spec ch s 0 pos) as [[E Hn]|(k & Hk & E & Hp & Hc & Hf)].
  - left. split; [exact E|]. intros j Hj Hpos. rewrite char_at_nonneg by lia.
    apply Hn; unfold wlen in Hj; lia.
  - right. rewrite E. rewrite Z.add_0_l in *. unfold wlen.
    split; [lia|]. split; [exact Hp|]. split; [now rewrite char_at_of_nat|].
    intros j Hj Hpos. rewrite char_at_nonneg by lia. apply Hf; lia.
Qed.

Lemma dots_zero (s : wstring) :
  (forall j, 0 <= j < wlen s -> char_at s j <> wc ".") -> dots s = 0%nat.
Proof.
  intro H. unfold dots. apply count_occ_not_In. intro Hin.
  apply (In_nth _ _ 0) in Hin. destruct Hin as (i & Hi & Hnth).
  apply (H (Z.of_nat i)); [|now rewrite char_at_of_nat].
  split; [lia|]. unfold wlen. apply Nat2Z.inj_lt. exact Hi.
Qed.

Lemma char_at_firstn (s : wstring) (n j : Z) :
  0 <= j < n -> char_at (firstn (Z.to_nat n) s) j = char_at s j.
Proof.
  intro Hj. rewrite !char_at_nonneg by lia. rewrite nth_firstn.
  destruct (Nat.ltb_spec (Z.to_nat j) (Z.to_nat n)); [reflexivity|lia].
Qed.

Lemma char_at_skipn (s : wstring) (a j : Z) :
  0 <= a -> 0 <= j -> char_at (skipn (Z.to_nat a) s) j = char_at s (a + j).
Proof.
  intros Ha Hj. rewrite !char_at_nonneg by lia. rewrite nth_skipn. f_equal. lia.
Qed.

Lemma wlen_firstn (s : wstring) (n : Z) : 0 <= n <= wlen s -> wlen (firstn (Z.to_nat n) s) = n.
Proof. intro H. unfold wlen in *. rewrite length_firstn. lia. Qed.

End DomainLabels.

(** The domains of a url. The full domain is the url up to its first
    slash at or after the end of the protocol, the whole url when there
    is none. With no dot in the full domain, or with one dot only that
    is its first character, the domain is empty and the subdomain is
    left as it was. With one dot only, elsewhere, the domain is the full
    domain after the protocol, and the subdomain is the domain. With
    more dots the domain is what follows the last dot but one; the
    subdomain is what follows the last dot but two when there is such a
    dot and the domain begins after the third character of the url and
    not right after the protocol, and it is the domain otherwise. *)
Theorem parse_domain_labels (P : Platform) (url subdomain : wstring) :
  wlen url < npos ->
  let start := protocol_length url in
  let '(full_domain, domain, sub) := parse_domain url subdomain in
  ((full_domain = url /\ forall j, start <= j < wlen url -> char_at url j <> wc "/") \/
   (exists rest, url = full_domain ++ wc "/" :: rest /\ start <= wlen full_domain /\
      forall j, start <= j < wlen full_domain -> char_at url j <> wc "/")) /\
  match dots full_domain with
  | O => domain = [] /\ sub = subdomain
  | S O =>
      if hd 0 full_domain =? wc "." then domain = [] /\ sub = subdomain
      else domain = skipn (Z.to_nat start) full_domain /\ sub = domain
  | S (S _) =>
      exists a, full_domain = a ++ wc "." :: domain /\ dots domain = 1%nat /\
        if (wlen a + 1 =? start) || (wlen a + 1 <=? 2) || (dots a =? 0)%nat
        then sub = domain
        else exists a' b,
               a = a' ++ wc "." :: b /\ dots b = 0%nat /\ sub = b ++ wc "." :: domain
  end.
Proof.
  intro Hsmall. unfold parse_domain, protocol_length. cbv zeta.
  set (si := if strnicmp_eq 7 url (wstr "http://") then 7
             else if strnicmp_eq 8 url (wstr "https://") then 8
             else if strnicmp_eq 6 url (wstr "ftp://") then 6
             else if strnicmp_eq 7 url (wstr "ftps://") then 7 else 0).
  assert (Hsi : 0 <= si <= 8).
  { subst si. repeat match goal with |- context [if ?c then _ else _] => destruct c end; lia. }
  set (lastSlash := find url (wc "/") si).
  set (fd := if lastSlash =? npos then url else substr url 0 lastSlash).
  assert (Hw : 0 <= wlen url) by (unfold wlen; lia).
  assert (Hfd : ((fd = url /\ forall j, si <= j < wlen url -> char_at url j <> wc "/") \/
                 (exists rest, url = fd ++ wc "/" :: rest /\ si <= wlen fd /\
                    forall j, si <= j < wlen fd -> char_at url j <> wc "/")) /\
                wlen fd <= wlen url /\ (lastSlash = npos \/ lastSlash = wlen fd)).
  { subst fd. destruct (find_cases url (wc "/") si) as [[E Hn]|(Hr & Hp & Hc & Hf)].
    - fold lastSlash in E. rewrite E, Z.eqb_refl.
      split; [left; split; [reflexivity|]|split; [lia|left; reflexivity]].
      intros j Hj. apply Hn; lia.
    - fold lastSlash in Hr, Hp, Hc, Hf.
      destruct (Z.eqb_spec lastSlash npos) as [E|_]; [lia|].
      unfold substr. rewrite Z.min_l by lia. cbn [skipn Z.to_nat].
      rewrite (wlen_firstn url lastSlash) by lia.
      split; [right|split; [lia|right; reflexivity]].
      exists (skipn (Z.to_nat (lastSlash + 1)) url). split; [|split; [exact Hp|]].
      + rewrite <- (firstn_skipn (Z.to_nat lastSlash) url) at 1. f_equal.
        pose proof (skipn_split url (Z.to_nat lastSlash) (Z.to_nat lastSlash)) as Hs.
        rewrite Nat.sub_diag in Hs. cbn [firstn app] in Hs.
        rewrite <- char_at_nonneg, Hc in Hs by lia.
        replace (Z.to_nat (lastSlash + 1)) with (S (Z.to_nat lastSlash)) by lia.
        apply Hs. unfold wlen in Hr. lia.
      + intros j Hj. apply Hf; lia. }
  destruct Hfd as (Hfull & Hfdlen & Hslash).
  assert (Hfw : 0 <= wlen fd) by (unfold wlen; lia).
  assert (Hto_end : forall pos, 0 <= pos -> pos <= 8 \/ pos <= wlen fd ->
             substr fd pos (size_t_of (lastSlash - pos)) = skipn (Z.to_nat pos) fd).
  { intros pos Hpos Hpos'.
    destruct (Z.le_gt_cases (wlen fd) pos) as [Hbig|Hin]; [now apply substr_beyond|].
    apply substr_to_end; [exact Hpos|].
    unfold size_t_of. rewrite Z.mod_small; unfold npos, SIZE_MOD in *; lia. }
  destruct (rfind_cases fd (wc ".") lastSlash) as [[Edot Hno]|(Hdot & Hdle & Hdc & Hdafter)].
  { (* no dot *)
    rewrite Edot, Z.eqb_refl. cbn [orb]. cbv beta iota.
    split; [exact Hfull|].
    rewrite dots_zero; [split; reflexivity|].
    intros j Hj. apply Hno; [exact Hj|].
    destruct Hslash; unfold npos, SIZE_MOD in *; lia. }
  set (dot := rfind fd (wc ".") lastSlash) in *.
  assert (Hafter : forall j, dot < j < wlen fd -> char_at fd j <> wc ".").
  { intros j Hj. apply Hdafter; [exact Hj|]. destruct Hslash; unfold npos, SIZE_MOD in *; lia. }
  destruct (Z.eqb_spec dot npos) as [E|_]; [unfold npos, SIZE_MOD in *; lia|].
  destruct (Z.eqb_spec dot 0) as [E0|N0]; cbn [orb]; cbv beta iota;
    (split; [exact Hfull|]).
  { (* the only dot is the first character *)
    assert (Hone : dots fd = 1%nat).
    { replace fd with (skipn (Z.to_nat 0) fd) at 1 by reflexivity.
      apply (skipn_one_dot fd 0 dot); try lia; try assumption. }
    rewrite Hone. change (hd 0 fd) with (hd 0 (from fd 0)).
    rewrite <- (char_at_hd fd 0) by lia.
    rewrite <- E0, Hdc, Z.eqb_refl. split; reflexivity. }
  destruct (rfind_cases fd (wc ".") (dot - 1)) as [[E2 Hnone]|(Hd2 & Hd2le & Hd2c & Hd2after)].
  - (* one dot only: the domain begins after the protocol *)
    rewrite E2, Z.eqb_refl. cbn [negb]. rewrite Z.eqb_refl. cbn [negb andb].
    assert (Hone : dots fd = 1%nat).
    { replace fd with (skipn (Z.to_nat 0) fd) at 1 by reflexivity.
      apply (skipn_one_dot fd 0 dot); try lia; try assumption.
      intros j Hj. apply Hnone; lia. }
    rewrite Hone. change (hd 0 fd) with (hd 0 (from fd 0)).
    rewrite <- (char_at_hd fd 0) by lia.
    destruct (Z.eqb_spec (char_at fd 0) (wc ".")) as [E|_];
      [exfalso; apply (Hnone 0); [lia|lia|exact E]|].
    rewrite Hto_end by lia. split; reflexivity.
  - (* two dots at least *)
    set (dot2 := rfind fd (wc ".") (dot - 1)) in *.
    destruct (Z.eqb_spec dot2 npos) as [E|_]; [unfold npos, SIZE_MOD in *; lia|].
    cbn [negb].
    rewrite (Hto_end (dot2 + 1)) by lia.
    set (a := firstn (Z.to_nat dot2) fd).
    set (d := skipn (Z.to_nat (dot2 + 1)) fd).
    assert (Hsplit : fd = a ++ wc "." :: d)
      by (apply skipn_after_dot; [lia|exact Hd2c]).
    assert (Hd1 : dots d = 1%nat).
    { apply (skipn_one_dot fd (dot2 + 1) dot); try lia; try assumption.
      intros j Hj. apply Hd2after; lia. }
    assert (Ha : wlen a = dot2) by (apply wlen_firstn; lia).
    assert (Hcount : dots fd = S (S (dots a))).
    { rewrite Hsplit at 1. rewrite dots_app, dots_cons_dot, Hd1. lia. }
    rewrite Hcount. exists a. split; [exact Hsplit|]. split; [exact Hd1|].
    rewrite Ha.
    destruct (Z.eqb_spec (dot2 + 1) si) as [Esi|Nsi]; cbn [negb andb orb]; [reflexivity|].
    destruct (Z.ltb_spec 2 (dot2 + 1)) as [Hbig|Hsmall'].
    2:{ destruct (Z.leb_spec (dot2 + 1) 2); [|lia]. reflexivity. }
    destruct (Z.leb_spec (dot2 + 1) 2); [lia|]. cbn [orb].
    destruct (rfind_cases fd (wc ".") (dot2 + 1 - 2))
      as [[E3 Hnone3]|(Hd3 & Hd3le & Hd3c & Hd3after)].
    + rewrite E3, Z.eqb_refl. cbn [negb].
      rewrite (dots_zero a); [reflexivity|].
      intros j Hj. rewrite Ha in Hj. unfold a. rewrite char_at_firstn by lia.
      apply Hnone3; lia.
    + set (dot3 := rfind fd (wc ".") (dot2 + 1 - 2)) in *.
      destruct (Z.eqb_spec dot3 npos) as [E|_]; [unfold npos, SIZE_MOD in *; lia|].
      cbn [negb].
      rewrite (Hto_end (dot3 + 1)) by lia.
      assert (Hc3 : char_at a dot3 = wc ".")
        by (unfold a; rewrite char_at_firstn by lia; exact Hd3c).
      assert (Hsplit3 : a = firstn (Z.to_nat dot3) a ++ wc "." :: skipn (Z.to_nat (dot3 + 1)) a)
        by (apply skipn_after_dot; [lia|exact Hc3]).
      assert (Hb : dots (skipn (Z.to_nat (dot3 + 1)) a) = 0%nat).
      { apply dots_zero. intros j Hj.
        assert (Hlen : wlen (skipn (Z.to_nat (dot3 + 1)) a) = dot2 - (dot3 + 1))
          by (unfold wlen in *; rewrite length_skipn; lia).
        rewrite Hlen in Hj. rewrite char_at_skipn by lia.
        unfold a. rewrite char_at_firstn by lia. apply Hd3after; lia. }
      assert (Hpos : dots a <> 0%nat).
      { rewrite Hsplit3, dots_app, dots_cons_dot. lia. }
      destruct (Nat.eqb_spec (dots a) 0) as [|_]; [contradiction|].
      exists (firstn (Z.to_nat dot3) a), (skipn (Z.to_nat (dot3 + 1)) a).
      split; [exact Hsplit3|]. split; [exact Hb|].
      rewrite Hsplit at 1. rewrite skipn_app.
      replace (Z.to_nat (dot3 + 1) - length a)%nat with 0%nat by (unfold wlen in Ha; lia).
      reflexivity.
Qed.

Lemma parse_domain_labels_witness :
  let start := @protocol_length c_platform (wstr "http://www.sales.mycompany.com/x/y") in
  let '(full_domain, domain, sub) :=
    @parse_domain c_platform (wstr "http://www.sales.mycompany.com/x/y") [] in
  ((full_domain = wstr "http://www.sales.mycompany.com/x/y" /\
    forall j, start <= j < wlen (wstr "http://www.sales.mycompany.com/x/y") ->
      char_at (wstr "http://www.sales.mycompany.com/x/y") j <> wc "/") \/
   (exists rest,
      wstr "http://www.sales.mycompany.com/x/y" = full_domain ++ wc "/" :: rest /\
      start <= wlen full_domain /\
      forall j, start <= j < wlen full_domain ->
        char_at (wstr "http://www.sales.mycompany.com/x/y") j <> wc "/")) /\
  match dots full_domain with
  | O => domain = [] /\ sub = []
  | S O =>
      if hd 0 full_domain =? wc "." then domain = [] /\ sub = []
      else domain = skipn (Z.to_nat start) full_domain /\ sub = domain
  | S (S _) =>
      exists a, full_domain = a ++ wc "." :: domain /\ dots domain = 1%nat /\
        if (wlen a + 1 =? start) || (wlen a + 1 <=? 2) || (dots a =? 0)%nat
        then sub = domain
        else exists a' b,
               a = a' ++ wc "." :: b /\ dots b = 0%nat /\ sub = b ++ wc "." :: domain
  end.
Proof.
  apply (parse_domain_labels c_platform (wstr "http://www.sales.mycompany.com/x/y") []).
  reflexivity.
Defined.

(** ** The image links *)

Section ImageLinksFound.
Context {P : Platform}.

Lemma html_image_parse_loop_next (fuel : nat) (buf : wstring) (start sectionEnd : Z) :
  0 <= start ->
  Z.max 0 (wlen buf - start) < Z.of_nat fuel ->
  exists ret text len,
    html_image_parse_loop fuel buf start sectionEnd = Some (ret, text, len) /\
    match ret with
    | Some src =>
        text = Some src /\
        exists q, start <= q /\ q + wlen (wstr "img") <= sectionEnd /\
          char_at buf q = wc "<" /\
          compare_element buf (q + 1) (wstr "img") true = true /\
          read_attribute buf q (wstr "src") false true = Some (src, len)
    | None => text = None /\ len = 0
    end.
Proof.
  revert start. induction fuel as [|fuel IH]; intros start Hs Hfuel; [lia|].
  cbn [html_image_parse_loop].
  destruct (find_element buf start sectionEnd (wstr "img") true) as [q|] eqn:Ef.
  - destruct (find_element_sound _ _ _ _ _ _ Hs Ef) as (Hq & Hend & Hc & Hcmp & _).
    destruct (read_attribute buf q (wstr "src") false true) as [[src len]|] eqn:Er.
    + exists (Some src), (Some src), len. split; [reflexivity|]. split; [reflexivity|].
      exists q. repeat split; try assumption; lia.
    + change (wlen (wstr "img") + 1) with 4.
      destruct (IH (q + 4) ltac:(lia) ltac:(lia)) as (ret & text & len & E & Hret).
      exists ret, text, len. split; [exact E|].
      destruct ret as [src|]; [|exact Hret].
      destruct Hret as (Ht & q' & Hq' & Hrest). split; [exact Ht|].
      exists q'. split; [lia|exact Hrest].
  - exists None, None, 0. split; [reflexivity|]. split; reflexivity.
Qed.

End ImageLinksFound.

(** A call of the image parser on a text always returns. What it returns
    is null, with the length of the link at zero, or the value of the
    [src] attribute, as [read_attribute] gives it, of an [img] element
    that begins at or after the position the parser stood at; the parser
    then stands on that value. *)
Theorem html_image_parse_next (P : Platform) (buf : wstring) (p sectionEnd : Z) :
  0 <= p ->
  exists ret text len,
    html_image_parse buf (Some p) sectionEnd = Some (ret, text, len) /\
    match ret with
    | Some src =>
        text = Some src /\
        exists q, p <= q /\ q + wlen (wstr "img") <= sectionEnd /\
          char_at buf q = wc "<" /\
          compare_element buf (q + 1) (wstr "img") true = true /\
          read_attribute buf q (wstr "src") false true = Some (src, len)
    | None => len = 0
    end.
Proof.
  intro Hp. cbn [html_image_parse].
  destruct (char_at buf p =? 0).
  - exists None, (Some p), 0. split; reflexivity.
  - destruct (html_image_parse_loop_next (S (length buf)) buf p sectionEnd Hp)
      as (ret & text & len & E & Hret); [unfold wlen; lia|].
    exists ret, text, len. split; [exact E|].
    destruct ret; [exact Hret|apply Hret].
Qed.

Lemma html_image_parse_next_witness :
  exists ret text len,
    @html_image_parse c_platform (wstr "<img alt=x><IMG src='a.png'>") (Some 0) 28
    = Some (ret, text, len) /\
    match ret with
    | Some src =>
        text = Some src /\
        exists q, 0 <= q /\ q + wlen (wstr "img") <= 28 /\
          char_at (wstr "<img alt=x><IMG src='a.png'>") q = wc "<" /\
          @compare_element c_platform (wstr "<img alt=x><IMG src='a.png'>") (q + 1)
            (wstr "img") true = true /\
          @read_attribute c_platform (wstr "<img alt=x><IMG src='a.png'>") q (wstr "src")
            false true = Some (src, len)
    | None => len = 0
    end.
Proof.
  apply (html_image_parse_next c_platform (wstr "<img alt=x><IMG src='a.png'>") 0 28). lia.
Defined.

(** ** The names taken from a url *)

Section UrlNames.
Context {P : Platform}.

Lemma c_str_of_spec (l : wstring) :
  Forall (fun c => c <> 0) (c_str_of l) /\
  c_str_of l = firstn (length (c_str_of l)) l /\
  nth (length (c_str_of l)) l 0 = 0.
Proof.
  induction l as [|x l (IH1 & IH2 & IH3)]; cbn [c_str_of].
  - repeat split. constructor.
  - destruct (Z.eqb_spec x 0) as [E|N].
    + split; [constructor|]. split; [reflexivity|exact E].
    + cbn [length firstn nth]. split; [constructor; assumption|].
      split; [f_equal; exact IH2|exact IH3].
Qed.

Lemma c_str_of_length (l : wstring) : (length (c_str_of l) <= length l)%nat.
Proof.
  induction l as [|x l IH]; cbn [c_str_of]; [lia|].
  destruct (x =? 0); cbn [length]; lia.
Qed.

Lemma strcspn_pointer_scan_none (l : wstring) (p : Z) (reject : wstring) :
  strcspn_pointer_scan l p reject = None ->
  Forall (fun c => in_set c reject = false) (c_str_of l).
Proof.
  revert p. induction l as [|x l IH]; intros p H; cbn [c_str_of]; [constructor|].
  cbn [strcspn_pointer_scan] in H.
  destruct (x =? 0); [constructor|].
  destruct (in_set x reject) eqn:E; [discriminate|].
  constructor; [exact E|]. eapply IH. exact H.
Qed.

Lemma strcspn_pointer_scan_at (l : wstring) (p : Z) (reject : wstring) (e : Z) :
  strcspn_pointer_scan l p reject = Some e ->
  (Z.to_nat (e - p) < length l)%nat /\ in_set (nth (Z.to_nat (e - p)) l 0) reject = true.
Proof.
  revert p. induction l as [|x l IH]; intros p H; cbn [strcspn_pointer_scan] in H;
    [discriminate|].
  destruct (x =? 0); [discriminate|].
  destruct (in_set x reject) eqn:E.
  - injection H as <-. rewrite Z.sub_diag. cbn. split; [lia|exact E].
  - pose proof (strcspn_pointer_scan_ge _ _ _ _ H) as Hge.
    apply IH in H. destruct H as [H1 H2].
    replace (Z.to_nat (e - p)) with (S (Z.to_nat (e - (p + 1)))) by lia.
    cbn [length nth]. split; [lia|exact H2].
Qed.

Lemma wcschr_scan_none_c_str (l : wstring) (p : Z) (ch : wchar_t) :
  wcschr_scan l p ch = None -> Forall (fun c => c <> ch) (c_str_of l).
Proof.
  revert p. induction l as [|x l IH]; intros p H; cbn [c_str_of]; [constructor|].
  cbn [wcschr_scan] in H.
  destruct (x =? 0); [constructor|].
  destruct (Z.eqb_spec x ch) as [|N]; [discriminate|].
  constructor; [exact N|]. eapply IH. exact H.
Qed.

Lemma from_length_le (buf : wstring) (p : Z) : (length (from buf p) <= length buf)%nat.
Proof. unfold from. rewrite length_skipn. lia. Qed.

(** What [assign(start)] takes: the text up to the terminator. *)
Lemma assigned_to_end (url : wstring) (s : Z) :
  0 <= s ->
  let name := c_str_of (from url s) in
  wsub url s (wlen name) = name /\ char_at url (s + wlen name) = 0.
Proof.
  intros Hs name. subst name.
  destruct (c_str_of_spec (from url s)) as (_ & H2 & H3).
  pose proof (c_str_of_length (from url s)) as Hlen.
  pose proof (from_length_le url s) as Hle.
  split.
  - unfold wsub, wlen. rewrite Z.min_l by lia. rewrite Nat2Z.id. symmetry. exact H2.
  - unfold wlen. rewrite (char_at_in_from url s (from url s)) by (try reflexivity; lia).
    exact H3.
Qed.

(** What [assign(start, e - start)] takes when [e] lies in the text. *)
Lemma assigned_up_to (url : wstring) (s e : Z) :
  0 <= s -> s <= e -> (Z.to_nat (e - s) < length (from url s))%nat ->
  let name := wsub url s (e - s) in
  name = firstn (Z.to_nat (e - s)) (from url s) /\ wlen name = e - s /\
  wsub url s (wlen name) = name.
Proof.
  intros Hs He Hin name. subst name.
  pose proof (from_length_le url s) as Hle.
  assert (E : wsub url s (e - s) = firstn (Z.to_nat (e - s)) (from url s)).
  { unfold wsub. rewrite Z.min_l by lia. reflexivity. }
  assert (El : wlen (wsub url s (e - s)) = e - s).
  { rewrite E. unfold wlen. rewrite length_firstn. lia. }
  split; [exact E|]. split; [exact El|]. rewrite El. reflexivity.
Qed.

Lemma in_set_two (c a b : wchar_t) : in_set c [a; b] = false -> c <> a /\ c <> b.
Proof.
  cbn [in_set existsb]. intro H.
  destruct (Z.eqb_spec a c) as [|Na]; [discriminate|].
  destruct (Z.eqb_spec b c) as [|Nb]; [discriminate|].
  split; congruence.
Qed.

Lemma in_set_two_true (c a b : wchar_t) : in_set c [a; b] = true -> c = a \/ c = b.
Proof.
  cbn [in_set existsb]. intro H.
  destruct (Z.eqb_spec a c) as [|Na]; [left; congruence|].
  destruct (Z.eqb_spec b c) as [|Nb]; [right; congruence|discriminate].
Qed.

Lemma strstr_scan_found (fold : wchar_t -> wchar_t) (needle l : wstring) (p r : Z) :
  strstr_scan fold needle l p = Some r ->
  p <= r /\ starts_with fold needle (skipn (Z.to_nat (r - p)) l) = true.
Proof.
  revert p. induction l as [|x l IH]; intros p H; cbn [strstr_scan] in H.
  - destruct (starts_with fold needle []) eqn:E; [|discriminate].
    injection H as <-. rewrite Z.sub_diag. split; [lia|exact E].
  - destruct (starts_with fold needle (x :: l)) eqn:E.
    + injection H as <-. rewrite Z.sub_diag. split; [lia|exact E].
    + destruct (x =? 0); [discriminate|].
      apply IH in H. destruct H as [H1 H2]. split; [lia|].
      replace (Z.to_nat (r - p)) with (S (Z.to_nat (r - (p + 1)))) by lia.
      exact H2.
Qed.

Lemma stristr_found (buf : wstring) (s : Z) (needle : wstring) (r : Z) :
  0 <= s ->
  stristr buf s needle = Some r ->
  s <= r /\ matches_at buf r needle.
Proof.
  intros Hs H. unfold stristr in H.
  apply strstr_scan_found in H. destruct H as [H1 H2]. split; [exact H1|].
  intros j Hj. unfold wlen in Hj.
  pose proof (starts_with_chars _ _ _ H2 (Z.to_nat j) ltac:(lia)) as [Ha Hb].
  unfold from in Ha, Hb. rewrite skipn_skipn, nth_skipn in Ha, Hb.
  replace (Z.to_nat (r - s) + Z.to_nat s + Z.to_nat j)%nat with (Z.to_nat (r + j)) in Ha, Hb
    by lia.
  rewrite !char_at_nonneg by lia. split; [exact Ha|exact Hb].
Qed.

End UrlNames.

(** The top-level domain taken from a url holds no slash, no question
    mark and no terminator. When it is not empty it stands in the url
    right after a dot and runs up to the first slash or question mark,
    or to the end of the url. *)
Theorem parse_top_level_domain_from_url_cut (P : Platform) (url : wstring) :
  let tld := parse_top_level_domain_from_url url in
  Forall (fun c => c <> 0 /\ c <> wc "/" /\ c <> wc "?") tld /\
  (tld <> [] ->
   exists s, 0 < s /\ char_at url (s - 1) = wc "." /\ wsub url s (wlen tld) = tld /\
     (char_at url (s + wlen tld) = 0 \/ char_at url (s + wlen tld) = wc "/" \/
      char_at url (s + wlen tld) = wc "?")).
Proof.
  intro tld. subst tld. unfold parse_top_level_domain_from_url.
  assert (Hnil : Forall (fun c => c <> 0 /\ c <> wc "/" /\ c <> wc "?") [] /\
                 (@nil wchar_t <> [] ->
                  exists s, 0 < s /\ char_at url (s - 1) = wc "." /\
                    wsub url s (wlen (@nil wchar_t)) = [] /\
                    (char_at url (s + wlen (@nil wchar_t)) = 0 \/
                     char_at url (s + wlen (@nil wchar_t)) = wc "/" \/
                     char_at url (s + wlen (@nil wchar_t)) = wc "?")))
    by (split; [constructor|congruence]).
  destruct (hd 0 url =? 0); [exact Hnil|]. cbv zeta.
  set (start := match stristr url 0 (wstr "www.") with
                | Some start => start + wlen (wstr "www.")
                | None => 0
                end).
  assert (Hstart : 0 <= start).
  { subst start. destruct (stristr url 0 (wstr "www.")) as [w|] eqn:Ew; [|lia].
    apply stristr_range in Ew; [|lia|discriminate]. unfold wlen. lia. }
  destruct (wcschr url start (wc ".")) as [dot|] eqn:Edot; [|exact Hnil].
  pose proof (wcschr_range _ _ _ _ Hstart Edot) as Hdot.
  pose proof (wcschr_char _ _ _ _ Hstart Edot) as Hdotc.
  destruct (char_at url (dot + 1) =? 0); [exact Hnil|].
  assert (Hs : 0 <= dot + 1) by lia.
  destruct (strcspn_pointer url (dot + 1) [wc "/"; wc "?"]) as [e|] eqn:Ee.
  - unfold strcspn_pointer in Ee.
    pose proof (strcspn_pointer_scan_ge _ _ _ _ Ee) as Hge.
    pose proof (strcspn_pointer_scan_before _ _ _ _ Ee) as Hbefore.
    destruct (strcspn_pointer_scan_at _ _ _ _ Ee) as [Hin Hat].
    destruct (assigned_up_to url (dot + 1) e Hs Hge Hin) as (E & El & Ew).
    split.
    + rewrite E. eapply Forall_impl; [|exact Hbefore].
      intros c [Hc Hr]. apply in_set_two in Hr. tauto.
    + intros _. exists (dot + 1). split; [lia|].
      split; [replace (dot + 1 - 1) with dot by lia; exact Hdotc|].
      split; [exact Ew|]. rewrite El.
      replace (dot + 1 + (e - (dot + 1))) with (dot + 1 + Z.of_nat (Z.to_nat (e - (dot + 1))))
        by lia.
      rewrite (char_at_in_from url (dot + 1) (from url (dot + 1))) by (try reflexivity; lia).
      right. apply in_set_two_true. exact Hat.
  - unfold strcspn_pointer in Ee.
    destruct (assigned_to_end url (dot + 1) Hs) as [Ew Hc].
    split.
    + destruct (c_str_of_spec (from url (dot + 1))) as (Hnz & _).
      pose proof (strcspn_pointer_scan_none _ _ _ Ee) as Hnone.
      rewrite Forall_forall in *. intros c Hc'.
      specialize (Hnz c Hc'). specialize (Hnone c Hc'). apply in_set_two in Hnone. tauto.
    + intros _. exists (dot + 1). split; [lia|].
      split; [replace (dot + 1 - 1) with dot by lia; exact Hdotc|].
      split; [exact Ew|left; exact Hc].
Qed.

Lemma parse_top_level_domain_from_url_cut_witness :
  let tld := @parse_top_level_domain_from_url c_platform (wstr "http://www.a.co.uk/x?y") in
  Forall (fun c => c <> 0 /\ c <> wc "/" /\ c <> wc "?") tld /\
  (tld <> [] ->
   exists s, 0 < s /\ char_at (wstr "http://www.a.co.uk/x?y") (s - 1) = wc "." /\
     wsub (wstr "http://www.a.co.uk/x?y") s (wlen tld) = tld /\
     (char_at (wstr "http://www.a.co.uk/x?y") (s + wlen tld) = 0 \/
      char_at (wstr "http://www.a.co.uk/x?y") (s + wlen tld) = wc "/" \/
      char_at (wstr "http://www.a.co.uk/x?y") (s + wlen tld) = wc "?")).
Proof. apply (parse_top_level_domain_from_url_cut c_platform (wstr "http://www.a.co.uk/x?y")). Defined.

(** The image name taken from a url holds no ampersand and no
    terminator. When it is not empty it stands in the url right after an
    [image=] (in any case) that follows the first question mark, and
    runs up to the next ampersand or to the end of the url. *)
Theorem parse_image_name_from_url_cut (P : Platform) (url : wstring) :
  let name := parse_image_name_from_url url in
  Forall (fun c => c <> 0 /\ c <> wc "&") name /\
  (name <> [] ->
   exists q s, 0 <= q /\ char_at url q = wc "?" /\ q <= s - 6 /\
     matches_at url (s - 6) (wstr "image=") /\ wsub url s (wlen name) = name /\
     (char_at url (s + wlen name) = 0 \/ char_at url (s + wlen name) = wc "&")).
Proof.
  intro name. subst name. unfold parse_image_name_from_url.
  assert (Hnil : Forall (fun c => c <> 0 /\ c <> wc "&") [] /\
                 (@nil wchar_t <> [] ->
                  exists q s, 0 <= q /\ char_at url q = wc "?" /\ q <= s - 6 /\
                    matches_at url (s - 6) (wstr "image=") /\
                    wsub url s (wlen (@nil wchar_t)) = [] /\
                    (char_at url (s + wlen (@nil wchar_t)) = 0 \/
                     char_at url (s + wlen (@nil wchar_t)) = wc "&")))
    by (split; [constructor|congruence]).
  destruct (hd 0 url =? 0); [exact Hnil|].
  destruct (wcschr url 0 (wc "?")) as [q|] eqn:Eq; [|exact Hnil].
  pose proof (wcschr_range _ _ _ _ (Z.le_refl 0) Eq) as Hq.
  pose proof (wcschr_char _ _ _ _ (Z.le_refl 0) Eq) as Hqc.
  destruct (stristr url q (wstr "image=")) as [i|] eqn:Ei; [|exact Hnil].
  destruct (stristr_found _ _ _ _ (proj1 Hq) Ei) as [Hi Hm]. cbv zeta.
  assert (Hs : 0 <= i + 6) by lia.
  destruct (wcschr url (i + 6) (wc "&")) as [e|] eqn:Ee.
  - pose proof (wcschr_first _ _ _ _ Hs Ee) as Hfirst.
    pose proof (wcschr_char _ _ _ _ Hs Ee) as Hec.
    unfold wcschr in Ee. destruct (wcschr_scan_range _ _ _ _ Ee) as [Hge Hin].
    destruct (assigned_up_to url (i + 6) e Hs Hge Hin) as (E & El & Ew).
    split.
    + rewrite E. apply Forall_forall. intros c Hc.
      apply (In_nth _ _ 0) in Hc. destruct Hc as (k & Hk & <-).
      rewrite length_firstn in Hk. rewrite nth_firstn.
      destruct (Nat.ltb_spec k (Z.to_nat (e - (i + 6)))) as [_|]; [|lia].
      rewrite <- (char_at_in_from url (i + 6) (from url (i + 6)) k) by (try reflexivity; lia).
      destruct (Hfirst (i + 6 + Z.of_nat k) ltac:(lia)) as [H1 H2]. split; assumption.
    + intros _. exists q, (i + 6). split; [lia|]. split; [exact Hqc|].
      split; [lia|]. split; [replace (i + 6 - 6) with i by lia; exact Hm|].
      split; [exact Ew|]. rewrite El. right.
      replace (i + 6 + (e - (i + 6))) with e by lia. exact Hec.
  - unfold wcschr in Ee.
    destruct (assigned_to_end url (i + 6) Hs) as [Ew Hc].
    split.
    + destruct (c_str_of_spec (from url (i + 6))) as (Hnz & _).
      pose proof (wcschr_scan_none_c_str _ _ _ Ee) as Hnone.
      rewrite Forall_forall in *. intros c Hc'. split; [apply Hnz|apply Hnone]; exact Hc'.
    + intros _. exists q, (i + 6). split; [lia|]. split; [exact Hqc|].
      split; [lia|]. split; [replace (i + 6 - 6) with i by lia; exact Hm|].
      split; [exact Ew|left; exact Hc].
Qed.

Lemma parse_image_name_from_url_cut_witness :
  let name := @parse_image_name_from_url c_platform (wstr "view.php?id=1&Image=a.png&s=2") in
  Forall (fun c => c <> 0 /\ c <> wc "&") name /\
  (name <> [] ->
   exists q s, 0 <= q /\ char_at (wstr "view.php?id=1&Image=a.png&s=2") q = wc "?" /\
     q <= s - 6 /\
     @matches_at c_platform (wstr "view.php?id=1&Image=a.png&s=2") (s - 6) (wstr "image=") /\
     wsub (wstr "view.php?id=1&Image=a.png&s=2") s (wlen name) = name /\
     (char_at (wstr "view.php?id=1&Image=a.png&s=2") (s + wlen name) = 0 \/
      char_at (wstr "view.php?id=1&Image=a.png&s=2") (s + wlen name) = wc "&")).
Proof. apply (parse_image_name_from_url_cut c_platform (wstr "view.php?id=1&Image=a.png&s=2")). Defined.
